(* ===== verification/_CoqProject ===== *)
-Q . S2P
Prelude.v
GoStrings.v
GoTime.v
GoOS.v
GoCrypto.v
GoJson.v
Terminal.v
TerminalFacts.v
Console.v
ConsoleFacts.v
ConsoleTerm.v
Procfs.v
ProcfsFacts.v
GoNet.v
Ioc.v
IocFacts.v
Event.v
Expr.v
ExprFacts.v
ExprPrint.v
ExprTypes.v
ExprProps.v
Rules.v
RulesFacts.v
Sigma.v
SigmaFacts.v
Killchain.v
Taxonomy.v
Correlation.v
CorrelationFacts.v
GoRegexp.v
GoRegexpFacts.v
Container.v
Baseline.v
Gate.v
Sensor.v
Limiter.v
Spool.v
Config.v
Export.v
ExportFacts.v
Detect.v
Privesc.v
PrivescFacts.v
Live.v
Persistence.v
PersistenceFacts.v
Fimextra.v
FimextraFacts.v
GoMd5.v
Integrity.v
IntegrityFacts.v
Network.v
ProcScans.v
ProcScansFacts.v
WebAnalysis.v
Web.v
WebFacts.v
Watch.v
WatchFacts.v
Reports.v
ReportsFacts.v
Scores.v
Quarantine.v
Respond.v
RespondFacts.v
Runner.v
RunnerFacts.v
Yara.v
Delivery.v
Agent.v
AgentFacts.v
Sources.v
SourcesFacts.v
Loops.v
LoopsFacts.v
Commands.v
