(* ===== verification/Prelude.v ===== *)
(** * GhostCatcher EDR: a verification library

    GhostCatcher is a Linux endpoint agent.  Sensors and periodic detectors
    produce events ([src/internal/event]); every event goes through one pipeline
    (orient, decide, act, emit: [src/internal/runner]) that may enrich it, raise
    its confidence, correlate it with earlier ones, act on the host
    ([src/internal/respond]) and write it out.  This library is a shallow
    embedding of that program in Rocq with the theorems that make it correct.

    ** How the program is modelled

    Go's [int] and [int64] are [Z] with the wrap-around written out ([wrap64]);
    strings are byte strings; maps are [gmap]s; errors are the [result] type of
    this file; records keep the fields of the Go structs with a prefix.
    Functions that mutate a receiver take it and return it.  The clock is an
    argument: a method that reads it several times takes several readings.
    What the host answers is given by small type classes ([GoOS.v]): reading a
    file, a directory or a link, a status, a walk, the output of a program.
    Where Go ranges over a map, the order is a parameter and the theorems hold
    for every permutation.  Libraries outside the repository (YAML, JSON,
    Ed25519, the SSH key parser) are parameters with the documented laws as
    hypotheses of the few theorems that need them.  The Go standard library is
    defined, down to SHA-256, MD5, base64 and the regular expressions.

    ** Files

    - Standard library: [GoStrings] (strings, strconv, filepath, time),
      [GoOS], [GoCrypto] (SHA-256, hex, base64), [GoMd5], [GoNet] (addresses and
      blocks), [GoRegexp] (RE2 syntax and a leftmost-first matcher;
      [GoRegexpFacts] proves it against a declarative meaning), [GoTime] (dates),
      [GoJson] (encoding, quoting).
    - Host: [Procfs] and [ProcfsFacts] (internal/procfs); [Container]
      (internal/container, internal/anchor); [Sensor] (internal/sensor: the audit
      records, back-pressure, the debouncer) and [Sources], [SourcesFacts] (the
      loops of the eBPF, auditd and /proc backends).
    - Rules: [Expr] with [ExprFacts], [ExprPrint], [ExprTypes], [ExprProps]
      (internal/rules/expr.go); [Rules], [RulesFacts] (pack, engine, verify);
      [Sigma], [SigmaFacts] (sigma_lite.go).
    - Knowledge: [Event], [Killchain], [Taxonomy], [Ioc] with [IocFacts],
      [Baseline] (internal/baseline), [Config] (internal/config).
    - Live detectors: [Privesc], [PrivescFacts] (internal/detect/privesc); [Live]
      (sensorlive, credential, containeresc, defense, and the live routes of web
      and copyfail).
    - Scanning detectors: [Detect] holds what they share; [Persistence],
      [PersistenceFacts] (internal/detect/persistence); [Fimextra],
      [FimextraFacts] (fimextra); [Integrity], [IntegrityFacts] (integrity);
      [Network] (network); [ProcScans], [ProcScansFacts] (memorymaps, ancestry,
      ldpreload, the page-cache test of copyfail); [WebAnalysis] (the content
      analysis and the PHP taint flow of web), [Web] (its scans), [WebFacts];
      [Yara] (yara, with libyara as a parameter).
    - Pipeline: [Correlation], [CorrelationFacts] (correlation.go); [Gate], the
      windowed table behind debouncing and deduplication; [Limiter], [Spool]
      (internal/emit); [Quarantine] (internal/quarantine, internal/selfguard);
      [Respond], [RespondFacts] (internal/respond); [Runner], [RunnerFacts]
      (runner.go), which compose all of them as [processEvent], the scans and
      the sensor loop do.
    - Around it: [Watch], [WatchFacts] (internal/watch: the notifications that
      start a scan early); [Export], [ExportFacts] (internal/export: the syslog,
      Splunk, Elasticsearch and Loki clients, against what a collector reads);
      [Delivery] (an emission through the runner, the clients and the spool);
      [Loops], [LoopsFacts] (the goroutines, tickers and main loop of runner.go).
    - The agent: [Agent], [AgentFacts] (cmd/agent/main.go): the detectors of a
      scan with the state that the network scan keeps between scans, start-up
      with its checks, and [baseline commit]; [Commands] (the command line and
      its exit status); [Reports], [ReportsFacts] (internal/attack,
      internal/eval, internal/budget) and [Scores] (the scores of an evaluation).
    - The demonstration console (cmd/demo-console): [Terminal], [TerminalFacts]
      (the terminal hub and its subscribers), [Console], [ConsoleFacts] (the
      steps, the evidence read from Elasticsearch, the engine), [ConsoleTerm] (what
      a run shows on the terminal).

    ** What the theorems show

    - The pipeline: the host is touched only for live events that passed every
      gate; what is not an alert is always written; an alert is written exactly
      when its key is outside the window and its rule within its rate, and is
      not repeated within the window; a full scan is all or nothing; scans
      exclude each other in every interleaving.
    - Responses: gates, protected processes, rate, order of the firewall rules.
    - The agent: a commit writes only with leave, a committed host that does not
      change is quiet, with a key configured only signed rules run, and the main
      loop survives exactly a positive scan interval.
    - Delivery: each destination of an emitted event either took it, as the
      network's log shows, or the line is in the spool; and nothing leaves the
      spool again.
    - Sources and sinks: tailing the audit log reports every complete record;
      the eBPF backend's placeholders match no live route; a stream of the TCP
      syslog client always decodes to what was sent, whatever fails, and a UDP
      packet parses back; a watched path is scanned at the end of each quiet
      period and only then.
    - The console: one step runs at a time in every interleaving, a detected
      step had new alerts, and a subscriber of the terminal sees each line at
      most once.
    - Detectors: the file scanners, the set-id inventory, dpkg verification, the
      extra rules, reverse shells and new listeners are exact, in both
      directions and over the history of scans; the PHP taint flow is sound and
      finds every direct flow; a web-shell alert always has its reasons.
    - Rules: the expression compiler is total and loses nothing it can print;
      typed expressions evaluate without error; generated Sigma expressions mean
      what the selection says.
    - State: the limiter, the debouncer, the correlator's ring, the credential
      tracker and the baseline cache agree with reference definitions over the
      history of calls, and stay within their bounds.
    - Readers and stores: [/proc] parsers recover what the kernel printed; feeds
      answer for the lines that were loaded; baseline, spool and vault keep what
      they were given across the failures of the disk.
    - Places where the program does not do what it says are stated as theorems
      too (for example [failed_rotation_wedges], [protected_pid_bypass],
      [base64_cron_evades], [taint_evasions], [dropin_override_dead],
      [suid_writable_dead], [multiarch_unverified], [key_without_signature]).

    ** Fuel

    The tokenizer, the parser of expressions, the PHP lexer, the
    regular-expression parser and the text parsers of [GoNet] recurse on fuel
    taken from the length of their input; [CompileExpr_total],
    [tokenizePHP_total] and [match_re_iff] show that it suffices.  The walks of
    the process tree are bounded as in the code.

    ** Not modelled

    Logging; flag parsing and signals; the file of [WriteNavigatorLayer]; TLS
    settings, timeouts and deadlines of the network clients; the SSH session and
    the HTTP server of the console.  cilium/ebpf, libyara, fsnotify and the network are
    parameters or inputs.  The goroutines of the agent are modelled one by one,
    as loops over their turns; that they exclude each other where they must is
    [scans_exclusive].
*)
From stdpp Require Export base tactics list gmap strings numbers option.
From Stdlib Require Export Ascii ZArith Lia.
From Stdlib Require String.
#[global] Set Default Proof Using "Type".
#[export] Set Default Goal Selector "!".
Open Scope string_scope.
Open Scope list_scope.
Open Scope Z_scope.

Notation "x =s? y" := (String.eqb x y) (at level 70, no associativity).

(** * Machine integers

    Go's [int] and [int64] are 64-bit two's complement words.  They are kept
    as [Z] with the wrap-around written out. *)

Definition int64_min : Z := - 2 ^ 63.
Definition int64_max : Z := 2 ^ 63 - 1.

Definition wrap64 (z : Z) : Z := (z + 2 ^ 63) mod 2 ^ 64 - 2 ^ 63.

Definition in64 (z : Z) : Prop := int64_min ≤ z ≤ int64_max.

#[export] Instance in64_dec z : Decision (in64 z).
Proof. unfold in64. apply _. Defined.

Definition clamp64 (z : Z) : Z := Z.max int64_min (Z.min int64_max z).

Definition wrapu (bits : Z) (z : Z) : Z := z mod 2 ^ bits.

Lemma wrap64_id z : in64 z → wrap64 z = z.
Proof.
  unfold in64, wrap64, int64_min, int64_max. intros H.
  rewrite Z.mod_small; lia.
Qed.

Lemma wrap64_in64 z : in64 (wrap64 z).
Proof.
  unfold in64, wrap64, int64_min, int64_max.
  pose proof (Z.mod_pos_bound (z + 2 ^ 63) (2 ^ 64)). lia.
Qed.

Lemma clamp64_in64 z : in64 (clamp64 z).
Proof. unfold in64, clamp64, int64_min, int64_max. lia. Qed.

Lemma clamp64_id z : in64 z → clamp64 z = z.
Proof. unfold in64, clamp64. lia. Qed.

(** * Time

    [time.Time] is the number of nanoseconds since Go's zero time, so that
    [IsZero] is [=? 0]; [time.Duration] is an int64 count of nanoseconds.
    [Sub] saturates, as the Go documentation states. *)

Abbreviation Time := Z (only parsing).
Abbreviation Duration := Z (only parsing).

Definition time_is_zero (t : Time) : bool := t =? 0.
Definition time_sub (a b : Time) : Duration := clamp64 (a - b).
Definition time_add (a : Time) (d : Duration) : Time := a + d.
Definition time_after (a b : Time) : bool := b <? a.
Definition time_before (a b : Time) : bool := a <? b.

Definition nanosecond : Duration := 1.
Definition millisecond : Duration := 1000000.
Definition second : Duration := 1000000000.
Definition minute : Duration := 60 * second.
Definition hour : Duration := 3600 * second.

(** [d.Milliseconds()] truncates towards zero. *)
Definition dur_milliseconds (d : Duration) : Z := Z.quot d millisecond.

(** * Results

    Go's [(T, error)] pairs; the error text is kept, because some of it is
    stored in events. *)

Inductive result (A : Type) : Type :=
| Ok (a : A)
| Err (msg : string).
Arguments Ok {A} a.
Arguments Err {A} msg.

Definition rbind {A B} (m : result A) (k : A → result B) : result B :=
  match m with Ok a => k a | Err e => Err e end.

Declare Scope go_scope.
Delimit Scope go_scope with go.
Notation "'let?' x := m 'in' k" := (rbind m (fun x => k))
  (at level 10, x pattern, m at level 200, k at level 200) : go_scope.
Open Scope go_scope.

Definition is_ok {A} (m : result A) : bool :=
  match m with Ok _ => true | Err _ => false end.

Definition ok_or {A} (d : A) (m : result A) : A :=
  match m with Ok a => a | Err _ => d end.

Lemma rbind_Ok {A B} (m : result A) (k : A → result B) b :
  rbind m k = Ok b ↔ ∃ a, m = Ok a ∧ k a = Ok b.
Proof. destruct m as [x|e]; simpl; [split; [eauto|by intros (? & [= ->] & ?)]|split; [done|by intros (? & ? & _)]]. Qed.

Lemma Ok_inj {A} (a b : A) : Ok a = Ok b → a = b.
Proof. by intros [= ->]. Qed.

(** * Record update

    [r <| f := v |>] replaces field [f]; the setter is found by abstracting
    the projection in the record's eta-expansion. *)

Class Eta (R : Type) := eta : R → R.
Class Setter {R T : Type} (proj : R → T) := upd : (T → T) → R → R.

Ltac head_of t := lazymatch t with ?f _ => head_of f | _ => t end.

Ltac solve_setter :=
  match goal with
  | |- @Setter ?R ?T ?proj =>
      let inst := constr:(_ : Eta R) in
      let e := eval unfold eta in (@eta R inst) in
      let e := (let h := head_of e in eval unfold h in e) in
      let p := eval pattern proj in e in
      match p with
      | ?g _ => exact (fun f : T → T => g (fun r => f (proj r)))
      end
  end.

#[export] Hint Extern 0 (Setter _) => solve_setter : typeclass_instances.

Notation "r <| f := v |>" := (@upd _ _ f _ (fun _ => v) r)
  (at level 1, f at next level, v at level 200, left associativity,
   format "r  <| f  :=  v |>") : go_scope.


(** * Lists *)

(** [existsb] as a quantified statement, given what the test means. *)
Lemma existsb_elem {A} (p : A → bool) (P : A → Prop) l :
  (∀ a, p a = true ↔ P a) → existsb p l = true ↔ ∃ a, a ∈ l ∧ P a.
Proof.
  intros Hp. rewrite existsb_exists. split; intros (a & Hin & Ha); exists a;
    rewrite ?list_elem_of_In in *; by rewrite ?Hp, <-?Hp in *.
Qed.

Lemma forallb_Forall {A} (p : A → bool) (P : A → Prop) l :
  (∀ a, p a = true ↔ P a) → forallb p l = true ↔ Forall P l.
Proof.
  intros Hp. induction l as [|a l IH]; simpl; [by split|].
  rewrite andb_true_iff, IH, Hp. split; [intros []; by constructor|].
  intros H. by inversion_clear H.
Qed.

Lemma combine_snoc {A B} (l : list A) (k : list B) a b :
  length l = length k → combine (l ++ [a]) (k ++ [b]) = combine l k ++ [(a, b)].
Proof. revert k. induction l as [|x l IH]; intros [|y k] H; try done. cbn. by rewrite IH by (cbn in H; lia). Qed.
Lemma elem_of_concat {A} (x : A) ls : x ∈ concat ls ↔ ∃ l, l ∈ ls ∧ x ∈ l.
Proof. rewrite list_elem_of_In, in_concat. by setoid_rewrite list_elem_of_In. Qed.

Lemma elem_of_map' {A B} (f : A → B) l y : y ∈ map f l ↔ ∃ x, y = f x ∧ x ∈ l.
Proof. apply list_elem_of_fmap. Qed.

Lemma omap_nil {A B} (f : A → option B) l : (∀ x, x ∈ l → f x = None) → omap f l = [].
Proof.
  induction l as [|x l IH]; intros Hf; [done|]. cbn. rewrite Hf by left. apply IH. intros y Hy. apply Hf. by right.
Qed.

Lemma filter_none {A} (f : A → bool) l : (∀ x, x ∈ l → f x = false) → List.filter f l = [].
Proof.
  induction l as [|x l IH]; intros Hf; [done|]. cbn. rewrite Hf by left. apply IH. intros y Hy. apply Hf. by right.
Qed.

Lemma omap_filter {A B} (b : A → bool) (f : A → option B) l :
  omap (λ x, if negb (b x) then None else f x) l = omap f (List.filter b l).
Proof. induction l as [|x l IH]; [done|]. cbn. destruct (b x); cbn; by rewrite IH. Qed.

