(* ===== verification/GoStrings.v ===== *)
(** The parts of Go's [strings], [strconv], [path/filepath] and [time]
    packages that the agent calls, on byte strings.

    A Go string is a [string] of 8-bit characters.  Case mapping and white
    space are those of ASCII: letters outside ASCII are left unchanged. *)
From S2P Require Export Prelude.

(** * Characters *)

Definition code (c : ascii) : Z := Z.of_N (N_of_ascii c).
Definition chr (z : Z) : ascii := ascii_of_N (Z.to_N z).

Definition nl : ascii := "010".
Definition tab : ascii := "009".
Definition dquote : ascii := "034".
Definition backslash : ascii := "092".
Definition squote : ascii := "039".

Definition in_range (lo hi : Z) (c : ascii) : bool := (lo <=? code c) && (code c <=? hi).

Definition is_digit : ascii → bool := in_range 48 57.
Definition is_upper : ascii → bool := in_range 65 90.
Definition is_lower : ascii → bool := in_range 97 122.
Definition is_letter (c : ascii) : bool := is_upper c || is_lower c.
Definition is_space (c : ascii) : bool := in_range 9 13 c || (code c =? 32).

Definition lower_char (c : ascii) : ascii := if is_upper c then chr (code c + 32) else c.
Definition upper_char (c : ascii) : ascii := if is_lower c then chr (code c - 32) else c.

(** * Strings *)

Definition str (c : ascii) : string := String c "".

Definition slen (s : string) : Z := Z.of_nat (String.length s).

Fixpoint smap (f : ascii → ascii) (s : string) : string :=
  match s with "" => "" | String c r => String (f c) (smap f r) end.

Fixpoint sfilter (p : ascii → bool) (s : string) : string :=
  match s with
  | "" => ""
  | String c r => if p c then String c (sfilter p r) else sfilter p r
  end.

Fixpoint sexists (p : ascii → bool) (s : string) : bool :=
  match s with "" => false | String c r => p c || sexists p r end.

Fixpoint sforall (p : ascii → bool) (s : string) : bool :=
  match s with "" => true | String c r => p c && sforall p r end.

Fixpoint scount (p : ascii → bool) (s : string) : Z :=
  match s with "" => 0 | String c r => (if p c then 1 else 0) + scount p r end.

Definition to_lower : string → string := smap lower_char.
Definition to_upper : string → string := smap upper_char.
Definition equal_fold (a b : string) : bool := to_lower a =s? to_lower b.

Definition has_prefix (s p : string) : bool := String.prefix p s.

Fixpoint sdrop (n : nat) (s : string) : string :=
  match n, s with
  | S n', String _ r => sdrop n' r
  | _, _ => s
  end.

Fixpoint stake (n : nat) (s : string) : string :=
  match n, s with
  | S n', String c r => String c (stake n' r)
  | _, _ => ""
  end.

(** [s[i:j]] for [0 <= i <= j <= len(s)]. *)
Definition sslice (i j : nat) (s : string) : string := stake (j - i) (sdrop i s).

Definition trim_prefix (s p : string) : string :=
  if has_prefix s p then sdrop (String.length p) s else s.

Definition has_suffix (s p : string) : bool :=
  (String.length p <=? String.length s)%nat &&
  (sdrop (String.length s - String.length p) s =s? p).

Definition trim_suffix (s p : string) : string :=
  if has_suffix s p then stake (String.length s - String.length p) s else s.

(** [strings.Index]: the offset of the first occurrence. *)
Fixpoint sindex (s p : string) : option nat :=
  if has_prefix s p then Some O
  else match s with "" => None | String _ r => S <$> sindex r p end.

Fixpoint contains (s p : string) : bool :=
  has_prefix s p || match s with "" => false | String _ r => contains r p end.

(** [strings.IndexByte] and [strings.LastIndexByte]. *)
Fixpoint index_byte (s : string) (b : ascii) : option nat :=
  match s with
  | "" => None
  | String c r => if Ascii.eqb c b then Some O else S <$> index_byte r b
  end.

Fixpoint last_index_byte (s : string) (b : ascii) : option nat :=
  match s with
  | "" => None
  | String c r =>
      match last_index_byte r b with
      | Some i => Some (S i)
      | None => if Ascii.eqb c b then Some O else None
      end
  end.

Definition contains_any (s chars : string) : bool :=
  sexists (λ c, sexists (Ascii.eqb c) chars) s.

Fixpoint trim_left (p : ascii → bool) (s : string) : string :=
  match s with
  | "" => ""
  | String c r => if p c then trim_left p r else s
  end.

Fixpoint trim_right (p : ascii → bool) (s : string) : string :=
  match s with
  | "" => ""
  | String c r =>
      match trim_right p r with
      | "" => if p c then "" else str c
      | r' => String c r'
      end
  end.

Definition trim (p : ascii → bool) (s : string) : string := trim_right p (trim_left p s).
Definition trim_space : string → string := trim is_space.

(** [strings.Split] by a one-byte separator; never the empty list. *)
Fixpoint split (sep : ascii) (s : string) : list string :=
  match s with
  | "" => [""]
  | String c r =>
      if Ascii.eqb c sep then "" :: split sep r
      else match split sep r with
           | w :: ws => String c w :: ws
           | [] => [str c]
           end
  end.

Fixpoint sjoin (sep : string) (l : list string) : string :=
  match l with
  | [] => ""
  | [x] => x
  | x :: r => x +:+ sep +:+ sjoin sep r
  end.

(** [strings.Fields]: maximal runs of non-space bytes. *)
Fixpoint fields_go (s : string) (acc : string) : list string :=
  match s with
  | "" => if acc =s? "" then [] else [acc]
  | String c r =>
      if is_space c then (if acc =s? "" then fields_go r "" else acc :: fields_go r "")
      else fields_go r (acc +:+ str c)
  end.
Definition fields (s : string) : list string := fields_go s "".

(** [strings.ReplaceAll] of a one-byte pattern. *)
Fixpoint replace_byte (b : ascii) (by_ : string) (s : string) : string :=
  match s with
  | "" => ""
  | String c r => (if Ascii.eqb c b then by_ else str c) +:+ replace_byte b by_ r
  end.

(** [strings.ReplaceAll] for a non-empty [old]; [skip] bytes of an occurrence
    are still to be passed over. *)
Fixpoint replace_str_go (skip : nat) (old new s : string) : string :=
  match s with
  | "" => ""
  | String c r =>
      match skip with
      | S k => replace_str_go k old new r
      | O => if has_prefix s old then new +:+ replace_str_go (String.length old - 1) old new r
             else String c (replace_str_go O old new r)
      end
  end.

Definition replace_str (old new s : string) : string := replace_str_go O old new s.

(** The longest prefix of bytes satisfying [p], and the rest. *)
Fixpoint span (p : ascii → bool) (s : string) : string * string :=
  match s with
  | "" => ("", "")
  | String c r => if p c then let '(a, b) := span p r in (String c a, b) else ("", s)
  end.

Definition mem_str (x : string) (l : list string) : bool := existsb (String.eqb x) l.

(** * Numbers *)

Definition digit_char (d : Z) : ascii :=
  if d <? 10 then chr (48 + d) else chr (87 + d).

(** Digits of [n] in [base], most significant first. *)
Fixpoint utoa_go (fuel : nat) (base n : Z) (acc : string) : string :=
  match fuel with
  | O => acc
  | S f =>
      let acc' := String (digit_char (n mod base)) acc in
      if n / base =? 0 then acc' else utoa_go f base (n / base) acc'
  end%Z.

Definition utoa (base n : Z) : string := utoa_go (S (Z.to_nat (Z.log2 n))) base n "".

Definition itoa (n : Z) : string :=
  if (n <? 0)%Z then String "-" (utoa 10 (- n)) else utoa 10 n.

Definition digit_val (c : ascii) : option Z :=
  if is_digit c then Some (code c - 48)
  else if is_lower c then Some (code c - 87)
  else if is_upper c then Some (code c - 55)
  else None.

Fixpoint digits_val (base : Z) (s : string) (acc : Z) : option Z :=
  match s with
  | "" => Some acc
  | String c r =>
      match digit_val c with
      | Some d => if (d <? base)%Z then digits_val base r (acc * base + d) else None
      | None => None
      end
  end.

(** [strconv.ParseUint] and [strconv.ParseInt]: the value and whether the
    error is nil.  A syntax error gives 0, a range error the nearest bound. *)
Definition parse_uint (base bits : Z) (s : string) : Z * bool :=
  if s =s? "" then (0, false)
  else match digits_val base s 0 with
       | None => (0, false)
       | Some v => if (v <? 2 ^ bits)%Z then (v, true) else (2 ^ bits - 1, false)%Z
       end.

Definition split_sign (s : string) : bool * string :=
  match s with
  | "" => (false, "")
  | String c r =>
      if Ascii.eqb c "-" then (true, r) else if Ascii.eqb c "+" then (false, r) else (false, s)
  end.

Definition parse_int (base bits : Z) (s : string) : Z * bool :=
  let '(neg, body) := split_sign s in
  if body =s? "" then (0, false)
  else match digits_val base body 0 with
       | None => (0, false)
       | Some v =>
           let cutoff := (2 ^ (bits - 1))%Z in
           if neg then (if (cutoff <? v)%Z then (- cutoff, false)%Z else (- v, true)%Z)
           else (if (cutoff <=? v)%Z then (cutoff - 1, false)%Z else (v, true))
       end.

Definition atoi : string → Z * bool := parse_int 10 64.

(** * Paths *)

Definition slash : ascii := "/".

(** The component loop of [filepath.Clean]; [out] is reversed. *)
Fixpoint clean_go (rooted : bool) (comps out : list string) : list string :=
  match comps with
  | [] => rev out
  | c :: r =>
      if (c =s? "") || (c =s? ".") then clean_go rooted r out
      else if c =s? ".." then
        match out with
        | [] => if rooted then clean_go rooted r [] else clean_go rooted r [".."]
        | x :: out' =>
            if x =s? ".." then clean_go rooted r (".." :: out) else clean_go rooted r out'
        end
      else clean_go rooted r (c :: out)
  end.

Definition path_clean (p : string) : string :=
  let rooted := has_prefix p "/" in
  let body := sjoin "/" (clean_go rooted (split slash p) []) in
  if rooted then "/" +:+ body else if body =s? "" then "." else body.

Definition path_base (p : string) : string :=
  if p =s? "" then "."
  else let q := trim_right (Ascii.eqb slash) p in
       if q =s? "" then "/"
       else match last_index_byte q slash with
            | Some i => sdrop (S i) q
            | None => q
            end.

Definition path_dir (p : string) : string :=
  path_clean (match last_index_byte p slash with Some i => stake (S i) p | None => "" end).

Definition path_ext (p : string) : string :=
  let last := match last_index_byte p slash with Some i => sdrop (S i) p | None => p end in
  match last_index_byte last "." with Some i => sdrop i last | None => "" end.

Definition path_join (elems : list string) : string :=
  match List.filter (λ e, negb (e =s? "")) elems with
  | [] => ""
  | l => path_clean (sjoin "/" l)
  end.

Definition path_is_abs (p : string) : bool := has_prefix p "/".

(** * Durations

    [time.ParseDuration]; a fraction is scaled exactly, where Go scales it in
    floating point. *)

Definition unit_ns (u : string) : option Z :=
  if u =s? "ns" then Some 1%Z
  else if u =s? "us" then Some 1000%Z
  else if u =s? String "194" (String "181" "s") then Some 1000%Z
  else if u =s? String "206" (String "188" "s") then Some 1000%Z
  else if u =s? "ms" then Some millisecond
  else if u =s? "s" then Some second
  else if u =s? "m" then Some minute
  else if u =s? "h" then Some hour
  else None.

Fixpoint parse_duration_go (fuel : nat) (s : string) (acc : Z) : option Z :=
  match fuel with
  | O => None
  | S f =>
      if s =s? "" then Some acc
      else
        let '(ip, r1) := span is_digit s in
        let '(fp, r2) :=
          match r1 with String "." r => span is_digit r | _ => ("", r1) end in
        if (ip =s? "") && (fp =s? "") then None
        else
          let '(u, r3) := span (λ c, negb (Ascii.eqb c "." || is_digit c)) r2 in
          match unit_ns u, digits_val 10 ip 0, digits_val 10 fp 0 with
          | Some un, Some iv, Some fv =>
              let v := (iv * un + fv * un / 10 ^ slen fp)%Z in
              if (2 ^ 63 <? acc + v)%Z then None
              else parse_duration_go f r3 (acc + v)
          | _, _, _ => None
          end
  end.

Definition time_parse_duration (s : string) : option Duration :=
  let '(neg, body) := split_sign s in
  if body =s? "0" then Some 0%Z
  else if body =s? "" then None
  else match parse_duration_go (S (String.length body)) body 0 with
       | None => None
       | Some d =>
           if neg then Some (- d)%Z
           else if (int64_max <? d)%Z then None else Some d
       end.

(** * Lemmas *)

#[local] Arguments String.append : simpl nomatch.
#[global] Arguments has_prefix : simpl never.

Lemma append_nil_r s : s +:+ "" = s.
Proof. induction s; simpl; congruence. Qed.

Lemma append_assoc a b c : (a +:+ b) +:+ c = a +:+ b +:+ c.
Proof. induction a; simpl; congruence. Qed.

Lemma length_append a b : String.length (a +:+ b) = (String.length a + String.length b)%nat.
Proof. induction a; simpl; congruence. Qed.

Lemma has_prefix_app p s : has_prefix (p +:+ s) p = true.
Proof.
  unfold has_prefix. induction p as [|c p IH]; simpl; [by destruct s|].
  by destruct (ascii_dec c c).
Qed.

Lemma sdrop_app a b : sdrop (String.length a) (a +:+ b) = b.
Proof. induction a; simpl; auto. Qed.

Lemma stake_app a b : stake (String.length a) (a +:+ b) = a.
Proof. induction a as [|c a IH]; [by destruct b|]. simpl. by rewrite IH. Qed.

Lemma has_prefix_iff s p : has_prefix s p = true ↔ ∃ r, s = p +:+ r.
Proof.
  split; [|intros [r ->]; apply has_prefix_app].
  unfold has_prefix. revert s. induction p as [|c p IH]; intros s; simpl; [eauto|].
  destruct s as [|d s]; [done|]. simpl. destruct (ascii_dec c d) as [->|]; [|done].
  intros [r ->]%IH. eauto.
Qed.

Lemma contains_iff s p : contains s p = true ↔ ∃ a b, s = a +:+ p +:+ b.
Proof.
  induction s as [|c s IH]; simpl.
  - rewrite orb_false_r, has_prefix_iff. split.
    + intros [r Hr]. exists "", r. done.
    + intros (a & b & H). destruct a; [|done]. by exists b.
  - rewrite orb_true_iff, has_prefix_iff, IH. split.
    + intros [[r Hr]|(a & b & ->)]; [by exists "", r|]. by exists (String c a), b.
    + intros ([|c' a] & b & H); simpl in H; [left; by exists b|].
      right. injection H as _ ->. eauto.
Qed.

Lemma contains_app_l a s b p : contains s p = true → contains (a +:+ s +:+ b) p = true.
Proof.
  rewrite !contains_iff. intros (x & y & ->). exists (a +:+ x), (y +:+ b).
  by rewrite !append_assoc.
Qed.

Lemma mem_str_spec x l : mem_str x l = true ↔ x ∈ l.
Proof.
  unfold mem_str. rewrite existsb_exists, list_elem_of_In. split.
  - intros (y & Hy & ->%String.eqb_eq). done.
  - intros H. exists x. split; [done|apply String.eqb_refl].
Qed.

Lemma string_eqb_decide x y : (x =s? y) = bool_decide (x = y).
Proof.
  destruct (String.eqb_spec x y); [by rewrite bool_decide_true|by rewrite bool_decide_false].
Qed.

(** ** Characters and digits *)

Lemma code_chr z : 0 ≤ z < 256 → code (chr z) = z.
Proof. intros H. unfold code, chr. rewrite N_ascii_embedding; lia. Qed.

Lemma code_range c : 0 ≤ code c < 256.
Proof. unfold code. pose proof (N_ascii_bounded c). lia. Qed.

Lemma chr_code c : chr (code c) = c.
Proof. unfold code, chr. by rewrite N2Z.id, ascii_N_embedding. Qed.

Lemma code_inj c d : code c = code d → c = d.
Proof. intros H. by rewrite <-(chr_code c), H, chr_code. Qed.

Ltac solve_range :=
  unfold is_digit, is_lower, is_upper, is_space, in_range in *; lia.

Lemma digit_char_digit d : 0 ≤ d < 10 → is_digit (digit_char d) = true.
Proof.
  intros H. unfold digit_char. rewrite (proj2 (Z.ltb_lt d 10)) by lia.
  unfold is_digit, in_range. rewrite code_chr; lia.
Qed.

Lemma digit_val_char d : 0 ≤ d < 36 → digit_val (digit_char d) = Some d.
Proof.
  intros H. unfold digit_char, digit_val. destruct (Z.ltb_spec d 10).
  - unfold is_digit, in_range. rewrite code_chr by lia.
    rewrite (proj2 (andb_true_iff _ _)) by lia. f_equal; lia.
  - unfold is_digit, is_lower, in_range. rewrite code_chr by lia.
    rewrite (proj2 (andb_false_iff (48 <=? 87 + d) (87 + d <=? 57))) by lia.
    rewrite (proj2 (andb_true_iff _ _)) by lia. f_equal; lia.
Qed.

Lemma digits_val_utoa_go base f n acc :
  2 ≤ base ≤ 36 → 0 ≤ n < base ^ Z.of_nat f →
  digits_val base (utoa_go f base n acc) 0 = digits_val base acc n.
Proof.
  intros Hb. revert n acc. induction f as [|f IH]; intros n acc Hn; simpl.
  { change (base ^ Z.of_nat 0) with 1 in Hn. by replace n with 0 by lia. }
  assert (Hm : 0 ≤ n mod base < base) by (apply Z.mod_pos_bound; lia).
  assert (Hd : ∀ a, digits_val base (String (digit_char (n mod base)) acc) a
                    = digits_val base acc (a * base + n mod base)).
  { intros a. simpl. rewrite digit_val_char by lia.
    by rewrite (proj2 (Z.ltb_lt (n mod base) base)) by lia. }
  pose proof (Z.div_mod n base). destruct (Z.eqb_spec (n / base) 0).
  - rewrite Hd. f_equal. lia.
  - rewrite IH, Hd; [f_equal; lia|].
    rewrite Nat2Z.inj_succ, Z.pow_succ_r in Hn by lia. split; [apply Z.div_pos; lia|].
    apply Z.div_lt_upper_bound; lia.
Qed.

Lemma utoa_digits_go (p : ascii → bool) base f n acc :
  0 < base → (∀ d, 0 ≤ d < base → p (digit_char d) = true) →
  sforall p acc = true → sforall p (utoa_go f base n acc) = true.
Proof.
  intros Hb Hp. revert n acc. induction f as [|f IH]; intros n acc Hacc; simpl; [done|].
  assert (sforall p (String (digit_char (n mod base)) acc) = true).
  { simpl. rewrite Hp, Hacc; [done|]. apply Z.mod_pos_bound; lia. }
  case_match; auto.
Qed.

Lemma utoa_go_nonempty base f n acc : acc ≠ "" → utoa_go f base n acc ≠ "".
Proof. revert n acc. induction f as [|f IH]; intros; simpl; [done|]. case_match; auto. Qed.

Lemma utoa_nonempty base n : utoa base n ≠ "".
Proof. unfold utoa. simpl. case_match; [done|]. by apply utoa_go_nonempty. Qed.

Lemma digits_val_utoa base n :
  2 ≤ base ≤ 36 → 0 ≤ n → digits_val base (utoa base n) 0 = Some n.
Proof.
  intros Hb Hn. unfold utoa. rewrite digits_val_utoa_go; [done..|]. split; [done|].
  rewrite Nat2Z.inj_succ, Z2Nat.id by apply Z.log2_nonneg.
  apply Z.lt_le_trans with (2 ^ Z.succ (Z.log2 n)).
  - destruct (Z.eq_dec n 0) as [->|]; [simpl; lia|]. apply Z.log2_spec; lia.
  - apply Z.pow_le_mono_l. lia.
Qed.

Lemma itoa_digits n : 0 ≤ n → sforall is_digit (itoa n) = true.
Proof.
  intros Hn. unfold itoa. rewrite (proj2 (Z.ltb_ge n 0)) by lia.
  apply utoa_digits_go; [lia|intros; by apply digit_char_digit|done].
Qed.

Lemma itoa_nonempty n : itoa n ≠ "".
Proof. unfold itoa. case_match; [done|apply utoa_nonempty]. Qed.

Lemma split_sign_digits s : sforall is_digit s = true → split_sign s = (false, s).
Proof.
  destruct s as [|c r]; simpl; [done|]. intros [Hc _]%andb_true_iff.
  destruct (Ascii.eqb_spec c "-") as [->|]; [done|].
  by destruct (Ascii.eqb_spec c "+") as [->|].
Qed.

(** [strconv.Atoi] inverts [strconv.Itoa] on non-negative ints. *)
Lemma atoi_itoa n : 0 ≤ n ≤ int64_max → atoi (itoa n) = (n, true).
Proof.
  intros Hn. pose proof (itoa_digits n ltac:(lia)) as Hdig.
  pose proof (itoa_nonempty n) as Hne. unfold int64_max in Hn.
  assert (Hv : digits_val 10 (itoa n) 0 = Some n).
  { unfold itoa. rewrite (proj2 (Z.ltb_ge n 0)) by lia. apply digits_val_utoa; lia. }
  unfold atoi, parse_int. rewrite split_sign_digits by done. cbv beta iota.
  rewrite (proj2 (String.eqb_neq (itoa n) "")), Hv by done.
  by rewrite (proj2 (Z.leb_gt (2 ^ (64 - 1)) n)) by (simpl; lia).
Qed.

(** ** Spans and trimming *)

Definition starts_outside (p : ascii → bool) (s : string) : Prop :=
  match s with "" => True | String c _ => p c = false end.

Lemma span_app p w rest :
  sforall p w = true → starts_outside p rest → span p (w +:+ rest) = (w, rest).
Proof.
  intros Hw Hr. induction w as [|c w IH]; simpl in *.
  - destruct rest as [|c rest]; simpl in *; [done|]. by rewrite Hr.
  - apply andb_true_iff in Hw as [-> Hw]. by rewrite (IH Hw).
Qed.

Lemma trim_right_id p a d : p d = false → trim_right p (a +:+ str d) = a +:+ str d.
Proof.
  intros Hd. induction a as [|c a IH]; simpl; [by rewrite Hd|].
  rewrite IH. by destruct a.
Qed.

Lemma trim_left_id p s : starts_outside p s → trim_left p s = s.
Proof. destruct s; simpl; [done|]. by intros ->. Qed.

Lemma trim_id p a d :
  starts_outside p (a +:+ str d) → p d = false → trim p (a +:+ str d) = a +:+ str d.
Proof. intros Ha Hd. unfold trim. by rewrite trim_left_id, trim_right_id. Qed.

Lemma sforall_app p a b : sforall p (a +:+ b) = sforall p a && sforall p b.
Proof. induction a as [|c a IH]; simpl; [done|]. by rewrite IH, andb_assoc. Qed.

Lemma sforall_impl (p q : ascii → bool) s :
  (∀ c, p c = true → q c = true) → sforall p s = true → sforall q s = true.
Proof.
  intros Hpq. induction s as [|c s IH]; simpl; [done|].
  intros [Hc Hs]%andb_true_iff. rewrite Hpq, IH; done.
Qed.

(** Every non-empty string has a last character. *)
Lemma string_snoc s : s ≠ "" → ∃ a d, s = a +:+ str d.
Proof.
  induction s as [|c s IH]; [done|]. intros _. destruct s as [|c' s].
  - by exists "", c.
  - destruct IH as (a & d & ->); [done|]. by exists (String c a), d.
Qed.

(** A string without characters to trim is left alone. *)
Lemma trim_right_none p s : sforall (λ c, negb (p c)) s = true → trim_right p s = s.
Proof.
  induction s as [|c s IH]; [done|]. cbn. intros [Hc Hs]%andb_true_iff.
  rewrite IH by done. apply negb_true_iff in Hc. rewrite Hc. by destruct s.
Qed.

Lemma trim_none p s : sforall (λ c, negb (p c)) s = true → trim p s = s.
Proof.
  intros Hs. unfold trim. rewrite (trim_left_id p s), trim_right_none; [done|done|].
  destruct s as [|c s]; [done|]. cbn in *. apply andb_true_iff in Hs as [Hc _]. by apply negb_true_iff.
Qed.

Lemma digit_not_space c : is_digit c = true → is_space c = false.
Proof. unfold is_digit, is_space, in_range. lia. Qed.

Lemma trim_space_itoa n : 0 ≤ n → trim_space (itoa n) = itoa n.
Proof.
  intros Hn. apply trim_none. eapply sforall_impl; [|by apply itoa_digits].
  intros c Hc. by rewrite digit_not_space.
Qed.

(** ** Joined paths end in their last element *)

Definition plain_elem (c : string) : Prop :=
  sforall (λ a, negb (Ascii.eqb a slash)) c = true ∧ c ≠ "" ∧ c ≠ "." ∧ c ≠ "..".

Lemma split_plain c : sforall (λ a, negb (Ascii.eqb a slash)) c = true → split slash c = [c].
Proof.
  induction c as [|a c IH]; [done|]. cbn. intros [Ha Hc]%andb_true_iff.
  apply negb_true_iff in Ha. by rewrite Ha, IH.
Qed.

Lemma split_nonempty sep s : split sep s ≠ [].
Proof. destruct s as [|c s]; cbn; [done|]. repeat case_match; done. Qed.

Lemma split_app_sep sep x y : split sep (x +:+ String sep y) = split sep x ++ split sep y.
Proof.
  induction x as [|a x IH].
  - change ("" +:+ String sep y) with (String sep y). cbn [split]. by rewrite Ascii.eqb_refl.
  - change (String a x +:+ String sep y) with (String a (x +:+ String sep y)). cbn [split]. rewrite IH.
    destruct (Ascii.eqb a sep); [done|]. pose proof (split_nonempty sep x). by destruct (split sep x).
Qed.

Lemma clean_go_snoc rooted comps out c :
  plain_elem c → clean_go rooted (comps ++ [c]) out = clean_go rooted comps out ++ [c].
Proof.
  intros (_ & H1 & H2 & H3). revert out. induction comps as [|x comps IH]; intros out; cbn.
  - apply String.eqb_neq in H1, H2, H3. by rewrite H1, H2, H3.
  - repeat case_match; apply IH.
Qed.

Lemma sjoin_snoc sep l c : ∃ pre, sjoin sep (l ++ [c]) = pre +:+ c.
Proof.
  induction l as [|x l [pre IH]]; [by exists ""|]. cbn [app]. destruct (l ++ [c]) as [|y r] eqn:E.
  - by destruct l.
  - exists (x +:+ sep +:+ pre). change (sjoin sep (x :: y :: r)) with (x +:+ sep +:+ sjoin sep (y :: r)).
    by rewrite IH, !append_assoc.
Qed.

Lemma append_tail_eq a b c d :
  String.length c = String.length d → a +:+ c = b +:+ d → a = b ∧ c = d.
Proof.
  intros Hl. revert b. induction a as [|x a IH]; intros [|y b] H; cbn in H.
  - done.
  - exfalso. apply (f_equal String.length) in H. cbn in H. rewrite length_append in H. lia.
  - exfalso. apply (f_equal String.length) in H. cbn in H. rewrite length_append in H. lia.
  - injection H as -> H. by destruct (IH b H) as [-> ->].
Qed.

Lemma path_clean_last x c :
  plain_elem c → (∃ comps, split slash x = comps ++ [c]) → ∃ pre, path_clean x = pre +:+ c.
Proof.
  intros Hc [comps Hx]. unfold path_clean. rewrite Hx, clean_go_snoc by done.
  destruct (sjoin_snoc "/" (clean_go (has_prefix x "/") comps []) c) as [pre ->].
  destruct (has_prefix x "/"); [exists ("/" +:+ pre); by rewrite append_assoc|].
  exists pre. destruct Hc as (_ & Hne & _). destruct c as [|a c]; [done|]. by destruct pre.
Qed.

Lemma path_join_last l c : plain_elem c → ∃ pre, path_join (l ++ [c]) = pre +:+ c.
Proof.
  intros Hc. unfold path_join. rewrite List.filter_app. cbn [List.filter].
  pose proof Hc as (Hs & Hne & _). rewrite (proj2 (String.eqb_neq _ _) Hne). cbn [negb].
  set (k := List.filter _ l). assert (Hk : ∃ y r, k ++ [c] = y :: r) by (destruct k; eauto).
  destruct Hk as (y & r & Hk). rewrite Hk. rewrite <-Hk. apply path_clean_last; [done|]. clear -Hs.
  induction k as [|x k [comps IH]]; [exists []; by apply split_plain|].
  cbn [app]. destruct (k ++ [c]) as [|y r] eqn:E; [by destruct k|].
  change (sjoin "/" (x :: y :: r)) with (x +:+ String slash (sjoin "/" (y :: r))).
  rewrite split_app_sep, IH. exists (split slash x ++ comps). by rewrite app_assoc.
Qed.

Create HintDb gostr.
#[export] Hint Resolve itoa_nonempty utoa_nonempty : gostr.

(** ** Words and spans *)

Lemma span_length p s : (String.length (span p s).2 ≤ String.length s)%nat.
Proof.
  induction s as [|c r IH]; simpl; [done|]. destruct (p c); simpl; [|lia].
  destruct (span p r); simpl in *; lia.
Qed.

(** A word: not empty and without white space. *)
Definition word (s : string) : Prop := s ≠ "" ∧ sforall (λ c, negb (is_space c)) s = true.

Lemma fields_go_word w r acc :
  sforall (λ c, negb (is_space c)) w = true → fields_go (w +:+ r) acc = fields_go r (acc +:+ w).
Proof.
  revert acc. induction w as [|c w IH]; intros acc Hw; [by rewrite append_nil_r|].
  cbn [sforall] in Hw. apply andb_true_iff in Hw as [Hc%negb_true_iff Hw].
  change (String c w +:+ r) with (String c (w +:+ r)). cbn [fields_go]. by rewrite Hc, IH, append_assoc.
Qed.

Lemma fields_word w c r : word w → is_space c = true → fields (w +:+ String c r) = w :: fields r.
Proof.
  intros [Hne Hw] Hc. unfold fields. rewrite fields_go_word by done. change ("" +:+ w) with w. cbn [fields_go].
  by rewrite Hc, (proj2 (String.eqb_neq w "") Hne).
Qed.

(** ** Lines *)

(** The text before the first line feed and the rest. *)
Fixpoint cut_line (s : string) : option (string * string) :=
  match s with
  | "" => None
  | String c r => if Ascii.eqb c nl then Some ("", r)
                  else match cut_line r with Some (l, r) => Some (String c l, r) | None => None end
  end.

(** The complete lines of a text, and what follows the last line feed. *)
Fixpoint complete (s : string) : list string * string :=
  match s with
  | "" => ([], "")
  | String c r =>
      let '(ls, rest) := complete r in
      if Ascii.eqb c nl then ("" :: ls, rest)
      else match ls with l :: ls => (String c l :: ls, rest) | [] => ([], String c rest) end
  end.

Lemma split_complete s : split nl s = fst (complete s) ++ [snd (complete s)].
Proof.
  induction s as [|c s IH]; [done|]. cbn [split complete]. rewrite IH. destruct (complete s) as [ls rest]. cbn [fst snd].
  destruct (Ascii.eqb c nl); [done|]. by destruct ls.
Qed.

Lemma complete_app a b :
  complete (a +:+ b) =
    (fst (complete a) ++ fst (complete (snd (complete a) +:+ b)), snd (complete (snd (complete a) +:+ b))).
Proof.
  induction a as [|c a IH]; [change ("" +:+ b) with b; change (complete "") with (@nil string, ""); cbn [fst snd app]; change ("" +:+ b) with b; by destruct (complete b)|].
  change (String c a +:+ b) with (String c (a +:+ b)). cbn [complete]. rewrite IH.
  destruct (complete a) as [ls rest] eqn:Ha. cbn [fst snd].
  destruct (Ascii.eqb c nl) eqn:Hc; [done|]. destruct ls as [|l ls]; [|done]. cbn [app fst snd].
  change (String c rest +:+ b) with (String c (rest +:+ b)). cbn [complete]. rewrite Hc.
  destruct (complete (rest +:+ b)) as [[|l' ls'] r']; done.
Qed.

Lemma cut_line_complete s :
  match cut_line s with
  | Some (l, r) => complete s = (l :: fst (complete r), snd (complete r)) ∧ (String.length r < String.length s)%nat
  | None => complete s = ([], s)
  end.
Proof.
  induction s as [|c s IH]; [done|]. cbn [cut_line complete]. destruct (Ascii.eqb c nl).
  - destruct (complete s). cbn. split; [done|lia].
  - destruct (cut_line s) as [[l r]|]; [|by rewrite IH]. destruct IH as [-> Hr]. cbn. split; [done|lia].
Qed.

Lemma complete_rest s : complete (snd (complete s)) = ([], snd (complete s)).
Proof.
  induction s as [|c s IH]; [done|]. cbn [complete]. destruct (complete s) as [ls rest] eqn:Hs. cbn [snd] in *.
  destruct (Ascii.eqb c nl) eqn:Hc; [done|]. destruct ls as [|l ls]; [|done]. cbn [snd complete]. by rewrite IH, Hc.
Qed.
