(* ===== verification/GoTime.v ===== *)
(** What the program uses of [time.Time.Format] and [UnixNano]: the civil date
    of an instant in the proleptic Gregorian calendar, and the three layouts of
    the syslog clients.  [civil_days] shows that the date determines the day. *)
From S2P Require Export GoStrings.

Module GoTime.

(** Days before the first of January of year [y], counted from the first of
    January of year 1. *)
Definition days_before_year (y : Z) : Z :=
  365 * (y - 1) + (y - 1) / 4 - (y - 1) / 100 + (y - 1) / 400.

Definition is_leap (y : Z) : bool := (y mod 4 =? 0) && (negb (y mod 100 =? 0) || (y mod 400 =? 0)).

Definition month_days (leap : bool) : list Z :=
  [31; if leap then 29 else 28; 31; 30; 31; 30; 31; 31; 30; 31; 30; 31].

(** Cycles of 400, 100, 4 and 1 years: the year, and the day of the year from
    0. *)
Definition year_yday (d : Z) : Z * Z :=
  let n400 := d / 146097 in let r := d mod 146097 in
  let n100 := Z.min 3 (r / 36524) in let r := r - 36524 * n100 in
  let n4 := r / 1461 in let r := r mod 1461 in
  let n1 := Z.min 3 (r / 365) in
  (1 + 400 * n400 + 100 * n100 + 4 * n4 + n1, r - 365 * n1).

(** The month, from [m] on, and the day of the month, from 1. *)
Fixpoint month_day (m : Z) (lens : list Z) (yday : Z) : Z * Z :=
  match lens with
  | [] => (m, yday + 1)
  | n :: ns => if yday <? n then (m, yday + 1) else month_day (m + 1) ns (yday - n)
  end.

Definition civil (d : Z) : Z * Z * Z :=
  let '(y, yd) := year_yday d in
  let '(m, md) := month_day 1 (month_days (is_leap y)) yd in (y, m, md).

(** The inverse. *)
Definition days_of_civil (y m d : Z) : Z :=
  days_before_year y + foldr Z.add 0 (take (Z.to_nat (m - 1)) (month_days (is_leap y))) + (d - 1).

Definition day_ns : Z := 86400 * second.

(** [appendInt(b, x, width)]: at least [width] digits. *)
Fixpoint zeros (n : nat) : string := match n with O => "" | S n => String "0" (zeros n) end.
Definition pad_uint (w : nat) (n : Z) : string :=
  let s := utoa 10 n in zeros (w - String.length s) +:+ s.
Definition append_int (w : nat) (n : Z) : string :=
  if n <? 0 then String "-" (pad_uint w (- n)) else pad_uint w n.

Definition month_abbrev (m : Z) : string :=
  nth (Z.to_nat (m - 1)) ["Jan"; "Feb"; "Mar"; "Apr"; "May"; "Jun"; "Jul"; "Aug"; "Sep"; "Oct"; "Nov"; "Dec"] "".

(** ["15:04:05"]. *)
Definition clock_text (t : Time) : string :=
  let s := (t / second) mod 86400 in
  append_int 2 (s / 3600) +:+ ":" +:+ append_int 2 (s mod 3600 / 60) +:+ ":" +:+ append_int 2 (s mod 60).

(** ["2006-01-02T15:04:05"]. *)
Definition date_time (t : Time) : string :=
  let '(y, m, d) := civil (t / day_ns) in
  append_int 4 y +:+ "-" +:+ append_int 2 m +:+ "-" +:+ append_int 2 d +:+ "T" +:+ clock_text t.

(** ["2006-01-02T15:04:05Z"] and ["2006-01-02T15:04:05.000Z"]. *)
Definition format_seconds (t : Time) : string := date_time t +:+ "Z".
Definition format_millis (t : Time) : string :=
  date_time t +:+ "." +:+ append_int 3 (t mod second / millisecond) +:+ "Z".

(** ["Jan 2 15:04:05"]. *)
Definition format_stamp (t : Time) : string :=
  let '(_, m, d) := civil (t / day_ns) in
  month_abbrev m +:+ " " +:+ itoa d +:+ " " +:+ clock_text t.

Definition unix_epoch : Time := days_of_civil 1970 1 1 * day_ns.
Definition UnixNano (t : Time) : Z := wrap64 (t - unix_epoch).

Definition Date (y m d hh mm ss : Z) : Time :=
  days_of_civil y m d * day_ns + (hh * 3600 + mm * 60 + ss) * second.

Example epoch_days : unix_epoch = 62135596800 * second. Proof. reflexivity. Qed.
Example millis_1 : format_millis (Date 2024 6 1 12 0 0 + 7 * millisecond) = "2024-06-01T12:00:00.007Z".
Proof. vm_compute. reflexivity. Qed.
Example stamp_1 : format_stamp (Date 2024 2 29 23 59 9) = "Feb 29 23:59:09". Proof. vm_compute. reflexivity. Qed.
Example zero_time : format_seconds 0 = "0001-01-01T00:00:00Z". Proof. vm_compute. reflexivity. Qed.

(** * The date determines the day *)

#[local] Ltac Zify.zify_post_hook ::= Z.div_mod_to_equations.

Lemma year_yday_sum d : days_before_year (fst (year_yday d)) + snd (year_yday d) = d.
Proof.
  unfold year_yday, days_before_year. cbn [fst snd].
  pose proof (Z.div_mod d 146097 ltac:(done)) as Hd. pose proof (Z.mod_pos_bound d 146097 ltac:(done)) as Hr.
  set (q := d / 146097) in *. set (r := d mod 146097) in *. clearbody q r.
  set (c := Z.min 3 (r / 36524)). set (r1 := r - 36524 * c).
  assert (0 ≤ c ≤ 3 ∧ 0 ≤ r1 ≤ 36524) as (Hc & Hr1') by (unfold r1, c; lia).
  assert (d = 146097 * q + 36524 * c + r1) as -> by (unfold r1; lia).
  clearbody c r1. clear Hd Hr r.
  pose proof (Z.div_mod r1 1461 ltac:(done)) as Hd. pose proof (Z.mod_pos_bound r1 1461 ltac:(done)) as Hr.
  set (f := r1 / 1461) in *. set (r2 := r1 mod 1461) in *. clearbody f r2.
  set (o := Z.min 3 (r2 / 365)). assert (0 ≤ o ≤ 3) as Ho by (unfold o; lia). clearbody o.
  assert (0 ≤ f ≤ 24) as Hf by lia.
  lia.
Qed.

Lemma month_day_sum m lens yd :
  Forall (λ n, 0 < n) lens → 0 ≤ yd →
  let '(m', md) := month_day m lens yd in
  m ≤ m' ∧ 1 ≤ md ∧ foldr Z.add 0 (take (Z.to_nat (m' - m)) lens) + (md - 1) = yd.
Proof.
  revert m yd. induction lens as [|n lens IH]; intros m yd Hl Hyd; cbn [month_day].
  - rewrite Z.sub_diag. change (Z.to_nat 0) with O. rewrite take_0. cbn [foldr]. lia.
  - inversion_clear Hl as [|? ? Hn Hl']. destruct (Z.ltb_spec yd n).
    + rewrite Z.sub_diag. change (Z.to_nat 0) with O. rewrite take_0. cbn [foldr]. lia.
    + specialize (IH (m + 1) (yd - n) Hl' ltac:(lia)). destruct (month_day (m + 1) lens (yd - n)) as [m' md].
      destruct IH as (Hm & Hd & Hs). split; [lia|]. split; [done|].
      replace (Z.to_nat (m' - m)) with (S (Z.to_nat (m' - (m + 1)))) by lia. cbn [take foldr]. lia.
Qed.

Lemma civil_days d : let '(y, m, md) := civil d in days_of_civil y m md = d.
Proof.
  unfold civil. pose proof (year_yday_sum d) as Hs.
  assert (0 ≤ snd (year_yday d)) as H0.
  { unfold year_yday. cbn [snd]. pose proof (Z.mod_pos_bound (d mod 146097 - 36524 * Z.min 3 (d mod 146097 / 36524)) 1461). lia. }
  destruct (year_yday d) as [y yd]. cbn [fst snd] in *.
  assert (Forall (λ n, 0 < n) (month_days (is_leap y))) as Hl by (unfold month_days; repeat constructor; destruct (is_leap y); lia).
  pose proof (month_day_sum 1 _ yd Hl H0) as Hm.
  destruct (month_day 1 _ yd) as [m md]. destruct Hm as (_ & _ & Hm). unfold days_of_civil. lia.
Qed.

(** * What the texts are made of *)

Definition time_char (c : ascii) : bool :=
  is_digit c || Ascii.eqb c "-" || Ascii.eqb c ":" || Ascii.eqb c "." || Ascii.eqb c "T" || Ascii.eqb c "Z".

Lemma digits_time s : sforall is_digit s = true → sforall time_char s = true.
Proof. apply sforall_impl. intros c Hc. unfold time_char. by rewrite Hc. Qed.

Lemma pad_uint_digits w n : 0 ≤ n → sforall is_digit (pad_uint w n) = true.
Proof.
  intros Hn. unfold pad_uint. rewrite sforall_app. apply andb_true_iff; split.
  - induction (w - _)%nat as [|k IH]; [done|]. exact IH.
  - pose proof (itoa_digits n Hn) as Hd. unfold itoa in Hd. destruct (Z.ltb_spec n 0); [lia|done].
Qed.

Lemma append_int_time w n : sforall time_char (append_int w n) = true.
Proof.
  unfold append_int. destruct (Z.ltb_spec n 0); [|by apply digits_time, pad_uint_digits].
  cbn [sforall]. apply andb_true_iff; split; [done|]. apply digits_time, pad_uint_digits. lia.
Qed.

Lemma date_time_chars t : sforall time_char (date_time t) = true.
Proof.
  unfold date_time, clock_text. destruct (civil _) as [[y m] d]. rewrite !sforall_app, !append_int_time. done.
Qed.

Lemma format_seconds_chars t : sforall time_char (format_seconds t) = true.
Proof. unfold format_seconds. by rewrite sforall_app, date_time_chars. Qed.

Lemma format_millis_chars t : sforall time_char (format_millis t) = true.
Proof. unfold format_millis. by rewrite !sforall_app, date_time_chars, append_int_time. Qed.

End GoTime.
