(* ===== verification/GoOS.v ===== *)
(** The parts of Go's [os], [path/filepath] and [bufio] packages that the agent
    reads the host through.

    A file system is seen through the answers of its calls, so each call is an
    operation of a class; a development instantiates them with functions.  What
    a file holds does not change while one operation of the agent reads it. *)
From S2P Require Export GoStrings.

(** [os.ReadFile], and [os.Open] followed by reading to the end. *)
Class FileReader := ReadFile : string → result string.

Record DirEntry := mkDirEntry { de_Name : string; de_IsDir : bool }.

(** [os.ReadDir], sorted by name. *)
Class DirReader := ReadDir : string → result (list DirEntry).

(** [os.Readlink]. *)
Class LinkReader := Readlink : string → result string.

(** [filepath.Glob]. *)
Class Globber := Glob : string → result (list string).

(** [os.Stat]; [FNotExist] is an error for which [os.IsNotExist] holds. *)
Record FileInfo := mkFileInfo {
  fi_IsDir : bool;
  fi_Size : Z;
  fi_ModTime : Time;
  fi_Mode : Z;     (* permission and mode bits *)
  fi_Uid : Z
}.
Inductive stat_result := FOk (fi : FileInfo) | FNotExist | FStatErr (msg : string).
Class Stater := Stat : string → stat_result.

(** [filepath.WalkDir]: the visits of the walk below a root, in order; a visit
    carries the answer of [d.Info()], and [we_Err] when the walk reports an
    error there.  No callback of the agent ends a walk early. *)
Record walk_entry := mkWalkEntry {
  we_Path : string;
  we_IsDir : bool;
  we_Err : bool;
  we_Info : option FileInfo
}.
Class TreeWalker := WalkDir : string → list walk_entry.

(** [exec.Command(...).Output()]: the standard output of a program. *)
Class Commander := Output : list string → result string.

(** [user.Current()]: name, home directory and user id. *)
Class CurrentUser := UserCurrent : result (string * string * string).

(** * [bufio.Scanner] with [ScanLines] *)

Definition MaxScanTokenSize : Z := 64 * 1024.

Definition drop_cr (l : string) : string := trim_suffix l (str "013").

(** The lines of a text; what follows the last new line is a line when it is
    not empty. *)
Fixpoint raw_lines (s : string) (cur : string) : list string :=
  match s with
  | "" => if cur =s? "" then [] else [cur]
  | String c r => if Ascii.eqb c nl then cur :: raw_lines r "" else raw_lines r (cur +:+ str c)
  end.

(** The scanner stops with [ErrTooLong] at a line that does not fit its buffer
    together with the new line; the flag is [sc.Err() == nil]. *)
Fixpoint scan_tokens (max : Z) (ls : list string) : list string * bool :=
  match ls with
  | [] => ([], true)
  | l :: ls =>
      if slen l <? max then let '(ts, ok) := scan_tokens max ls in (drop_cr l :: ts, ok)
      else ([], false)
  end.

Definition scan_lines (max : Z) (s : string) : list string * bool := scan_tokens max (raw_lines s "").

(** * Lemmas *)

Lemma raw_lines_line l rest cur :
  sforall (λ c, negb (Ascii.eqb c nl)) l = true →
  raw_lines (l +:+ String nl rest) cur = (cur +:+ l) :: raw_lines rest "".
Proof.
  revert cur. induction l as [|c l IH]; intros cur H.
  - change ("" +:+ String nl rest) with (String nl rest). cbn [raw_lines].
    by rewrite Ascii.eqb_refl, append_nil_r.
  - cbn [sforall] in H. apply andb_true_iff in H as [Hc Hl]. apply negb_true_iff in Hc.
    change (String c l +:+ String nl rest) with (String c (l +:+ String nl rest)).
    cbn [raw_lines]. rewrite Hc, IH by done. by rewrite append_assoc.
Qed.

(** A line without control characters, and short enough for the buffer. *)
Definition scannable (max : Z) (l : string) : Prop :=
  sforall (λ c, negb (Ascii.eqb c nl) && negb (Ascii.eqb c "013")) l = true ∧ slen l < max.

Fixpoint text_of (ls : list string) : string :=
  match ls with [] => "" | l :: ls => l +:+ String nl (text_of ls) end.

Lemma drop_cr_none l : sforall (λ c, negb (Ascii.eqb c "013")) l = true → drop_cr l = l.
Proof.
  intros H. unfold drop_cr, trim_suffix, has_suffix.
  destruct (String.eqb_spec l "") as [->|Hne]; [done|].
  apply string_snoc in Hne as (a & d & ->). rewrite sforall_app in H. apply andb_true_iff in H as [_ Hd].
  cbn in Hd. rewrite andb_true_r in Hd. apply negb_true_iff, Ascii.eqb_neq in Hd.
  rewrite length_append. change (String.length (str d)) with 1%nat. change (String.length (str "013")) with 1%nat.
  replace (String.length a + 1 - 1)%nat with (String.length a) by lia. rewrite sdrop_app.
  rewrite (proj2 (String.eqb_neq (str d) (str "013"))) by (by intros [= ->]). by rewrite andb_false_r.
Qed.

Lemma raw_lines_text max ls : Forall (scannable max) ls → raw_lines (text_of ls) "" = ls.
Proof.
  induction 1 as [|l ls [Hl _] _ IH]; [done|]. cbn [text_of]. rewrite raw_lines_line, IH; [done|].
  eapply sforall_impl; [|exact Hl]. by intros c [? _]%andb_true_iff.
Qed.

(** Scanning a text of clean lines gives back the lines. *)
Lemma scan_lines_text max ls : Forall (scannable max) ls → scan_lines max (text_of ls) = (ls, true).
Proof.
  intros H. unfold scan_lines. rewrite (raw_lines_text max) by done.
  induction H as [|l ls [Hl Hlen] _ IH]; [done|]. cbn [scan_tokens].
  rewrite (proj2 (Z.ltb_lt _ _) Hlen), IH, drop_cr_none; [done|].
  eapply sforall_impl; [|exact Hl]. by intros c [_ ?]%andb_true_iff.
Qed.
