(* ===== verification/GoCrypto.v ===== *)
(** Go's [crypto/sha256], [encoding/hex] and [encoding/base64] as the agent
    uses them: [sha256.Sum256] followed by [hex.EncodeToString],
    [hex.DecodeString], and [base64.StdEncoding]. *)
From S2P Require Export GoStrings.

(** * Hexadecimal *)

Definition hex_digit (d : Z) : ascii := digit_char d.

Fixpoint hex_encode (s : string) : string :=
  match s with
  | "" => ""
  | String c r => String (hex_digit (code c / 16)) (String (hex_digit (code c mod 16)) (hex_encode r))
  end.

Definition hex_val (c : ascii) : option Z :=
  match digit_val c with Some d => if d <? 16 then Some d else None | None => None end.

Fixpoint hex_decode (s : string) : option string :=
  match s with
  | "" => Some ""
  | String a (String b r) =>
      match hex_val a, hex_val b, hex_decode r with
      | Some x, Some y, Some t => Some (String (chr (16 * x + y)) t)
      | _, _, _ => None
      end
  | _ => None
  end.

(** * SHA-256 *)

Module Sha256.

Definition w32 (z : Z) : Z := z mod 2 ^ 32.
Definition rotr (n x : Z) : Z := Z.lor (Z.shiftr x n) (w32 (Z.shiftl x (32 - n))).

(** The round constants are the first 32 bits of the fractional parts of the
    cube roots of the first 64 primes, the initial state those of the square
    roots of the first 8. *)
Fixpoint root_go (fuel : nat) (e n acc bit : Z) : Z :=
  match fuel with
  | O => acc
  | S f => let t := acc + bit in root_go f e n (if t ^ e <=? n then t else acc) (bit / 2)
  end.

Definition frac_root (e p : Z) : Z := root_go 40 e (p * 2 ^ (32 * e)) 0 (2 ^ 39) mod 2 ^ 32.

Definition is_prime (n : Z) : bool :=
  forallb (λ d, negb (n mod (Z.of_nat d) =? 0)) (seq 2 (Z.to_nat (Z.sqrt n) - 1)).

Definition primes : list Z := Eval vm_compute in List.filter is_prime (map Z.of_nat (seq 2 310)).

Definition k : list Z := Eval vm_compute in map (frac_root 3) primes.
Definition h0 : list Z := Eval vm_compute in map (frac_root 2) (take 8 primes).

Fixpoint bytes (s : string) : list Z :=
  match s with "" => [] | String c r => code c :: bytes r end.

Fixpoint be_bytes (n : nat) (z : Z) : list Z :=
  match n with O => [] | S m => Z.shiftr z (8 * Z.of_nat m) mod 256 :: be_bytes m z end.

(** The message, a 1 bit, zeros, and the bit length in 8 bytes. *)
Definition pad (m : list Z) : list Z :=
  let n := Z.of_nat (length m) in
  let zeros := Z.to_nat ((55 - n) mod 64) in
  m ++ 0x80 :: replicate zeros 0 ++ be_bytes 8 (8 * n).

Fixpoint words (l : list Z) : list Z :=
  match l with
  | a :: b :: c :: d :: r => (((a * 256 + b) * 256 + c) * 256 + d) :: words r
  | _ => []
  end.

Fixpoint chunks (fuel : nat) (l : list Z) : list (list Z) :=
  match fuel, l with
  | S f, _ :: _ => take 16 l :: chunks f (drop 16 l)
  | _, _ => []
  end.

(** The message schedule; [w] holds the words so far, last one first. *)
Fixpoint schedule (n : nat) (w : list Z) : list Z :=
  match n with
  | O => rev w
  | S m =>
      let w2 := nth 1 w 0 in let w7 := nth 6 w 0 in
      let w15 := nth 14 w 0 in let w16 := nth 15 w 0 in
      let s0 := Z.lxor (rotr 7 w15) (Z.lxor (rotr 18 w15) (Z.shiftr w15 3)) in
      let s1 := Z.lxor (rotr 17 w2) (Z.lxor (rotr 19 w2) (Z.shiftr w2 10)) in
      schedule m (w32 (w16 + s0 + w7 + s1) :: w)
  end.

Definition round (st : list Z) (kw : Z * Z) : list Z :=
  match st with
  | [a; b; c; d; e; f; g; h] =>
      let s1 := Z.lxor (rotr 6 e) (Z.lxor (rotr 11 e) (rotr 25 e)) in
      let ch := Z.lxor (Z.land e f) (Z.land (Z.lxor e 0xffffffff) g) in
      let t1 := h + s1 + ch + kw.1 + kw.2 in
      let s0 := Z.lxor (rotr 2 a) (Z.lxor (rotr 13 a) (rotr 22 a)) in
      let maj := Z.lxor (Z.land a b) (Z.lxor (Z.land a c) (Z.land b c)) in
      [w32 (t1 + s0 + maj); a; b; c; w32 (d + t1); e; f; g]
  | _ => st
  end.

Definition compress (h : list Z) (chunk : list Z) : list Z :=
  zip_with (λ x y, w32 (x + y)) h (foldl round h (zip k (schedule 48 (rev chunk)))).

Fixpoint to_string (l : list Z) : string :=
  match l with [] => "" | b :: r => String (chr b) (to_string r) end.

Definition sum256 (s : string) : string :=
  let ws := words (pad (bytes s)) in
  to_string (concat (map (be_bytes 4) (foldl compress h0 (chunks (length ws) ws)))).

End Sha256.

(** [hex.EncodeToString(sha256.Sum256(b)[:])]. *)
Definition sha256_hex (s : string) : string := hex_encode (Sha256.sum256 s).

Example sha256_abc :
  sha256_hex "abc" = "ba7816bf8f01cfea414140de5dae2223b00361a396177a9cb410ff61f20015ad".
Proof. vm_compute. reflexivity. Qed.

(** * Base64, standard alphabet with padding *)

Module Base64.

Definition enc_char (d : Z) : ascii :=
  if d <? 26 then chr (65 + d)
  else if d <? 52 then chr (71 + d)
  else if d <? 62 then chr (d - 4)
  else if d =? 62 then "+"%char else "/"%char.

Definition dec_char (c : ascii) : option Z :=
  if is_upper c then Some (code c - 65)
  else if is_lower c then Some (code c - 71)
  else if is_digit c then Some (code c + 4)
  else if Ascii.eqb c "+" then Some 62
  else if Ascii.eqb c "/" then Some 63
  else None.

Fixpoint encode (s : string) : string :=
  match s with
  | "" => ""
  | String a "" =>
      let v := code a * 65536 in
      String (enc_char (v / 262144)) (String (enc_char (v / 4096 mod 64)) "==")
  | String a (String b "") =>
      let v := code a * 65536 + code b * 256 in
      String (enc_char (v / 262144)) (String (enc_char (v / 4096 mod 64))
        (String (enc_char (v / 64 mod 64)) "="))
  | String a (String b (String c r)) =>
      let v := code a * 65536 + code b * 256 + code c in
      String (enc_char (v / 262144)) (String (enc_char (v / 4096 mod 64))
        (String (enc_char (v / 64 mod 64)) (String (enc_char (v mod 64)) (encode r))))
  end.

Definition is_newline (c : ascii) : bool := (code c =? 10) || (code c =? 13).

(** The quartet loop of [StdEncoding.DecodeString] after new lines have been
    dropped; trailing bits of a padded quartet are not checked. *)
Fixpoint decode_go (s : string) : option string :=
  match s with
  | "" => Some ""
  | String a (String b (String c (String d r))) =>
      match dec_char a, dec_char b with
      | Some x, Some y =>
          match dec_char c, dec_char d with
          | Some z, Some w =>
              let v := ((x * 64 + y) * 64 + z) * 64 + w in
              match decode_go r with
              | Some t => Some (String (chr (v / 65536)) (String (chr (v / 256 mod 256))
                                  (String (chr (v mod 256)) t)))
              | None => None
              end
          | Some z, None =>
              if Ascii.eqb d "=" && (r =s? "") then
                let v := ((x * 64 + y) * 64 + z) * 64 in
                Some (String (chr (v / 65536)) (str (chr (v / 256 mod 256))))
              else None
          | None, _ =>
              if Ascii.eqb c "=" && Ascii.eqb d "=" && (r =s? "") then
                Some (str (chr ((x * 64 + y) * 4096 / 65536)))
              else None
          end
      | _, _ => None
      end
  | _ => None
  end.

Definition decode (s : string) : option string :=
  decode_go (sfilter (λ c, negb (is_newline c)) s).

End Base64.

Example base64_sample :
  Base64.decode "Y3VybCBodHRwOi8vZXZpbA==" = Some "curl http://evil" ∧
  Base64.encode "curl http://evil" = "Y3VybCBodHRwOi8vZXZpbA==".
Proof. vm_compute. done. Qed.

(** Hexadecimal text has no path separator, so a hash names a file. *)
Lemma hex_encode_length s : String.length (hex_encode s) = (2 * String.length s)%nat.
Proof. induction s as [|c s IH]; simpl; lia. Qed.

Lemma round_length st kw : length st = 8%nat → length (Sha256.round st kw) = 8%nat.
Proof. intros Hl. do 9 (destruct st as [|? st]; [done|try done]). Qed.

Lemma rounds_length l st : length st = 8%nat → length (foldl Sha256.round st l) = 8%nat.
Proof. revert st. induction l as [|x l IH]; intros st Hl; [done|]. cbn [foldl]. by apply IH, round_length. Qed.

Lemma compress_length h c : length h = 8%nat → length (Sha256.compress h c) = 8%nat.
Proof. intros Hl. unfold Sha256.compress. by rewrite length_zip_with, rounds_length, Hl. Qed.

Lemma compressed_length cs h : length h = 8%nat → length (foldl Sha256.compress h cs) = 8%nat.
Proof. revert h. induction cs as [|c cs IH]; intros h Hl; [done|]. cbn [foldl]. by apply IH, compress_length. Qed.

Lemma be_bytes_length n z : length (Sha256.be_bytes n z) = n.
Proof. induction n as [|n IH]; [done|]. cbn [Sha256.be_bytes length]. by rewrite IH. Qed.

Lemma to_string_length l : String.length (Sha256.to_string l) = length l.
Proof. induction l as [|b l IH]; cbn; [done|by rewrite IH]. Qed.

(** A digest is 32 bytes, 64 hexadecimal digits. *)
Lemma sum256_length s : String.length (Sha256.sum256 s) = 32%nat.
Proof.
  unfold Sha256.sum256. rewrite to_string_length.
  assert (Hc : ∀ l, length (concat (map (Sha256.be_bytes 4) l)) = (4 * length l)%nat).
  { intros l. induction l as [|z l IH]; [done|]. cbn [map concat].
    rewrite length_app, be_bytes_length, IH. cbn [length]. lia. }
  by rewrite Hc, compressed_length.
Qed.

Lemma sha256_hex_length s : String.length (sha256_hex s) = 64%nat.
Proof. unfold sha256_hex. by rewrite hex_encode_length, sum256_length. Qed.

Lemma sha256_hex_nonempty s : (sha256_hex s =s? "") = false.
Proof. apply String.eqb_neq. intros He. pose proof (sha256_hex_length s) as Hl. by rewrite He in Hl. Qed.

Lemma hex_encode_plain s : sforall (λ a, negb (Ascii.eqb a slash)) (hex_encode s) = true.
Proof.
  assert (Hd : ∀ d, 0 ≤ d < 16 → Ascii.eqb (hex_digit d) slash = false).
  { intros d Hd. apply Ascii.eqb_neq. intros He. apply (f_equal code) in He.
    unfold hex_digit, digit_char in He. change (code slash) with 47 in He.
    destruct (Z.ltb_spec d 10); rewrite code_chr in He; lia. }
  induction s as [|c s IH]; [done|]. cbn [hex_encode sforall].
  pose proof (code_range c). rewrite IH, !Hd; [done| |].
  - apply Z.mod_pos_bound. lia.
  - split; [apply Z.div_pos; lia|apply Z.div_lt_upper_bound; lia].
Qed.
