(* ===== verification/GoJson.v ===== *)
(** How [encoding/json] and [strconv.Quote] write a string, and a JSON object
    whose values are given: what the HTTP sinks and the demonstration console
    print.  UTF-8 is decoded as [unicode/utf8] does. *)
From stdpp Require Import sorting.
From S2P Require Export GoCrypto.

Module Utf8.

Definition RuneError : Z := 65533.

(** The byte ranges of RFC 3629 for the second byte after a leading byte. *)
Definition second_range (b0 : Z) : Z * Z :=
  if b0 =? 224 then (160, 191) else if b0 =? 237 then (128, 159)
  else if b0 =? 240 then (144, 191) else if b0 =? 244 then (128, 143) else (128, 191).

Definition within (r : Z * Z) (b : Z) : bool := (fst r <=? b) && (b <=? snd r).
Definition cont (b : Z) : bool := within (128, 191) b.

(** [utf8.DecodeRuneInString] on a string that does not start with an ASCII
    byte: the rune and its width. *)
Definition decode_rune (s : string) : Z * nat :=
  match Sha256.bytes (stake 4 s) with
  | b0 :: rest =>
      match (if within (194, 223) b0 then 2%nat else if within (224, 239) b0 then 3%nat
             else if within (240, 244) b0 then 4%nat else 1%nat), rest with
      | 2%nat, b1 :: _ =>
          if cont b1 then (Z.land b0 31 * 64 + Z.land b1 63, 2%nat) else (RuneError, 1%nat)
      | 3%nat, b1 :: b2 :: _ =>
          if within (second_range b0) b1 && cont b2
          then (Z.land b0 15 * 4096 + Z.land b1 63 * 64 + Z.land b2 63, 3%nat) else (RuneError, 1%nat)
      | 4%nat, b1 :: b2 :: b3 :: _ =>
          if within (second_range b0) b1 && cont b2 && cont b3
          then (Z.land b0 7 * 262144 + Z.land b1 63 * 4096 + Z.land b2 63 * 64 + Z.land b3 63, 4%nat)
          else (RuneError, 1%nat)
      | _, _ => (RuneError, 1%nat)
      end
  | [] => (RuneError, 0%nat)
  end.

End Utf8.

(** [%0*x] of a rune. *)
Fixpoint hex_fixed (n : nat) (z : Z) : string :=
  match n with O => "" | S n => hex_fixed n (z / 16) +:+ str (hex_digit (z mod 16)) end.

Definition bs (c : ascii) : string := String backslash (str c).

(** ** [encoding/json]: a string, with HTML escaping as [Marshal] does.

    [n] bytes of the current rune are left; they are copied when [copy]. *)

Definition json_ascii (c : ascii) : string :=
  let z := code c in
  if z =? 34 then bs dquote else if z =? 92 then bs backslash
  else if z =? 8 then bs "b" else if z =? 12 then bs "f" else if z =? 10 then bs "n"
  else if z =? 13 then bs "r" else if z =? 9 then bs "t"
  else if (z <? 32) || (z =? 60) || (z =? 62) || (z =? 38) then bs "u" +:+ hex_fixed 4 z
  else str c.

Fixpoint json_go (copy : bool) (n : nat) (s : string) : string :=
  match s with
  | "" => ""
  | String c r =>
      match n with
      | S n => (if copy then str c else "") +:+ json_go copy n r
      | O =>
          if code c <? 128 then json_ascii c +:+ json_go false O r
          else
            let '(rune, w) := Utf8.decode_rune s in
            if (w =? 1)%nat then bs "u" +:+ "fffd" +:+ json_go false O r
            else if (rune =? 8232) || (rune =? 8233)
                 then bs "u" +:+ hex_fixed 4 rune +:+ json_go false (w - 1) r
                 else str c +:+ json_go true (w - 1) r
      end
  end.

Definition json_string (s : string) : string := str dquote +:+ json_go false O s +:+ str dquote.

(** An object and an array whose members are already encoded. *)
Definition json_object (ms : list (string * string)) : string :=
  "{" +:+ sjoin "," (map (λ '(k, v), json_string k +:+ ":" +:+ v) ms) +:+ "}".

Definition json_array (vs : list string) : string := "[" +:+ sjoin "," vs +:+ "]".

(** A [map[string]string] is written with its keys in order. *)
Definition key_le (a b : string * string) : Prop := String.leb (fst a) (fst b) = true.
#[export] Instance key_le_dec : RelDecision key_le := λ a b, decide (String.leb (fst a) (fst b) = true).

Definition json_map (m : gmap string string) : string :=
  json_object (map (λ '(k, v), (k, json_string v)) (merge_sort key_le (map_to_list m))).

(** ** [strconv.Quote], which [%q] uses.

    [is_print] is [unicode.IsPrint] on runes outside ASCII, a table of the Go
    library. *)
Section Quote.
Variable is_print : Z → bool.

Definition quote_ascii (c : ascii) : string :=
  let z := code c in
  if z =? 34 then bs dquote else if z =? 92 then bs backslash
  else if (32 <=? z) && (z <? 127) then str c
  else if z =? 7 then bs "a" else if z =? 8 then bs "b" else if z =? 12 then bs "f"
  else if z =? 10 then bs "n" else if z =? 13 then bs "r" else if z =? 9 then bs "t"
  else if z =? 11 then bs "v" else bs "x" +:+ hex_fixed 2 z.

Definition quote_rune (rune : Z) : string :=
  if rune <? 65536 then bs "u" +:+ hex_fixed 4 rune else bs "U" +:+ hex_fixed 8 rune.

Fixpoint quote_go (copy : bool) (n : nat) (s : string) : string :=
  match s with
  | "" => ""
  | String c r =>
      match n with
      | S n => (if copy then str c else "") +:+ quote_go copy n r
      | O =>
          if code c <? 128 then quote_ascii c +:+ quote_go false O r
          else
            let '(rune, w) := Utf8.decode_rune s in
            if (w =? 1)%nat then bs "x" +:+ hex_fixed 2 (code c) +:+ quote_go false O r
            else if is_print rune then str c +:+ quote_go true (w - 1) r
            else quote_rune rune +:+ quote_go false (w - 1) r
      end
  end.

Definition Quote (s : string) : string := str dquote +:+ quote_go false O s +:+ str dquote.

End Quote.

(** * An encoded text has no line break *)

Definition no_nl (s : string) : bool := sforall (λ c, negb (Ascii.eqb c nl)) s.

Lemma no_nl_app a b : no_nl (a +:+ b) = no_nl a && no_nl b.
Proof. apply sforall_app. Qed.

Lemma digit_char_no_nl d : 0 ≤ d < 16 → no_nl (str (digit_char d)) = true.
Proof.
  intros H. assert (d ∈ [0;1;2;3;4;5;6;7;8;9;10;11;12;13;14;15]) as Hd by (repeat rewrite elem_of_cons; lia).
  repeat (apply elem_of_cons in Hd as [->|Hd]; [done|]). by apply elem_of_nil in Hd.
Qed.

Lemma hex_fixed_no_nl n z : no_nl (hex_fixed n z) = true.
Proof.
  revert z. induction n as [|n IH]; intros z; [done|]. cbn [hex_fixed]. rewrite no_nl_app, IH. cbn [andb].
  apply digit_char_no_nl. apply Z.mod_pos_bound. lia.
Qed.

Lemma high_no_nl c : 128 ≤ code c → no_nl (str c) = true.
Proof.
  intros H. unfold no_nl. cbn. rewrite andb_true_r. apply negb_true_iff, Ascii.eqb_neq. intros ->.
  change (code nl) with 10 in H. lia.
Qed.

Lemma eqb_case (a : ascii) : Ascii.eqb a nl = (code a =? 10).
Proof.
  destruct (Ascii.eqb_spec a nl) as [->|Hn]; [done|]. symmetry. apply Z.eqb_neq. intros H. apply Hn.
  apply code_inj. exact H.
Qed.

Lemma quote_ascii_no_nl c : no_nl (quote_ascii c) = true.
Proof.
  unfold quote_ascii.
  repeat match goal with |- context [if ?b then _ else _] => destruct b eqn:? end; try done.
  - cbn. rewrite eqb_case, andb_true_r. lia.
  - by rewrite no_nl_app, hex_fixed_no_nl.
Qed.

(** The bytes of a rune that is not ASCII are not ASCII. *)
Fixpoint high (n : nat) (s : string) : Prop :=
  match n, s with
  | S n, String c r => 128 ≤ code c ∧ high n r
  | S _, "" => False
  | O, _ => True
  end.

Lemma within_high r b : 128 ≤ fst r → Utf8.within r b = true → 128 ≤ b.
Proof. unfold Utf8.within. lia. Qed.

Lemma second_range_high b : 128 ≤ fst (Utf8.second_range b).
Proof. unfold Utf8.second_range. repeat case_match; cbn; lia. Qed.

Lemma decode_rune_high c r rune w :
  Utf8.decode_rune (String c r) = (rune, w) → (w =? 1)%nat = false → high (w - 1) r.
Proof.
  unfold Utf8.decode_rune. cbn [stake Sha256.bytes].
  destruct r as [|c1 r]; cbn [stake Sha256.bytes]; [repeat case_match; intros [= <- <-]; done|].
  destruct r as [|c2 r]; cbn [stake Sha256.bytes].
  { repeat case_match; intros [= <- <-]; try done. intros _. cbn. split; [|done].
    by eapply (within_high (128, 191)). }
  destruct r as [|c3 r]; cbn [stake Sha256.bytes];
    repeat case_match; intros [= <- <-] Hw; try done; cbn [Nat.sub high]; simplify_eq;
    repeat match goal with H : _ && _ = true |- _ => apply andb_true_iff in H as [? ?] end;
    repeat split; try (by eapply (within_high (128, 191)));
    (eapply within_high; [apply second_range_high|eassumption]).
Qed.

Lemma quote_rune_no_nl rune : no_nl (quote_rune rune) = true.
Proof. unfold quote_rune. case_match; by rewrite no_nl_app, hex_fixed_no_nl. Qed.

Lemma quote_go_no_nl is_print s : ∀ copy n, high n s → no_nl (quote_go is_print copy n s) = true.
Proof.
  induction s as [|c r IH]; intros copy n Hh; [done|]. cbn [quote_go]. destruct n as [|n].
  - destruct (Z.ltb_spec (code c) 128) as [|Hc].
    { rewrite no_nl_app, quote_ascii_no_nl. by apply IH. }
    destruct (Utf8.decode_rune (String c r)) as [rune w] eqn:Hd. destruct (w =? 1)%nat eqn:Hw.
    { rewrite !no_nl_app, hex_fixed_no_nl. by apply IH. }
    pose proof (decode_rune_high _ _ _ _ Hd Hw) as Hhi. destruct (is_print rune).
    + rewrite no_nl_app, high_no_nl by done. by apply IH.
    + rewrite no_nl_app, quote_rune_no_nl. by apply IH.
  - destruct Hh as [Hc Hh]. rewrite no_nl_app, IH by done. destruct copy; [by rewrite high_no_nl|done].
Qed.

Lemma Quote_no_nl is_print s : no_nl (Quote is_print s) = true.
Proof. unfold Quote. rewrite !no_nl_app, quote_go_no_nl by done. done. Qed.

Lemma json_ascii_no_nl c : code c < 128 → no_nl (json_ascii c) = true.
Proof.
  intros Hc. unfold json_ascii.
  repeat match goal with |- context [if ?b then _ else _] => destruct b eqn:? end; try done.
  - by rewrite no_nl_app, hex_fixed_no_nl.
  - cbn. rewrite eqb_case, andb_true_r. lia.
Qed.

Lemma json_go_no_nl s : ∀ copy n, high n s → no_nl (json_go copy n s) = true.
Proof.
  induction s as [|c r IH]; intros copy n Hh; [done|]. cbn [json_go]. destruct n as [|n].
  - destruct (Z.ltb_spec (code c) 128) as [|Hc].
    { rewrite no_nl_app, json_ascii_no_nl by done. by apply IH. }
    destruct (Utf8.decode_rune (String c r)) as [rune w] eqn:Hd. destruct (w =? 1)%nat eqn:Hw.
    { rewrite !no_nl_app. by apply IH. }
    pose proof (decode_rune_high _ _ _ _ Hd Hw) as Hhi. case_match.
    + rewrite !no_nl_app, hex_fixed_no_nl. by apply IH.
    + rewrite no_nl_app, high_no_nl by done. by apply IH.
  - destruct Hh as [Hc Hh]. rewrite no_nl_app, IH by done. destruct copy; [by rewrite high_no_nl|done].
Qed.

Lemma json_string_no_nl s : no_nl (json_string s) = true.
Proof. unfold json_string. rewrite !no_nl_app, json_go_no_nl by done. done. Qed.
