(* ===== verification/Terminal.v ===== *)
(** [cmd/demo-console/termhub.go]: the terminal of the demonstration console.

    The hub keeps the last lines and passes every new one to its subscribers.
    A subscriber is a channel of 512 lines; a line that does not fit is left to
    a goroutine that waits up to two seconds for room.  What the subscribers
    and those goroutines do is interleaved with the hub's operations, so it is
    a step relation ([hstep]); the hub's own operations run under its lock and
    are functions. *)
From S2P Require Export GoJson.

Record termLine := mkLine { tl_Seq : Z; tl_Text : string; tl_Kind : string }.

#[export] Instance termLine_eq_dec : EqDecision termLine.
Proof. solve_decision. Defined.

(** A subscriber: the buffer of its channel, oldest first, and the lines that
    goroutines hold for it. *)
Record sub := mkSub { sb_buf : list termLine; sb_spilled : list termLine }.

Record termHub := mkHub {
  th_seq : Z;
  th_lines : list termLine;
  th_maxKeep : Z;
  th_subs : gmap nat sub
}.

#[export] Instance eta_termHub : Eta termHub := λ h, mkHub (th_seq h) (th_lines h) (th_maxKeep h) (th_subs h).

Definition channel_cap : nat := 512.

Definition newTermHub : termHub := mkHub 0 [] 4000 ∅.

(** [ch <- line], or a goroutine when the buffer is full. *)
Definition offer (line : termLine) (s : sub) : sub :=
  if (length (sb_buf s) <? channel_cap)%nat then mkSub (sb_buf s ++ [line]) (sb_spilled s)
  else mkSub (sb_buf s) (sb_spilled s ++ [line]).

Definition broadcast (line : termLine) (h : termHub) : termHub := h <| th_subs := offer line <$> th_subs h |>.

(** The last [n] elements. *)
Definition keep_last {A} (n : Z) (l : list A) : list A := drop (length l - Z.to_nat n) l.

Definition append_line (kind text : string) (h : termHub) : termHub :=
  let seq := th_seq h + 1 in
  let line := mkLine seq text kind in
  broadcast line (h <| th_seq := seq |> <| th_lines := keep_last (th_maxKeep h) (th_lines h ++ [line]) |>).

(** The parts of a text that become lines: a last part that is empty is left
    out. *)
Definition parts_of (text : string) : list string :=
  let text := replace_str (String "013" (str nl)) (str nl) text in
  let text := replace_str (str "013") (str nl) text in
  let parts := split nl text in
  match reverse parts with
  | "" :: r => reverse r
  | _ => parts
  end.

Definition Write (kind text : string) (h : termHub) : termHub :=
  fold_left (λ h p, append_line kind p h) (parts_of text) h.

Definition cleared : string := "— terminal cleared —".

Definition Clear (h : termHub) : termHub :=
  let h := h <| th_lines := [] |> <| th_seq := th_seq h + 1 |> in
  let line := mkLine (th_seq h) cleared "meta" in
  broadcast line (h <| th_lines := th_lines h ++ [line] |>).

Definition Snapshot_term (h : termHub) : list termLine := th_lines h.

(** The channel is new; the second function deletes it. *)
Definition Subscribe (h : termHub) : termHub * nat :=
  let k := fresh (dom (th_subs h)) in (h <| th_subs := <[k := mkSub [] []]> (th_subs h) |>, k).

Definition unsub (k : nat) (h : termHub) : termHub := h <| th_subs := delete k (th_subs h) |>.

(** * Interleaving

    A step of the hub, of a subscriber or of a goroutine, labelled with what it
    does: the lines produced, the line received or given up. *)
Inductive label :=
| LProduce (ls : list termLine)
| LSubscribe (k : nat)
| LUnsub (k : nat)
| LReceive (k : nat) (l : termLine)
| LUnspill (k : nat) (l : termLine)
| LTimeout (k : nat) (l : termLine).

(** The lines that [Write] adds. *)
Definition new_lines (kind text : string) (h : termHub) : list termLine :=
  imap (λ i p, mkLine (th_seq h + 1 + Z.of_nat i) p kind) (parts_of text).

Inductive hstep : termHub → label → termHub → Prop :=
| HWrite h kind text : hstep h (LProduce (new_lines kind text h)) (Write kind text h)
| HClear h : hstep h (LProduce [mkLine (th_seq h + 1) cleared "meta"]) (Clear h)
| HSubscribe h : hstep h (LSubscribe (snd (Subscribe h))) (fst (Subscribe h))
| HUnsub h k : hstep h (LUnsub k) (unsub k h)
| HReceive h k s line buf :
    (* the subscriber takes the oldest line *)
    th_subs h !! k = Some s → sb_buf s = line :: buf →
    hstep h (LReceive k line) (h <| th_subs := <[k := mkSub buf (sb_spilled s)]> (th_subs h) |>)
| HUnspill h k s pre line post :
    (* one of the waiting goroutines, any, finds room *)
    th_subs h !! k = Some s → sb_spilled s = pre ++ line :: post → (length (sb_buf s) < channel_cap)%nat →
    hstep h (LUnspill k line) (h <| th_subs := <[k := mkSub (sb_buf s ++ [line]) (pre ++ post)]> (th_subs h) |>)
| HTimeout h k s pre line post :
    (* its two seconds are over: the line is gone *)
    th_subs h !! k = Some s → sb_spilled s = pre ++ line :: post →
    hstep h (LTimeout k line) (h <| th_subs := <[k := mkSub (sb_buf s) (pre ++ post)]> (th_subs h) |>).

Inductive hsteps : termHub → list label → termHub → Prop :=
| HNil h : hsteps h [] h
| HCons h l h' ls h'' : hstep h l h' → hsteps h' ls h'' → hsteps h (l :: ls) h''.

(** * [serveSSE] *)

(** [writeSSE]; the text is JSON, the kind is left out when empty. *)
Definition line_json (l : termLine) : string :=
  json_object ([("seq", itoa (tl_Seq l)); ("text", json_string (tl_Text l))] ++
               (if tl_Kind l =s? "" then [] else [("kind", json_string (tl_Kind l))])).

Definition writeSSE (l : termLine) : string := "data: " +:+ line_json l +:+ str nl +:+ str nl.

(** What the loop selects. *)
Inductive sse_input := SLine (l : termLine) | SPing | SClosed | SDone.

Fixpoint sse_loop (ins : list sse_input) : string :=
  match ins with
  | SLine l :: ins => writeSSE l +:+ sse_loop ins
  | SPing :: ins => ": ping" +:+ str nl +:+ str nl +:+ sse_loop ins
  | SClosed :: _ | SDone :: _ | [] => ""
  end.

(** The body of the response: the lines of a snapshot, then the channel's. *)
Definition serveSSE (snapshot : list termLine) (ins : list sse_input) : string :=
  foldr String.append "" (map writeSSE snapshot) +:+ sse_loop ins.

(** * [termWriter] *)

Record termWriter := mkWriter { tw_hub : termHub; tw_kind : string; tw_buf : string }.

Definition trim_cr : string → string := trim_right (Ascii.eqb "013").

(** The loop of [Write]; every turn consumes a byte. *)
Fixpoint writer_go (fuel : nat) (kind : string) (buf : string) (h : termHub) : termHub * string :=
  match fuel with
  | O => (h, buf)
  | S f =>
      match cut_line buf with
      | Some (line, buf) => writer_go f kind buf (Write kind (trim_cr line) h)
      | None => (h, buf)
      end
  end.

Definition Write_writer (p : string) (t : termWriter) : termWriter :=
  let buf := tw_buf t +:+ p in
  let '(h, buf) := writer_go (S (String.length buf)) (tw_kind t) buf (tw_hub t) in
  mkWriter h (tw_kind t) buf.

Definition Flush (t : termWriter) : termWriter :=
  if tw_buf t =s? "" then t
  else mkWriter (Write (tw_kind t) (tw_buf t) (tw_hub t)) (tw_kind t) "".
