(* ===== verification/TerminalFacts.v ===== *)
(** Theorems about the terminal ([Terminal.v]): its lines are numbered without
    gaps, each subscriber gets every line at most once, and the output of a
    command does not depend on how it is cut into pieces. *)
From S2P Require Export Terminal.

(** * The lines of the hub *)

(** The lines kept are the last ones produced: consecutive numbers up to the
    counter, no more than the limit. *)
Definition lines_ok (h : termHub) : Prop :=
  (∀ i l, th_lines h !! i = Some l →
     tl_Seq l = th_seq h - Z.of_nat (length (th_lines h)) + 1 + Z.of_nat i) ∧
  Z.of_nat (length (th_lines h)) ≤ th_maxKeep h ∧ 1 ≤ th_maxKeep h.

Lemma append_line_ok kind text h : lines_ok h → lines_ok (append_line kind text h).
Proof.
  intros (Hs & Hl & Hm). unfold append_line, broadcast, lines_ok.
  set (line := mkLine _ _ _). cbn -[keep_last]. unfold keep_last. rewrite length_drop, length_app. cbn [length].
  split; [|lia]. intros i l. rewrite lookup_drop. intros Hi. set (d := (length (th_lines h) + 1 - Z.to_nat (th_maxKeep h))%nat) in *.
  apply lookup_app_Some in Hi as [Hi|[Hge Hi]].
  - pose proof (lookup_lt_Some _ _ _ Hi). rewrite (Hs _ _ Hi). lia.
  - apply list_lookup_singleton_Some in Hi as [Hi <-]. cbn. lia.
Qed.

Lemma Write_ok kind text h : lines_ok h → lines_ok (Write kind text h).
Proof. unfold Write. revert h. induction (parts_of text) as [|p l IH]; intros h Hh; [done|]. cbn. apply IH, append_line_ok, Hh. Qed.

Lemma Clear_ok h : lines_ok h → lines_ok (Clear h).
Proof.
  intros (Hs & Hl & Hm). unfold lines_ok, Clear, broadcast. cbn. split; [|lia].
  intros i l [-> <-]%list_lookup_singleton_Some. cbn. lia.
Qed.

(** * The subscribers *)

(** What a write hands to the subscribers: every new line is offered, in
    order. *)
Definition offer_all (ls : list termLine) (s : sub) : sub := fold_left (λ s l, offer l s) ls s.

Lemma append_line_facts kind text h :
  th_seq (append_line kind text h) = th_seq h + 1 ∧
  th_subs (append_line kind text h) = offer (mkLine (th_seq h + 1) text kind) <$> th_subs h ∧
  th_maxKeep (append_line kind text h) = th_maxKeep h.
Proof. done. Qed.

Lemma Write_facts kind text h :
  th_subs (Write kind text h) = offer_all (new_lines kind text h) <$> th_subs h ∧
  th_seq (Write kind text h) = th_seq h + Z.of_nat (length (new_lines kind text h)) ∧
  th_maxKeep (Write kind text h) = th_maxKeep h.
Proof.
  unfold Write, new_lines. rewrite length_imap. revert h.
  induction (parts_of text) as [|p l IH]; intros h; cbn [fold_left imap length].
  { split; [|split; [lia|done]]. apply map_eq. intros k. rewrite lookup_fmap. by destruct (th_subs h !! k). }
  destruct (append_line_facts kind p h) as (H1 & H2 & H3). destruct (IH (append_line kind p h)) as (I1 & I2 & I3).
  rewrite I1, I2, I3, H1, H2, H3. split; [|split; [lia|done]]. rewrite <-map_fmap_compose.
  apply map_fmap_ext. intros k s _. unfold offer_all. cbn [compose fold_left imap]. f_equal; [|f_equal; f_equal; lia].
  apply imap_ext. intros i x _. cbn. f_equal. lia.
Qed.

Definition produced (ls : list label) : list termLine :=
  concat (map (λ l, match l with LProduce ps => ps | _ => [] end) ls).
Definition got (k : nat) (ls : list label) : list termLine :=
  omap (λ l, match l with LReceive k' x => if decide (k' = k) then Some x else None | _ => None end) ls.
Definition given_up (k : nat) (ls : list label) : list termLine :=
  omap (λ l, match l with LTimeout k' x => if decide (k' = k) then Some x else None | _ => None end) ls.
(** No goroutine finished, either way. *)
Definition undisturbed (k : nat) (ls : list label) : Prop :=
  Forall (λ l, match l with LUnspill k' _ | LTimeout k' _ => k' ≠ k | _ => True end) ls.

Lemma offer_all_perm ls s :
  sb_buf (offer_all ls s) ++ sb_spilled (offer_all ls s) ≡ₚ (sb_buf s ++ sb_spilled s) ++ ls.
Proof.
  unfold offer_all. revert s. induction ls as [|l ls IH]; intros s; cbn [fold_left]; [by rewrite app_nil_r|].
  rewrite IH. unfold offer. case_match; cbn; solve_Permutation.
Qed.

Lemma offer_all_cap ls s :
  (length (sb_buf s) ≤ channel_cap)%nat → (length (sb_buf (offer_all ls s)) ≤ channel_cap)%nat.
Proof.
  unfold offer_all. revert s. induction ls as [|l ls IH]; intros s Hs; cbn [fold_left]; [done|]. apply IH.
  unfold offer. destruct (Nat.ltb_spec (length (sb_buf s)) channel_cap); cbn; [|done]. rewrite length_app. cbn. lia.
Qed.

Lemma offer_all_unspilled ls s :
  sb_spilled (offer_all ls s) = [] → sb_spilled s = [] ∧ sb_buf (offer_all ls s) = sb_buf s ++ ls.
Proof.
  unfold offer_all. revert s. induction ls as [|l ls IH]; intros s; cbn [fold_left]; [by rewrite app_nil_r|].
  intros [H1 H2]%IH. unfold offer in *. destruct (_ <? _)%nat; cbn in *.
  - split; [done|]. rewrite H2. by rewrite <-app_assoc.
  - by destruct (sb_spilled s).
Qed.

(** One step, seen by subscriber [k]. *)
Lemma hstep_sub h l h' k s :
  hstep h l h' → l ≠ LUnsub k → th_subs h !! k = Some s → (length (sb_buf s) ≤ channel_cap)%nat →
  ∃ s', th_subs h' !! k = Some s' ∧ (length (sb_buf s') ≤ channel_cap)%nat ∧
    (sb_buf s ++ sb_spilled s) ++ produced [l] ≡ₚ got k [l] ++ given_up k [l] ++ sb_buf s' ++ sb_spilled s' ∧
    (undisturbed k [l] → sb_spilled s' = [] → sb_spilled s = [] ∧ sb_buf s ++ produced [l] = got k [l] ++ sb_buf s').
Proof.
  intros Hst Hl Hk Hc. destruct Hst as [h kind text|h|h|h k'|h k' s0 x buf Hk' Hb|h k' s0 pre x post Hk' Hb Hlt|h k' s0 pre x post Hk' Hb].
  - exists (offer_all (new_lines kind text h) s). unfold produced. cbn. rewrite app_nil_r.
    destruct (Write_facts kind text h) as [-> _]. rewrite lookup_fmap, Hk. split; [done|].
    split; [by apply offer_all_cap|]. split; [by rewrite offer_all_perm|]. intros _ [? ?]%offer_all_unspilled. done.
  - exists (offer_all [mkLine (th_seq h + 1) cleared "meta"] s). unfold Clear, broadcast. cbn. rewrite lookup_fmap, Hk.
    split; [done|]. split; [by apply (offer_all_cap [_])|].
    split; [symmetry; apply (offer_all_perm [_])|]. intros _ [? ?]%(offer_all_unspilled [_]). done.
  - exists s. unfold Subscribe. cbn. rewrite lookup_insert_ne.
    + rewrite !app_nil_r. done.
    + intros Heq. apply (is_fresh (dom (th_subs h))). rewrite Heq. by eapply elem_of_dom_2.
  - exists s. cbn. rewrite lookup_delete_ne by congruence. rewrite !app_nil_r. done.
  - cbn. destruct (decide (k' = k)) as [->|Hne].
    + rewrite Hk in Hk'. injection Hk' as <-. eexists. rewrite lookup_insert_eq. split; [done|]. cbn.
      rewrite Hb in Hc |- *. cbn in Hc. split; [lia|]. rewrite !app_nil_r. split; [done|]. intros _ ?. done.
    + exists s. rewrite lookup_insert_ne by done. cbn. rewrite !app_nil_r. done.
  - cbn. destruct (decide (k' = k)) as [->|Hne].
    + rewrite Hk in Hk'. injection Hk' as <-. eexists. rewrite lookup_insert_eq. split; [done|]. cbn.
      rewrite length_app. cbn. split; [lia|]. rewrite Hb, app_nil_r. split; [solve_Permutation|].
      intros Hu. by inversion Hu.
    + exists s. rewrite lookup_insert_ne by done. rewrite !app_nil_r. done.
  - cbn. destruct (decide (k' = k)) as [->|Hne].
    + rewrite Hk in Hk'. injection Hk' as <-. eexists. rewrite lookup_insert_eq. split; [done|]. cbn.
      split; [done|]. rewrite Hb, app_nil_r. split; [solve_Permutation|]. intros Hu. by inversion Hu.
    + exists s. rewrite lookup_insert_ne by done. cbn. rewrite !app_nil_r. done.
Qed.

Lemma hstep_lines h l h' : hstep h l h' → lines_ok h → lines_ok h'.
Proof. intros [] Hh; try exact Hh; [by apply Write_ok|by apply Clear_ok]. Qed.

Lemma produced_cons l ls : produced (l :: ls) = produced [l] ++ produced ls.
Proof. unfold produced. cbn. by rewrite app_nil_r. Qed.

Lemma got_cons k l ls : got k (l :: ls) = got k [l] ++ got k ls.
Proof. apply (omap_app _ [l]). Qed.

Lemma given_up_cons k l ls : given_up k (l :: ls) = given_up k [l] ++ given_up k ls.
Proof. apply (omap_app _ [l]). Qed.

Lemma hsteps_sub h ls h' k : ∀ s,
  hsteps h ls h' → LUnsub k ∉ ls → th_subs h !! k = Some s → (length (sb_buf s) ≤ channel_cap)%nat →
  ∃ s', th_subs h' !! k = Some s' ∧ (length (sb_buf s') ≤ channel_cap)%nat ∧
    (sb_buf s ++ sb_spilled s) ++ produced ls ≡ₚ got k ls ++ given_up k ls ++ sb_buf s' ++ sb_spilled s' ∧
    (undisturbed k ls → sb_spilled s' = [] → sb_spilled s = [] ∧ sb_buf s ++ produced ls = got k ls ++ sb_buf s').
Proof.
  intros s Hrun. revert s. induction Hrun as [h|h l h1 ls h2 Hst _ IH]; intros s Hn Hk Hc.
  { exists s. split; [done|]. split; [done|]. split; [by rewrite app_nil_r|]. intros _ ?. by rewrite app_nil_r. }
  apply not_elem_of_cons in Hn as [Hl Hn].
  destruct (hstep_sub h l h1 k s Hst ltac:(congruence) Hk Hc) as (s1 & Hk1 & Hc1 & Hp1 & Ho1).
  destruct (IH s1 Hn Hk1 Hc1) as (s2 & Hk2 & Hc2 & Hp2 & Ho2).
  exists s2. split; [done|]. split; [done|]. rewrite produced_cons, got_cons, given_up_cons. split.
  - transitivity (got k [l] ++ given_up k [l] ++ ((sb_buf s1 ++ sb_spilled s1) ++ produced ls)).
    + rewrite app_assoc, Hp1. solve_Permutation.
    + rewrite Hp2. solve_Permutation.
  - intros Hu Hs2. apply Forall_cons_iff in Hu as [Hu1 Hu2]. destruct (Ho2 Hu2 Hs2) as [Hs1 He2].
    destruct Ho1 as [Hs0 He1]; [by constructor|done|]. split; [done|].
    by rewrite app_assoc, He1, <-app_assoc, He2, app_assoc.
Qed.

(** C39: Whatever the hub, its other subscribers and the waiting goroutines do,
    a subscriber sees each line at most once: the lines produced since it
    subscribed are, up to order, those it received, those given up after the
    two seconds, those in its channel (at most 512) and those still waiting.
    When no line had to wait, it receives them in order, with none missing.
    The hub itself keeps the last lines, numbered without gaps. *)
Theorem hub_delivery h0 ls h' :
  lines_ok h0 → hsteps (fst (Subscribe h0)) ls h' → let k := snd (Subscribe h0) in LUnsub k ∉ ls →
  lines_ok h' ∧
  ∃ s, th_subs h' !! k = Some s ∧ (length (sb_buf s) ≤ channel_cap)%nat ∧
    produced ls ≡ₚ got k ls ++ given_up k ls ++ sb_buf s ++ sb_spilled s ∧
    (undisturbed k ls → sb_spilled s = [] → produced ls = got k ls ++ sb_buf s).
Proof.
  intros Hl Hrun k Hn. split.
  - assert (lines_ok (fst (Subscribe h0))) as Hl1 by exact Hl. clear Hn k.
    induction Hrun as [|h l h1 ls h2 Hst _ IH]; [done|]. by apply IH, (hstep_lines h l).
  - destruct (hsteps_sub _ _ _ k (mkSub [] []) Hrun Hn) as (s & Hs & Hc & Hp & Ho).
    { unfold k, Subscribe. cbn. apply lookup_insert_eq. }
    { cbn. lia. }
    exists s. split; [done|]. split; [done|]. split; [exact Hp|]. intros Hu Hs0. by apply Ho.
Qed.

(** The comment says that no line is dropped; a line produced while the buffer
    is full is, when the subscriber takes nothing for two seconds. *)
Lemma full_buffer_drops h k s kind :
  th_subs h !! k = Some s → length (sb_buf s) = channel_cap →
  ∃ ls h', hsteps h ls h' ∧ produced ls = [mkLine (th_seq h + 1) "x" kind] ∧ got k ls = [] ∧ given_up k ls = produced ls.
Proof.
  intros Hk Hb. set (line := mkLine (th_seq h + 1) "x" kind).
  assert (new_lines kind "x" h = [line]) as Hn by (unfold new_lines, line; change (parts_of "x") with ["x"]; cbn [imap]; by rewrite Z.add_0_r).
  assert (th_subs (Write kind "x" h) !! k = Some (mkSub (sb_buf s) (sb_spilled s ++ [line]))) as Hk1.
  { destruct (Write_facts kind "x" h) as [-> _]. rewrite lookup_fmap, Hk, Hn. cbn [fmap option_fmap option_map]. f_equal.
    unfold offer_all. cbn [fold_left]. unfold offer. by rewrite Hb. }
  exists [LProduce (new_lines kind "x" h); LTimeout k line]. eexists. split.
  - eapply HCons; [apply HWrite|]. eapply HCons; [by eapply (HTimeout _ _ _ (sb_spilled s) _ [])|]. apply HNil.
  - rewrite Hn. split; [done|]. split; [done|]. cbn. by rewrite decide_True.
Qed.

(** An empty text is no line: the separators that the console prints with it
    do not show, and neither do the empty lines of a command's output. *)
Lemma Write_empty kind h : Write kind "" h = h.
Proof. done. Qed.

(** * Cutting the output into lines *)

Definition write_all (kind : string) (ls : list string) (h : termHub) : termHub := fold_left (λ h l, Write kind l h) ls h.

Lemma writer_go_complete f kind : ∀ buf h,
  (String.length buf < f)%nat →
  writer_go f kind buf h = (write_all kind (map trim_cr (fst (complete buf))) h, snd (complete buf)).
Proof.
  induction f as [|f IH]; intros buf h Hf; [lia|]. cbn [writer_go]. pose proof (cut_line_complete buf) as Hc.
  destruct (cut_line buf) as [[l r]|]; [|by rewrite Hc]. destruct Hc as [Hc Hr]. rewrite IH by lia. by rewrite Hc.
Qed.

Lemma Write_writer_complete p t :
  let parts := complete (tw_buf t +:+ p) in
  Write_writer p t = mkWriter (write_all (tw_kind t) (map trim_cr (fst parts)) (tw_hub t)) (tw_kind t) (snd parts).
Proof. cbv zeta. unfold Write_writer. by rewrite writer_go_complete by lia. Qed.

Lemma writes_complete ps : ∀ t,
  complete (tw_buf t) = ([], tw_buf t) →
  let parts := complete (tw_buf t +:+ foldr String.append "" ps) in
  fold_left (λ t p, Write_writer p t) ps t =
    mkWriter (write_all (tw_kind t) (map trim_cr (fst parts)) (tw_hub t)) (tw_kind t) (snd parts).
Proof.
  induction ps as [|p ps IH]; intros t Ht; cbn [fold_left foldr].
  - rewrite append_nil_r, Ht. by destruct t.
  - rewrite Write_writer_complete. rewrite IH by apply complete_rest. cbn [tw_hub tw_kind tw_buf].
    rewrite <-append_assoc, (complete_app (tw_buf t +:+ p)). cbn [fst snd].
    unfold write_all. by rewrite map_app, fold_left_app.
Qed.

(** What the terminal shows of a command does not depend on how its output
    was cut into pieces: after any sequence of writes and a flush, the hub has
    been given the lines of the whole output, each without the carriage returns
    at its end, and the text after the last line feed if there is any. *)
Theorem writer_chunks h kind ps ls rest :
  split nl (foldr String.append "" ps) = ls ++ [rest] →
  Flush (fold_left (λ t p, Write_writer p t) ps (mkWriter h kind "")) =
    mkWriter (write_all kind (map trim_cr ls ++ (if rest =s? "" then [] else [rest])) h) kind "".
Proof.
  rewrite split_complete. intros [Hl Hr]%app_inj_tail.
  rewrite (writes_complete ps (mkWriter h kind "")) by done. cbn [tw_hub tw_kind tw_buf].
  change ("" +:+ ?x) with x. rewrite Hl, Hr. unfold Flush. cbn [tw_buf tw_kind tw_hub].
  destruct (String.eqb_spec rest "") as [->|]; [by rewrite app_nil_r|].
  unfold write_all. by rewrite fold_left_app.
Qed.

Lemma writer_chunks_witness :
  split nl (foldr String.append "" ["a" +:+ str "013"; str nl +:+ "b"]) = ["a" +:+ str "013"] ++ ["b"] ∧
  Flush (fold_left (λ t p, Write_writer p t) ["a" +:+ str "013"; str nl +:+ "b"] (mkWriter newTermHub "out" "")) =
    mkWriter (write_all "out" (map trim_cr ["a" +:+ str "013"] ++ (if "b" =s? "" then [] else ["b"])) newTermHub) "out" "".
Proof.
  split; [reflexivity|].
  apply (writer_chunks newTermHub "out" ["a" +:+ str "013"; str nl +:+ "b"] ["a" +:+ str "013"] "b"). reflexivity.
Defined.

(** * A viewer *)

(** A viewer subscribes before it takes the snapshot, so that nothing is lost
    in between; a line produced there is shown twice. *)
Example replayed_twice :
  let '(h, k) := Subscribe newTermHub in
  let h := Write "out" "x" h in
  Snapshot_term h = [mkLine 1 "x" "out"] ∧ (sb_buf <$> th_subs h !! k) = Some [mkLine 1 "x" "out"].
Proof. vm_compute. done. Qed.

Lemma hub_delivery_witness :
  let h0 := newTermHub in let k := snd (Subscribe h0) in
  let h1 := Write "out" "a" (fst (Subscribe h0)) in
  let ls := [LProduce (new_lines "out" "a" (fst (Subscribe h0)))] in
  (LUnsub k ∉ ls) ∧ lines_ok h1 ∧
  ∃ s, th_subs h1 !! k = Some s ∧ (length (sb_buf s) ≤ channel_cap)%nat ∧
    produced ls ≡ₚ got k ls ++ given_up k ls ++ sb_buf s ++ sb_spilled s ∧
    (undisturbed k ls → sb_spilled s = [] → produced ls = got k ls ++ sb_buf s).
Proof.
  assert (LUnsub (snd (Subscribe newTermHub)) ∉ [LProduce (new_lines "out" "a" (fst (Subscribe newTermHub)))]) as Hn
    by (intros H%list_elem_of_singleton; discriminate).
  split; [exact Hn|].
  apply (hub_delivery newTermHub); [split; [done|split; cbn; lia]| |exact Hn].
  eapply HCons; [apply HWrite|apply HNil].
Defined.
