(* ===== verification/Console.v ===== *)
(** [cmd/demo-console]: the rest of the demonstration console, a local web
    page that runs attack steps on a lab host over SSH and looks for the alerts
    of the agent in Elasticsearch.

    - [catalog.go]: the steps;
    - [evidence.go]: what is read out of an alert;
    - [steps.go]: the engine that runs one step at a time;
    - [main.go], [sshclient.go]: the handlers, and how a target is read.

    A command over SSH is answered by an oracle indexed by the number of
    commands so far.  JSON values are those of [encoding/json] with a number
    kept as its literal; decoding, [int(float64)] and [fmt.Sprint] are
    parameters.  [Terminal.v] models the terminal, [ConsoleTerm.v] what the engine
    shows on it. *)
From S2P Require Export GoTime GoJson.

(** * The catalogue *)

Definition scenarioCmd (name : string) : string :=
  "LAB_ROOT=/opt/ghostcatcher-lab/lab bash /opt/ghostcatcher-lab/lab/scenarios/" +:+ name +:+ ".sh".

Record StepDef := mkStepDef {
  sd_ID : string;
  sd_Index : Z;
  sd_Group : string;
  sd_Title : string;
  sd_Narration : string;
  sd_RuleIDs : list string;
  sd_RemoteCmd : string;
  sd_WaitSecs : Z;
  sd_ExpectRules : bool
}.

Definition allStepDefs : list StepDef :=
  [mkStepDef "reset" 0 "Kill chain" "Reset lab"
     "Clear kill-chain + matrix artifacts for a clean run."
     [] "/opt/ghostcatcher-lab/demo-killchain.sh --reset-only; /opt/ghostcatcher-lab/lab/reset-matrix.sh" 0 false;
   mkStepDef "webshell" 1 "Kill chain" "Act 0 — Webshell (wp2shell)"
     "WordPress Batch desync → PHP webshell on disk."
     ["WEB_SHELL_PATTERN"] "bash /opt/ghostcatcher-lab/killchain/01-webshell.sh wp2shell" 60 true;
   mkStepDef "sudden_root" 2 "Kill chain" "Act 1 — Sudden root"
     "Unprivileged process flips to euid=0 (CAP_SETUID sim)."
     ["PROC_SUDDEN_ROOT"] "bash /opt/ghostcatcher-lab/killchain/02-sudden-root.sh sim" 60 true;
   mkStepDef "persist" 3 "Kill chain" "Act 2 — Persistence"
     "ld.so.preload + labuser authorized_keys after “root”."
     ["LD_SO_PRELOAD_FILE"; "SSH_AUTHKEY_NEW"] "bash /opt/ghostcatcher-lab/killchain/03-persist-evasion.sh" 60 true;
   mkStepDef "reverse_shell" 4 "Kill chain" "Act 3 — Reverse shell"
     "bash /dev/tcp reverse shell (self-listener)."
     ["PROC_SOCKET_STDIO"] "bash /opt/ghostcatcher-lab/killchain/04-reverse-shell.sh" 90 true;
   mkStepDef "web-shell" 5 "Web" "Web shell fixture"
     "Drop attack-shell.php under /var/www/html."
     ["WEB_SHELL_PATTERN"] (scenarioCmd "web-shell") 90 true;
   mkStepDef "web-recon" 6 "Web" "Web worker recon child"
     "HTTP hit that spawns recon under the web worker."
     ["WEB_WORKER_RECON_CHILD"] (scenarioCmd "web-recon") 90 true;
   mkStepDef "cron" 7 "Persistence" "High-risk cron"
     "Plant curl|bash style cron.d drop-in."
     ["CRON_HIGH_RISK"] (scenarioCmd "cron") 90 true;
   mkStepDef "ld-preload-file" 8 "Persistence" "ld.so.preload file"
     "Non-empty /etc/ld.so.preload."
     ["LD_SO_PRELOAD_FILE"] (scenarioCmd "ld-preload-file") 90 true;
   mkStepDef "ld-preload-env" 9 "Persistence" "LD_PRELOAD env"
     "Long-lived process with LD_PRELOAD set."
     ["PROC_LD_PRELOAD_ENV"] (scenarioCmd "ld-preload-env") 90 true;
   mkStepDef "ssh-key" 10 "Persistence" "New SSH authorized key"
     "Append a new key fingerprint for a lab user."
     ["SSH_AUTHKEY_NEW"] (scenarioCmd "ssh-key") 90 true;
   mkStepDef "ssh-auth-invalid" 11 "Persistence" "Invalid SSH key line"
     "Garbage line in authorized_keys."
     ["SSH_AUTHKEY_INVALID_LINE"] (scenarioCmd "ssh-auth-invalid") 90 true;
   mkStepDef "sudoers" 12 "Persistence" "Sudoers persistence"
     "NOPASSWD / unrestricted sudoers drop-in."
     ["SUDOERS_PERSISTENCE"] (scenarioCmd "sudoers") 90 true;
   mkStepDef "systemd" 13 "Persistence" "Systemd persistence"
     "Suspicious systemd unit ExecStart."
     ["SYSTEMD_PERSISTENCE"] (scenarioCmd "systemd") 90 true;
   mkStepDef "pam" 14 "Persistence" "PAM persistence"
     "Suspicious PAM config / module path."
     ["PAM_PERSISTENCE"] (scenarioCmd "pam") 90 true;
   mkStepDef "shellrc" 15 "Persistence" "Shell RC / profile hook"
     "Backdoor line in root .bashrc (PROFILE_HOOK)."
     ["PROFILE_HOOK"] (scenarioCmd "shellrc") 90 true;
   mkStepDef "kmod" 16 "Persistence" "Kernel modload path"
     "modules-load.d / modprobe.d change."
     ["KERNEL_MODLOAD_PATH_CHANGED"] (scenarioCmd "kmod") 90 true;
   mkStepDef "ldconf" 17 "Persistence" "ld.so.conf change"
     "Extra path under ld.so.conf.d."
     ["LD_SO_CONF_CHANGED"] (scenarioCmd "ldconf") 90 true;
   mkStepDef "sshd-config" 18 "Persistence" "sshd config anomaly"
     "High-risk sshd drop-in directive."
     ["SSHD_CONFIG_ANOMALY"] (scenarioCmd "sshd-config") 90 true;
   mkStepDef "user-account" 19 "Persistence" "User account anomaly"
     "passwd/shadow change via lab user create."
     ["USER_ACCOUNT_ANOMALY"] (scenarioCmd "user-account") 90 true;
   mkStepDef "suid" 20 "Privilege" "SUID inventory delta"
     "Create a lab SUID binary."
     ["SUID_INVENTORY_DELTA"] (scenarioCmd "suid") 90 true;
   mkStepDef "capability" 21 "Privilege" "File capability delta"
     "setcap on a lab helper binary."
     ["FILE_CAPABILITY_DELTA"] (scenarioCmd "capability") 90 true;
   mkStepDef "integrity-dpkg" 22 "Privilege" "Binary integrity mismatch"
     "Mutate /usr/bin/yes → LIB_HASH_MISMATCH."
     ["LIB_HASH_MISMATCH"] (scenarioCmd "integrity-dpkg") 120 true;
   mkStepDef "network-listen" 23 "Network" "Unexpected listen"
     "Open a non-loopback listener."
     ["NETWORK_LISTEN_NEW"] (scenarioCmd "network-listen") 90 true;
   mkStepDef "network-reverse" 24 "Network" "Reverse shell (matrix)"
     "bash /dev/tcp to a public IP (PROC_SOCKET_STDIO)."
     ["PROC_SOCKET_STDIO"] (scenarioCmd "network-reverse") 90 true;
   mkStepDef "network-egress" 25 "Network" "Web worker egress"
     "www-data PHP process opens outbound HTTP."
     ["NETWORK_WEB_WORKER_EGRESS"] (scenarioCmd "network-egress") 90 true].

Definition rule_titles : gmap string string := list_to_map
  [("WEB_SHELL_PATTERN", "Webshell on disk");
   ("WEB_WORKER_RECON_CHILD", "Web worker recon child");
   ("PROC_SUDDEN_ROOT", "Sudden root / privilege escalation");
   ("LD_SO_PRELOAD_FILE", "ld.so.preload persistence");
   ("PROC_LD_PRELOAD_ENV", "LD_PRELOAD in process env");
   ("SSH_AUTHKEY_NEW", "New SSH authorized key");
   ("SSH_AUTHKEY_INVALID_LINE", "Invalid SSH authorized_keys line");
   ("PROC_SOCKET_STDIO", "Reverse shell / C2");
   ("CRON_HIGH_RISK", "High-risk cron job");
   ("SUDOERS_PERSISTENCE", "Sudoers persistence");
   ("SYSTEMD_PERSISTENCE", "Systemd persistence");
   ("PAM_PERSISTENCE", "PAM persistence");
   ("PROFILE_HOOK", "Shell profile / RC hook");
   ("KERNEL_MODLOAD_PATH_CHANGED", "Kernel module load path changed");
   ("LD_SO_CONF_CHANGED", "ld.so.conf changed");
   ("SSHD_CONFIG_ANOMALY", "sshd config anomaly");
   ("USER_ACCOUNT_ANOMALY", "User account anomaly");
   ("SUID_INVENTORY_DELTA", "SUID inventory delta");
   ("FILE_CAPABILITY_DELTA", "File capability delta");
   ("LIB_HASH_MISMATCH", "Binary / library hash mismatch");
   ("NETWORK_LISTEN_NEW", "Unexpected network listener");
   ("NETWORK_WEB_WORKER_EGRESS", "Web worker egress")].

(** * Evidence *)

(** [any], as [encoding/json] decodes it. *)
Inductive any :=
| ANil
| ABool (b : bool)
| ANum (literal : string)
| AStr (s : string)
| AArr (l : list any)
| AObj (m : list (string * any)).

Definition get (k : string) (m : list (string * any)) : any :=
  match List.find (λ p, fst p =s? k) m with Some (_, v) => v | None => ANil end.

Record Evidence := mkEvidence {
  evi_Detected : bool;
  evi_RuleID : string;
  evi_Title : string;
  evi_Severity : string;
  evi_Confidence : Z;
  evi_Timestamp : string;
  evi_Summary : string;
  evi_Bullets : list string;
  evi_RawPath : string
}.

#[export] Instance eta_Evidence : Eta Evidence := λ e,
  mkEvidence (evi_Detected e) (evi_RuleID e) (evi_Title e) (evi_Severity e) (evi_Confidence e) (evi_Timestamp e)
    (evi_Summary e) (evi_Bullets e) (evi_RawPath e).

Definition humanRuleTitle (ruleID : string) : string := default ruleID (rule_titles !! ruleID).

Definition trim_to (s : string) (n : Z) : string :=
  let s := trim_space s in
  if slen s <=? n then s else stake (Z.to_nat n) s +:+ "…".

Definition firstLine (s : string) : string :=
  let s := trim_space s in
  match index_byte s nl with Some i => stake i s | None => trim_to s 180 end.

Section Alerts.
(** [json.Unmarshal] into [esSearchResp]: the sources of the hits. *)
Variable unmarshal : string → option (list (list (string * any))).
Variable float_int : string → Z.
Variable sprint : any → string.
(** [time.Parse] with [RFC3339Nano]. *)
Variable parse_time : string → option Time.

Definition any_str (v : any) : string :=
  match v with AStr s => s | ANil => "" | _ => sprint v end.

Definition intNum (v : any) : Z := match v with ANum l => float_int l | _ => 0 end.

Definition stringSlice (v : any) : list string :=
  match v with AArr l => List.filter (λ s, negb (s =s? "")) (map any_str l) | _ => [] end.

Definition entity_field (src : list (string * any)) (k : string) : string :=
  match get "entity" src with AObj ent => any_str (get k ent) | _ => "" end.

Definition humanSummary (ruleID : string) (src : list (string * any)) : string :=
  let evd := any_str (get "evidence" src) in
  let path := entity_field src "path" in
  if ruleID =s? "WEB_SHELL_PATTERN" then "GhostCatcher flagged a PHP webshell at " +:+ path +:+ "."
  else if ruleID =s? "PROC_SUDDEN_ROOT" then "Unprivileged process escalated to root: " +:+ firstLine evd
  else if ruleID =s? "LD_SO_PRELOAD_FILE" then "Global library preload set: " +:+ firstLine evd
  else if ruleID =s? "SSH_AUTHKEY_NEW" then "New SSH key added for user " +:+ entity_field src "user" +:+ "."
  else if ruleID =s? "PROC_SOCKET_STDIO"
  then "Shell process opened outbound C2-like connection: " +:+ firstLine evd
  else firstLine evd.

(** ["2006-01-02 15:04:05 UTC"]. *)
Definition utc_text (t : Time) : string :=
  let '(y, m, d) := GoTime.civil (t / GoTime.day_ns) in
  GoTime.append_int 4 y +:+ "-" +:+ GoTime.append_int 2 m +:+ "-" +:+ GoTime.append_int 2 d +:+ " " +:+
  GoTime.clock_text t +:+ " UTC".

(** A bullet when the text is not empty. *)
Definition bullet (label s : string) : list string := if s =s? "" then [] else [label +:+ s].

Definition humanBullets (src : list (string * any)) : list string :=
  (let t := any_str (get "timestamp" src) in
   if t =s? "" then []
   else match parse_time t with Some t => ["When: " +:+ utc_text t] | None => ["When: " +:+ t] end) ++
  ["Severity: " +:+ any_str (get "severity" src) +:+ " · confidence " +:+ itoa (intNum (get "confidence" src))] ++
  (match stringSlice (get "technique_id" src) with [] => [] | l => ["MITRE: " +:+ sjoin ", " l] end) ++
  bullet "Path: " (entity_field src "path") ++
  bullet "User: " (entity_field src "user") ++
  (match get "process" src with
   | AObj proc =>
       bullet "Process: " (any_str (get "exe" proc)) ++
       (let pid := intNum (get "pid" proc) in if 0 <? pid then ["PID: " +:+ itoa pid] else [])
   | _ => []
   end) ++
  (match stringSlice (get "signals" src) with [] => [] | l => ["Signals: " +:+ sjoin ", " l] end) ++
  (let evd := any_str (get "evidence" src) in if evd =s? "" then [] else ["Evidence: " +:+ trim_to evd 220]).

Definition no_alert (ruleID summary : string) : Evidence :=
  mkEvidence false ruleID (humanRuleTitle ruleID) "" 0 "" summary [] "".

Definition parseESLatest (ruleID rawJSON : string) : Evidence :=
  match unmarshal rawJSON with
  | Some (src :: _) =>
      mkEvidence true ruleID (humanRuleTitle ruleID) (any_str (get "severity" src)) (intNum (get "confidence" src))
        (any_str (get "timestamp" src)) (humanSummary ruleID src) (humanBullets src) (entity_field src "path")
  | _ => no_alert ruleID "No matching alert in Elasticsearch yet."
  end.

(** * Queries *)

(** [e.ssh.Run]: the output and the error of the [n]-th command. *)
Variable ssh : nat → string → string * option string.

Definition curl_head : string := "curl -sf -H 'Content-Type: application/json' 'http://127.0.0.1:9200/ghostcatcher-events/".
Definition quoted (s : string) : string := str dquote +:+ s +:+ str dquote.
Definition term_query (r : string) : string :=
  quoted "query" +:+ ":{" +:+ quoted "term" +:+ ":{" +:+ quoted "rule_id.keyword" +:+ ":" +:+ quoted r +:+ "}}}'".
Definition count_cmd (r : string) : string := curl_head +:+ "_count' -d '{" +:+ term_query r.
Definition search_cmd (r : string) : string :=
  curl_head +:+ "_search' -d '{" +:+ quoted "size" +:+ ":1," +:+ quoted "sort" +:+ ":[{" +:+ quoted "timestamp" +:+
  ":" +:+ quoted "desc" +:+ "}]," +:+ term_query r.

(** The number after ["count":]. *)
Definition count_of (raw : string) : Z :=
  let key := quoted "count" +:+ ":" in
  match sindex raw key with
  | None => 0
  | Some i =>
      let rest := trim_left (Ascii.eqb " ") (sdrop (i + String.length key) raw) in
      fst (atoi (fst (span is_digit rest)))
  end.

(** A query that fails counts as none. *)
Definition es_count (n : nat) (r : string) : Z :=
  match ssh n (count_cmd r) with (raw, None) => count_of raw | (_, Some _) => 0 end.

Fixpoint esCounts (n : nat) (rules : list string) (m : gmap string Z) : gmap string Z :=
  match rules with
  | [] => m
  | r :: rules => esCounts (S n) rules (<[r := es_count n r]> m)
  end.

(** One rule of a round of [waitEvidence]: the evidence, whether it is fresh,
    and the number of commands so far. *)
Definition poll (before : gmap string Z) (n : nat) (r : string) (old : Evidence) : Evidence * bool * nat :=
  match ssh n (search_cmd r) with
  | (_, Some _) => (old, false, S n)
  | (raw, None) =>
      let ev := parseESLatest r raw in
      let now := es_count (S n) r in
      let b := default 0 (before !! r) in
      if now <=? b
      then (ev <| evi_Detected := false |>
               <| evi_Summary := "No new " +:+ r +:+ " alert yet (count still " +:+ itoa now +:+ ")." |>
               <| evi_Bullets := [] |>, false, S (S n))
      else (ev, evi_Detected ev, S (S n))
  end.

Fixpoint poll_round (before : gmap string Z) (n : nat) (rules : list string) (evs : list Evidence)
  : list Evidence * bool * nat :=
  match rules, evs with
  | r :: rules, old :: evs =>
      let '(ev, fresh, n) := poll before n r old in
      let '(evs, all, n) := poll_round before n rules evs in
      (ev :: evs, fresh && all, n)
  | _, _ => (evs, true, n)
  end.

(** The loop; [heads] are the readings of the clock at its test. *)
Fixpoint wait_go (before : gmap string Z) (deadline : Time) (heads : list Time) (n : nat) (rules : list string)
  (evs : list Evidence) : list Evidence * nat :=
  match heads with
  | [] => (evs, n)
  | now :: heads =>
      if time_before now deadline then
        let '(evs, all, n) := poll_round before n rules evs in
        if (all : bool) then (evs, n) else wait_go before deadline heads n rules evs
      else (evs, n)
  end.

Definition waiting (r : string) : Evidence := no_alert r "Waiting for alert…".

Definition waitEvidence (start : Time) (heads : list Time) (n : nat) (rules : list string) (before : gmap string Z)
  (secs : Z) : list Evidence * nat :=
  wait_go before (time_add start (secs * second)) heads n rules (map waiting rules).

(** * The engine *)

Inductive stepStatus := statusIdle | statusRunning | statusDetected | statusMissed | statusOK | statusError.

#[export] Instance stepStatus_eq_dec : EqDecision stepStatus.
Proof. solve_decision. Defined.

Record StepState := mkStepState {
  ss_def : StepDef;
  ss_Status : stepStatus;
  ss_Log : string;
  ss_Error : string;
  ss_Evidence : list Evidence;
  ss_UpdatedAt : string
}.

#[export] Instance eta_StepState : Eta StepState := λ s,
  mkStepState (ss_def s) (ss_Status s) (ss_Log s) (ss_Error s) (ss_Evidence s) (ss_UpdatedAt s).

Record demoEngine := mkEngine { de_steps : list StepState; de_busy : bool; de_target : string }.

#[export] Instance eta_demoEngine : Eta demoEngine := λ e, mkEngine (de_steps e) (de_busy e) (de_target e).

Definition newEngine (target : string) : demoEngine :=
  mkEngine (map (λ d, mkStepState d statusIdle "" "" [] "") allStepDefs) false target.

Definition snapshot (e : demoEngine) : list StepState := de_steps e.

Fixpoint find_step (id : string) (i : nat) (l : list StepState) : option nat :=
  match l with
  | [] => None
  | s :: l => if sd_ID (ss_def s) =s? id then Some i else find_step id (S i) l
  end.

Definition update (i : nat) (f : StepState → StepState) (e : demoEngine) : demoEngine :=
  e <| de_steps := alter f i (de_steps e) |>.

Definition stamp (now : Time) (s : StepState) : StepState := s <| ss_UpdatedAt := GoTime.format_seconds now |>.

(** The critical sections of [runStep]. *)
Definition begin_step (is_print : Z → bool) (id : string) (now : Time) (e : demoEngine) : result (nat * demoEngine) :=
  if de_busy e then Err "another step is already running"
  else match find_step id 0 (de_steps e) with
       | None => Err ("unknown step " +:+ Quote is_print id)
       | Some i =>
           Ok (i, update i (λ s, stamp now (s <| ss_Status := statusRunning |> <| ss_Error := "" |>
                                              <| ss_Log := "" |> <| ss_Evidence := [] |>))
                    (e <| de_busy := true |>))
       end.

Definition set_log (i : nat) (out : string) : demoEngine → demoEngine :=
  update i (λ s, s <| ss_Log := trim_to out 4000 |>).

Definition finish_error (i : nat) (out err : string) (now : Time) : demoEngine → demoEngine :=
  update i (λ s, stamp now (s <| ss_Status := statusError |>
                              <| ss_Error := err +:+ str nl +:+ firstLine out |>)).

Definition reset_evidence : Evidence :=
  mkEvidence true "" "Lab reset" "" 0 "" "Kill-chain artifacts cleared. Ready for a fresh run."
    ["Cleared webshell drops under docker/rce"; "Restored ld.so.preload / lab SSH keys if present"] "".

Definition finish_ok (i : nat) (now : Time) : demoEngine → demoEngine :=
  update i (λ s, stamp now (s <| ss_Status := statusOK |> <| ss_Evidence := [reset_evidence] |>)).

Definition finish_waited (i : nat) (evs : list Evidence) (now : Time) : demoEngine → demoEngine :=
  update i (λ s, stamp now (s <| ss_Status := if forallb evi_Detected evs then statusDetected else statusMissed |>
                              <| ss_Evidence := evs |>)).

Definition release (e : demoEngine) : demoEngine := e <| de_busy := false |>.

(** The clock during a run: at its start, before and during the wait, and at
    its end. *)
Record run_clock := mkRunClock { rk_begin : Time; rk_wait : Time; rk_heads : list Time; rk_end : Time }.

Definition zero_Step : StepState :=
  mkStepState (mkStepDef "" 0 "" "" "" [] "" 0 false) statusIdle "" "" [] "".

(** A whole run, without others in between: the state returned and its error,
    and the number of commands so far. *)
Definition runStep (is_print : Z → bool) (c : run_clock) (n : nat) (id : string) (e : demoEngine)
  : demoEngine * (StepState * option string) * nat :=
  match begin_step is_print id (rk_begin c) e with
  | Err msg => (e, (zero_Step, Some msg), n)
  | Ok (i, e) =>
      let d := ss_def (default zero_Step (de_steps e !! i)) in
      let rules := sd_RuleIDs d in
      let '(before, n) := if sd_ExpectRules d then (esCounts n rules ∅, (n + length rules)%nat) else (∅, n) in
      let '(out, err) := ssh n (sd_RemoteCmd d) in
      let n := S n in
      let e := set_log i out e in
      let '(e, err, n) :=
        match err with
        | Some msg => (finish_error i out msg (rk_end c) e, Some msg, n)
        | None =>
            if negb (sd_ExpectRules d) then (finish_ok i (rk_end c) e, None, n)
            else
              let '(evs, n) := waitEvidence (rk_wait c) (rk_heads c) n rules before (sd_WaitSecs d) in
              (finish_waited i evs (rk_end c) e, None, n)
        end in
      (release e, (default zero_Step (de_steps e !! i), err), n)
  end.

(** * Handlers *)

(** [POST /api/steps/{id}/run]: a conflict when the run was refused. *)
Definition run_handler (is_print : Z → bool) (c : run_clock) (n : nat) (id : string) (e : demoEngine)
  : demoEngine * (string + StepState) * nat :=
  let '(e, (st, err), n) := runStep is_print c n id e in
  (e, match err with
      | Some msg => if sd_ID (ss_def st) =s? "" then inl msg else inr st
      | None => inr st
      end, n).

Definition killchain_order : list string := ["reset"; "webshell"; "sudden_root"; "persist"; "reverse_shell"].

Definition run_order (scope : string) (e : demoEngine) : list string :=
  if scope =s? "all" then map (λ s, sd_ID (ss_def s)) (snapshot e) else killchain_order.

(** [POST /api/run-all]: the states so far and the error that ended it. *)
Fixpoint run_all (is_print : Z → bool) (clocks : nat → run_clock) (n : nat) (order : list string) (e : demoEngine)
  : demoEngine * (list StepState * option string) * nat :=
  match order with
  | [] => (e, ([], None), n)
  | id :: order =>
      let '(e, (st, err), n) := runStep is_print (clocks (length order)) n id e in
      match err with
      | Some msg =>
          if id =s? "reset"
          then let '(e, (sts, err), n) := run_all is_print clocks n order e in (e, (st :: sts, err), n)
          else (e, ([st], Some msg), n)
      | None => let '(e, (sts, err), n) := run_all is_print clocks n order e in (e, (st :: sts, err), n)
      end
  end.

(** ** The health check *)

Inductive hvalue := HBool (b : bool) | HStr (s : string).

(** [strings.Cut]. *)
Definition cut_at (c : ascii) (s : string) : option (string * string) :=
  match index_byte s c with Some i => Some (stake i s, sdrop (S i) s) | None => None end.

Definition health (target out : string) (err : option string) : gmap string hvalue :=
  let h := list_to_map [("target", HStr target); ("ssh", HBool (match err with None => true | Some _ => false end));
                        ("raw", HStr (trim_space out))] in
  let h := match err with Some e => <["error" := HStr e]> h | None => h end in
  fold_left (λ h line, match cut_at "=" (trim_space line) with
                       | Some (k, v) => <[k := HStr v]> h
                       | None => h
                       end) (split nl out) h.

End Alerts.

(** ** The target *)

(** [dialSSH] up to the connection: the user and the address. *)
Definition ssh_target (target : string) : string * string :=
  let '(user, host) := match index_byte target "@" with
                       | Some i => (stake i target, sdrop (S i) target)
                       | None => ("root", target)
                       end in
  (user, match index_byte host ":" with Some _ => host | None => host +:+ ":22" end).

(** [os.UserHomeDir] may fail. *)
Definition expandHome (home : result string) (p : string) : string :=
  if has_prefix p "~/" then match home with Ok h => path_join [h; sdrop 2 p] | Err _ => p end else p.

(** [env] of [main.go]. *)
Definition env_or (getenv : string → string) (k def : string) : string :=
  if getenv k =s? "" then def else getenv k.
