(* ===== verification/ConsoleFacts.v ===== *)
(** Theorems about the demonstration console ([Console.v]): one step runs at a
    time, a step is shown as detected only when alerts were added, and the
    catalogue is consistent. *)
From stdpp Require Import relations.
From S2P Require Export Console.

(** * The catalogue *)

(** Every step is numbered by its place, no two have the same name, the order
    of the kill chain names existing steps, and every rule has a title. *)
Lemma catalogue_consistent :
  map sd_Index allStepDefs = map Z.of_nat (seq 0 (length allStepDefs)) ∧
  bool_decide (NoDup (map sd_ID allStepDefs)) = true ∧
  forallb (λ id, mem_str id (map sd_ID allStepDefs)) killchain_order = true ∧
  forallb (λ d, forallb (λ r, bool_decide (is_Some (rule_titles !! r))) (sd_RuleIDs d)) allStepDefs = true ∧
  forallb (λ d, Bool.eqb (sd_ExpectRules d) (negb (bool_decide (sd_RuleIDs d = [])))) allStepDefs = true.
Proof. vm_compute. repeat split. Qed.

(** * One step at a time *)

(** The runs in progress: the step of each, and whether its status has been
    set.  A run is a sequence of critical sections; others may come between. *)
Definition runs := list (nat * bool).

Inductive section_of (i : nat) : bool → (demoEngine → demoEngine) → Prop :=
| SLog out : section_of i false (set_log i out)
| SError out err now : section_of i true (finish_error i out err now)
| SOk now : section_of i true (finish_ok i now)
| SWaited evs now : section_of i true (finish_waited i evs now).

Inductive estep (is_print : Z → bool) : demoEngine * runs → demoEngine * runs → Prop :=
| EBegin e act id now i e' :
    begin_step is_print id now e = Ok (i, e') → estep is_print (e, act) (e', (i, false) :: act)
| ESection e pre post i fin f :
    section_of i fin f → estep is_print (e, pre ++ (i, false) :: post) (f e, pre ++ (i, fin) :: post)
| ERelease e pre post i :
    estep is_print (e, pre ++ (i, true) :: post) (release e, pre ++ post).

Definition engine_ok (s : demoEngine * runs) : Prop :=
  let '(e, act) := s in
  (length act ≤ 1)%nat ∧ (de_busy e = true ↔ act ≠ []) ∧
  map ss_def (de_steps e) = allStepDefs ∧
  ∀ i st, de_steps e !! i = Some st → ss_Status st = statusRunning → (i, false) ∈ act.

Lemma update_def i f e :
  (∀ s, ss_def (f s) = ss_def s) → map ss_def (de_steps (update i f e)) = map ss_def (de_steps e).
Proof.
  intros Hf. unfold update. cbn. apply list_eq. intros j.
  change (map ss_def ?l) with (ss_def <$> l). rewrite !list_lookup_fmap.
  destruct (decide (i = j)) as [->|Hne]; [rewrite list_lookup_alter_eq|by rewrite list_lookup_alter_ne].
  destruct (de_steps e !! j); cbn; [by rewrite Hf|done].
Qed.

Lemma update_lookup i f e j st :
  de_steps (update i f e) !! j = Some st →
  ∃ st0, de_steps e !! j = Some st0 ∧ st = (if decide (i = j) then f st0 else st0).
Proof.
  unfold update. cbn. destruct (decide (i = j)) as [->|Hne].
  - rewrite list_lookup_alter_eq. intros (st0 & -> & ->)%fmap_Some. eauto.
  - rewrite list_lookup_alter_ne by done. eauto.
Qed.

Lemma begin_ok is_print id now e i e' :
  begin_step is_print id now e = Ok (i, e') →
  de_busy e = false ∧ de_busy e' = true ∧ map ss_def (de_steps e') = map ss_def (de_steps e) ∧
  ∀ j st, de_steps e' !! j = Some st → j = i ∨ de_steps e !! j = Some st.
Proof.
  unfold begin_step. destruct (de_busy e); [done|]. destruct (find_step id 0 (de_steps e)) as [k|]; [|done].
  intros [= <- <-]. split; [done|]. split; [done|]. split; [by rewrite update_def|].
  intros j st (st0 & Hst0 & ->)%update_lookup. destruct (decide (k = j)); [by left|right; exact Hst0].
Qed.

Lemma section_facts i fin f e :
  section_of i fin f →
  de_busy (f e) = de_busy e ∧ map ss_def (de_steps (f e)) = map ss_def (de_steps e) ∧
  ∀ j st, de_steps (f e) !! j = Some st → ss_Status st = statusRunning →
    (∃ st0, de_steps e !! j = Some st0 ∧ ss_Status st0 = statusRunning) ∧ (j = i → fin = false).
Proof.
  intros [out|out err now|now|evs now]; (split; [done|]; split; [by apply update_def|]);
    intros j st (st0 & Hst0 & ->)%update_lookup Hr; destruct (decide (i = j)) as [->|Hne];
    try (split; [by exists st0|congruence]); cbn in Hr; try done.
  by destruct (forallb _ _).
Qed.

Lemma engine_step is_print s s' : estep is_print s s' → engine_ok s → engine_ok s'.
Proof.
  intros Hst Hok. destruct Hst as [e act id now i e' Hb|e pre post i fin f Hf|e pre post i].
  - destruct Hok as (Hlen & Hbusy & Hdefs & Hrun). apply begin_ok in Hb as (Hb & Hb' & Hd & Hl).
    assert (act = []) as -> by (destruct act; [done|]; rewrite Hb in Hbusy; discriminate (proj2 Hbusy ltac:(done))).
    split; [cbn; lia|]. split; [by rewrite Hb'|]. split; [by rewrite Hd|].
    intros j st Hj Hr. destruct (Hl j st Hj) as [->|Hj']; [by left|]. by eapply elem_of_nil in Hrun.
  - destruct Hok as (Hlen & Hbusy & Hdefs & Hrun). destruct (section_facts i fin f e Hf) as (Hb & Hd & Hl).
    assert (pre = [] ∧ post = []) as [-> ->].
    { rewrite length_app in Hlen. cbn in Hlen. by destruct pre, post; cbn in Hlen; try lia. }
    cbn [app] in *. split; [cbn; lia|]. split; [rewrite Hb; split; [done|]; intros _; by apply Hbusy|]. split; [by rewrite Hd|].
    intros j st Hj Hr. destruct (Hl j st Hj Hr) as ((st0 & Hst0 & Hr0) & Hfin).
    specialize (Hrun j st0 Hst0 Hr0). apply list_elem_of_singleton in Hrun as [= ->]. rewrite (Hfin eq_refl). by left.
  - destruct Hok as (Hlen & Hbusy & Hdefs & Hrun).
    assert (pre = [] ∧ post = []) as [-> ->].
    { rewrite length_app in Hlen. cbn in Hlen. by destruct pre, post; cbn in Hlen; try lia. }
    cbn [app] in *. split; [cbn; lia|]. split; [cbn; split; done|]. split; [done|].
    intros j st Hj Hr. specialize (Hrun j st Hj Hr). apply list_elem_of_singleton in Hrun. done.
Qed.

(** C38: Whatever requests arrive and however their critical sections
    interleave, at most one step is being run: the engine is busy exactly while
    a run is in progress, a request that comes meanwhile is refused, only the
    step of that run is shown as running, and the definitions of the steps
    never change. *)
Theorem one_step_at_a_time is_print target e act :
  rtc (estep is_print) (newEngine target, []) (e, act) →
  (length act ≤ 1)%nat ∧ (de_busy e = true ↔ act ≠ []) ∧
  (act ≠ [] → ∀ id now, begin_step is_print id now e = Err "another step is already running") ∧
  map ss_def (de_steps e) = allStepDefs ∧
  ∀ i st, de_steps e !! i = Some st → ss_Status st = statusRunning → act = [(i, false)].
Proof.
  intros Hr.
  assert (engine_ok (newEngine target, [])) as H0.
  { split; [cbn; lia|]. split; [cbn; by split|]. split; [unfold newEngine; cbn [de_steps]; rewrite map_map; apply map_id|].
    intros i st. unfold newEngine. cbn [de_steps]. intros Hi%list_elem_of_lookup_2. apply elem_of_map' in Hi as (d & -> & _). done. }
  assert (engine_ok (e, act)) as (Hlen & Hbusy & Hd & Hrun).
  { revert H0. generalize (newEngine target, @nil (nat * bool)) Hr. clear.
    intros s. generalize (e, act). intros s'. induction 1 as [|s s1 s2 Hs _ IH]; [done|]. intros H0. by apply IH, (engine_step is_print s). }
  split; [done|]. split; [done|]. split; [|split; [done|]].
  - intros Hact id now. unfold begin_step. by rewrite (proj2 Hbusy Hact).
  - intros i st Hi Hs. specialize (Hrun i st Hi Hs). destruct act as [|a [|b act]]; [by apply elem_of_nil in Hrun| |cbn in Hlen; lia].
    apply list_elem_of_singleton in Hrun as ->. done.
Qed.

(** * Detected means that alerts were added *)

Section Detected.
Variables (unmarshal : string → option (list (list (string * any)))) (float_int : string → Z)
  (sprint : any → string) (parse_time : string → option Time) (ssh : nat → string → string * option string).

Abbreviation parse := (parseESLatest unmarshal float_int sprint parse_time).
Abbreviation pollr := (poll_round unmarshal float_int sprint parse_time ssh).

(** An alert of the rule was found, by a command after the [n]-th, and its
    count is above the one before. *)
Definition fresh_alert (before : gmap string Z) (n : nat) (r : string) (ev : Evidence) : Prop :=
  evi_Detected ev = true →
  ∃ k raw, (n ≤ k)%nat ∧ ssh k (search_cmd r) = (raw, None) ∧ ev = parse r raw ∧
    default 0 (before !! r) < es_count ssh (S k) r.

Lemma waiting_fresh before n0 rules : Forall2 (fresh_alert before n0) rules (map waiting rules).
Proof. induction rules as [|r rules IH]; constructor; [done|exact IH]. Qed.

Lemma poll_count before n r old ev fresh n' :
  poll unmarshal float_int sprint parse_time ssh before n r old = (ev, fresh, n') → (n < n' ≤ n + 2)%nat.
Proof.
  unfold poll. destruct (ssh n (search_cmd r)) as [raw [err|]]; [intros [= <- <- <-]; lia|].
  destruct (_ <=? _); intros [= <- <- <-]; lia.
Qed.

Lemma poll_fresh before n0 n r old ev fresh n' :
  (n0 ≤ n)%nat → fresh_alert before n0 r old →
  poll unmarshal float_int sprint parse_time ssh before n r old = (ev, fresh, n') →
  fresh_alert before n0 r ev ∧ (n < n' ≤ n + 2)%nat ∧ (fresh = true → evi_Detected ev = true).
Proof.
  intros Hn Hold. unfold poll. destruct (ssh n (search_cmd r)) as [raw [err|]] eqn:Hs.
  { intros [= <- <- <-]. split; [done|]. split; [lia|done]. }
  destruct (Z.leb_spec (es_count ssh (S n) r) (default 0 (before !! r))); intros [= <- <- <-].
  - split; [|split; [lia|done]]. by intros Hd.
  - split; [|split; [lia|done]]. intros _. by exists n, raw.
Qed.

Lemma poll_round_fresh before n0 rules : ∀ evs n evs' all n',
  (n0 ≤ n)%nat → Forall2 (fresh_alert before n0) rules evs → pollr before n rules evs = (evs', all, n') →
  Forall2 (fresh_alert before n0) rules evs' ∧ (n ≤ n' ≤ n + 2 * length rules)%nat ∧
  (all = true → Forall (λ ev, evi_Detected ev = true) evs').
Proof.
  induction rules as [|r rules IH]; intros evs n evs' all n' Hn Hf; cbn [poll_round].
  { intros [= <- <- <-]. inversion Hf. subst. split; [done|]. split; [cbn; lia|]. by constructor. }
  destruct evs as [|old evs]; [by inversion Hf|]. inversion_clear Hf as [|? ? ? ? Ho Hf'].
  destruct (poll _ _ _ _ _ before n r old) as [[ev fresh] n1] eqn:Hp. apply (poll_fresh before n0) in Hp as (He & Hn1 & Hd); [|done|done].
  destruct (pollr before n1 rules evs) as [[evs1 all1] n2] eqn:Hr. apply IH in Hr as (He1 & Hn2 & Hd1); [|lia|done].
  intros [= <- <- <-]. split; [by constructor|]. split; [cbn; lia|].
  intros [Ha Hb]%andb_true_iff. constructor; auto.
Qed.

Lemma wait_go_fresh before deadline n0 rules : ∀ heads n evs evs' n',
  (n0 ≤ n)%nat → Forall2 (fresh_alert before n0) rules evs →
  wait_go unmarshal float_int sprint parse_time ssh before deadline heads n rules evs = (evs', n') →
  Forall2 (fresh_alert before n0) rules evs' ∧ (n ≤ n')%nat.
Proof.
  induction heads as [|now heads IH]; intros n evs evs' n' Hn Hf; cbn [wait_go]; [by intros [= <- <-]|].
  destruct (time_before now deadline); [|by intros [= <- <-]].
  destruct (pollr before n rules evs) as [[evs1 all] n1] eqn:Hp. apply (poll_round_fresh before n0) in Hp as (He & Hn1 & _); [|done|done].
  destruct all; [intros [= <- <-]; split; [done|lia]|]. intros Hw. apply IH in Hw as [? ?]; [|lia|done]. split; [done|lia].
Qed.

Lemma esCounts_lookup rules : ∀ n m r,
  r ∈ rules → ∃ k, (n ≤ k < n + length rules)%nat ∧ esCounts ssh n rules m !! r = Some (es_count ssh k r).
Proof.
  assert (∀ l n m r, r ∉ l → esCounts ssh n l m !! r = m !! r) as Hnot.
  { intros l. induction l as [|x l IH]; intros n m r Hr; [done|]. apply not_elem_of_cons in Hr as [Hx Hr]. cbn [esCounts].
    rewrite IH by done. by rewrite lookup_insert_ne. }
  induction rules as [|x rules IH]; intros n m r Hr; [by apply elem_of_nil in Hr|]. cbn [esCounts length].
  destruct (decide (r ∈ rules)) as [Hin|Hnin].
  - destruct (IH (S n) (<[x := es_count ssh n x]> m) r Hin) as (k & Hk & ->). exists k. split; [lia|done].
  - apply elem_of_cons in Hr as [->|?]; [|done]. exists n. split; [lia|]. rewrite Hnot by done. by rewrite lookup_insert_eq.
Qed.

Abbreviation run_step := (runStep unmarshal float_int sprint parse_time ssh).

Lemma find_step_lookup id l : ∀ i k, find_step id i l = Some k → ∃ s, l !! (k - i)%nat = Some s ∧ (i ≤ k)%nat ∧ sd_ID (ss_def s) = id.
Proof.
  induction l as [|s l IH]; intros i k; [done|]. cbn [find_step]. destruct (String.eqb_spec (sd_ID (ss_def s)) id) as [Heq|].
  - intros [= <-]. exists s. rewrite Nat.sub_diag. done.
  - intros Hf. destruct (IH _ _ Hf) as (s' & Hs' & Hle & Hid). exists s'. split; [|split; [lia|done]].
    by replace (k - i)%nat with (S (k - S i)) by lia.
Qed.

(** A step that ends as detected was: for every rule it expects, the number
    of alerts in Elasticsearch after the attack was above the number before it
    (a query that fails counts as none).  The two queries are commands of this
    run, one before the attack and one after. *)
Theorem detected_means_new_alerts is_print c n id e e' st err n' :
  run_step is_print c n id e = (e', (st, err), n') → ss_Status st = statusDetected →
  err = None ∧ sd_ID (ss_def st) = id ∧
  ∀ r, r ∈ sd_RuleIDs (ss_def st) → ∃ k1 k2,
    (n ≤ k1 < n + length (sd_RuleIDs (ss_def st)))%nat ∧ (n + length (sd_RuleIDs (ss_def st)) < k2)%nat ∧ es_count ssh k1 r < es_count ssh k2 r.
Proof.
  unfold runStep. destruct (begin_step is_print id (rk_begin c) e) as [[i e1]|msg] eqn:Hb; [|by intros [= <- <- <- <-]].
  assert (∃ s1, de_steps e1 !! i = Some s1 ∧ sd_ID (ss_def s1) = id) as (s1 & Hs1 & Hid).
  { unfold begin_step in Hb. destruct (de_busy e); [done|]. destruct (find_step id 0 (de_steps e)) as [k|] eqn:Hf; [|done].
    apply find_step_lookup in Hf as (s & Hs & _ & Hid). rewrite Nat.sub_0_r in Hs. injection Hb as <- <-.
    unfold update. cbn. rewrite list_lookup_alter_eq, Hs. by eexists. }
  rewrite Hs1. change (default zero_Step (Some s1)) with s1.
  assert (∀ f g : StepState → StepState, default zero_Step (alter f i (alter g i (de_steps e1)) !! i) = f (g s1)) as Hup.
  { intros f g. by rewrite !list_lookup_alter_eq, Hs1. }
  destruct (sd_ExpectRules (ss_def s1)) eqn:Hex.
  - destruct (ssh (n + length (sd_RuleIDs (ss_def s1)))%nat (sd_RemoteCmd (ss_def s1))) as [out [msg|]] eqn:Hssh; cbn [negb].
    { intros [= <- <- <- <-]. rewrite Hup. done. }
    destruct (waitEvidence _ _ _ _ _ _ _ _ _ _ _) as [evs n2] eqn:Hw. intros [= <- <- <- <-].
    rewrite Hup. cbn. intros Hst. split; [done|]. split; [done|]. intros r Hr.
    unfold waitEvidence in Hw. set (n1 := S _) in Hw.
    apply (wait_go_fresh _ _ n1) in Hw as [Hfr _]; [|done|].
    + assert (Forall (λ ev, evi_Detected ev = true) evs) as Hall.
      { destruct (forallb evi_Detected evs) eqn:Ha; [|done]. by apply (forallb_Forall evi_Detected (λ ev, evi_Detected ev = true)) in Ha. }
      apply list_elem_of_lookup in Hr as [j Hj]. destruct (Forall2_lookup_l _ _ _ _ _ Hfr Hj) as (ev & Hev & Hf).
      destruct (Hf (Forall_lookup_1 _ _ _ _ Hall Hev)) as (k & raw & Hk & _ & _ & Hlt).
      destruct (esCounts_lookup (sd_RuleIDs (ss_def s1)) n ∅ r) as (k1 & Hk1 & Hc); [by eapply list_elem_of_lookup_2|].
      rewrite Hc in Hlt. cbn in Hlt. exists k1, (S k). unfold n1 in Hk. split; [lia|]. split; [lia|done].
    + apply waiting_fresh.
  - destruct (ssh n (sd_RemoteCmd (ss_def s1))) as [out [msg|]]; cbn [negb]; intros [= <- <- <- <-].
    + by rewrite Hup.
    + by rewrite Hup.
Qed.

(** The count before the attack is not told from a query that failed: old
    alerts then pass for new ones. *)
Lemma failed_count_passes before n r old raw err :
  ssh n (count_cmd r) = (raw, Some err) → before = esCounts ssh n [r] ∅ →
  ∀ k raw2, ssh k (search_cmd r) = (raw2, None) → evi_Detected (parse r raw2) = true → 0 < es_count ssh (S k) r →
  poll unmarshal float_int sprint parse_time ssh before k r old = (parse r raw2, true, S (S k)).
Proof.
  intros Hs -> k raw2 Hk Hd Hc. unfold poll. rewrite Hk. cbn [esCounts]. rewrite lookup_insert_eq. cbn.
  assert (es_count ssh n r = 0) as -> by (unfold es_count; by rewrite Hs).
  destruct (Z.leb_spec (es_count ssh (S k) r) 0); [lia|]. by rewrite Hd.
Qed.

(** The wait ends: with two seconds between rounds, it makes at most one round
    per two seconds of its time and one more. *)
Lemma wait_bounded before start secs rules : ∀ heads n evs i,
  (∀ j h, heads !! j = Some h → start + (Z.of_nat (i + j)) * (2 * second) ≤ h) →
  (snd (wait_go unmarshal float_int sprint parse_time ssh before (start + secs * second) heads n rules evs) ≤
   n + 2 * length rules * (Z.to_nat (secs / 2 + 1) - i))%nat.
Proof.
  assert (∀ rules n evs evs' all n', pollr before n rules evs = (evs', all, n') → (n' ≤ n + 2 * length rules)%nat) as Hround.
  { clear rules. induction rules as [|r rules IH]; intros n evs evs' all n'; cbn [poll_round]; [intros [= <- <- <-]; lia|].
    destruct evs as [|old evs]; [intros [= <- <- <-]; lia|].
    destruct (poll _ _ _ _ _ before n r old) as [[ev fresh] n1] eqn:Hp.
    apply poll_count in Hp.
    destruct (pollr before n1 rules evs) as [[evs1 all1] n2] eqn:Hr. apply IH in Hr. intros [= <- <- <-]. cbn. lia. }
  induction heads as [|now heads IH]; intros n evs i Hh; cbn [wait_go]; [apply Nat.le_add_r|].
  unfold time_before. destruct (Z.ltb_spec now (start + secs * second)) as [Hlt|]; [|apply Nat.le_add_r].
  pose proof (Hh O now eq_refl) as H0. rewrite Nat.add_0_r in H0.
  assert (i < Z.to_nat (secs / 2 + 1))%nat as Hi.
  { assert (Z.of_nat i * 2 < secs) by (unfold second in *; lia). pose proof (Z.div_le_mono (Z.of_nat i * 2) secs 2). rewrite Z.div_mul in *; lia. }
  destruct (pollr before n rules evs) as [[evs1 all] n1] eqn:Hp. apply Hround in Hp.
  assert (n1 ≤ n + 2 * length rules * (Z.to_nat (secs / 2 + 1) - i))%nat by nia.
  destruct all; [done|].
  etrans; [apply (IH n1 evs1 (S i))|].
  - intros j h Hj. specialize (Hh (S j) h Hj). by replace (S i + j)%nat with (i + S j)%nat by lia.
  - replace (Z.to_nat (secs / 2 + 1) - i)%nat with (S (Z.to_nat (secs / 2 + 1) - S i)) by lia. nia.
Qed.

(** A whole run is a sequence of the sections above: one that is not refused
    takes the engine from no run to no run. *)
Lemma runStep_sections is_print c n id e e' res n' :
  run_step is_print c n id e = (e', res, n') → rtc (estep is_print) (e, []) (e', []).
Proof.
  unfold runStep. destruct (begin_step is_print id (rk_begin c) e) as [[i e1]|msg] eqn:Hb.
  2: { intros [= <- <- <-]. apply rtc_refl. }
  assert (∀ e2, rtc (estep is_print) (e, []) (set_log i e2 e1, [(i, false)])) as Hlog.
  { intros out. eapply rtc_l; [by eapply EBegin|]. eapply rtc_l; [|apply rtc_refl].
    apply (ESection is_print e1 [] [] i false). constructor. }
  assert (∀ out f, section_of i true f → rtc (estep is_print) (e, []) (release (f (set_log i out e1)), [])) as Hend.
  { intros out f Hf. etrans; [apply (Hlog out)|]. eapply rtc_l; [apply (ESection is_print _ [] [] i true f Hf)|].
    eapply rtc_l; [apply (ERelease is_print _ [] [])|]. apply rtc_refl. }
  destruct (if sd_ExpectRules _ then _ else _) as [before n1].
  destruct (ssh n1 _) as [out [msg|]].
  - intros [= <- <- <-]. apply Hend. constructor.
  - destruct (negb _); [|destruct (waitEvidence _ _ _ _ _ _ _ _ _ _ _) as [evs n2]]; intros [= <- <- <-]; apply Hend; constructor.
Qed.

End Detected.

(** * A run *)
Module ConsoleSamples.

Definition answers (n : nat) (cmd : string) : string * option string :=
  match n with
  | 0%nat => ("{" +:+ quoted "count" +:+ ": 1}", None)
  | 2%nat => ("hit", None)
  | 3%nat => ("{" +:+ quoted "count" +:+ ":2}", None)
  | _ => ("", None)
  end.

Definition one_hit (raw : string) : option (list (list (string * any))) :=
  if raw =s? "hit" then Some [[("severity", AStr "high"); ("evidence", AStr "x.php")]] else None.

Definition sample_run (id : string) : demoEngine * (StepState * option string) * nat :=
  runStep one_hit (λ _, 0) (λ _, "") (λ _, None) answers (λ _, true) (mkRunClock 0 0 [1; 2] 3) 0 id (newEngine "t").

Example sample_detected :
  (λ '(e, (st, err), n), (de_busy e, ss_Status st, map evi_Title (ss_Evidence st), err, n)) (sample_run "webshell") =
  (false, statusDetected, ["Webshell on disk"], None, 4%nat).
Proof. vm_compute. reflexivity. Qed.

Lemma detected_means_new_alerts_witness :
  let st := fst (snd (fst (sample_run "webshell"))) in
  ss_Status st = statusDetected ∧ snd (snd (fst (sample_run "webshell"))) = None ∧ sd_ID (ss_def st) = "webshell" ∧
  ∀ r, r ∈ sd_RuleIDs (ss_def st) → ∃ k1 k2,
    (0 ≤ k1 < 0 + length (sd_RuleIDs (ss_def st)))%nat ∧ (0 + length (sd_RuleIDs (ss_def st)) < k2)%nat ∧
    es_count answers k1 r < es_count answers k2 r.
Proof.
  assert (ss_Status (fst (snd (fst (sample_run "webshell")))) = statusDetected) as Hst by (vm_compute; reflexivity).
  split; [exact Hst|].
  apply (detected_means_new_alerts one_hit (λ _, 0) (λ _, "") (λ _, None) answers (λ _, true) (mkRunClock 0 0 [1; 2] 3)
    0 "webshell" (newEngine "t") (fst (fst (sample_run "webshell"))) _ _ (snd (sample_run "webshell"))); [|exact Hst].
  unfold sample_run. destruct (runStep _ _ _ _ _ _ _ _ _ _) as [[e [st err]] n]. reflexivity.
Defined.

Lemma one_step_at_a_time_witness :
  let e := fst (fst (sample_run "cron")) in
  rtc (estep (λ _, true)) (newEngine "t", []) (e, []) ∧
  (length (@nil (nat * bool)) ≤ 1)%nat ∧ (de_busy e = true ↔ @nil (nat * bool) ≠ []) ∧
  (@nil (nat * bool) ≠ [] → ∀ id now, begin_step (λ _, true) id now e = Err "another step is already running") ∧
  map ss_def (de_steps e) = allStepDefs ∧
  ∀ i st, de_steps e !! i = Some st → ss_Status st = statusRunning → @nil (nat * bool) = [(i, false)].
Proof.
  assert (rtc (estep (λ _, true)) (newEngine "t", []) (fst (fst (sample_run "cron")), [])) as Hr.
  { destruct (sample_run "cron") as [[e res] n] eqn:Hs. by eapply runStep_sections. }
  split; [exact Hr|]. exact (one_step_at_a_time (λ _, true) "t" _ _ Hr).
Defined.

(** A refused run and an unknown step leave the engine alone. *)
Example sample_unknown : begin_step (λ _, true) "nope" 0 (newEngine "t") = Err ("unknown step " +:+ quoted "nope").
Proof. vm_compute. reflexivity. Qed.

Example targets :
  map ssh_target ["root@10.0.0.1"; "10.0.0.1"; "bob@h:2222"; "root@fe80::1"] =
  [("root", "10.0.0.1:22"); ("root", "10.0.0.1:22"); ("bob", "h:2222"); ("root", "fe80::1")].
Proof. vm_compute. reflexivity. Qed.

End ConsoleSamples.
