(* ===== verification/ConsoleTerm.v ===== *)
(** [cmd/demo-console/steps.go], what the engine shows on the terminal while it
    runs a step: the lines it prints and the output of the command, which
    [termWriter] cuts into lines.

    The functions follow [Console.runStep] and its parts over the same answers
    of the lab host; what they return is what is given to the hub of [Terminal],
    in order. *)
From S2P Require Export Console TerminalFacts.

(** A kind and a text for [termHub.Write]. *)
Definition note := (string * string)%type.

Definition write_notes (ns : list note) (h : termHub) : termHub := fold_left (λ h '(kind, text), Terminal.Write kind text h) ns h.

(** The output of a command through a [termWriter], in one piece:
    [writer_chunks] shows that the pieces do not matter. *)
Definition write_output (out : string) (h : termHub) : termHub :=
  tw_hub (Flush (Write_writer out (mkWriter h "out" ""))).

Section Notes.
Variable unmarshal : string → option (list (list (string * any))).
Variable float_int : string → Z.
Variable sprint : any → string.
Variable parse_time : string → option Time.
Variable ssh : nat → string → string * option string.

#[local] Abbreviation parse := (parseESLatest unmarshal float_int sprint parse_time).

(** ** Waiting *)

(** The clock of one progress line, by the number of commands so far. *)
Record poll_clock := mkPollClock { pk_since : Time; pk_until : Time; pk_now : Time }.

Definition seconds_left (deadline now : Time) : Z :=
  let left := Z.quot (time_sub deadline now) second in if left <? 0 then 0 else left.

Definition waiting_note (r : string) (b now left : Z) : note :=
  ("meta", "  … still waiting for new " +:+ r +:+ " (before=" +:+ itoa b +:+ " now=" +:+ itoa now +:+ ", " +:+ itoa left +:+ "s left)").

(** One rule of a round; [last] is the time of the last progress line. *)
Definition poll_notes (before : gmap string Z) (deadline : Time) (clk : nat → poll_clock) (n : nat) (r : string) (last : Time)
  : list note * Time :=
  match ssh n (search_cmd r) with
  | (_, Some _) => ([], last)
  | (_, None) =>
      let now := es_count ssh (S n) r in
      let b := default 0 (before !! r) in
      if (now <=? b) && (5 * second <=? time_sub (pk_since (clk n)) last)
      then ([waiting_note r b now (seconds_left deadline (pk_until (clk n)))], pk_now (clk n))
      else ([], last)
  end.

Definition poll_cost (n : nat) (r : string) : nat :=
  match ssh n (search_cmd r) with (_, Some _) => S n | (_, None) => S (S n) end.

Fixpoint round_notes (before : gmap string Z) (deadline : Time) (clk : nat → poll_clock) (n : nat) (rules : list string) (last : Time)
  : list note * Time :=
  match rules with
  | [] => ([], last)
  | r :: rules =>
      let '(ns, last) := poll_notes before deadline clk n r last in
      let '(ns', last) := round_notes before deadline clk (poll_cost n r) rules last in
      (ns ++ ns', last)
  end.

Fixpoint wait_notes (before : gmap string Z) (deadline : Time) (clk : nat → poll_clock) (heads : list Time) (n : nat)
  (rules : list string) (evs : list Evidence) (last : Time) : list note :=
  match heads with
  | [] => []
  | now :: heads =>
      if time_before now deadline then
        let '(ns, last) := round_notes before deadline clk n rules last in
        let '(evs, all, n) := poll_round unmarshal float_int sprint parse_time ssh before n rules evs in
        ns ++ (if (all : bool) then [] else wait_notes before deadline clk heads n rules evs last)
      else []
  end.

(** ** A step *)

Definition heading (title cmd : string) : list note :=
  [("meta", ""); ("meta", "═══ " +:+ title +:+ " ═══"); ("cmd", "root@victim# " +:+ cmd)].

Definition count_notes (rules : list string) (before : gmap string Z) : list note :=
  ("meta", "snapshot ES counts before trigger…") ::
  map (λ r, ("meta", "  " +:+ r +:+ " count=" +:+ itoa (default 0 (before !! r)))) rules.

Definition verdict (ev : Evidence) : note :=
  if evi_Detected ev then ("meta", "DETECTED " +:+ evi_RuleID ev +:+ " — " +:+ firstLine (evi_Summary ev))
  else ("err", "MISS " +:+ evi_RuleID ev +:+ " — no new alert yet").

(** The terminal after a run of step [id]; a refused run shows nothing. *)
Definition runStep_term (is_print : Z → bool) (c : run_clock) (clk : nat → poll_clock) (n : nat) (id : string) (e : demoEngine)
  (h : termHub) : termHub :=
  match begin_step is_print id (rk_begin c) e with
  | Err _ => h
  | Ok (i, e) =>
      let d := ss_def (default zero_Step (de_steps e !! i)) in
      let rules := sd_RuleIDs d in
      let h := write_notes (heading (sd_Title d) (sd_RemoteCmd d)) h in
      let '(before, n) := if sd_ExpectRules d then (esCounts ssh n rules ∅, (n + length rules)%nat) else (∅, n) in
      let h := if sd_ExpectRules d then write_notes (count_notes rules before) h else h in
      let '(out, err) := ssh n (sd_RemoteCmd d) in
      let n := S n in
      let h := write_output out h in
      match err with
      | Some msg => write_notes [("err", "exit: " +:+ msg)] h
      | None =>
          let h := write_notes [("meta", "command finished (exit 0)")] h in
          if negb (sd_ExpectRules d) then write_notes [("meta", "lab artifacts cleared — ready for next act")] h
          else
            let deadline := time_add (rk_wait c) (sd_WaitSecs d * second) in
            let h := write_notes [("meta", "waiting for GhostCatcher → Elasticsearch alerts…")] h in
            let h := write_notes (wait_notes before deadline clk (rk_heads c) n rules (map waiting rules) 0) h in
            let '(evs, _) := waitEvidence unmarshal float_int sprint parse_time ssh (rk_wait c) (rk_heads c) n rules before (sd_WaitSecs d) in
            write_notes (map verdict evs) h
      end
  end.

(** The host check. *)
Definition health_term (out : string) (err : option string) (h : termHub) : termHub :=
  let h := write_notes [("meta", ""); ("meta", "═══ host check ═══");
                        ("cmd", "root@victim# systemctl is-active …; curl WP/ES")] h in
  let h := write_output out h in
  write_notes [match err with
               | Some e => ("err", "health check failed: " +:+ e)
               | None => ("meta", "host check done")
               end] h.

(** * Properties *)

(** The numbering goes on over everything that a run shows. *)
Lemma write_notes_lines ns : ∀ h, lines_ok h → lines_ok (write_notes ns h).
Proof. induction ns as [|[kind text] ns IH]; intros h Hh; [done|]. apply IH, Write_ok, Hh. Qed.

Lemma write_all_lines kind ls : ∀ h, lines_ok h → lines_ok (write_all kind ls h).
Proof. induction ls as [|l ls IH]; intros h Hh; [done|]. apply IH, Write_ok, Hh. Qed.

Lemma write_output_lines out h : lines_ok h → lines_ok (write_output out h).
Proof.
  intros Hh. unfold write_output. rewrite Write_writer_complete. cbn [tw_hub tw_kind tw_buf]. unfold Flush. cbn [tw_buf tw_hub tw_kind].
  destruct (_ =s? ""); cbn [tw_hub]; [|apply Write_ok]; by apply write_all_lines.
Qed.

Lemma runStep_term_lines is_print c clk n id e h : lines_ok h → lines_ok (runStep_term is_print c clk n id e h).
Proof.
  intros Hh. unfold runStep_term. destruct (begin_step is_print id (rk_begin c) e) as [[i e1]|]; [|done]. cbv zeta.
  destruct (sd_ExpectRules _); (destruct (ssh _ _) as [out [msg|]]); cbn [negb];
    repeat (apply write_notes_lines || apply write_output_lines); try done.
  destruct (waitEvidence _ _ _ _ _ _ _ _ _ _ _). by repeat (apply write_notes_lines || apply write_output_lines).
Qed.

(** A refused run leaves the terminal alone. *)
Lemma refused_run_silent is_print c clk n id e h :
  de_busy e = true → runStep_term is_print c clk n id e h = h.
Proof. intros Hb. unfold runStep_term, begin_step. by rewrite Hb. Qed.

(** The verdicts that are printed say what the status says. *)
Lemma verdicts_agree evs :
  forallb evi_Detected evs = true ↔ Forall (λ ns, fst ns = "meta") (map verdict evs).
Proof.
  rewrite forallb_forall, list.Forall_forall. setoid_rewrite list_elem_of_fmap. split.
  - intros Hall ns (ev & -> & Hin%list_elem_of_In). unfold verdict. by rewrite (Hall ev Hin).
  - intros Hall ev Hin. specialize (Hall (verdict ev)). unfold verdict in *. destruct (evi_Detected ev) eqn:Hd; [done|].
    assert (fst ("err", "MISS " +:+ evi_RuleID ev +:+ " — no new alert yet") = "meta") as Hbad; [|done].
    apply Hall. exists ev. rewrite Hd. split; [done|]. by apply list_elem_of_In.
Qed.

(** What is shown of a command does not depend on the pieces in which its output
    came. *)
Lemma pieces_irrelevant ps h :
  tw_hub (Flush (fold_left (λ t p, Write_writer p t) ps (mkWriter h "out" ""))) = write_output (foldr String.append "" ps) h.
Proof.
  destruct (exists_last (l:=split nl (foldr String.append "" ps))) as (ls & rest & Hsplit).
  { intros Hn. assert (Hl : length (split nl (foldr String.append "" ps)) = O) by by rewrite Hn. by rewrite split_complete, length_app in Hl; cbn in Hl; lia. }
  unfold write_output. rewrite (writer_chunks h "out" ps ls rest Hsplit).
  pose proof (writer_chunks h "out" [foldr String.append "" ps] ls rest) as H1. cbn [fold_left foldr] in H1.
  rewrite append_nil_r in H1. by rewrite (H1 Hsplit).
Qed.

End Notes.
