(* ===== verification/Procfs.v ===== *)
(** [internal/procfs]: what the agent reads of [/proc].

    A function that returns [(T, error)] in Go returns the value together with
    [err == nil] here, because some callers use the value in spite of an error.
    The read counter of [internal/budget] is left out. *)
From S2P Require Export GoCrypto GoOS.

Definition proc_path (pid : Z) (name : string) : string := path_join ["/proc"; itoa pid; name].

Definition nul : ascii := "000".

(** * Status *)

Record Status := mkStatus {
  st_Name : string;
  st_TracerPid : Z;
  st_RealUID : Z;
  st_EffUID : Z;
  st_CapEff : string;
  st_CapInh : string;
  st_CapPrm : string
}.

#[export] Instance eta_Status : Eta Status := λ s,
  mkStatus (st_Name s) (st_TracerPid s) (st_RealUID s) (st_EffUID s) (st_CapEff s) (st_CapInh s)
    (st_CapPrm s).

Definition zero_Status : Status := mkStatus "" 0 0 0 "" "" "".

(** The switch on one line of the status file. *)
Definition status_line (s : Status) (line : string) : Status :=
  let value p := trim_space (trim_prefix line p) in
  if has_prefix line "Name:" then s <| st_Name := value "Name:" |>
  else if has_prefix line "TracerPid:" then
    match atoi (value "TracerPid:") with (v, true) => s <| st_TracerPid := v |> | _ => s end
  else if has_prefix line "Uid:" then
    match fields (trim_prefix line "Uid:") with
    | r :: e :: _ => s <| st_RealUID := fst (atoi r) |> <| st_EffUID := fst (atoi e) |>
    | _ => s
    end
  else if has_prefix line "CapEff:" then s <| st_CapEff := value "CapEff:" |>
  else if has_prefix line "CapInh:" then s <| st_CapInh := value "CapInh:" |>
  else if has_prefix line "CapPrm:" then s <| st_CapPrm := value "CapPrm:" |>
  else s.

(** * Memory maps *)

Record MapEntry := mkMapEntry { me_Perms : string; me_Pathname : string; me_IsDeleted : bool }.

Definition map_line (line : string) : option MapEntry :=
  match fields line with
  | _ :: perms :: _ :: _ :: _ :: rest =>
      let pathname := sjoin " " rest in
      if (0 <? length rest)%nat && has_suffix pathname "(deleted)"
      then Some (mkMapEntry perms (trim_space (trim_suffix pathname "(deleted)")) true)
      else Some (mkMapEntry perms pathname false)
  | _ => None
  end.

Definition perm_at (n : nat) (c : ascii) (e : MapEntry) : bool :=
  match String.get n (me_Perms e) with Some d => Ascii.eqb d c | None => false end.

Definition is_rwx (e : MapEntry) : bool :=
  (3 <=? slen (me_Perms e)) && perm_at 0 "r" e && perm_at 1 "w" e && perm_at 2 "x" e &&
  negb (contains (me_Pathname e) "[vdso]" || contains (me_Pathname e) "[vsyscall]").

(** The loops that return at the first entry that passes a test. *)
Definition first_path (p : MapEntry → bool) (entries : list MapEntry) : bool * string :=
  match List.find p entries with Some e => (true, me_Pathname e) | None => (false, "") end.

Definition HasRWXSegment : list MapEntry → bool * string := first_path is_rwx.

Definition world_writable_prefixes : list string := ["/tmp/"; "/dev/shm/"; "/var/tmp/"; "/run/"].

Definition WorldWritableSegmentPathHints : list MapEntry → bool * string :=
  first_path (λ e, existsb (has_prefix (me_Pathname e)) world_writable_prefixes).

Definition HasDeletedExecSegment : list MapEntry → bool * string :=
  first_path (λ e, me_IsDeleted e && negb (me_Pathname e =s? "") && (3 <=? slen (me_Perms e)) &&
                   perm_at 2 "x" e).

Definition is_shared_object (e : MapEntry) : bool :=
  (3 <=? slen (me_Perms e)) && perm_at 2 "x" e &&
  negb ((me_Pathname e =s? "") || has_prefix (me_Pathname e) "[") &&
  (has_suffix (me_Pathname e) ".so" || contains (me_Pathname e) ".so.").

(** The order of the result is that of a map's iteration; it is a set here. *)
Definition LoadedSharedObjects (entries : list MapEntry) : gset string :=
  list_to_set (map me_Pathname (List.filter is_shared_object entries)).

(** * Sockets *)

Definition TCPEstablished : Z := 0x01.
Definition TCPSynSent : Z := 0x02.
Definition TCPListen : Z := 0x0a.

(** [net.IP], a slice of bytes. *)
Abbreviation IP := (list Z).

Record SocketRow := mkSocketRow {
  so_Proto : string;
  so_Local : IP;
  so_LocalP : Z;
  so_Remote : IP;
  so_RemoteP : Z;
  so_State : Z;
  so_Inode : Z;
  so_UID : Z
}.

(** The bytes of each 32-bit word are in reverse order. *)
Definition word_order (raw : list Z) : option IP :=
  match raw with
  | [a; b; c; d] => Some [d; c; b; a]
  | [a0; a1; a2; a3; b0; b1; b2; b3; c0; c1; c2; c3; d0; d1; d2; d3] =>
      Some [a3; a2; a1; a0; b3; b2; b1; b0; c3; c2; c1; c0; d3; d2; d1; d0]
  | _ => None
  end.

Definition parseHexAddr (s : string) : result (IP * Z) :=
  match index_byte s ":" with
  | None => Err "no port"
  | Some i =>
      let '(port, ok) := parse_int 16 32 (sdrop (S i) s) in
      if negb ok then Err "parsing port"
      else match hex_decode (stake i s) with
           | None => Err "encoding/hex"
           | Some raw =>
               match word_order (Sha256.bytes raw) with
               | Some ip => Ok (ip, port)
               | None => Err ("bad addr length " +:+ itoa (slen raw))
               end
           end
  end.

Definition parseSocketLine (proto line : string) : result SocketRow :=
  match fields line with
  | _ :: local :: remote :: state :: _ :: _ :: _ :: uidStr :: _ :: inodeStr :: _ =>
      let? (lip, lp) := parseHexAddr local in
      let? (rip, rp) := parseHexAddr remote in
      let '(stv, ok) := parse_uint 16 8 state in
      if negb ok then Err "parsing state"
      else
        let uid64 := fst (parse_uint 10 32 uidStr) in
        let inode := fst (parse_uint 10 64 inodeStr) in
        Ok (mkSocketRow proto lip lp rip rp stv inode (wrapu 32 uid64))
  | _ => Err "too short"
  end.

Definition socket_proto (path : string) : string :=
  if path =s? "/proc/net/tcp6" then "tcp6" else if path =s? "/proc/net/udp" then "udp"
  else if path =s? "/proc/net/udp6" then "udp6" else "tcp".

(** * Reading *)

Definition keep_ok {A} (r : result A) : option A := match r with Ok a => Some a | Err _ => None end.

(** Keeps the first occurrence of each element. *)
Fixpoint dedup_first (seen : list Z) (l : list Z) : list Z :=
  match l with
  | [] => []
  | x :: l => if existsb (Z.eqb x) seen then dedup_first seen l else x :: dedup_first (x :: seen) l
  end.

Section read.
Context `{FileReader} `{DirReader} `{LinkReader} `{Globber}.

Definition Processes : list Z * bool :=
  match ReadDir "/proc" with
  | Err _ => ([], false)
  | Ok ents =>
      (omap (λ e, if negb (de_IsDir e) then None
                  else match atoi (de_Name e) with (pid, true) => Some pid | _ => None end) ents, true)
  end.

Definition Comm (pid : Z) : string * bool :=
  match ReadFile (proc_path pid "comm") with
  | Err _ => ("", false)
  | Ok b => (trim_space b, true)
  end.

Definition Cmdline (pid : Z) : list string * bool :=
  match ReadFile (proc_path pid "cmdline") with
  | Err _ => ([], false)
  | Ok b => (split nul (trim_right (Ascii.eqb nul) b), true)
  end.

(** One [KEY=value] entry of the environment block. *)
Definition env_entry (m : gmap string string) (part : string) : gmap string string :=
  match index_byte part "=" with
  | Some (S i) => <[stake (S i) part := sdrop (S (S i)) part]> m
  | _ => m
  end.

Definition Environ (pid : Z) : gmap string string * bool :=
  match ReadFile (proc_path pid "environ") with
  | Err _ => (∅, false)
  | Ok b => (fold_left env_entry (split nul b) ∅, true)
  end.

(** The loop of [PPid]: the first [PPid:] line decides. *)
Fixpoint ppid_of (lines : list string) : Z * bool :=
  match lines with
  | [] => (0, false)
  | line :: lines =>
      if has_prefix line "PPid:" then
        match fields line with _ :: v :: _ => atoi v | _ => (0, false) end
      else ppid_of lines
  end.

Definition PPid (pid : Z) : Z * bool :=
  match ReadFile (proc_path pid "status") with
  | Err _ => (0, false)
  | Ok b => ppid_of (fst (scan_lines MaxScanTokenSize b))
  end.

Definition childrenViaScan (parent : Z) : list Z * bool :=
  match Processes with
  | (pids, true) =>
      (List.filter (λ pid, negb (pid =? parent) &&
                           match PPid pid with (ppid, true) => ppid =? parent | _ => false end) pids, true)
  | (_, false) => ([], false)
  end.

Definition children_file (path : string) : list Z :=
  match ReadFile path with
  | Err _ => []
  | Ok b => omap (λ f, match atoi f with (c, true) => Some c | _ => None end) (fields b)
  end.

Definition Children (pid : Z) : list Z * bool :=
  match Glob (path_join ["/proc"; itoa pid; "task"; "*"; "children"]) with
  | Err _ => childrenViaScan pid
  | Ok matches =>
      match dedup_first [] (concat (map children_file matches)) with
      | [] => childrenViaScan pid
      | kids => (kids, true)
      end
  end.

Definition ResolveExe (pid : Z) : string := ok_or "" (Readlink (proc_path pid "exe")).

Definition ReadStatus (pid : Z) : Status * bool :=
  match ReadFile (proc_path pid "status") with
  | Err _ => (zero_Status, false)
  | Ok b => let '(lines, ok) := scan_lines MaxScanTokenSize b in (fold_left status_line lines zero_Status, ok)
  end.

Definition ReadCgroup (pid : Z) : string * bool :=
  match ReadFile (proc_path pid "cgroup") with Err _ => ("", false) | Ok b => (b, true) end.

Definition ReadStartTime (pid : Z) : Z * bool :=
  match ReadFile (proc_path pid "stat") with
  | Err _ => (0, false)
  | Ok s =>
      match last_index_byte s ")" with
      | None => (0, false)
      | Some idx =>
          if slen s <=? Z.of_nat idx + 2 then (0, false)
          else
            match nth_error (fields (sdrop (idx + 2) s)) 19 with
            | None => (0, false)
            | Some f => parse_uint 10 64 f
            end
      end
  end.

(** The walk up the parents; [n] steps are left. *)
Fixpoint Ancestry (cur : Z) (n : nat) : list string :=
  match n with
  | O => []
  | S n =>
      match PPid cur with
      | (ppid, true) =>
          if (ppid =? 0) || (ppid =? cur) then []
          else match Comm ppid with
               | (comm, true) => comm :: Ancestry ppid n
               | (_, false) => []
               end
      | (_, false) => []
      end
  end.

Definition ReadMaps (pid : Z) : list MapEntry * bool :=
  match ReadFile (proc_path pid "maps") with
  | Err _ => ([], false)
  | Ok b => let '(lines, ok) := scan_lines (1024 * 1024) b in (omap map_line lines, ok)
  end.

Definition readSocketFile (path : string) : list SocketRow * bool :=
  match ReadFile path with
  | Err _ => ([], false)
  | Ok b =>
      let '(lines, ok) := scan_lines MaxScanTokenSize b in
      (omap (λ l, keep_ok (parseSocketLine (socket_proto path) l)) (tail lines), ok)
  end.

Definition socket_files : list string :=
  ["/proc/net/tcp"; "/proc/net/tcp6"; "/proc/net/udp"; "/proc/net/udp6"].

Definition ReadNetSockets : list SocketRow * bool :=
  let rows := concat (map (λ p, match readSocketFile p with (rows, true) => rows | _ => [] end) socket_files) in
  match rows with [] => ([], false) | _ => (rows, true) end.

Definition socket_inode (target : string) : option Z :=
  if negb (has_prefix target "socket:[") then None
  else match parse_uint 10 64 (trim_suffix (trim_prefix target "socket:[") "]") with
       | (v, true) => Some v
       | _ => None
       end.

Definition SocketInodes (pid : Z) : gset Z * bool :=
  let base := "/proc/" +:+ itoa pid +:+ "/fd" in
  match ReadDir base with
  | Err _ => (∅, false)
  | Ok ents =>
      (list_to_set (omap (λ e, match Readlink (base +:+ "/" +:+ de_Name e) with
                               | Ok t => socket_inode t
                               | Err _ => None
                               end) ents), true)
  end.

End read.

Example parse_line_sample :
  parseSocketLine "tcp" "   0: 0100007F:1F90 00000000:0000 0A 00000000:00000000 00:00000000 00000000  1000        0 12345 1"
  = Ok (mkSocketRow "tcp" [127; 0; 0; 1] 8080 [0; 0; 0; 0] 0 TCPListen 12345 1000).
Proof. vm_compute. reflexivity. Qed.
