(* ===== verification/ProcfsFacts.v ===== *)
(** Theorems on the [/proc] readers: they recover what the kernel printed. *)
From S2P Require Export Procfs.

(** * White-space separated fields *)

(** Fields of words joined by spaces, up to a final new line. *)
Lemma fields_join ws : Forall word ws → fields (sjoin " " ws +:+ str nl) = ws.
Proof.
  induction 1 as [|w ws Hw Hws IH]; [done|]. destruct ws as [|w' ws].
  - cbn [sjoin]. unfold str. by rewrite fields_word.
  - change (sjoin " " (w :: w' :: ws)) with (w +:+ String " " (sjoin " " (w' :: ws))).
    rewrite append_assoc. change (String " " (sjoin " " (w' :: ws)) +:+ str nl)
      with (String " " (sjoin " " (w' :: ws) +:+ str nl)).
    by rewrite fields_word, IH.
Qed.

Lemma last_index_byte_app a b c :
  sforall (λ d, negb (Ascii.eqb d c)) b = true →
  last_index_byte (a +:+ String c b) c = Some (String.length a).
Proof.
  intros Hb. assert (Hn : ∀ b, sforall (λ d, negb (Ascii.eqb d c)) b = true → last_index_byte b c = None).
  { clear. induction b as [|d b IH]; [done|]. cbn. intros [Hd Hb]%andb_true_iff.
    rewrite IH by done. apply negb_true_iff in Hd. by rewrite Hd. }
  induction a as [|d a IH].
  - change ("" +:+ String c b) with (String c b). cbn [last_index_byte]. by rewrite Hn, Ascii.eqb_refl.
  - change (String d a +:+ String c b) with (String d (a +:+ String c b)). cbn [last_index_byte]. by rewrite IH.
Qed.

Lemma parse_uint_itoa n : 0 ≤ n < 2 ^ 64 → parse_uint 10 64 (itoa n) = (n, true).
Proof.
  intros Hn. assert (Hv : digits_val 10 (itoa n) 0 = Some n).
  { unfold itoa. rewrite (proj2 (Z.ltb_ge n 0)) by lia. apply digits_val_utoa; lia. }
  unfold parse_uint. rewrite (proj2 (String.eqb_neq (itoa n) "") (itoa_nonempty n)), Hv.
  by rewrite (proj2 (Z.ltb_lt n (2 ^ 64))) by lia.
Qed.

(** * The start time *)

(** A field of [/proc/pid/stat] after the command name. *)
Definition stat_field (f : string) : Prop :=
  word f ∧ sforall (λ c, negb (Ascii.eqb c ")")) f = true.

(** The kernel's record: [comm] is any bytes at all. *)
Definition stat_text (id comm : string) (fs : list string) : string :=
  id +:+ " (" +:+ comm +:+ ") " +:+ sjoin " " fs +:+ str nl.

Lemma sforall_sjoin p sep ws :
  sforall p sep = true → Forall (λ w, sforall p w = true) ws → sforall p (sjoin sep ws) = true.
Proof.
  intros Hs. induction 1 as [|w ws Hw Hws IH]; [done|]. destruct ws as [|w' ws]; [done|].
  change (sjoin sep (w :: w' :: ws)) with (w +:+ sep +:+ sjoin sep (w' :: ws)).
  by rewrite !sforall_app, Hw, Hs, IH.
Qed.

Lemma stat_field_itoa n : 0 ≤ n → stat_field (itoa n).
Proof.
  intros Hn. pose proof (itoa_digits n Hn) as Hd. split; [split; [apply itoa_nonempty|]|];
    (eapply sforall_impl; [|exact Hd]); intros c Hc.
  - by rewrite digit_not_space.
  - destruct (Ascii.eqb_spec c ")") as [->|]; done.
Qed.

(** A process instance is identified by its start time, and the reader finds
    it whatever the process calls itself: for every command name, with spaces
    and parentheses or made to look like more fields, the value returned is the
    22nd field that the kernel printed. *)
Theorem ReadStartTime_correct `{FileReader} pid id comm before n after :
  ReadFile (proc_path pid "stat") = Ok (stat_text id comm (before ++ itoa n :: after)) →
  length before = 19%nat → Forall stat_field before → Forall stat_field after → 0 ≤ n < 2 ^ 64 →
  ReadStartTime pid = (n, true).
Proof.
  intros Hread Hlen Hb Ha Hn. unfold ReadStartTime. rewrite Hread.
  set (fs := before ++ itoa n :: after). assert (Hfs : Forall stat_field fs).
  { apply Forall_app. split; [done|]. constructor; [apply stat_field_itoa; lia|done]. }
  set (tail := sjoin " " fs +:+ str nl).
  assert (Htext : stat_text id comm fs = (id +:+ " (" +:+ comm) +:+ String ")" (String " " tail)).
  { unfold stat_text. by rewrite !append_assoc. }
  rewrite Htext, last_index_byte_app.
  2: { cbn [sforall]. cbn. unfold tail. rewrite sforall_app. cbn. rewrite andb_true_r.
       apply sforall_sjoin; [done|]. eapply List.Forall_impl; [|exact Hfs]. by intros ? [_ ?]. }
  set (pre := id +:+ " (" +:+ comm).
  assert (Htl : (1 ≤ String.length tail)%nat) by (unfold tail; rewrite length_append; cbn; lia).
  rewrite (proj2 (Z.leb_gt _ _)) by (unfold slen; rewrite length_append; cbn [String.length]; lia).
  replace (pre +:+ String ")" (String " " tail)) with ((pre +:+ ") ") +:+ tail) by (by rewrite append_assoc).
  replace (String.length pre + 2)%nat with (String.length (pre +:+ ") ")) by (rewrite length_append; done).
  rewrite sdrop_app. unfold tail. rewrite fields_join.
  - unfold fs. rewrite nth_error_app2 by lia. rewrite Hlen, Nat.sub_diag. cbn. by apply parse_uint_itoa.
  - eapply List.Forall_impl; [|exact Hfs]. by intros ? [? _].
Qed.

Definition demo_stat : FileReader := λ p,
  if p =s? "/proc/7/stat" then Ok (stat_text "7" ") R 1 (x" (replicate 19 "0" ++ [itoa 4242; "8"])) else Err "no".

Lemma ReadStartTime_correct_witness : @ReadStartTime demo_stat 7 = (4242, true).
Proof.
  apply (@ReadStartTime_correct demo_stat 7 "7" ") R 1 (x" (replicate 19 "0") 4242 ["8"]);
    [vm_compute; reflexivity|reflexivity| | |lia].
  - apply Forall_replicate. split; [split; [discriminate|reflexivity]|reflexivity].
  - constructor; [split; [split; [discriminate|reflexivity]|reflexivity]|constructor].
Defined.

(** * Socket addresses *)

(** What the kernel prints on a little-endian machine: each 32-bit word of the
    address as 8 hexadecimal digits, a colon, and the port as 4. *)
Fixpoint kernel_words (ip : IP) : string :=
  match ip with
  | a :: b :: c :: d :: r => hex_encode (Sha256.to_string [d; c; b; a]) +:+ kernel_words r
  | _ => ""
  end.

Definition hex4 (p : Z) : string := hex_encode (Sha256.to_string [p / 256; p mod 256]).

Definition kernel_addr (ip : IP) (port : Z) : string :=
  to_upper (kernel_words ip) +:+ ":" +:+ to_upper (hex4 port).

Definition is_byte (b : Z) : Prop := 0 ≤ b < 256.

Lemma hex_digit_cases d (P : Z → Prop) :
  0 ≤ d < 16 → P 0 → P 1 → P 2 → P 3 → P 4 → P 5 → P 6 → P 7 → P 8 → P 9 → P 10 → P 11 → P 12 → P 13 →
  P 14 → P 15 → P d.
Proof.
  intros Hd. intros. assert (H' : d = 0 ∨ d = 1 ∨ d = 2 ∨ d = 3 ∨ d = 4 ∨ d = 5 ∨ d = 6 ∨ d = 7 ∨
    d = 8 ∨ d = 9 ∨ d = 10 ∨ d = 11 ∨ d = 12 ∨ d = 13 ∨ d = 14 ∨ d = 15) by lia.
  repeat destruct H' as [->|H']; try done. by subst.
Qed.

Lemma digit_val_upper d : 0 ≤ d < 16 → digit_val (upper_char (hex_digit d)) = Some d.
Proof. intros Hd. pattern d. by apply hex_digit_cases. Qed.

Lemma hex_val_upper d : 0 ≤ d < 16 → hex_val (upper_char (hex_digit d)) = Some d.
Proof. intros Hd. unfold hex_val. rewrite digit_val_upper by done. by rewrite (proj2 (Z.ltb_lt d 16)) by lia. Qed.

Lemma not_colon d : 0 ≤ d < 16 → Ascii.eqb (upper_char (hex_digit d)) ":" = false.
Proof. intros Hd. pattern d. by apply hex_digit_cases. Qed.

Lemma nibbles c : 0 ≤ code c / 16 < 16 ∧ 0 ≤ code c mod 16 < 16.
Proof. pose proof (code_range c). pose proof (Z.div_mod (code c) 16). pose proof (Z.mod_pos_bound (code c) 16). lia. Qed.

Lemma hex_decode_upper s : hex_decode (to_upper (hex_encode s)) = Some s.
Proof.
  unfold to_upper. induction s as [|c s IH]; [done|]. cbn [hex_encode smap hex_decode].
  destruct (nibbles c). rewrite !hex_val_upper, IH by done.
  rewrite <-(Z.div_mod (code c) 16) by lia. by rewrite chr_code.
Qed.

Lemma index_colon s r : index_byte (to_upper (hex_encode s) +:+ String ":" r) ":" = Some (String.length (to_upper (hex_encode s))).
Proof.
  unfold to_upper. induction s as [|c s IH]; [done|]. cbn [hex_encode smap String.length].
  destruct (nibbles c).
  match goal with |- context[String ?x (String ?y ?z) +:+ ?t] =>
    change (String x (String y z) +:+ t) with (String x (String y (z +:+ t))) end.
  cbn [index_byte]. rewrite !not_colon by done. by rewrite IH.
Qed.

Lemma bytes_to_string l : Forall is_byte l → Sha256.bytes (Sha256.to_string l) = l.
Proof. induction 1 as [|b l Hb _ IH]; [done|]. cbn. by rewrite code_chr, IH. Qed.

Lemma split_sign_hex d r :
  0 ≤ d < 16 → split_sign (String (upper_char (hex_digit d)) r) = (false, String (upper_char (hex_digit d)) r).
Proof. intros Hd. pattern d. by apply hex_digit_cases. Qed.

Lemma parse_port p : 0 ≤ p < 65536 → parse_int 16 32 (to_upper (hex4 p)) = (p, true).
Proof.
  intros Hp. unfold hex4.
  assert (Hb : is_byte (p / 256) ∧ is_byte (p mod 256)).
  { unfold is_byte. pose proof (Z.div_mod p 256). pose proof (Z.mod_pos_bound p 256). lia. }
  destruct Hb as [Hh Hl]. cbn [Sha256.to_string hex_encode]. rewrite !code_chr by done.
  assert (Hn : ∀ b, is_byte b → 0 ≤ b / 16 < 16 ∧ 0 ≤ b mod 16 < 16).
  { unfold is_byte. intros b ?. pose proof (Z.div_mod b 16). pose proof (Z.mod_pos_bound b 16). lia. }
  destruct (Hn _ Hh) as [H1 H2], (Hn _ Hl) as [H3 H4]. unfold to_upper. cbn [smap].
  unfold parse_int. rewrite split_sign_hex by done.
  cbn [String.eqb digits_val]. rewrite !digit_val_upper by done.
  rewrite !(λ d H, proj2 (Z.ltb_lt d 16) (proj2 H)) by done.
  pose proof (Z.div_mod p 256). pose proof (Z.div_mod (p / 256) 16). pose proof (Z.div_mod (p mod 256) 16).
  replace (((((0 * 16 + p / 256 / 16) * 16 + (p / 256) mod 16) * 16 + p mod 256 / 16) * 16 + (p mod 256) mod 16))
    with p by lia.
  by rewrite (proj2 (Z.leb_gt (2 ^ (32 - 1)) p)) by (cbn; lia).
Qed.

Lemma sdrop_S_app a c b : sdrop (S (String.length a)) (a +:+ String c b) = b.
Proof. induction a as [|d a IH]; [done|]. cbn in *. apply IH. Qed.

(** The socket tables are read back exactly: for every IPv4 or IPv6 address
    and every port, parsing the text that the kernel prints for them gives that
    address and that port. *)
Theorem parseHexAddr_kernel ip port :
  (length ip = 4%nat ∨ length ip = 16%nat) → Forall is_byte ip → 0 ≤ port < 65536 →
  parseHexAddr (kernel_addr ip port) = Ok (ip, port).
Proof.
  intros Hlen Hip Hport.
  assert (Hraw : ∃ raw, kernel_words ip = hex_encode (Sha256.to_string raw) ∧ Forall is_byte raw ∧
                        word_order raw = Some ip).
  { destruct Hlen as [Hlen|Hlen].
    - destruct ip as [|a [|b [|c [|d [|? ?]]]]]; try done. exists [d; c; b; a].
      split; [cbn [kernel_words]; by rewrite append_nil_r|]. split; [|reflexivity].
      repeat (apply Forall_cons_1 in Hip as [? Hip]). repeat (apply Forall_cons_2; [done|]). done.
    - destruct ip as [|a0 [|a1 [|a2 [|a3 [|b0 [|b1 [|b2 [|b3 [|c0 [|c1 [|c2 [|c3 [|d0 [|d1 [|d2
        [|d3 [|? ?]]]]]]]]]]]]]]]]]; try done.
      exists [a3; a2; a1; a0; b3; b2; b1; b0; c3; c2; c1; c0; d3; d2; d1; d0].
      split; [cbn [kernel_words]; by rewrite append_nil_r|]. split; [|reflexivity].
      repeat (apply Forall_cons_1 in Hip as [? Hip]). repeat (apply Forall_cons_2; [done|]). done. }
  destruct Hraw as (raw & Hw & Hb & Ho). unfold parseHexAddr, kernel_addr. rewrite Hw.
  change (":" +:+ to_upper (hex4 port)) with (String ":" (to_upper (hex4 port))).
  rewrite index_colon. rewrite sdrop_S_app, parse_port by done. cbv beta iota.
  rewrite stake_app, hex_decode_upper, bytes_to_string, Ho by done; done.
Qed.

Lemma parseHexAddr_kernel_witness :
  parseHexAddr (kernel_addr [10; 11; 2; 1] 8080) = Ok ([10; 11; 2; 1], 8080) ∧
  kernel_addr [10; 11; 2; 1] 8080 = "01020B0A:1F90".
Proof.
  split; [|reflexivity]. apply (parseHexAddr_kernel [10; 11; 2; 1] 8080);
    [left; reflexivity| |lia]. repeat apply Forall_cons_2; try apply Forall_nil_2; unfold is_byte; lia.
Defined.
