(* ===== verification/GoNet.v ===== *)
(** The parts of Go's [net] package that the agent uses: parsing and printing
    of addresses, and address blocks.

    [net.IP] is a list of bytes: 4, 16, or none at all for [nil]. *)
From S2P Require Export Procfs.

(** * Parsing *)

(** A decimal octet, without leading zeros. *)
Definition dec_octet (s : string) : option Z :=
  if (s =s? "") || negb (sforall is_digit s) then None
  else if (1 <? slen s) && has_prefix s "0" then None
  else match digits_val 10 s 0 with Some v => if v <=? 255 then Some v else None | None => None end.

Definition v4_fields (s : string) : option (list Z) :=
  match split "." s with
  | [a; b; c; d] =>
      match dec_octet a, dec_octet b, dec_octet c, dec_octet d with
      | Some a, Some b, Some c, Some d => Some [a; b; c; d]
      | _, _, _, _ => None
      end
  | _ => None
  end.

Definition is_hex (c : ascii) : bool := match hex_val c with Some _ => true | None => false end.

(** The groups of an IPv6 address; [ell] is where [::] stood. *)
Fixpoint v6_groups (fuel : nat) (s : string) (out : list Z) (ell : option nat)
  : option (list Z * option nat) :=
  match fuel with
  | O => None
  | S n =>
      if (16 <=? length out)%nat then (if s =s? "" then Some (out, ell) else None)
      else
        let '(ds, rest) := span is_hex s in
        if (ds =s? "") || (4 <? slen ds) then None
        else
          match rest, digits_val 16 ds 0 with
          | _, None => None
          | "", Some v => Some (out ++ [v / 256; v mod 256], ell)
          | String c rest', Some v =>
              if Ascii.eqb c "." then
                if negb (match ell with Some _ => true | None => false end) && negb (length out =? 12)%nat then None
                else if (16 <? length out + 4)%nat then None
                else match v4_fields s with Some f => Some (out ++ f, ell) | None => None end
              else if negb (Ascii.eqb c ":") || (rest' =s? "") then None
              else
                let out := out ++ [v / 256; v mod 256] in
                match rest' with
                | String ":" rest'' =>
                    match ell with
                    | Some _ => None
                    | None => if rest'' =s? "" then Some (out, Some (length out))
                              else v6_groups n rest'' out (Some (length out))
                    end
                | _ => v6_groups n rest' out ell
                end
          end
  end.

Definition parse_v6 (s : string) : option (list Z) :=
  let r :=
    if has_prefix s "::" then
      let s := sdrop 2 s in
      if s =s? "" then Some ([], Some O) else v6_groups 10 s [] (Some O)
    else v6_groups 10 s [] None in
  match r with
  | None => None
  | Some (out, ell) =>
      if (length out <? 16)%nat then
        match ell with
        | None => None
        | Some e => Some (take e out ++ replicate (16 - length out) 0 ++ drop e out)
        end
      else match ell with Some _ => None | None => Some out end
  end.

Definition v4_prefix : list Z := replicate 10 0 ++ [0xff; 0xff].

(** [netip.ParseAddr] of an address without a zone: whether it was written as
    IPv4, and its 16 bytes. *)
Fixpoint addr_kind (s : string) : option bool :=
  match s with
  | "" => None
  | String c r =>
      if Ascii.eqb c "." then Some true else if Ascii.eqb c ":" then Some false
      else if Ascii.eqb c "%" then None else addr_kind r
  end.

Definition ParseAddr (s : string) : option (bool * IP) :=
  match addr_kind s with
  | Some true => (λ f, (true, v4_prefix ++ f)) <$> v4_fields s
  | Some false => (λ f, (false, f)) <$> parse_v6 s
  | None => None
  end.

Definition ParseIP (s : string) : option IP := snd <$> ParseAddr s.

Definition To4 (ip : IP) : option IP :=
  if (length ip =? 4)%nat then Some ip
  else if (length ip =? 16)%nat && bool_decide (take 12 ip = v4_prefix) then Some (drop 12 ip)
  else None.

(** * Printing *)

Definition v6_group (ip : IP) (i : nat) : Z := nth (2 * i) ip 0 * 256 + nth (2 * i + 1) ip 0.

Fixpoint zero_run (ip : IP) (i fuel : nat) : nat :=
  match fuel with
  | O => O
  | S n => if (i <? 8)%nat && (v6_group ip i =? 0) then S (zero_run ip (S i) n) else O
  end.

(** The first longest run of at least two zero groups: its start and length. *)
Definition best_run (ip : IP) : nat * nat :=
  fold_left (λ best i, let l := zero_run ip i 8 in
                       if (2 <=? l)%nat && (snd best <? l)%nat then (i, l) else best) (seq 0 8) (255, 0)%nat.

Fixpoint v6_text (ip : IP) (start len i fuel : nat) : string :=
  match fuel with
  | O => ""
  | S n =>
      if (8 <=? i)%nat then ""
      else if (i =? start)%nat then
        let j := (start + len)%nat in
        "::" +:+ (if (8 <=? j)%nat then "" else utoa 16 (v6_group ip j) +:+ v6_text ip start len (S j) n)
      else (if (0 <? i)%nat then ":" else "") +:+ utoa 16 (v6_group ip i) +:+ v6_text ip start len (S i) n
  end.

Definition ip_String (ip : IP) : string :=
  if (length ip =? 0)%nat then "<nil>"
  else match To4 ip with
       | Some [a; b; c; d] => sjoin "." (map itoa [a; b; c; d])
       | _ => if (length ip =? 16)%nat then let '(s, l) := best_run ip in v6_text ip s l 0 9
              else "?" +:+ hex_encode (Sha256.to_string ip)
       end.

Example ip_samples :
  map (fmap ip_String ∘ ParseIP)
    ["10.0.0.1"; "::1"; "2001:DB8::A:0:0:1"; "::ffff:1.2.3.4"; "fd00:ec2::254"; "01.2.3.4"; "1::2::3"; "::"] =
  [Some "10.0.0.1"; Some "::1"; Some "2001:db8::a:0:0:1"; Some "1.2.3.4"; Some "fd00:ec2::254"; None; None; Some "::"].
Proof. vm_compute. reflexivity. Qed.

(** * Blocks *)

Record IPNet := mkIPNet { ipn_IP : IP; ipn_Mask : list Z }.

(** [CIDRMask]: [n] ones, in [len] bytes. *)
Fixpoint cidr_mask (n : Z) (len : nat) : list Z :=
  match len with
  | O => []
  | S l => if 8 <=? n then 0xff :: cidr_mask (n - 8) l else (256 - 2 ^ (8 - n)) :: cidr_mask 0 l
  end.

Definition ip_mask (ip mask : list Z) : IP := zip_with Z.land ip mask.

Definition ParseCIDR (s : string) : option (IP * IPNet) :=
  match index_byte s "/" with
  | None => None
  | Some i =>
      match ParseAddr (stake i s) with
      | None => None
      | Some (is4, addr) =>
          let mask := sdrop (S i) s in
          let len := if is4 then 4%nat else 16%nat in
          if (mask =s? "") || negb (sforall is_digit mask) then None
          else match digits_val 10 mask 0 with
               | None => None
               | Some n =>
                   if 8 * Z.of_nat len <? n then None
                   else
                     let m := cidr_mask n len in
                     let ip := if is4 then drop 12 addr else addr in
                     Some (addr, mkIPNet (ip_mask ip m) m)
               end
      end
  end.

(** [networkNumberAndMask]. *)
Definition network_number (n : IPNet) : option (IP * list Z) :=
  let ip := match To4 (ipn_IP n) with Some ip => Some ip
            | None => if (length (ipn_IP n) =? 16)%nat then Some (ipn_IP n) else None end in
  match ip with
  | None => None
  | Some ip =>
      if (length (ipn_Mask n) =? 4)%nat then
        (if (length ip =? 4)%nat then Some (ip, ipn_Mask n) else None)
      else if (length (ipn_Mask n) =? 16)%nat then
        Some (ip, if (length ip =? 4)%nat then drop 12 (ipn_Mask n) else ipn_Mask n)
      else None
  end.

(** The form in which addresses are compared. *)
Definition short (ip : IP) : IP := match To4 ip with Some x => x | None => ip end.

Definition same_under (m nn ip : list Z) : bool :=
  forallb (λ '(a, (b, c)), Z.land a c =? Z.land b c) (zip nn (zip ip m)).

Definition net_Contains (n : IPNet) (ip : IP) : bool :=
  match network_number n with
  | None => (length (short ip) =? 0)%nat
  | Some (nn, m) =>
      if negb (length (short ip) =? length nn)%nat then false else same_under m nn (short ip)
  end.

Example cidr_samples :
  map (λ '(c, a), match ParseCIDR c, ParseIP a with Some (_, n), Some ip => Some (net_Contains n ip) | _, _ => None end)
    [("192.168.2.0/24", "192.168.2.5"); ("192.168.2.0/24", "192.168.3.5"); ("fe80::/10", "febf::1");
     ("fe80::/10", "fec0::1"); ("10.0.0.0/33", "10.0.0.1"); ("::ffff:1.2.3.0/120", "1.2.3.9"); ("0.0.0.0/0", "::1")] =
  [Some true; Some false; Some true; Some false; None; Some true; Some false].
Proof. vm_compute. reflexivity. Qed.
