(* ===== verification/Ioc.v ===== *)
(** [internal/ioc]: indicator lists, and the three look-ups.

    The feed is written only while it is loaded; its mutex is left out. *)
From S2P Require Export GoNet.

Record Feed := mkFeed {
  fd_hashes : gset string;
  fd_ips : gset string;
  fd_cidrs : list IPNet;
  fd_domains : gset string
}.

#[export] Instance eta_Feed : Eta Feed := λ f,
  mkFeed (fd_hashes f) (fd_ips f) (fd_cidrs f) (fd_domains f).

Definition NewFeed : Feed := mkFeed ∅ ∅ [] ∅.

Definition addHash (f : Feed) (v : string) : Feed :=
  f <| fd_hashes := fd_hashes f ∪ {[ to_lower (trim_space v) ]} |>.

Definition addIP (f : Feed) (v : string) : Feed :=
  let v := trim_space v in
  match ParseCIDR v with
  | Some (_, n) => f <| fd_cidrs := fd_cidrs f ++ [n] |>
  | None => match ParseIP v with
            | Some ip => f <| fd_ips := fd_ips f ∪ {[ ip_String ip ]} |>
            | None => f
            end
  end.

Definition addDomain (f : Feed) (v : string) : Feed :=
  f <| fd_domains := fd_domains f ∪ {[ to_lower (trim_space (trim_prefix v ".")) ]} |>.

(** The lines of a feed file that are handed to [add]. *)
Definition indicator (line : string) : option string :=
  let line := trim_space line in
  if (line =s? "") || has_prefix line "#" then None else Some line.

Section load.
Context `{FileReader}.

Definition loadInto (add : Feed → string → Feed) (f : Feed) (path : string) : Feed * bool :=
  match ReadFile path with
  | Err _ => (f, false)
  | Ok b => let '(lines, ok) := scan_lines (1024 * 1024) b in (fold_left add (omap indicator lines) f, ok)
  end.

(** The files of one kind, up to the first error. *)
Fixpoint load_files (add : Feed → string → Feed) (f : Feed) (paths : list string) : Feed * bool :=
  match paths with
  | [] => (f, true)
  | p :: paths =>
      match loadInto add f p with
      | (f, true) => load_files add f paths
      | (f, false) => (f, false)
      end
  end.

Definition Load_feed (f : Feed) (hashFiles ipFiles domainFiles : list string) : Feed * bool :=
  match load_files addHash f hashFiles with
  | (f, false) => (f, false)
  | (f, true) =>
      match load_files addIP f ipFiles with
      | (f, false) => (f, false)
      | (f, true) => load_files addDomain f domainFiles
      end
  end.

End load.

(** A nil feed matches nothing. *)
Definition MatchHash (f : option Feed) (h : string) : bool :=
  match f with
  | None => false
  | Some f => bool_decide (to_lower (trim_space h) ∈ fd_hashes f)
  end.

Definition MatchIP (f : option Feed) (ip : IP) : bool :=
  match f with
  | None => false
  | Some f =>
      if (length ip =? 0)%nat then false
      else bool_decide (ip_String ip ∈ fd_ips f) || existsb (λ n, net_Contains n ip) (fd_cidrs f)
  end.

Definition MatchDomain (f : option Feed) (d : string) : bool :=
  match f with
  | None => false
  | Some f =>
      if d =s? "" then false
      else
        let d := to_lower (trim_space d) in
        bool_decide (d ∈ fd_domains f) ||
        existsb (λ suffix, has_suffix d ("." +:+ suffix)) (elements (fd_domains f))
  end.

Definition Sizes (f : Feed) : Z * Z * Z * Z :=
  (Z.of_nat (size (fd_hashes f)), Z.of_nat (size (fd_ips f)), Z.of_nat (length (fd_cidrs f)),
   Z.of_nat (size (fd_domains f))).
