(* ===== verification/IocFacts.v ===== *)
(** Theorems on indicator feeds: address blocks contain what they denote, and
    each look-up answers for the lines that were loaded. *)
From S2P Require Export Ioc ProcfsFacts.

(** * Address blocks *)

(** An address as a big-endian number. *)
Fixpoint ip_num (ip : IP) : Z :=
  match ip with [] => 0 | b :: r => b * 256 ^ Z.of_nat (length r) + ip_num r end.

Lemma ip_num_range ip : Forall is_byte ip → 0 ≤ ip_num ip < 256 ^ Z.of_nat (length ip).
Proof.
  induction 1 as [|b r Hb Hr IH]; [cbn; lia|]. cbn [ip_num length].
  rewrite Nat2Z.inj_succ, Z.pow_succ_r by lia. unfold is_byte in Hb. nia.
Qed.

Lemma byte_mask a k :
  is_byte a → 0 ≤ k ≤ 8 → Z.land a (256 - 2 ^ (8 - k)) = a / 2 ^ (8 - k) * 2 ^ (8 - k).
Proof.
  intros Ha Hk.
  assert (Hall : forallb (λ k, forallb (λ a, Z.land (Z.of_nat a) (256 - 2 ^ (8 - Z.of_nat k)) =?
                   Z.of_nat a / 2 ^ (8 - Z.of_nat k) * 2 ^ (8 - Z.of_nat k)) (seq 0 256)) (seq 0 9) = true)
    by (vm_compute; reflexivity).
  rewrite forallb_forall in Hall. specialize (Hall (Z.to_nat k) ltac:(apply in_seq; lia)).
  rewrite forallb_forall in Hall. unfold is_byte in Ha. specialize (Hall (Z.to_nat a) ltac:(apply in_seq; lia)).
  rewrite !Z2Nat.id in Hall by lia. by apply Z.eqb_eq.
Qed.

Lemma cidr_mask_length n len : length (cidr_mask n len) = len.
Proof. revert n. induction len as [|l IH]; intros n; [done|]. cbn. case_match; cbn; by rewrite IH. Qed.

Lemma ip_mask_length a m : length m = length a → length (ip_mask a m) = length a.
Proof. intros H. unfold ip_mask. rewrite length_zip_with. lia. Qed.

(** Masking twice changes nothing, so containment compares masked addresses. *)
Lemma same_under_iff m a b :
  length m = length a → length b = length a →
  same_under m (ip_mask a m) b = true ↔ ip_mask a m = ip_mask b m.
Proof.
  unfold same_under, ip_mask. revert m b. induction a as [|x a IH]; intros [|k m] [|y b] Hm Hb; try done.
  cbn. rewrite andb_true_iff, Z.eqb_eq, IH by (cbn in *; lia).
  rewrite <-Z.land_assoc, Z.land_diag. split; [by intros [-> ->]|by intros [= -> ->]].
Qed.

Lemma pow256 l : 256 ^ Z.of_nat l = 2 ^ (8 * Z.of_nat l).
Proof. by rewrite Z.pow_mul_r by lia. Qed.

(** The leading bits of a number whose first byte is [a]. *)
Lemma lead_div a x l n :
  0 ≤ x < 256 ^ Z.of_nat l → 0 ≤ n ≤ 8 * Z.of_nat (S l) →
  (a * 256 ^ Z.of_nat l + x) / 2 ^ (8 * Z.of_nat (S l) - n) =
  if 8 <=? n then a * 2 ^ (n - 8) + x / 2 ^ (8 * Z.of_nat l - (n - 8)) else a / 2 ^ (8 - n).
Proof.
  intros Hx Hn. rewrite Nat2Z.inj_succ in *. destruct (Z.leb_spec 8 n) as [H8|H8].
  - replace (8 * Z.succ (Z.of_nat l) - n) with (8 * Z.of_nat l - (n - 8)) by lia.
    replace (a * 256 ^ Z.of_nat l) with (a * 2 ^ (n - 8) * 2 ^ (8 * Z.of_nat l - (n - 8))).
    { rewrite Z.div_add_l by (apply Z.pow_nonzero; lia). done. }
    rewrite pow256, <-Z.mul_assoc, <-Z.pow_add_r by lia. do 2 f_equal. lia.
  - replace (8 * Z.succ (Z.of_nat l) - n) with (8 * Z.of_nat l + (8 - n)) by lia.
    rewrite Z.pow_add_r, <-Z.div_div, <-pow256 by lia.
    rewrite Z.div_add_l by (apply Z.pow_nonzero; lia). by rewrite (Z.div_small x), Z.add_0_r.
Qed.

Lemma div_range x l n :
  0 ≤ x < 256 ^ Z.of_nat l → 0 ≤ n ≤ 8 * Z.of_nat l → 0 ≤ x / 2 ^ (8 * Z.of_nat l - n) < 2 ^ n.
Proof.
  intros Hx Hn. rewrite pow256 in Hx. assert (0 < 2 ^ (8 * Z.of_nat l - n)) by (apply Z.pow_pos_nonneg; lia).
  split; [apply Z.div_pos; lia|]. apply Z.div_lt_upper_bound; [lia|]. rewrite <-Z.pow_add_r by lia.
  replace (8 * Z.of_nat l - n + n) with (8 * Z.of_nat l) by lia. lia.
Qed.

(** Masking by [n] ones keeps exactly the leading [n] bits. *)
Lemma ip_mask_eq_iff a b n :
  Forall is_byte a → Forall is_byte b → length b = length a → 0 ≤ n ≤ 8 * Z.of_nat (length a) →
  let m := cidr_mask n (length a) in
  ip_mask a m = ip_mask b m ↔
  ip_num a / 2 ^ (8 * Z.of_nat (length a) - n) = ip_num b / 2 ^ (8 * Z.of_nat (length a) - n).
Proof.
  intros Ha. revert b n. induction Ha as [|x a Hx Ha IH]; intros [|y b] n Hb Hlen Hn; try done.
  apply Forall_cons_1 in Hb as [Hy Hb]. cbn in Hlen. injection Hlen as Hlen. cbn [length] in *.
  pose proof (ip_num_range a Ha) as Ra. pose proof (ip_num_range b Hb) as Rb. rewrite Hlen in Rb.
  cbn [ip_num cidr_mask]. rewrite Hlen, !lead_div by done. unfold ip_mask in *.
  destruct (Z.leb_spec 8 n) as [H8|H8]; cbn [zip_with].
  - specialize (IH b (n - 8) Hb Hlen ltac:(lia)). cbn in IH.
    pose proof (byte_mask x 8 Hx ltac:(lia)) as Mx. pose proof (byte_mask y 8 Hy ltac:(lia)) as My.
    change (256 - 2 ^ (8 - 8)) with 255 in Mx, My. rewrite Mx, My. change (2 ^ (8 - 8)) with 1.
    rewrite !Z.div_1_r, !Z.mul_1_r.
    pose proof (div_range _ _ (n - 8) Ra ltac:(lia)). pose proof (div_range _ _ (n - 8) Rb ltac:(lia)).
    split.
    + intros [= -> Hr]. by rewrite (proj1 IH Hr).
    + intros Heq. assert (x = y) as -> by nia. f_equal. apply IH. lia.
  - specialize (IH b 0 Hb Hlen ltac:(lia)). cbn in IH.
    assert (Hz : zip_with Z.land a (cidr_mask 0 (length a)) = zip_with Z.land b (cidr_mask 0 (length a))).
    { apply IH. rewrite Z.sub_0_r, <-pow256, !Z.div_small; lia. }
    rewrite Hz, !byte_mask by (done || lia). assert (0 < 2 ^ (8 - n)) by (apply Z.pow_pos_nonneg; lia).
    split; [intros [= He]; nia|by intros ->].
Qed.

(** [ip] has the leading [n] bits of [base], and its family. *)
Definition in_block (base : IP) (n : Z) (ip : IP) : Prop :=
  length ip = length base ∧
  ip_num base / 2 ^ (8 * Z.of_nat (length base) - n) = ip_num ip / 2 ^ (8 * Z.of_nat (length base) - n).

(** The block that a line of the feed denotes: its family's base address and
    its number of fixed bits.  An IPv4 block may be written as an IPv6 one. *)
Definition block_of (s : string) : option (IP * Z) :=
  match index_byte s "/" with
  | None => None
  | Some i =>
      match ParseAddr (stake i s) with
      | None => None
      | Some (is4, addr) =>
          let mask := sdrop (S i) s in
          if (mask =s? "") || negb (sforall is_digit mask) then None
          else match digits_val 10 mask 0 with
               | None => None
               | Some n =>
                   if is4 then (if n <=? 32 then Some (drop 12 addr, n) else None)
                   else if 128 <? n then None
                   else if (96 <=? n) && bool_decide (take 12 addr = v4_prefix)
                   then Some (drop 12 addr, n - 96) else Some (addr, n)
               end
      end
  end.

(** ** What the parsers return *)

Definition byte_list (len : nat) (ip : IP) : Prop := length ip = len ∧ Forall is_byte ip.

Lemma digit_val_nonneg c d : digit_val c = Some d → 0 ≤ d.
Proof.
  unfold digit_val, is_digit, is_lower, is_upper, in_range. pose proof (code_range c).
  repeat (case_match; [intros [= <-]; lia|]). done.
Qed.

Lemma digits_val_nonneg base s a v : 0 ≤ base → 0 ≤ a → digits_val base s a = Some v → 0 ≤ v.
Proof.
  intros Hb. revert a. induction s as [|c s IH]; cbn; intros a Ha; [congruence|].
  destruct (digit_val c) as [d|] eqn:Hd; [|done]. apply digit_val_nonneg in Hd.
  case_match; [|done]. apply IH. lia.
Qed.

Lemma dec_octet_byte s v : dec_octet s = Some v → is_byte v.
Proof.
  unfold dec_octet. do 2 (case_match; [done|]). destruct (digits_val 10 s 0) as [w|] eqn:E; [|done].
  destruct (Z.leb_spec w 255); [|done]. intros [= <-]. split; [|lia].
  by apply (digits_val_nonneg 10 s 0).
Qed.

Lemma v4_fields_bytes s f : v4_fields s = Some f → byte_list 4 f.
Proof.
  unfold v4_fields. destruct (split "." s) as [|a [|b [|c [|d [|? ?]]]]]; try done.
  destruct (dec_octet a) eqn:Ha, (dec_octet b) eqn:Hb, (dec_octet c) eqn:Hc, (dec_octet d) eqn:Hd; try done.
  intros [= <-]. split; [done|].
  repeat (apply Forall_cons_2; [eapply dec_octet_byte; eassumption|]). apply Forall_nil_2.
Qed.

Lemma digits_val_hex s a b :
  0 ≤ a → digits_val 16 s a = Some b → 0 ≤ b < (a + 1) * 16 ^ slen s.
Proof.
  revert a. induction s as [|c s IH]; cbn [digits_val]; intros a Ha.
  { intros [= <-]. change (slen "") with 0. rewrite Z.pow_0_r. lia. }
  destruct (digit_val c) as [d|] eqn:Hd; [|done]. destruct (Z.ltb_spec d 16); [|done].
  apply digit_val_nonneg in Hd.
  intros Hb%IH; [|lia]. unfold slen in *. cbn [String.length]. rewrite Nat2Z.inj_succ, Z.pow_succ_r by lia.
  assert (0 < 16 ^ Z.of_nat (String.length s)) by (apply Z.pow_pos_nonneg; lia). nia.
Qed.

Lemma hex_group_bytes ds v : (4 <? slen ds) = false → digits_val 16 ds 0 = Some v → byte_list 2 [v / 256; v mod 256].
Proof.
  intros Hl Hv%digits_val_hex; [|done]. apply Z.ltb_ge in Hl.
  assert (16 ^ slen ds ≤ 16 ^ 4) by (apply Z.pow_le_mono_r; lia). change (16 ^ 4) with 65536 in *.
  split; [done|]. pose proof (Z.div_mod v 256). pose proof (Z.mod_pos_bound v 256).
  repeat (apply Forall_cons_2; [unfold is_byte; lia|]). apply Forall_nil_2.
Qed.

Definition groups_ok (out : list Z) : Prop :=
  (length out ≤ 16)%nat ∧ Nat.even (length out) = true ∧ Forall is_byte out.

Lemma groups_ok_app out k l :
  groups_ok out → Nat.even k = true → (length out + k ≤ 16)%nat → byte_list k l → groups_ok (out ++ l).
Proof.
  intros (H1 & H2 & H3) Hk Hle [Hl Hb]. unfold groups_ok. rewrite length_app, Hl.
  split; [done|]. split; [by rewrite Nat.even_add, H2, Hk|by apply Forall_app].
Qed.

Lemma v6_groups_ok fuel s out ell out' ell' :
  groups_ok out → v6_groups fuel s out ell = Some (out', ell') → groups_ok out'.
Proof.
  revert s out ell. induction fuel as [|n IH]; intros s out ell Hok; cbn [v6_groups]; [done|].
  destruct (Nat.leb_spec 16 (length out)) as [H16|H16]; [case_match; [congruence|done]|].
  destruct (span is_hex s) as [ds rest]. destruct ((ds =s? "") || (4 <? slen ds)) eqn:Hds; [done|].
  apply orb_false_iff in Hds as [_ Hds]. destruct (digits_val 16 ds 0) as [v|] eqn:Hv; [|by destruct rest].
  assert (H2 : groups_ok (out ++ [v / 256; v mod 256])).
  { apply (groups_ok_app _ 2); [done|done| |by eapply hex_group_bytes].
    destruct Hok as (_ & He & _). destruct (decide (length out = 15%nat)) as [Ho|]; [by rewrite Ho in He|lia]. }
  destruct rest as [|c rest]; [congruence|]. destruct (Ascii.eqb c ".").
  - case_match; [done|]. destruct (Nat.ltb_spec 16 (length out + 4)); [done|].
    destruct (v4_fields s) as [f|] eqn:Hf; [|done]. intros [= <- <-].
    apply (groups_ok_app _ 4); [done|done|lia|by eapply v4_fields_bytes].
  - case_match; [done|]. destruct rest as [|c' rest]; [eauto|].
    destruct (Ascii.eqb_spec c' ":") as [->|Hc].
    + destruct ell; [done|]. case_match; [congruence|eauto].
    + intros H'. apply (IH (String c' rest) (out ++ [v / 256; v mod 256]) ell H2). rewrite <-H'.
      destruct c' as [[] [] [] [] [] [] [] []]; first [done|by destruct Hc].
Qed.

Lemma parse_v6_bytes s ip : parse_v6 s = Some ip → byte_list 16 ip.
Proof.
  unfold parse_v6.
  set (r := if has_prefix s "::" then _ else _).
  destruct r as [[out ell]|] eqn:Hr; [|done]. assert (Hok : groups_ok out).
  { assert (Hnil : groups_ok []) by (split; [cbn; lia|by split]). unfold r in Hr.
    repeat case_match; simplify_eq; eauto using v6_groups_ok. }
  destruct Hok as (H16 & _ & Hb). destruct (Nat.ltb_spec (length out) 16).
  - destruct ell as [e|]; [|done]. intros [= <-]. split.
    + rewrite !length_app, length_replicate, length_take, length_drop. lia.
    + rewrite !Forall_app. split_and!; [by apply Forall_take|apply Forall_replicate; unfold is_byte; lia|by apply Forall_drop].
  - destruct ell; [done|]. intros [= <-]. split; [lia|done].
Qed.

Lemma ParseAddr_bytes s is4 addr :
  ParseAddr s = Some (is4, addr) → byte_list 16 addr ∧ (is4 = true → take 12 addr = v4_prefix).
Proof.
  unfold ParseAddr. destruct (addr_kind s) as [[]|]; [| |done].
  - destruct (v4_fields s) as [f|] eqn:Hf; [|done]. cbn. intros [= <- <-].
    apply v4_fields_bytes in Hf as [Hl Hb]. split; [|done]. split; [cbn; by rewrite Hl|].
    unfold is_byte in *. by repeat (apply Forall_cons_2; [lia|]).
  - destruct (parse_v6 s) as [f|] eqn:Hf; [|done]. cbn. intros [= <- <-].
    split; [by eapply parse_v6_bytes|done].
Qed.

(** ** Containment *)

Lemma cidr_mask_nth n len i :
  (i < len)%nat → 0 ≤ n < 8 * Z.of_nat (S i) → 0 ≤ nth i (cidr_mask n len) 0 ≤ 254.
Proof.
  revert n i. induction len as [|l IH]; intros n i Hi Hn; [lia|]. cbn [cidr_mask].
  destruct (Z.leb_spec 8 n); destruct i as [|i]; cbn [nth]; try lia.
  - apply IH; lia.
  - assert (2 ^ 1 ≤ 2 ^ (8 - n) ≤ 2 ^ 8) by (split; apply Z.pow_le_mono_r; lia). cbn in *. lia.
  - apply IH; lia.
Qed.

Lemma land_255 a : is_byte a → Z.land a 255 = a.
Proof. intros Ha. change 255 with (Z.ones 8). rewrite Z.land_ones by lia. apply Z.mod_small. exact Ha. Qed.

Lemma land_not_255 a m : 0 ≤ m ≤ 254 → Z.land a m ≠ 255.
Proof.
  intros Hm He. assert (H255 : Z.land 255 m = 255) by (by rewrite <-He, <-Z.land_assoc, Z.land_diag).
  assert (Hall : forallb (λ m, negb (Z.land 255 (Z.of_nat m) =? 255)) (seq 0 255) = true) by (vm_compute; reflexivity).
  rewrite forallb_forall in Hall. specialize (Hall (Z.to_nat m) ltac:(apply in_seq; lia)).
  rewrite Z2Nat.id, H255 in Hall by lia. done.
Qed.

Lemma mask_mapped a b n :
  Forall is_byte a → length a = 12%nat → 96 ≤ n → 
  ip_mask (a ++ b) (cidr_mask n 16) = a ++ ip_mask b (cidr_mask (n - 96) 4).
Proof.
  intros Ha Hlen Hn. change 16%nat with (12 + 4)%nat. unfold ip_mask.
  assert (Hgen : ∀ k n, 8 * Z.of_nat k ≤ n → ∀ a : IP, Forall is_byte a → length a = k →
     zip_with Z.land (a ++ b) (cidr_mask n (k + 4)) = a ++ zip_with Z.land b (cidr_mask (n - 8 * Z.of_nat k) 4)).
  { clear. induction k as [|k IH]; intros n Hn a Ha Hl.
    - destruct a; [|done]. cbn [plus app]. by replace (n - 8 * Z.of_nat 0) with n by lia.
    - destruct a as [|x a]; [done|]. apply Forall_cons_1 in Ha as [Hx Ha]. cbn [plus cidr_mask app].
      rewrite (proj2 (Z.leb_le 8 n)) by lia. cbn [zip_with]. rewrite land_255 by done.
      rewrite IH; [|lia|done|by injection Hl]. by replace (n - 8 - 8 * Z.of_nat k) with (n - 8 * Z.of_nat (S k)) by lia. }
  by rewrite (Hgen 12%nat n) by (done || lia).
Qed.

Lemma mask_not_mapped a n :
  length a = 16%nat → Forall is_byte a → 0 ≤ n ≤ 128 →
  take 12 a ≠ v4_prefix ∨ n < 96 → To4 (ip_mask a (cidr_mask n 16)) = None.
Proof.
  intros Hlen Ha Hn Hor. unfold To4.
  assert (Hl : length (ip_mask a (cidr_mask n 16)) = 16%nat) by (rewrite ip_mask_length; by rewrite ?cidr_mask_length).
  rewrite Hl. cbn [Nat.eqb andb]. case_bool_decide as Hp; [|done]. exfalso.
  destruct (Z.ltb_spec n 96) as [H96|H96].
  - assert (H11 : nth 11 (ip_mask a (cidr_mask n 16)) 0 = 255).
    { rewrite <-(take_drop 12 (ip_mask a _)), Hp. done. }
    pose proof (cidr_mask_nth n 16 11 ltac:(lia) ltac:(lia)) as Hm.
    assert (H11' : nth 11 (ip_mask a (cidr_mask n 16)) 0 = Z.land (nth 11 a 0) (nth 11 (cidr_mask n 16) 0)).
    { pose proof (cidr_mask_length n 16) as Hml. clear -Hlen Hml. unfold ip_mask.
      revert Hml. generalize (cidr_mask n 16). intros m Hml.
      do 12 (destruct a as [|? a]; [done|]; destruct m as [|? m]; [done|]). done. }
    rewrite H11' in H11. by apply land_not_255 in H11.
  - destruct Hor as [Hor|]; [|lia]. destruct Hor. rewrite <-(take_drop 12 a) in Hp.
    rewrite mask_mapped in Hp; [|by apply Forall_take|by rewrite length_take, Hlen|done].
    rewrite take_app_le, take_take in Hp by (rewrite length_take, Hlen; lia). done.
Qed.

Lemma short_bytes ip : Forall is_byte ip → Forall is_byte (short ip).
Proof.
  intros H. unfold short, To4. case_match eqn:E; [|done]. revert E.
  repeat case_match; intros; simplify_eq; [done|by apply Forall_drop].
Qed.

(** Containment in a block whose network number is a masked address. *)
Lemma net_Contains_masked net a n ip :
  network_number net = Some (ip_mask a (cidr_mask n (length a)), cidr_mask n (length a)) →
  Forall is_byte a → Forall is_byte ip → 0 ≤ n ≤ 8 * Z.of_nat (length a) →
  net_Contains net ip = true ↔ in_block a n (short ip).
Proof.
  intros Hnn Ha Hip%short_bytes Hn. unfold net_Contains, in_block. rewrite Hnn.
  rewrite ip_mask_length by apply cidr_mask_length.
  destruct (Nat.eqb_spec (length (short ip)) (length a)) as [He|He]; cbn [negb]; [|naive_solver].
  rewrite same_under_iff by (rewrite ?cidr_mask_length; done).
  rewrite ip_mask_eq_iff by done. naive_solver.
Qed.

Lemma To4_mapped x : length x = 4%nat → To4 (v4_prefix ++ x) = Some x.
Proof.
  intros Hx. unfold To4. rewrite length_app, Hx. cbn [length v4_prefix replicate app plus Nat.eqb andb].
  by rewrite bool_decide_true.
Qed.

Lemma ParseCIDR_block s base n :
  block_of s = Some (base, n) →
  ∃ addr net, ParseCIDR s = Some (addr, net) ∧
    ∀ ip, Forall is_byte ip → net_Contains net ip = true ↔ in_block base n (short ip).
Proof.
  unfold block_of, ParseCIDR. destruct (index_byte s "/") as [i|]; [|done].
  destruct (ParseAddr (stake i s)) as [[is4 addr]|] eqn:Haddr; [|done].
  apply ParseAddr_bytes in Haddr as [[Hlen Hb] H4].
  destruct ((sdrop (S i) s =s? "") || _); [done|].
  destruct (digits_val 10 _ 0) as [k|] eqn:Hk; [|done]. apply digits_val_nonneg in Hk; [|done|done].
  assert (H12 : length (drop 12 addr) = 4%nat) by (rewrite length_drop, Hlen; done).
  destruct is4.
  - destruct (Z.leb_spec k 32); [|done]. intros [= <- <-]. cbn [Z.mul Z.of_nat].
    rewrite (proj2 (Z.ltb_ge _ _)) by lia. do 2 eexists. split; [done|]. intros ip Hip.
    apply net_Contains_masked; [|by apply Forall_drop|done|lia]. unfold network_number, To4. cbn [ipn_IP ipn_Mask].
    rewrite ip_mask_length, H12 by (by rewrite cidr_mask_length, H12). cbn [Nat.eqb].
    by rewrite ip_mask_length, H12, cidr_mask_length by (by rewrite cidr_mask_length, H12).
  - destruct (Z.ltb_spec 128 k); [done|]. rewrite (proj2 (Z.ltb_ge _ _)) by lia.
    destruct ((96 <=? k) && bool_decide (take 12 addr = v4_prefix)) eqn:Hm; intros [= <- <-];
      (do 2 eexists; split; [done|]); intros ip Hip.
    + apply andb_true_iff in Hm as [Hk96%Z.leb_le Hp%bool_decide_eq_true].
      apply net_Contains_masked; [|by apply Forall_drop|done|lia]. unfold network_number. cbn [ipn_IP ipn_Mask].
      assert (Hmask : ip_mask addr (cidr_mask k 16) = v4_prefix ++ ip_mask (drop 12 addr) (cidr_mask (k - 96) 4)).
      { rewrite <-(take_drop 12 addr) at 1. rewrite mask_mapped, Hp; [done| | |done].
        - by apply Forall_take.
        - by rewrite length_take, Hlen. }
      assert (Hml : length (ip_mask (drop 12 addr) (cidr_mask (k - 96) 4)) = 4%nat)
        by (by rewrite ip_mask_length, H12 by (by rewrite cidr_mask_length, H12)).
      rewrite Hmask, (To4_mapped _ Hml). cbv beta iota. rewrite Hml, cidr_mask_length. cbn [Nat.eqb].
      rewrite H12. do 2 f_equal.
      assert (Hd : ∀ j n l, 8 * Z.of_nat j ≤ n → drop j (cidr_mask n (j + l)) = cidr_mask (n - 8 * Z.of_nat j) l).
      { clear. induction j as [|j IH]; intros n l Hn; [cbn; by rewrite Z.sub_0_r|]. cbn [plus cidr_mask].
        rewrite (proj2 (Z.leb_le 8 n)) by lia. cbn [drop]. rewrite IH by lia. f_equal. lia. }
      apply (Hd 12%nat k 4%nat). lia.
    + apply net_Contains_masked; [|done|done|lia]. unfold network_number. cbn [ipn_IP ipn_Mask].
      rewrite mask_not_mapped; [|done|done|lia|].
      * rewrite ip_mask_length, Hlen by (by rewrite cidr_mask_length, Hlen). cbn [Nat.eqb].
        by rewrite cidr_mask_length, ip_mask_length, Hlen by (by rewrite cidr_mask_length, Hlen).
      * apply andb_false_iff in Hm as [Hm%Z.leb_gt|Hm%bool_decide_eq_false]; auto.
Qed.

Lemma ParseCIDR_none s : block_of s = None → ParseCIDR s = None.
Proof.
  unfold block_of, ParseCIDR. destruct (index_byte s "/") as [i|]; [|done].
  destruct (ParseAddr (stake i s)) as [[is4 addr]|]; [|done]. case_match; [done|].
  destruct (digits_val 10 _ 0) as [k|]; [|done]. destruct is4; cbn [Z.mul Z.of_nat].
  - destruct (Z.leb_spec k 32); [done|]. by rewrite (proj2 (Z.ltb_lt _ _)) by lia.
  - destruct (Z.ltb_spec 128 k); [|by case_match]. by rewrite (proj2 (Z.ltb_lt _ _)) by lia.
Qed.

(** * Feeds *)

Section feeds.
Context `{FileReader}.

(** The lines of the files that carry an indicator. *)
Definition feed_lines (paths : list string) : list string :=
  concat (map (λ p, match ReadFile p with
                    | Ok b => omap indicator (fst (scan_lines (1024 * 1024) b))
                    | Err _ => []
                    end) paths).

Lemma load_files_ok add f paths f' :
  load_files add f paths = (f', true) → f' = fold_left add (feed_lines paths) f.
Proof.
  revert f. induction paths as [|p paths IH]; intros f; cbn [load_files]; [by intros [= <-]|].
  unfold feed_lines, loadInto in *. cbn [map concat]. destruct (ReadFile p) as [b|]; [|done].
  destruct (scan_lines (1024 * 1024) b) as [ls ok]. cbn [fst]. destruct ok; [|done].
  rewrite fold_left_app. apply IH.
Qed.

Lemma Load_feed_ok f hs ips ds f' :
  Load_feed f hs ips ds = (f', true) →
  f' = fold_left addDomain (feed_lines ds) (fold_left addIP (feed_lines ips) (fold_left addHash (feed_lines hs) f)).
Proof.
  unfold Load_feed. destruct (load_files addHash f hs) as [f1 []] eqn:H1; [|done].
  destruct (load_files addIP f1 ips) as [f2 []] eqn:H2; [|done]. intros H3.
  apply load_files_ok in H1, H2, H3. by subst.
Qed.

(** Each adder leaves the other indicators alone. *)
Lemma fold_keeps {A} (proj : Feed → A) (add : Feed → string → Feed) ls f :
  (∀ f v, proj (add f v) = proj f) → proj (fold_left add ls f) = proj f.
Proof. intros Hk. revert f. induction ls as [|v ls IH]; intros f; [done|]. cbn. by rewrite IH, Hk. Qed.

Lemma fold_adds {A B} (proj : Feed → A) (mem : B → A → Prop) (P : string → B → Prop)
  (add : Feed → string → Feed) ls f x :
  (∀ f v x, mem x (proj (add f v)) ↔ mem x (proj f) ∨ P v x) →
  mem x (proj (fold_left add ls f)) ↔ mem x (proj f) ∨ ∃ v, v ∈ ls ∧ P v x.
Proof.
  intros Hadd. revert f. induction ls as [|v ls IH]; intros f; cbn [fold_left].
  - split; [auto|]. intros [?|(v & Hv%elem_of_nil & _)]; done.
  - rewrite IH, Hadd. setoid_rewrite elem_of_cons. naive_solver.
Qed.

Lemma addIP_keeps_domains f v : fd_domains (addIP f v) = fd_domains f.
Proof. unfold addIP. destruct (ParseCIDR _) as [[]|]; [done|]. by destruct (ParseIP _). Qed.

Lemma addIP_ips f v x :
  x ∈ fd_ips (addIP f v) ↔ x ∈ fd_ips f ∨
    (ParseCIDR (trim_space v) = None ∧ ∃ a, ParseIP (trim_space v) = Some a ∧ x = ip_String a).
Proof.
  unfold addIP. destruct (ParseCIDR _) as [[]|] eqn:E; [cbn; naive_solver|].
  destruct (ParseIP _); cbn; [rewrite elem_of_union, elem_of_singleton|]; naive_solver.
Qed.

Lemma addIP_cidrs f v n :
  n ∈ fd_cidrs (addIP f v) ↔ n ∈ fd_cidrs f ∨ ∃ a, ParseCIDR (trim_space v) = Some (a, n).
Proof.
  unfold addIP. destruct (ParseCIDR _) as [[a m]|] eqn:E; cbn.
  - rewrite elem_of_app, list_elem_of_singleton. naive_solver.
  - destruct (ParseIP _); cbn; naive_solver.
Qed.

(** What a line of an address feed stands for. *)
Definition denotes (line : string) (ip : IP) : Prop :=
  match block_of (trim_space line) with
  | Some (base, n) => in_block base n (short ip)
  | None => ∃ a, ParseIP (trim_space line) = Some a ∧ ip_String a = ip_String ip
  end.

Definition domain_of (line : string) : string := to_lower (trim_space (trim_prefix line ".")).

End feeds.

(** An address matches a loaded feed exactly when some line of the address
    files denotes it: a block in CIDR notation that has the same leading bits
    and the same family, IPv4 in IPv6 clothing included, or an address with the
    same text.  Nothing in the hash and domain files can make an address
    match. *)
Theorem MatchIP_iff `{FileReader} hs ips ds f ip :
  Load_feed NewFeed hs ips ds = (f, true) → ip ≠ [] → Forall is_byte ip →
  MatchIP (Some f) ip = true ↔ ∃ v, v ∈ feed_lines ips ∧ denotes v ip.
Proof.
  intros ->%Load_feed_ok Hne Hip. unfold MatchIP. destruct ip as [|b ip']; [done|]. cbn [length Nat.eqb].
  set (ip := b :: ip') in *. rewrite orb_true_iff, bool_decide_eq_true.
  rewrite (existsb_elem _ (λ n, net_Contains n ip = true)) by done.
  rewrite !(fold_keeps fd_ips addDomain), !(fold_keeps fd_cidrs addDomain) by done.
  rewrite (fold_adds fd_ips elem_of _ addIP _ _ _ (addIP_ips)).
  setoid_rewrite (λ n, fold_adds fd_cidrs elem_of _ addIP (feed_lines ips)
    (fold_left addHash (feed_lines hs) NewFeed) n addIP_cidrs).
  rewrite (fold_keeps fd_ips addHash), (fold_keeps fd_cidrs addHash) by done. cbn [fd_ips fd_cidrs NewFeed].
  unfold denotes. split.
  - intros [[[]%elem_of_empty|(v & Hv & Hc & a & Ha & He)]|(n & [[]%elem_of_nil|(v & Hv & a & Hc)] & Hn)];
      exists v; (split; [done|]).
    + destruct (block_of (trim_space v)) as [[base k]|] eqn:E; [|eauto].
      apply ParseCIDR_block in E as (? & ? & ? & _). congruence.
    + destruct (block_of (trim_space v)) as [[base k]|] eqn:E.
      * apply ParseCIDR_block in E as (? & ? & Hc' & Hiff). rewrite Hc in Hc'. injection Hc' as -> ->. by apply Hiff.
      * apply ParseCIDR_none in E. congruence.
  - intros (v & Hv & Hd). destruct (block_of (trim_space v)) as [[base k]|] eqn:E.
    + apply ParseCIDR_block in E as (a & n & Hc & Hiff). right. exists n. split; [eauto|]. by apply Hiff.
    + destruct Hd as (a & Ha & He). left. right. exists v. apply ParseCIDR_none in E. eauto.
Qed.

Definition demo_feed : FileReader := λ p,
  if p =s? "ips" then Ok ("# bad hosts" +:+ str nl +:+ "192.168.2.0/24" +:+ str nl) else
  if p =s? "doms" then Ok (".Evil.example" +:+ str nl) else Err "no".

Lemma MatchIP_iff_witness :
  ∃ f, @Load_feed demo_feed NewFeed [] ["ips"] ["doms"] = (f, true) ∧
    (MatchIP (Some f) [192; 168; 2; 5] = true ↔
     ∃ v, v ∈ @feed_lines demo_feed ["ips"] ∧ denotes v [192; 168; 2; 5]).
Proof.
  eexists. split; [vm_compute; reflexivity|].
  apply (@MatchIP_iff demo_feed [] ["ips"] ["doms"]); [vm_compute; reflexivity|discriminate|].
  repeat (apply Forall_cons_2; [unfold is_byte; lia|]). apply Forall_nil_2.
Defined.

Lemma has_suffix_iff s p : has_suffix s p = true ↔ ∃ pre, s = pre +:+ p.
Proof.
  unfold has_suffix. rewrite andb_true_iff, String.eqb_eq, Nat.leb_le. split.
  - intros [Hl Hd]. exists (stake (String.length s - String.length p) s). rewrite <-Hd at 2.
    generalize (String.length s - String.length p)%nat. clear. intros n. revert s.
    induction n as [|n IH]; intros [|c s]; try done. change (String c s = String c (stake n s +:+ sdrop n s)). by rewrite <-IH.
  - intros [pre ->]. rewrite length_append. split; [lia|].
    replace (String.length pre + String.length p - String.length p)%nat with (String.length pre) by lia. apply sdrop_app.
Qed.

(** A domain matches a loaded feed exactly when some line of the domain
    files, without its leading dot and in lower case, is that domain or one of
    the domains above it; a domain that merely ends in the same letters does
    not match. *)
Theorem MatchDomain_iff `{FileReader} hs ips ds f d :
  Load_feed NewFeed hs ips ds = (f, true) → d ≠ "" →
  MatchDomain (Some f) d = true ↔
  ∃ v, v ∈ feed_lines ds ∧
    let name := to_lower (trim_space d) in
    name = domain_of v ∨ ∃ sub, name = sub +:+ "." +:+ domain_of v.
Proof.
  intros ->%Load_feed_ok Hne. unfold MatchDomain. rewrite (proj2 (String.eqb_neq _ _) Hne).
  set (name := to_lower (trim_space d)). rewrite orb_true_iff, bool_decide_eq_true.
  rewrite (existsb_elem _ (λ s, ∃ sub, name = sub +:+ "." +:+ s)) by (intros; apply has_suffix_iff).
  setoid_rewrite elem_of_elements.
  assert (Hadd : ∀ f v x, x ∈ fd_domains (addDomain f v) ↔ x ∈ fd_domains f ∨ x = domain_of v).
  { intros. unfold addDomain. cbn. by rewrite elem_of_union, elem_of_singleton. }
  setoid_rewrite (λ x, fold_adds fd_domains elem_of _ addDomain (feed_lines ds)
    (fold_left addIP (feed_lines ips) (fold_left addHash (feed_lines hs) NewFeed)) x Hadd).
  rewrite (fold_keeps fd_domains addIP), (fold_keeps fd_domains addHash) by (done || apply addIP_keeps_domains).
  cbn [fd_domains NewFeed]. setoid_rewrite elem_of_empty. naive_solver.
Qed.

Lemma MatchDomain_iff_witness :
  ∃ f, @Load_feed demo_feed NewFeed [] ["ips"] ["doms"] = (f, true) ∧
    (MatchDomain (Some f) "sub.evil.example" = true ↔
     ∃ v, v ∈ @feed_lines demo_feed ["doms"] ∧
       let name := to_lower (trim_space "sub.evil.example") in
       name = domain_of v ∨ ∃ sub, name = sub +:+ "." +:+ domain_of v).
Proof.
  eexists. split; [vm_compute; reflexivity|].
  apply (@MatchDomain_iff demo_feed [] ["ips"] ["doms"]); [vm_compute; reflexivity|discriminate].
Defined.
