(* ===== verification/Event.v ===== *)
(** [internal/event/event.go]: the schema-1.3 event every detector emits, its
    optional sub-documents, [NewFinding] and the deduplication key. *)
From S2P Require Export GoCrypto.

Definition SchemaVersion : string := "1.3".
Definition DefenseLayerEndpoint : string := "endpoint".

Definition SrcEBPFExec : string := "EBPF-EXEC".
Definition SrcEBPFNet : string := "EBPF-NET".
Definition SrcEBPFFile : string := "EBPF-FILE".
Definition SrcAudit : string := "AUDIT".
Definition SrcFIM : string := "FIM".
Definition SrcProcScan : string := "PROCSCAN".
Definition SrcInventory : string := "INVENTORY".

Definition TypeEvent : string := "EVENT".
Definition TypeDelta : string := "DELTA".
Definition TypeState : string := "STATE".

Definition ConfHigh : string := "HIGH".
Definition ConfMedium : string := "MEDIUM".
Definition ConfLow : string := "LOW".

Definition EntityFile : string := "file".
Definition EntityProcess : string := "process".
Definition EntityUser : string := "user".
Definition EntityCron : string := "cron".
Definition EntityNetwork : string := "network".

Record Entity := mkEntity {
  en_Type : string;
  en_ID : string;
  en_Path : string;
  en_User : string
}.

Definition SeverityInfo : string := "info".
Definition SeverityLow : string := "low".
Definition SeverityMedium : string := "medium".
Definition SeverityHigh : string := "high".
Definition SeverityCritical : string := "critical".

Record ProcessContext := mkProcessContext {
  pc_PID : Z;
  pc_PPID : Z;
  pc_Comm : string;
  pc_Argv : list string;
  pc_Exe : string;
  pc_UID : Z;
  pc_EUID : Z;
  pc_CapEff : string;
  pc_AncestorComms : list string;
  pc_Cgroup : string;
  pc_SystemdUnit : string
}.

Record FileContext := mkFileContext {
  fc_Path : string;
  fc_SHA256 : string;
  fc_MD5 : string;
  fc_Size : Z;
  fc_OwnerUID : Z;
  fc_Mode : string;
  fc_MtimeUTC : string;
  fc_SetUID : bool;
  fc_SetGID : bool
}.

Record NetworkContext := mkNetworkContext {
  nc_Proto : string;
  nc_LocalIP : string;
  nc_LocalPort : Z;
  nc_RemoteIP : string;
  nc_RemotePort : Z;
  nc_Direction : string
}.

Record ContainerContext := mkContainerContext {
  cc_Runtime : string;
  cc_ID : string;
  cc_PodUID : string
}.

Record ResponseContext := mkResponseContext {
  rc_Action : string;
  rc_Mode : string;
  rc_Result : string;
  rc_Reason : string;
  rc_Target : string;
  rc_LoopLatencyMS : Z
}.

Record Event := mkEvent {
  ev_SchemaVersion : string;
  ev_AgentVersion : string;
  ev_Timestamp : Time;
  ev_RuleID : string;
  ev_RulePackVersion : string;
  ev_TechniqueIDs : list string;
  ev_Tactic : string;
  ev_Confidence : Z;
  ev_Severity : string;
  ev_Entity : Entity;
  ev_Signals : list string;
  ev_DedupKey : string;
  ev_Evidence : string;
  ev_LearningOnly : bool;
  ev_Process : option ProcessContext;
  ev_File : option FileContext;
  ev_Network : option NetworkContext;
  ev_Container : option ContainerContext;
  ev_CorrelationID : string;
  ev_IOCMatches : list string;
  ev_KillChainPhase : string;
  ev_DefenseLayer : string;
  ev_SOCEscalate : bool;
  ev_Response : option ResponseContext;
  ev_Macro : string;
  ev_Micro : string;
  ev_Src : string;
  ev_Type : string;
  ev_Anchor : string;
  ev_ConfBand : string;
  ev_EvidenceLoss : bool;
  ev_ChainID : string
}.

#[export] Instance eta_Entity : Eta Entity := λ e,
  mkEntity (en_Type e) (en_ID e) (en_Path e) (en_User e).

#[export] Instance eta_ResponseContext : Eta ResponseContext := λ r,
  mkResponseContext (rc_Action r) (rc_Mode r) (rc_Result r) (rc_Reason r)
    (rc_Target r) (rc_LoopLatencyMS r).

#[export] Instance eta_Event : Eta Event := λ e,
  mkEvent (ev_SchemaVersion e) (ev_AgentVersion e) (ev_Timestamp e) (ev_RuleID e)
    (ev_RulePackVersion e) (ev_TechniqueIDs e) (ev_Tactic e) (ev_Confidence e)
    (ev_Severity e) (ev_Entity e) (ev_Signals e) (ev_DedupKey e) (ev_Evidence e)
    (ev_LearningOnly e) (ev_Process e) (ev_File e) (ev_Network e) (ev_Container e)
    (ev_CorrelationID e) (ev_IOCMatches e) (ev_KillChainPhase e) (ev_DefenseLayer e)
    (ev_SOCEscalate e) (ev_Response e) (ev_Macro e) (ev_Micro e) (ev_Src e) (ev_Type e)
    (ev_Anchor e) (ev_ConfBand e) (ev_EvidenceLoss e) (ev_ChainID e).

(** Go's zero values. *)
Definition zero_Entity : Entity := mkEntity "" "" "" "".

Definition zero_Process : ProcessContext :=
  mkProcessContext 0 0 "" [] "" 0 0 "" [] "" "".

Definition zero_Network : NetworkContext := mkNetworkContext "" "" 0 "" 0 "".

Definition zero_Event : Event :=
  mkEvent "" "" 0 "" "" [] "" 0 "" zero_Entity [] "" "" false None None None None
    "" [] "" "" false None "" "" "" "" "" "" false "".

(** The text that is hashed into the deduplication key. *)
Definition dedup_source (e : Event) : string :=
  ev_RuleID e +:+ ":" +:+ en_Path (ev_Entity e) +:+ ":" +:+ en_ID (ev_Entity e).

Definition NormalizeDedup (e : Event) : Event :=
  if ev_DedupKey e =s? "" then e <| ev_DedupKey := sha256_hex (dedup_source e) |> else e.

Record FindingOpts := mkFindingOpts {
  fo_RuleID : string;
  fo_RulePackVersion : string;
  fo_AgentVersion : string;
  fo_Macro : string;
  fo_Micro : string;
  fo_Src : string;
  fo_Type : string;
  fo_Anchor : string;
  fo_ConfBand : string;
  fo_TechniqueIDs : list string;
  fo_Tactic : string;
  fo_Confidence : Z;
  fo_Severity : string;
  fo_Entity : Entity;
  fo_Signals : list string;
  fo_Evidence : string;
  fo_LearningOnly : bool;
  fo_Process : option ProcessContext;
  fo_File : option FileContext;
  fo_Network : option NetworkContext
}.

Definition NewFinding (now : Time) (o : FindingOpts) : Event :=
  let ev := zero_Event
    <| ev_SchemaVersion := SchemaVersion |>
    <| ev_AgentVersion := fo_AgentVersion o |>
    <| ev_Timestamp := now |>
    <| ev_RuleID := fo_RuleID o |>
    <| ev_RulePackVersion := fo_RulePackVersion o |>
    <| ev_TechniqueIDs := fo_TechniqueIDs o |>
    <| ev_Tactic := fo_Tactic o |>
    <| ev_Confidence := fo_Confidence o |>
    <| ev_Severity := fo_Severity o |>
    <| ev_Entity := fo_Entity o |>
    <| ev_Signals := fo_Signals o |>
    <| ev_Evidence := fo_Evidence o |>
    <| ev_LearningOnly := fo_LearningOnly o |>
    <| ev_Process := fo_Process o |>
    <| ev_File := fo_File o |>
    <| ev_Network := fo_Network o |>
    <| ev_Macro := fo_Macro o |>
    <| ev_Micro := fo_Micro o |>
    <| ev_Src := fo_Src o |>
    <| ev_Type := fo_Type o |>
    <| ev_Anchor := fo_Anchor o |>
    <| ev_ConfBand := fo_ConfBand o |>
    <| ev_DefenseLayer := DefenseLayerEndpoint |> in
  let ev :=
    match fo_Process o with
    | Some p =>
        if ev_Anchor ev =s? "" then
          if negb (pc_SystemdUnit p =s? "") then ev <| ev_Anchor := pc_SystemdUnit p |>
          else if negb (pc_Cgroup p =s? "") then ev <| ev_Anchor := pc_Cgroup p |>
          else ev
        else ev
    | None => ev
    end in
  NormalizeDedup ev.

(** * Properties *)

Lemma NormalizeDedup_idemp e : NormalizeDedup (NormalizeDedup e) = NormalizeDedup e.
Proof.
  unfold NormalizeDedup. destruct (ev_DedupKey e =s? "") eqn:E; [|by rewrite E].
  case_match; reflexivity.
Qed.

(** Two events with the same fields are equal; each field of an updated event
    reduces on its own. *)
Lemma Event_ext (a b : Event) :
  ev_SchemaVersion a = ev_SchemaVersion b → ev_AgentVersion a = ev_AgentVersion b → ev_Timestamp
  a = ev_Timestamp b → ev_RuleID a = ev_RuleID b → ev_RulePackVersion a = ev_RulePackVersion b →
  ev_TechniqueIDs a = ev_TechniqueIDs b → ev_Tactic a = ev_Tactic b → ev_Confidence a =
  ev_Confidence b → ev_Severity a = ev_Severity b → ev_Entity a = ev_Entity b → ev_Signals a =
  ev_Signals b → ev_DedupKey a = ev_DedupKey b → ev_Evidence a = ev_Evidence b → ev_LearningOnly
  a = ev_LearningOnly b → ev_Process a = ev_Process b → ev_File a = ev_File b → ev_Network a =
  ev_Network b → ev_Container a = ev_Container b → ev_CorrelationID a = ev_CorrelationID b →
  ev_IOCMatches a = ev_IOCMatches b → ev_KillChainPhase a = ev_KillChainPhase b →
  ev_DefenseLayer a = ev_DefenseLayer b → ev_SOCEscalate a = ev_SOCEscalate b → ev_Response a =
  ev_Response b → ev_Macro a = ev_Macro b → ev_Micro a = ev_Micro b → ev_Src a = ev_Src b →
  ev_Type a = ev_Type b → ev_Anchor a = ev_Anchor b → ev_ConfBand a = ev_ConfBand b →
  ev_EvidenceLoss a = ev_EvidenceLoss b → ev_ChainID a = ev_ChainID b → a = b.
Proof. destruct a, b; cbn; by intros; subst. Qed.
