(* ===== verification/Expr.v ===== *)
(** [internal/rules/expr.go]: the rule expression language.

    Lexer, recursive-descent parser, and evaluator, with the same token kinds,
    grammar levels and error branches as the code.  The parser state is the
    list of tokens not consumed yet ([p.tokens[p.pos:]]); running off its end
    reads as [tokEOF], as [peek] does. *)
From S2P Require Export Event.

(** The [regexp] package as [CompileExpr] uses it: [Compile], whose error is
    surfaced, and [MatchString]. *)
Class RegexpEngine := regexp_compile : string → result (string → bool).

(** * Values and syntax *)

Inductive value :=
| VStr (s : string)
| VInt (n : Z)
| VBool (b : bool)
| VList (l : list value).

(** [literalNode]: one of the four payloads is flagged; [None] stands for the
    literal with no flag set. *)
Inductive node :=
| literalNode (v : option value)
| identNode (name : string)
| binOpNode (op : string) (a b : node)
| notNode (n : node)
| callNode (name : string) (args : list node).

Record EventFacts := mkEventFacts {
  f_RuleID : string;
  f_Tactic : string;
  f_Confidence : Z;
  f_Severity : string;
  f_KillChainPhase : string;
  f_EntityPath : string;
  f_EntityID : string;
  f_Comm : string;
  f_UID : Z;
  f_EUID : Z;
  f_ContainerRuntime : string;
  f_Signals : list string;
  f_Techniques : list string
}.

Definition zero_Facts : EventFacts := mkEventFacts "" "" 0 "" "" "" "" "" 0 0 "" [] [].

(** * Evaluator *)

Definition toBool (v : value) : option bool :=
  match v with VBool b => Some b | _ => None end.

Definition toInt (v : value) : option Z :=
  match v with VInt n => Some n | _ => None end.

Definition asStr (v : value) : option string :=
  match v with VStr s => Some s | _ => None end.

Definition equalAny (a b : value) : bool :=
  match a, b with
  | VStr x, VStr y => x =s? y
  | VInt x, VInt y => x =? y
  | VBool x, VBool y => Bool.eqb x y
  | _, _ => false
  end.

Definition literal_eval (l : option value) : result value :=
  match l with Some v => Ok v | None => Err "empty literal" end.

Definition ident_eval (name : string) (f : EventFacts) : result value :=
  if name =s? "rule_id" then Ok (VStr (f_RuleID f))
  else if name =s? "tactic" then Ok (VStr (f_Tactic f))
  else if name =s? "confidence" then Ok (VInt (f_Confidence f))
  else if name =s? "severity" then Ok (VStr (f_Severity f))
  else if name =s? "kill_chain_phase" then Ok (VStr (f_KillChainPhase f))
  else if name =s? "entity_path" then Ok (VStr (f_EntityPath f))
  else if name =s? "entity_id" then Ok (VStr (f_EntityID f))
  else if name =s? "comm" then Ok (VStr (f_Comm f))
  else if name =s? "uid" then Ok (VInt (f_UID f))
  else if name =s? "euid" then Ok (VInt (f_EUID f))
  else if name =s? "container_runtime" then Ok (VStr (f_ContainerRuntime f))
  else if name =s? "signals" then Ok (VList (map VStr (f_Signals f)))
  else if name =s? "techniques" then Ok (VList (map VStr (f_Techniques f)))
  else if name =s? "true" then Ok (VBool true)
  else if name =s? "false" then Ok (VBool false)
  else Err "unknown identifier".

Section eval.
Context `{RegexpEngine}.

Definition regexp_match (subject pattern : string) : result value :=
  let? m := regexp_compile pattern in Ok (VBool (m subject)).

Definition cmpEval (op : string) (a b : value) : result value :=
  if op =s? "==" then Ok (VBool (equalAny a b))
  else if op =s? "!=" then Ok (VBool (negb (equalAny a b)))
  else if (op =s? "<") || (op =s? "<=") || (op =s? ">") || (op =s? ">=") then
    match toInt a, toInt b with
    | Some x, Some y =>
        if op =s? "<" then Ok (VBool (x <? y))
        else if op =s? "<=" then Ok (VBool (x <=? y))
        else if op =s? ">" then Ok (VBool (y <? x))
        else Ok (VBool (y <=? x))
    | _, _ => Err "numeric cmp requires ints"
    end
  else if op =s? "contains" then
    match a, b with
    | VStr x, VStr y => Ok (VBool (contains x y))
    | VList l, _ => Ok (VBool (existsb (λ item, equalAny item b) l))
    | _, _ => Err "'contains' needs (string,string) or (list, item)"
    end
  else if op =s? "matches" then
    match a, b with
    | VStr x, VStr y => regexp_match x y
    | _, _ => Err "'matches' needs (string, regex)"
    end
  else if op =s? "in" then
    match b with
    | VList l => Ok (VBool (existsb (λ item, equalAny item a) l))
    | _ => Err "'in' rhs must be list"
    end
  else Err "unknown op".

Fixpoint eval (n : node) (f : EventFacts) : result value :=
  match n with
  | literalNode l => literal_eval l
  | identNode name => ident_eval name f
  | binOpNode op a b =>
      let? lv := eval a f in
      if op =s? "and" then
        match toBool lv with
        | None => Err "'and' lhs not bool"
        | Some false => Ok (VBool false)
        | Some lb =>
            let? rv := eval b f in
            match toBool rv with
            | None => Err "'and' rhs not bool"
            | Some rb => Ok (VBool (lb && rb))
            end
        end
      else if op =s? "or" then
        match toBool lv with
        | None => Err "'or' lhs not bool"
        | Some true => Ok (VBool true)
        | Some lb =>
            let? rv := eval b f in
            match toBool rv with
            | None => Err "'or' rhs not bool"
            | Some rb => Ok (VBool (lb || rb))
            end
        end
      else
        let? rv := eval b f in cmpEval op lv rv
  | notNode n =>
      let? v := eval n f in
      match toBool v with
      | None => Err "'not' requires boolean operand"
      | Some b => Ok (VBool (negb b))
      end
  | callNode name args =>
      if name =s? "signal" then
        match args with
        | [arg] =>
            let? v := eval arg f in
            match asStr v with
            | None => Err "signal() arg must be string"
            | Some s =>
                Ok (VBool (existsb (λ have, (have =s? s) || has_prefix have (s +:+ ":"))
                             (f_Signals f)))
            end
        | _ => Err "signal() takes 1 arg"
        end
      else if name =s? "matches" then
        match args with
        | [subj; pat] =>
            let? subjV := eval subj f in
            let? patV := eval pat f in
            match asStr subjV with
            | None => Err "matches() subject must be string"
            | Some s =>
                match asStr patV with
                | None => Err "matches() pattern must be string"
                | Some p => regexp_match s p
                end
            end
        | _ => Err "matches(subject, pattern) needs 2 args"
        end
      else if name =s? "technique" then
        match args with
        | [arg] =>
            let? v := eval arg f in
            match asStr v with
            | None => Err "technique() arg must be string"
            | Some t => Ok (VBool (mem_str t (f_Techniques f)))
            end
        | _ => Err "technique() takes 1 arg"
        end
      else Err "unknown function"
  end.

End eval.

(** * Lexer *)

Inductive tokKind :=
| tokEOF | tokIdent | tokNum | tokStr | tokLP | tokRP | tokLB | tokRB | tokComma | tokOp.

#[export] Instance tokKind_eq_dec : EqDecision tokKind.
Proof. solve_decision. Defined.

Record token := Tok { t_kind : tokKind; t_val : string }.

#[export] Instance token_eq_dec : EqDecision token.
Proof. solve_decision. Defined.

Definition opSet : list string :=
  ["=="; "!="; "<="; ">="; "<"; ">"; "contains"; "in"; "and"; "or"; "not"].

(** The inner loop of a string literal, from the byte after the opening quote:
    the unescaped contents and what follows the closing quote. *)
Fixpoint scan_str (s : string) : string * string :=
  match s with
  | "" => ("", "")
  | String c r =>
      if Ascii.eqb c dquote then ("", r)
      else if Ascii.eqb c backslash then
        match r with
        | String d r' => let '(v, rest) := scan_str r' in (String d v, rest)
        | "" => (str c, "")
        end
      else let '(v, rest) := scan_str r in (String c v, rest)
  end.

Definition is_word_start (c : ascii) : bool := is_lower c || is_upper c || Ascii.eqb c "_".
Definition is_word (c : ascii) : bool :=
  is_lower c || is_upper c || is_digit c || Ascii.eqb c "_".

Definition is_blank (c : ascii) : bool :=
  Ascii.eqb c " " || Ascii.eqb c tab || Ascii.eqb c nl.

(** [tokenize]; each iteration of the loop consumes at least one byte, so the
    length of the source is enough fuel ([tokenize_total]). *)
Fixpoint tokenize_go (fuel : nat) (s : string) : option (list token) :=
  match fuel, s with
  | _, "" => Some [Tok tokEOF ""]
  | O, _ => None
  | S n, String c r =>
      if is_blank c then tokenize_go n r
      else if Ascii.eqb c "(" then cons (Tok tokLP "(") <$> tokenize_go n r
      else if Ascii.eqb c ")" then cons (Tok tokRP ")") <$> tokenize_go n r
      else if Ascii.eqb c "[" then cons (Tok tokLB "[") <$> tokenize_go n r
      else if Ascii.eqb c "]" then cons (Tok tokRB "]") <$> tokenize_go n r
      else if Ascii.eqb c "," then cons (Tok tokComma ",") <$> tokenize_go n r
      else if Ascii.eqb c dquote then
        let '(v, rest) := scan_str r in cons (Tok tokStr v) <$> tokenize_go n rest
      else if is_digit c then
        let '(w, rest) := span is_digit s in cons (Tok tokNum w) <$> tokenize_go n rest
      else if is_word_start c then
        let '(w, rest) := span is_word s in
        cons (Tok (if mem_str w opSet then tokOp else tokIdent) w) <$> tokenize_go n rest
      else
        match r with
        | String d r' =>
            let two := String c (str d) in
            if mem_str two opSet then cons (Tok tokOp two) <$> tokenize_go n r'
            else if Ascii.eqb c "<" || Ascii.eqb c ">"
            then cons (Tok tokOp (str c)) <$> tokenize_go n r
            else tokenize_go n r
        | "" =>
            if Ascii.eqb c "<" || Ascii.eqb c ">"
            then cons (Tok tokOp (str c)) <$> tokenize_go n r
            else tokenize_go n r
        end
  end.

Definition tokenize (s : string) : list token :=
  default [] (tokenize_go (String.length s) s).

(** * Parser *)

Definition peek (ts : list token) : token :=
  match ts with t :: _ => t | [] => Tok tokEOF "" end.

Definition next (ts : list token) : token * list token := (peek ts, tail ts).

Definition is_kind (k : tokKind) (t : token) : bool := bool_decide (t_kind t = k).
Definition is_op (v : string) (t : token) : bool := is_kind tokOp t && (t_val t =s? v).

Definition expect (k : tokKind) (ts : list token) : result (token * list token) :=
  let '(t, ts') := next ts in
  if is_kind k t then Ok (t, ts') else Err ("expected tok, got " +:+ t_val t).

(** The message of a parser that ran out of fuel; [parseDisj_fuel] shows that
    it never appears. *)
Definition out_of_fuel : string := "out of fuel".

(** [strconv.Atoi] with its error surfaced. *)
Definition atoi_err (s : string) : result Z :=
  let '(v, ok) := atoi s in if ok then Ok v else Err ("strconv.Atoi: parsing " +:+ s).

(** The loop of [parseList] after the empty-list test. *)
Fixpoint list_loop (fuel : nat) (ts : list token) (out : list value)
  : result (list value * list token) :=
  match fuel with
  | O => Err out_of_fuel
  | S n =>
      let '(t, ts1) := next ts in
      let? v :=
        match t_kind t with
        | tokStr => Ok (VStr (t_val t))
        | tokNum => let? v := atoi_err (t_val t) in Ok (VInt v)
        | _ => Err ("list element expected string or number, got " +:+ t_val t)
        end in
      let out := out ++ [v] in
      if is_kind tokComma (peek ts1) then list_loop n (tail ts1) out
      else let? (_, ts2) := expect tokRB ts1 in Ok (out, ts2)
  end.

Definition parseList (ts : list token) : result (list value * list token) :=
  if is_kind tokRB (peek ts) then Ok ([], tail ts)
  else list_loop (S (length ts)) ts [].

Section parser.
(** [parseDisj] on the strictly shorter input inside brackets. *)
Variable parseDisj : list token → result (node * list token).

Fixpoint args_loop (fuel : nat) (ts : list token) (args : list node)
  : result (list node * list token) :=
  match fuel with
  | O => Err out_of_fuel
  | S n =>
      let? (a, ts1) := parseDisj ts in
      let args := args ++ [a] in
      if is_kind tokComma (peek ts1) then args_loop n (tail ts1) args
      else Ok (args, ts1)
  end.

Definition parsePrimary (ts : list token) : result (node * list token) :=
  let '(t, ts1) := next ts in
  match t_kind t with
  | tokStr => Ok (literalNode (Some (VStr (t_val t))), ts1)
  | tokNum => let? v := atoi_err (t_val t) in Ok (literalNode (Some (VInt v)), ts1)
  | tokLP =>
      let? (n, ts2) := parseDisj ts1 in
      let? (_, ts3) := expect tokRP ts2 in Ok (n, ts3)
  | tokLB =>
      let? (l, ts2) := parseList ts1 in Ok (literalNode (Some (VList l)), ts2)
  | tokIdent =>
      if is_kind tokLP (peek ts1) then
        let ts2 := tail ts1 in
        let? (args, ts3) :=
          if is_kind tokRP (peek ts2) then Ok ([], ts2)
          else args_loop (S (length ts2)) ts2 [] in
        let? (_, ts4) := expect tokRP ts3 in Ok (callNode (t_val t) args, ts4)
      else Ok (identNode (t_val t), ts1)
  | _ => Err ("unexpected token " +:+ t_val t)
  end.

Definition parseUnary (ts : list token) : result (node * list token) :=
  if is_op "not" (peek ts) then
    let? (sub, ts1) := parsePrimary (tail ts) in Ok (notNode sub, ts1)
  else parsePrimary ts.

Definition cmpOps : list string := ["=="; "!="; "<="; ">="; "<"; ">"; "contains"; "in"].

Definition parseCmp (ts : list token) : result (node * list token) :=
  let? (n, ts1) := parseUnary ts in
  let t := peek ts1 in
  if is_kind tokOp t && mem_str (t_val t) cmpOps then
    let? (r, ts2) := parseUnary (tail ts1) in Ok (binOpNode (t_val t) n r, ts2)
  else Ok (n, ts1).

Fixpoint conj_loop (fuel : nat) (n : node) (ts : list token) : result (node * list token) :=
  match fuel with
  | O => Err out_of_fuel
  | S k =>
      if is_op "and" (peek ts) then
        let? (r, ts1) := parseCmp (tail ts) in conj_loop k (binOpNode "and" n r) ts1
      else Ok (n, ts)
  end.

Definition parseConj (ts : list token) : result (node * list token) :=
  let? (n, ts1) := parseCmp ts in conj_loop (S (length ts1)) n ts1.

Fixpoint disj_loop (fuel : nat) (n : node) (ts : list token) : result (node * list token) :=
  match fuel with
  | O => Err out_of_fuel
  | S k =>
      if is_op "or" (peek ts) then
        let? (r, ts1) := parseConj (tail ts) in disj_loop k (binOpNode "or" n r) ts1
      else Ok (n, ts)
  end.

Definition parseDisj_body (ts : list token) : result (node * list token) :=
  let? (n, ts1) := parseConj ts in disj_loop (S (length ts1)) n ts1.

End parser.

Fixpoint parseDisj (fuel : nat) (ts : list token) : result (node * list token) :=
  match fuel with
  | O => Err out_of_fuel
  | S n => parseDisj_body (parseDisj n) ts
  end.

Record Expr := mkExpr { ex_node : node; ex_src : string }.

Definition CompileExpr (src : string) : result Expr :=
  let src := trim_space src in
  if src =s? "" then Ok (mkExpr (literalNode (Some (VBool true))) "")
  else
    let ts := tokenize src in
    let? (n, rest) := parseDisj (S (length ts)) ts in
    if is_kind tokEOF (peek rest) then Ok (mkExpr n src)
    else Err ("unexpected trailing " +:+ t_val (peek rest)).

Definition Eval `{RegexpEngine} (e : Expr) (facts : EventFacts) : result bool :=
  let? v := eval (ex_node e) facts in
  match toBool v with
  | Some b => Ok b
  | None => Err "expression did not yield boolean"
  end.
