(* ===== verification/ExprFacts.v ===== *)
(** Properties of the rule expression language of [Expr.v]: totality of lexer
    and parser, the shape of what the parser accepts, a print/parse round trip,
    and type safety of evaluation. *)
From S2P Require Export Expr.

(** * Induction on expressions *)

Lemma node_rect' (P : node → Prop) :
  (∀ v, P (literalNode v)) →
  (∀ x, P (identNode x)) →
  (∀ op a b, P a → P b → P (binOpNode op a b)) →
  (∀ n, P n → P (notNode n)) →
  (∀ name args, Forall P args → P (callNode name args)) →
  ∀ n, P n.
Proof.
  intros Hlit Hid Hbin Hnot Hcall. fix IH 1. intros [v|x|op a b|n|name args].
  - apply Hlit.
  - apply Hid.
  - apply Hbin; apply IH.
  - apply Hnot, IH.
  - apply Hcall. induction args as [|a args IHargs]; constructor; [apply IH|apply IHargs].
Qed.

(** * The lexer is total *)

Lemma scan_str_length s : (String.length (scan_str s).2 ≤ String.length s)%nat.
Proof.
  induction s as [s IH] using (induction_ltof1 _ String.length); unfold ltof in IH.
  destruct s as [|c r]; simpl; [done|].
  destruct (Ascii.eqb c dquote); [simpl; lia|].
  destruct (Ascii.eqb c backslash).
  - destruct r as [|d r']; simpl; [lia|].
    pose proof (IH r' ltac:(simpl; lia)). destruct (scan_str r'); simpl in *; lia.
  - pose proof (IH r ltac:(simpl; lia)). destruct (scan_str r); simpl in *; lia.
Qed.

Lemma span_length_lt p c r :
  p c = true → (String.length (span p (String c r)).2 < S (String.length r))%nat.
Proof.
  intros Hc. simpl. rewrite Hc. pose proof (span_length p r).
  destruct (span p r); simpl in *; lia.
Qed.

(** A token stream: some tokens that are not [tokEOF], then one that is. *)
Definition ends_in_eof (ts : list token) : Prop :=
  ∃ body, ts = body ++ [Tok tokEOF ""] ∧ Forall (λ t, t_kind t ≠ tokEOF) body.

Lemma ends_in_eof_cons t ts : t_kind t ≠ tokEOF → ends_in_eof ts → ends_in_eof (t :: ts).
Proof. intros Ht (body & -> & Hb). exists (t :: body). split; [done|by constructor]. Qed.

Lemma tokenize_go_total n s :
  (String.length s ≤ n)%nat → ∃ ts, tokenize_go n s = Some ts ∧ ends_in_eof ts.
Proof.
  revert s. induction n as [|n IH]; intros s Hs.
  { destruct s; [|simpl in Hs; lia]. exists [Tok tokEOF ""]. split; [done|by exists []]. }
  destruct s as [|c r]; [exists [Tok tokEOF ""]; split; [done|by exists []]|].
  simpl in Hs.
  assert (Hstep : ∀ t r', t_kind t ≠ tokEOF → (String.length r' ≤ n)%nat →
            ∃ ts, cons t <$> tokenize_go n r' = Some ts ∧ ends_in_eof ts).
  { intros t r' Ht Hr. destruct (IH r' Hr) as (ts & -> & Hts).
    exists (t :: ts). split; [done|by apply ends_in_eof_cons]. }
  assert (Hlit : ∀ r', (String.length r' ≤ n)%nat →
            ∃ ts, tokenize_go n r' = Some ts ∧ ends_in_eof ts) by auto.
  cbn [tokenize_go].
  repeat match goal with
  | |- context [if ?b then cons _ <$> _ else _] => destruct b; [apply Hstep; [done|lia]|]
  | |- context [if is_blank c then _ else _] => destruct (is_blank c); [apply Hlit; lia|]
  end.
  destruct (Ascii.eqb c dquote).
  { pose proof (scan_str_length r). destruct (scan_str r); simpl in *. apply Hstep; [done|lia]. }
  destruct (is_digit c) eqn:Hd.
  { pose proof (span_length_lt is_digit c r Hd). destruct (span is_digit (String c r)).
    simpl in *. apply Hstep; [done|lia]. }
  destruct (is_word_start c) eqn:Hw.
  { assert (is_word c = true) as Hw'.
    { unfold is_word, is_word_start in *. destruct (is_lower c), (is_upper c), (is_digit c); done. }
    pose proof (span_length_lt is_word c r Hw'). destruct (span is_word (String c r)).
    simpl in *. apply Hstep; [by case_match|lia]. }
  destruct r as [|d r']; cbn [String.length] in Hs;
    repeat case_match; first [apply Hstep; [done|simpl; lia] | apply Hlit; simpl; lia].
Qed.

(** The lexer always succeeds, with exactly one [tokEOF], at the end. *)
Lemma tokenize_total s :
  tokenize_go (String.length s) s = Some (tokenize s) ∧ ends_in_eof (tokenize s).
Proof.
  unfold tokenize. destruct (tokenize_go_total (String.length s) s) as (ts & -> & Hts); done.
Qed.

(** More fuel does not change the tokens. *)
Lemma tokenize_go_mono n m s ts :
  (n ≤ m)%nat → tokenize_go n s = Some ts → tokenize_go m s = Some ts.
Proof.
  revert m s ts. induction n as [|n IH]; intros m s ts Hm.
  { destruct s; [|done]. by destruct m. }
  destruct m as [|m]; [lia|]. destruct s as [|c r]; [done|].
  assert (Hgo : ∀ s ts, tokenize_go n s = Some ts → tokenize_go m s = Some ts)
    by (intros; apply IH; [lia|done]).
  assert (Hcons : ∀ t s ts, cons t <$> tokenize_go n s = Some ts →
                            cons t <$> tokenize_go m s = Some ts).
  { intros t s' ts'. destruct (tokenize_go n s') eqn:E; [|done]. by rewrite (Hgo _ _ E). }
  cbn [tokenize_go]. repeat case_match; auto.
Qed.

(** ** The tokens it produces *)

(** What the lexer can put in a token, by kind. *)
Definition wf_tok (t : token) : bool :=
  match t_kind t with
  | tokEOF => t_val t =s? ""
  | tokIdent =>
      match t_val t with
      | "" => false
      | String c r => is_word_start c && sforall is_word r
      end && negb (mem_str (t_val t) opSet)
  | tokNum => negb (t_val t =s? "") && sforall is_digit (t_val t)
  | tokStr => true
  | tokLP => t_val t =s? "("
  | tokRP => t_val t =s? ")"
  | tokLB => t_val t =s? "["
  | tokRB => t_val t =s? "]"
  | tokComma => t_val t =s? ","
  | tokOp => mem_str (t_val t) opSet
  end.

Abbreviation wf_toks := (Forall (λ t, wf_tok t = true)).

Lemma span_sforall p s : sforall p (span p s).1 = true.
Proof.
  induction s as [|c r IH]; simpl; [done|]. destruct (p c) eqn:E; [|done].
  destruct (span p r); simpl in *. by rewrite E.
Qed.

Lemma is_word_start_word c : is_word_start c = true → is_word c = true.
Proof.
  unfold is_word, is_word_start. destruct (is_lower c), (is_upper c), (is_digit c); done.
Qed.

Lemma wf_word c r :
  is_word_start c = true →
  wf_tok (Tok (if mem_str (span is_word (String c r)).1 opSet then tokOp else tokIdent)
            (span is_word (String c r)).1) = true.
Proof.
  intros Hc. assert (Hw : ∃ w, (span is_word (String c r)).1 = String c w ∧ sforall is_word w = true).
  { cbn [span]. rewrite (is_word_start_word _ Hc). pose proof (span_sforall is_word r).
    destruct (span is_word r) as [w rest]; simpl in *. by exists w. }
  destruct Hw as (w & -> & Hw). destruct (mem_str (String c w) opSet) eqn:E; [exact E|].
  change ((is_word_start c && sforall is_word w) && negb (mem_str (String c w) opSet) = true).
  by rewrite Hc, Hw, E.
Qed.

Lemma tokenize_go_wf n s ts : tokenize_go n s = Some ts → wf_toks ts.
Proof.
  revert s ts. induction n as [|n IH]; intros s ts.
  { destruct s; [|done]. intros [= <-]. by repeat constructor. }
  destruct s as [|c r]; [intros [= <-]; by repeat constructor|].
  assert (Hcons : ∀ t s ts, wf_tok t = true → cons t <$> tokenize_go n s = Some ts → wf_toks ts).
  { intros t s' ts' Ht. destruct (tokenize_go n s') eqn:E; [|done].
    intros [= <-]. constructor; eauto. }
  cbn [tokenize_go].
  destruct (is_blank c); [apply IH|].
  do 5 (case_match; [apply Hcons; done|]).
  destruct (Ascii.eqb c dquote); [destruct (scan_str r); by apply Hcons|].
  destruct (is_digit c) eqn:Hd.
  { pose proof (span_sforall is_digit (String c r)) as Hw.
    destruct (span is_digit (String c r)) as [w rest] eqn:E. apply Hcons.
    unfold wf_tok; simpl in *. rewrite Hw. rewrite Hd in E.
    destruct (span is_digit r). by injection E as <- <-. }
  destruct (is_word_start c) eqn:Hw.
  { pose proof (wf_word c r Hw). destruct (span is_word (String c r)). by apply Hcons. }
  destruct r as [|d r']; repeat case_match; first [by apply IH | apply Hcons; try done];
    match goal with H : _ || _ = true |- _ => apply orb_true_iff in H as [->%Ascii.eqb_eq| ->%Ascii.eqb_eq] end; done.
Qed.

Lemma tokenize_wf s : wf_toks (tokenize s).
Proof. eapply tokenize_go_wf, tokenize_total. Qed.

(** * What the parser returns *)

(** Literals and nodes that the grammar can produce. *)
Definition atom_ok (v : value) : bool :=
  match v with
  | VStr _ => true
  | VInt n => (0 <=? n) && (n <=? int64_max)
  | _ => false
  end.

Definition lit_ok (v : value) : bool :=
  match v with VList l => forallb atom_ok l | _ => atom_ok v end.

Fixpoint printable (n : node) : bool :=
  match n with
  | literalNode (Some v) => lit_ok v
  | literalNode None => false
  | identNode x => wf_tok (Tok tokIdent x)
  | binOpNode op a b => mem_str op ("and" :: "or" :: cmpOps) && printable a && printable b
  | notNode n => printable n
  | callNode f args => wf_tok (Tok tokIdent f) && forallb printable args
  end.

(** A parser step on [ts] is good when it succeeds by consuming at least one
    token, or fails for a reason other than fuel. *)
Definition good {A} (P : A → Prop) (ts : list token) (r : result (A * list token)) : Prop :=
  match r with
  | Ok (a, ts') => P a ∧ (length ts' < length ts)%nat ∧ wf_toks ts'
  | Err e => e ≠ out_of_fuel
  end.

Lemma good_bind {A B} (P : A → Prop) (Q : B → Prop) ts us r k :
  good P ts r →
  (∀ a ts', P a → (length ts' < length ts)%nat → wf_toks ts' → good Q us (k (a, ts'))) →
  good Q us (rbind r k).
Proof. destruct r as [[a ts']|e]; simpl; [intros (?&?&?); eauto|done]. Qed.

Lemma good_longer {A} (P : A → Prop) ts us r :
  (length ts ≤ length us)%nat → good P ts r → good P us r.
Proof. destruct r as [[a ts']|e]; simpl; [intros ? (?&?&?); repeat split; [done|lia|done]|done]. Qed.

Lemma tail_wf ts : wf_toks ts → wf_toks (tail ts).
Proof. by destruct 1. Qed.

Lemma tail_length_lt ts : t_kind (peek ts) ≠ tokEOF → (length (tail ts) < length ts)%nat.
Proof. destruct ts; simpl; [done|lia]. Qed.

Lemma is_kind_true k t : is_kind k t = true → t_kind t = k.
Proof. unfold is_kind. by intros ?%bool_decide_eq_true. Qed.

Lemma is_op_true v t : is_op v t = true → t_kind t = tokOp ∧ t_val t = v.
Proof. unfold is_op. intros [?%is_kind_true ?%String.eqb_eq]%andb_true_iff. done. Qed.

Lemma peek_wf ts : wf_toks ts → wf_tok (peek ts) = true.
Proof. by destruct 1. Qed.

Lemma expect_good k ts : k ≠ tokEOF → wf_toks ts → good (λ _, True) ts (expect k ts).
Proof.
  intros Hk Hwf. unfold expect, next. destruct (is_kind k (peek ts)) eqn:E.
  - apply is_kind_true in E. simpl. split; [done|]. split; [|by apply tail_wf].
    apply tail_length_lt. congruence.
  - done.
Qed.

Lemma atoi_err_ok s v : sforall is_digit s = true → atoi_err s = Ok v → 0 ≤ v ≤ int64_max.
Proof.
  intros Hs. unfold atoi_err, atoi, parse_int. rewrite split_sign_digits by done.
  destruct (s =s? ""); [done|].
  assert (Hpos : ∀ s a v, 0 ≤ a → digits_val 10 s a = Some v → 0 ≤ v).
  { clear. induction s as [|c s IH]; simpl; intros a v Ha; [by intros [= <-]|].
    unfold digit_val. pose proof (code_range c).
    destruct (is_digit c) eqn:Ed.
    - case_match; [|done]. intros H'. apply IH in H'; [done|]. unfold is_digit, in_range in Ed. lia.
    - destruct (is_lower c) eqn:El; [|destruct (is_upper c) eqn:Eu; [|done]];
        unfold is_lower, is_upper, in_range in *; case_match; try done; lia. }
  destruct (digits_val 10 s 0) as [w|] eqn:E; [|done]. apply Hpos in E; [|lia].
  destruct (2 ^ (64 - 1) <=? w) eqn:Ew; [done|]. intros [= <-]. unfold int64_max.
  apply Z.leb_gt in Ew. change (64 - 1) with 63 in Ew. lia.
Qed.

Lemma atoi_err_fuel s e : atoi_err s = Err e → e ≠ out_of_fuel.
Proof. unfold atoi_err. destruct (atoi s) as [v []]; [done|]. by intros [= <-]. Qed.

Lemma list_loop_good n ts out :
  (length ts < n)%nat → wf_toks ts → forallb atom_ok out = true →
  good (λ l, forallb atom_ok l = true) ts (list_loop n ts out).
Proof.
  revert ts out. induction n as [|n IH]; intros ts out Hn Hwf Hout; [lia|].
  cbn [list_loop]. unfold next. pose proof (peek_wf ts Hwf) as Hp.
  assert (Hcont : ∀ v, atom_ok v = true → t_kind (peek ts) ≠ tokEOF →
    good (λ l, forallb atom_ok l = true) ts
      (if is_kind tokComma (peek (tail ts)) then list_loop n (tail (tail ts)) (out ++ [v])
       else let? (_, ts2) := expect tokRB (tail ts) in Ok (out ++ [v], ts2))).
  { intros v Hv Hk. apply tail_length_lt in Hk. pose proof (tail_wf ts Hwf) as Hwf'.
    assert (Hout' : forallb atom_ok (out ++ [v]) = true) by (rewrite forallb_app, Hout; simpl; by rewrite Hv).
    destruct (is_kind tokComma (peek (tail ts))) eqn:Ec.
    - apply is_kind_true in Ec. assert (Hk' := tail_length_lt (tail ts)). rewrite Ec in Hk'.
      specialize (Hk' ltac:(done)).
      eapply good_longer, IH; [lia|lia|by apply tail_wf|done].
    - eapply good_bind; [by apply expect_good|]. intros a ts' _ ? ?. simpl.
      repeat split; [done|lia|done]. }
  destruct (t_kind (peek ts)) eqn:Ek; try done.
  - unfold wf_tok in Hp. rewrite Ek in Hp. apply andb_true_iff in Hp as [_ Hd].
    destruct (atoi_err (t_val (peek ts))) as [v|e] eqn:Ev; [|by apply atoi_err_fuel in Ev].
    apply atoi_err_ok in Ev; [|done]. apply Hcont; [|done]. simpl. lia.
  - by apply Hcont.
Qed.

Lemma parseList_good ts :
  wf_toks ts → good (λ l, forallb atom_ok l = true) ts (parseList ts).
Proof.
  intros Hwf. unfold parseList. destruct (is_kind tokRB (peek ts)) eqn:E.
  - apply is_kind_true in E. simpl. repeat split; [|by apply tail_wf].
    apply tail_length_lt. by rewrite E.
  - by apply list_loop_good; [lia|..].
Qed.

Abbreviation goodn := (good (λ n, printable n = true)).

(** One level of the grammar, assuming the next level of brackets is good. *)
Section parser_good.
Variable pd : list token → result (node * list token).
Variable bound : nat.
Hypothesis pd_good : ∀ ts, (length ts < bound)%nat → wf_toks ts → goodn ts (pd ts).

Lemma args_loop_good n ts args :
  (length ts < n)%nat → (length ts < bound)%nat → wf_toks ts → forallb printable args = true →
  good (λ l, forallb printable l = true) ts (args_loop pd n ts args).
Proof using pd_good.
  revert ts args. induction n as [|n IH]; intros ts args Hn Hb Hwf Ha; [lia|].
  cbn [args_loop]. eapply good_bind; [by apply pd_good|]. intros a ts' Hpa Hlt Hwf'.
  assert (Ha' : forallb printable (args ++ [a]) = true) by (rewrite forallb_app, Ha; simpl; by rewrite Hpa).
  destruct (is_kind tokComma (peek ts')) eqn:Ec.
  - apply is_kind_true in Ec. assert (Hk := tail_length_lt ts'). rewrite Ec in Hk.
    specialize (Hk ltac:(done)).
    eapply good_longer, IH; [lia|lia|lia|by apply tail_wf|done].
  - simpl. repeat split; done.
Qed.

Lemma parsePrimary_good ts :
  (length ts ≤ bound)%nat → wf_toks ts → goodn ts (parsePrimary pd ts).
Proof using pd_good.
  intros Hb Hwf. unfold parsePrimary, next. pose proof (peek_wf ts Hwf) as Hp.
  pose proof (tail_length_lt ts) as Hlt. pose proof (tail_wf ts Hwf) as Hwf'.
  destruct (t_kind (peek ts)) eqn:Ek; try done; specialize (Hlt ltac:(done)).
  - destruct (is_kind tokLP (peek (tail ts))) eqn:El.
    + apply is_kind_true in El. pose proof (tail_length_lt (tail ts)) as Hlt2.
      rewrite El in Hlt2. specialize (Hlt2 ltac:(done)). pose proof (tail_wf _ Hwf') as Hwf2.
      destruct (is_kind tokRP (peek (tail (tail ts)))) eqn:Er.
      * simpl. eapply good_bind; [by apply expect_good|]. intros a ts' _ ? ?. simpl.
        repeat split; [|lia|done]. rewrite andb_true_r. revert Hp. unfold wf_tok. by rewrite Ek.
      * eapply good_bind; [apply args_loop_good; [lia|lia|done|done]|].
        intros args ts' Hargs ? ?. eapply good_bind; [by apply expect_good|]. intros a ts'' _ ? ?.
        simpl. repeat split; [|lia|done]. rewrite Hargs, andb_true_r. revert Hp. unfold wf_tok. by rewrite Ek.
    + simpl. repeat split; [|lia|done]. revert Hp. unfold wf_tok. by rewrite Ek.
  - unfold wf_tok in Hp. rewrite Ek in Hp. apply andb_true_iff in Hp as [_ Hd].
    destruct (atoi_err (t_val (peek ts))) as [v|e] eqn:Ev; [|by apply atoi_err_fuel in Ev].
    apply atoi_err_ok in Ev; [|done]. simpl. repeat split; [lia|lia|done].
  - simpl. repeat split; [lia|done].
  - eapply good_bind; [apply pd_good; [lia|done]|]. intros n ts' Hn ? ?.
    eapply good_bind; [by apply expect_good|]. intros a ts'' _ ? ?. simpl.
    repeat split; [done|lia|done].
  - eapply good_bind; [by apply parseList_good|]. intros l ts' Hl ? ?. simpl.
    repeat split; [done|lia|done].
Qed.

Lemma parseUnary_good ts :
  (length ts ≤ bound)%nat → wf_toks ts → goodn ts (parseUnary pd ts).
Proof using pd_good.
  intros Hb Hwf. unfold parseUnary. destruct (is_op "not" (peek ts)) eqn:E.
  - apply is_op_true in E as [E _]. pose proof (tail_length_lt ts) as Hlt. rewrite E in Hlt.
    specialize (Hlt ltac:(done)).
    eapply good_bind; [apply parsePrimary_good; [lia|by apply tail_wf]|].
    intros n ts' Hn ? ?. simpl. repeat split; [done|lia|done].
  - by apply parsePrimary_good.
Qed.

(** The right operand that follows an operator token. *)
Lemma operand_good (level : list token → result (node * list token)) op n ts us :
  (∀ us, (length us ≤ bound)%nat → wf_toks us → goodn us (level us)) →
  (length ts ≤ bound)%nat → wf_toks ts → t_kind (peek ts) = tokOp →
  printable n = true → mem_str op ("and" :: "or" :: cmpOps) = true → (length ts ≤ length us)%nat →
  ∀ k : node * list token → result (node * list token),
  (∀ r ts', printable (binOpNode op n r) = true → (S (length ts') < length ts)%nat → wf_toks ts' →
     goodn us (k (r, ts'))) →
  goodn us (rbind (level (tail ts)) k).
Proof using Type.
  intros Hlevel Hb Hwf Hk Hn Hop Hle k Hcont. pose proof (tail_length_lt ts) as Hlt. rewrite Hk in Hlt.
  specialize (Hlt ltac:(done)).
  eapply good_bind; [apply Hlevel; [lia|by apply tail_wf]|].
  intros r ts' Hr ? ?. apply Hcont; [|lia|done]. cbn [printable]. by rewrite Hop, Hn, Hr.
Qed.

Lemma parseCmp_good ts :
  (length ts ≤ bound)%nat → wf_toks ts → goodn ts (parseCmp pd ts).
Proof using pd_good.
  intros Hb Hwf. unfold parseCmp. eapply good_bind; [by apply parseUnary_good|].
  intros n ts1 Hn ? ?. destruct (_ && _) eqn:E; [|by simpl].
  apply andb_true_iff in E as [E Hop]. apply is_kind_true in E.
  eapply operand_good; [apply parseUnary_good|lia|done|done|exact Hn| |lia|].
  - unfold mem_str in *. simpl existsb. cbn [cmpOps existsb] in Hop. rewrite Hop. by rewrite !orb_true_r.
  - intros r ts' Hr ? ?. simpl. repeat split; [done|lia|done].
Qed.

Lemma conj_loop_good k n ts us :
  (length ts < k)%nat → (length ts < length us)%nat → (length ts ≤ bound)%nat → wf_toks ts →
  printable n = true → goodn us (conj_loop pd k n ts).
Proof using pd_good.
  revert n ts. induction k as [|k IH]; intros n ts Hk Hus Hb Hwf Hn; [lia|].
  cbn [conj_loop]. destruct (is_op "and" (peek ts)) eqn:E; [|by simpl].
  apply is_op_true in E as [E _].
  eapply (operand_good _ "and"); [apply parseCmp_good|lia|done|done|exact Hn|reflexivity|lia|].
  intros r ts' Hr ? ?. apply IH; [lia|lia|lia|done|exact Hr].
Qed.

Lemma parseConj_good ts :
  (length ts ≤ bound)%nat → wf_toks ts → goodn ts (parseConj pd ts).
Proof using pd_good.
  intros Hb Hwf. unfold parseConj. eapply good_bind; [by apply parseCmp_good|].
  intros n ts1 Hn ? ?. apply conj_loop_good; [lia|lia|lia|done|done].
Qed.

Lemma disj_loop_good k n ts us :
  (length ts < k)%nat → (length ts < length us)%nat → (length ts ≤ bound)%nat → wf_toks ts →
  printable n = true → goodn us (disj_loop pd k n ts).
Proof using pd_good.
  revert n ts. induction k as [|k IH]; intros n ts Hk Hus Hb Hwf Hn; [lia|].
  cbn [disj_loop]. destruct (is_op "or" (peek ts)) eqn:E; [|by simpl].
  apply is_op_true in E as [E _].
  eapply (operand_good _ "or"); [apply parseConj_good|lia|done|done|exact Hn|reflexivity|lia|].
  intros r ts' Hr ? ?. apply IH; [lia|lia|lia|done|exact Hr].
Qed.

Lemma parseDisj_body_good ts :
  (length ts ≤ bound)%nat → wf_toks ts → goodn ts (parseDisj_body pd ts).
Proof using pd_good.
  intros Hb Hwf. unfold parseDisj_body. eapply good_bind; [by apply parseConj_good|].
  intros n ts1 Hn ? ?. apply disj_loop_good; [lia|lia|lia|done|done].
Qed.

End parser_good.

Lemma parseDisj_good n ts : (length ts < n)%nat → wf_toks ts → goodn ts (parseDisj n ts).
Proof.
  revert ts. induction n as [|n IH]; intros ts Hn Hwf; [lia|]. simpl.
  apply (parseDisj_body_good _ n); [|lia|done]. intros us Hus Hwf'. by apply IH.
Qed.

(** The parser never runs out of fuel, and what it accepts is printable. *)
Lemma CompileExpr_good src :
  match CompileExpr src with
  | Ok e => trim_space src = "" ∨ printable (ex_node e) = true
  | Err msg => msg ≠ out_of_fuel
  end.
Proof.
  unfold CompileExpr. destruct (String.eqb_spec (trim_space src) ""); [by left|].
  pose proof (parseDisj_good (S (length (tokenize (trim_space src)))) (tokenize (trim_space src))
                ltac:(lia) (tokenize_wf _)) as Hg.
  destruct (parseDisj _ _) as [[m rest]|msg]; simpl in *; [|done].
  destruct (is_kind tokEOF (peek rest)); simpl; [by right; apply Hg|done].
Qed.
