(* ===== verification/ExprPrint.v ===== *)
(** A printer for rule expressions and the proof that [CompileExpr] reads back
    what it prints: the grammar loses no expression it can build. *)
From S2P Require Export ExprFacts.

#[local] Arguments String.append : simpl nomatch.

(** * The printer *)

(** A string literal escapes the quote and the backslash. *)
Fixpoint esc (s : string) : string :=
  match s with
  | "" => ""
  | String c r =>
      if Ascii.eqb c dquote || Ascii.eqb c backslash then String backslash (String c (esc r))
      else String c (esc r)
  end.

Definition tok_text (t : token) : string :=
  match t_kind t with
  | tokStr => String dquote (esc (t_val t) +:+ str dquote)
  | _ => t_val t
  end.

Definition render (ts : list token) : string := sjoin " " (map tok_text ts).

Fixpoint commas (l : list (list token)) : list token :=
  match l with
  | [] => []
  | [x] => x
  | x :: r => x ++ Tok tokComma "," :: commas r
  end.

Definition show_atom (v : value) : list token :=
  match v with
  | VStr s => [Tok tokStr s]
  | VInt n => [Tok tokNum (itoa n)]
  | _ => []
  end.

Definition show_lit (v : value) : list token :=
  match v with
  | VList l => Tok tokLB "[" :: commas (map show_atom l) ++ [Tok tokRB "]"]
  | _ => show_atom v
  end.

(** Every compound expression is parenthesised. *)
Fixpoint show (n : node) : list token :=
  match n with
  | literalNode (Some v) => show_lit v
  | literalNode None => []
  | identNode x => [Tok tokIdent x]
  | binOpNode op a b => Tok tokLP "(" :: show a ++ Tok tokOp op :: show b ++ [Tok tokRP ")"]
  | notNode n => Tok tokLP "(" :: Tok tokOp "not" :: show n ++ [Tok tokRP ")"]
  | callNode f args => Tok tokIdent f :: Tok tokLP "(" :: commas (map show args) ++ [Tok tokRP ")"]
  end.

Definition print_expr (n : node) : string := render (show n).

(** * The lexer reads rendered tokens back *)

Definition lexes (s : string) (ts : list token) : Prop := ∃ n, tokenize_go n s = Some ts.

Lemma lexes_tokenize s ts : lexes s ts → tokenize s = ts.
Proof.
  intros [n Hn]. destruct (tokenize_total s) as [Ht _].
  eapply (tokenize_go_mono _ (n + String.length s)) in Hn; [|lia].
  eapply (tokenize_go_mono _ (n + String.length s)) in Ht; [|lia]. congruence.
Qed.

Lemma scan_str_esc s rest : scan_str (esc s +:+ String dquote rest) = (s, rest).
Proof.
  induction s as [|c s IH]; [done|]. simpl esc.
  destruct (Ascii.eqb c dquote || Ascii.eqb c backslash) eqn:E.
  - change (scan_str (String backslash (String c (esc s +:+ String dquote rest))) = (String c s, rest)).
    simpl. by rewrite IH.
  - apply orb_false_iff in E as [E1 E2].
    change (scan_str (String c (esc s +:+ String dquote rest)) = (String c s, rest)).
    cbn [scan_str]. by rewrite E1, E2, IH.
Qed.

Lemma lexes_blank s ts : lexes s ts → lexes (String " " s) ts.
Proof. intros [n Hn]. exists (S n). done. Qed.

Lemma lexes_word c w rest ts :
  is_word_start c = true → sforall is_word w = true → starts_outside is_word rest →
  lexes rest ts →
  lexes (String c w +:+ rest)
    (Tok (if mem_str (String c w) opSet then tokOp else tokIdent) (String c w) :: ts).
Proof.
  intros Hc Hw Hr [n Hn]. exists (S n).
  assert (Hspan : span is_word (String c w +:+ rest) = (String c w, rest)).
  { apply span_app; [|done]. simpl. by rewrite is_word_start_word, Hw. }
  change (String c w +:+ rest) with (String c (w +:+ rest)) in *.
  assert (Hq : is_blank c = false ∧ Ascii.eqb c "(" = false ∧ Ascii.eqb c ")" = false ∧
           Ascii.eqb c "[" = false ∧ Ascii.eqb c "]" = false ∧ Ascii.eqb c "," = false ∧
           Ascii.eqb c dquote = false ∧ is_digit c = false).
  { clear -Hc. destruct c as [[] [] [] [] [] [] [] []]; vm_compute in Hc |- *; done. }
  destruct Hq as (H1 & H2 & H3 & H4 & H5 & H6 & H7 & H8).
  cbn [tokenize_go]. rewrite H1, H2, H3, H4, H5, H6, H7, H8, Hc, Hspan, Hn. done.
Qed.

Lemma lexes_num w rest ts :
  w ≠ "" → sforall is_digit w = true → starts_outside is_digit rest → lexes rest ts →
  lexes (w +:+ rest) (Tok tokNum w :: ts).
Proof.
  intros Hne Hw Hr [n Hn]. exists (S n). pose proof (span_app _ _ _ Hw Hr) as Hspan.
  destruct w as [|c w]; [done|]. simpl in Hw. apply andb_true_iff in Hw as [Hc _].
  change (String c w +:+ rest) with (String c (w +:+ rest)) in *.
  assert (Hq : is_blank c = false ∧ Ascii.eqb c "(" = false ∧ Ascii.eqb c ")" = false ∧
           Ascii.eqb c "[" = false ∧ Ascii.eqb c "]" = false ∧ Ascii.eqb c "," = false ∧
           Ascii.eqb c dquote = false).
  { clear -Hc. destruct c as [[] [] [] [] [] [] [] []]; vm_compute in Hc |- *; done. }
  destruct Hq as (H1 & H2 & H3 & H4 & H5 & H6 & H7).
  cbn [tokenize_go]. rewrite H1, H2, H3, H4, H5, H6, H7, Hc, Hspan, Hn. done.
Qed.

(** What follows a token in rendered text: nothing, or a space. *)
Definition spaced (rest : string) : Prop :=
  match rest with "" => True | String c _ => c = " "%char end.

Lemma lexes_sym v rest ts :
  mem_str v ["=="; "!="; "<="; ">="; "<"; ">"] = true → spaced rest → lexes rest ts →
  lexes (v +:+ rest) (Tok tokOp v :: ts).
Proof.
  intros Hv Hsp [n Hn]. exists (S n). apply mem_str_spec in Hv.
  rewrite !elem_of_cons, elem_of_nil in Hv.
  destruct rest as [|d rest]; simpl in Hsp; [|subst d];
    destruct Hv as [->|[->|[->|[->|[->|[->|[]]]]]]]; simpl; by rewrite Hn.
Qed.

Lemma lexes_tok t rest ts :
  wf_tok t = true → t_kind t ≠ tokEOF → spaced rest → lexes rest ts →
  lexes (tok_text t +:+ rest) (t :: ts).
Proof.
  intros Hwf Hk Hsp Hrest.
  assert (Hout : ∀ p, p " "%char = false → starts_outside p rest).
  { intros p Hp. by destruct rest; simpl in *; [|subst]. }
  destruct t as [k v]; simpl in Hk; unfold wf_tok in Hwf; unfold tok_text; simpl in *.
  destruct k; try done; try (apply String.eqb_eq in Hwf as ->; destruct Hrest as [n Hn]; exists (S n);
    simpl; by rewrite Hn).
  - apply andb_true_iff in Hwf as [Hw Hop]. destruct v as [|c w]; [done|].
    apply andb_true_iff in Hw as [Hc Hw]. apply negb_true_iff in Hop.
    change (mem_str (String c w) opSet = false) in Hop.
    pose proof (lexes_word c w rest ts Hc Hw ltac:(by apply Hout) Hrest) as Hl. by rewrite Hop in Hl.
  - apply andb_true_iff in Hwf as [Hne Hw]. apply negb_true_iff, String.eqb_neq in Hne.
    by apply lexes_num; [|done|apply Hout|].
  - destruct Hrest as [n Hn]. exists (S n).
    change (tokenize_go (S n) (String dquote ((esc v +:+ str dquote) +:+ rest)) = Some (Tok tokStr v :: ts)).
    rewrite append_assoc. change (str dquote +:+ rest) with (String dquote rest).
    cbn [tokenize_go]. change (is_blank dquote) with false. cbv iota.
    change (Ascii.eqb dquote "(") with false. change (Ascii.eqb dquote ")") with false.
    change (Ascii.eqb dquote "[") with false. change (Ascii.eqb dquote "]") with false.
    change (Ascii.eqb dquote ",") with false. change (Ascii.eqb dquote dquote) with true. cbv iota.
    by rewrite scan_str_esc, Hn.
  - destruct (mem_str v ["=="; "!="; "<="; ">="; "<"; ">"]) eqn:Esym; [by apply lexes_sym|].
    assert (Hw : mem_str v ["contains"; "in"; "and"; "or"; "not"] = true).
    { revert Hwf Esym. unfold mem_str, opSet; cbn [existsb].
      rewrite !orb_true_iff, !orb_false_iff. intuition congruence. }
    apply mem_str_spec in Hw. rewrite !elem_of_cons, elem_of_nil in Hw.
    destruct Hw as [->|[->|[->|[->|[->|[]]]]]];
      match goal with |- lexes (String ?c ?w +:+ _) _ =>
        apply (lexes_word c w rest ts); [done|done|by apply Hout|done] end.
Qed.

Abbreviation real_toks := (Forall (λ t, wf_tok t = true ∧ t_kind t ≠ tokEOF)).

Lemma lexes_render ts : real_toks ts → lexes (render ts) (ts ++ [Tok tokEOF ""]).
Proof.
  induction 1 as [|t ts [Hwf Hk] Hts IH]; [by exists O|].
  destruct ts as [|t' ts].
  - change (render [t]) with (tok_text t). rewrite <-(append_nil_r (tok_text t)).
    apply lexes_tok; [done..|by exists O].
  - change (render (t :: t' :: ts)) with (tok_text t +:+ String " " (render (t' :: ts))).
    apply lexes_tok; [done..|by apply lexes_blank].
Qed.

Lemma tokenize_render ts : real_toks ts → tokenize (render ts) = ts ++ [Tok tokEOF ""].
Proof. intros H. by apply lexes_tokenize, lexes_render. Qed.

(** * The parser reads shown tokens back *)

Lemma commas_real l : Forall (λ ts, real_toks ts) l → real_toks (commas l).
Proof.
  induction 1 as [|x l Hx Hl IH]; [constructor|]. destruct l as [|y l]; [done|].
  change (real_toks (x ++ Tok tokComma "," :: commas (y :: l))).
  apply Forall_app; split; [done|]. by constructor.
Qed.

Lemma show_atom_real v : atom_ok v = true → real_toks (show_atom v).
Proof.
  destruct v as [s|n|b|l]; simpl; try done.
  - by repeat constructor.
  - intros [H1 H2]%andb_true_iff. constructor; [|constructor]. split; [|done].
    unfold wf_tok; simpl. rewrite itoa_digits by lia.
    pose proof (itoa_nonempty n) as Hne. by rewrite (proj2 (String.eqb_neq _ _) Hne).
Qed.

Lemma forallb_map_Forall {A B} (p : A → bool) (P : B → Prop) (f : A → B) l :
  (∀ a, p a = true → P (f a)) → forallb p l = true → Forall P (map f l).
Proof.
  intros Hpf. induction l as [|a l IH]; simpl; [constructor|].
  intros [Ha Hl]%andb_true_iff. constructor; auto.
Qed.

Lemma show_real n : printable n = true → real_toks (show n).
Proof.
  induction n as [v|x|op a b IHa IHb|n IH|f args IH] using node_rect'; cbn [printable show].
  - destruct v as [[s|n|b|l]|]; [| | | |done]; try apply (show_atom_real (VStr s));
      try apply (show_atom_real (VInt n)); try done.
    intros Hl. constructor; [done|]. apply Forall_app; split; [|by repeat constructor].
    apply commas_real. eapply forallb_map_Forall; [|exact Hl]. apply show_atom_real.
  - intros Hx. by constructor.
  - intros [[Hop Ha]%andb_true_iff Hb]%andb_true_iff. constructor; [done|].
    apply Forall_app; split; [auto|]. constructor.
    + split; [|done]. unfold wf_tok; simpl t_kind; simpl t_val; cbv iota.
      revert Hop. unfold mem_str, opSet, cmpOps; cbn [existsb]. rewrite !orb_true_iff. tauto.
    + apply Forall_app; split; [auto|by repeat constructor].
  - intros Hn. do 2 (constructor; [done|]). apply Forall_app; split; [auto|by repeat constructor].
  - intros [Hf Hargs]%andb_true_iff. do 2 (constructor; [done|]).
    apply Forall_app; split; [|by repeat constructor]. apply commas_real.
    apply Forall_map. clear Hf. induction IH as [|a args Ha _ IHargs]; [constructor|].
    simpl in Hargs. apply andb_true_iff in Hargs as [Hpa Hargs]. constructor; auto.
Qed.

Lemma atoi_err_itoa n : (0 <=? n) && (n <=? int64_max) = true → atoi_err (itoa n) = Ok n.
Proof. intros [? ?]%andb_true_iff. unfold atoi_err. rewrite atoi_itoa by lia. done. Qed.

Lemma list_loop_show l k out rest :
  l ≠ [] → forallb atom_ok l = true → (length l ≤ k)%nat →
  list_loop k (commas (map show_atom l) ++ Tok tokRB "]" :: rest) out = Ok (out ++ l, rest).
Proof.
  revert k out. induction l as [|v l IH]; intros k out Hne Hl Hk; [done|].
  simpl in Hl. apply andb_true_iff in Hl as [Hv Hl].
  destruct k as [|k]; [simpl in Hk; lia|].
  assert (Hone : ∀ ts, list_loop (S k) (show_atom v ++ ts) out =
    if is_kind tokComma (peek ts) then list_loop k (tail ts) (out ++ [v])
    else let? (_, ts2) := expect tokRB ts in Ok (out ++ [v], ts2)).
  { intros ts. destruct v as [s|n|b|l']; try done.
    cbn [show_atom app list_loop next peek t_kind]. cbn [t_val tail].
    by rewrite atoi_err_itoa. }
  destruct l as [|v' l].
  - simpl map. simpl commas. rewrite Hone. done.
  - change (commas (map show_atom (v :: v' :: l))) with
      (show_atom v ++ Tok tokComma "," :: commas (map show_atom (v' :: l))).
    rewrite <-app_assoc. rewrite Hone. cbn [app peek tail]. change (is_kind tokComma _) with true. cbv iota.
    rewrite IH; [by rewrite <-app_assoc|done|done|simpl in *; lia].
Qed.

(** A token that cannot extend a primary expression. *)
Definition closes (t : token) : Prop := t_kind t ≠ tokLP ∧ t_kind t ≠ tokOp.

Definition starts_primary (ts : list token) : Prop := is_op "not" (peek ts) = false ∧ is_kind tokRP (peek ts) = false ∧ ts ≠ [].

Lemma show_starts n rest : printable n = true → starts_primary (show n ++ rest).
Proof. destruct n as [[[s|n|b|l]|]|x|op a b|n|f args]; done. Qed.

(** One parser level on a primary expression followed by [rest]. *)
Section levels.
Variable pd : list token → result (node * list token).
Variables (n : node) (rest : list token).
Hypothesis Hn : printable n = true.
Hypothesis Hprim : t_kind (peek rest) ≠ tokLP →
  parsePrimary pd (show n ++ rest) = Ok (n, rest).
Hypothesis Hlp : t_kind (peek rest) ≠ tokLP.

Lemma parseUnary_show : parseUnary pd (show n ++ rest) = Ok (n, rest).
Proof using Hn Hprim Hlp.
  unfold parseUnary. destruct (show_starts n rest Hn) as [-> _]. auto.
Qed.

Lemma parseCmp_show :
  is_kind tokOp (peek rest) && mem_str (t_val (peek rest)) cmpOps = false →
  parseCmp pd (show n ++ rest) = Ok (n, rest).
Proof using Hn Hprim Hlp.
  intros Hop. unfold parseCmp. rewrite parseUnary_show. cbn [rbind]. by rewrite Hop.
Qed.

Hypothesis Hcl : t_kind (peek rest) ≠ tokOp.

Lemma closes_not_op v : is_op v (peek rest) = false.
Proof using Hcl. unfold is_op, is_kind. by rewrite bool_decide_false. Qed.

Lemma closes_not_cmp : is_kind tokOp (peek rest) && mem_str (t_val (peek rest)) cmpOps = false.
Proof using Hcl. unfold is_kind. by rewrite bool_decide_false. Qed.

Lemma parseConj_show : parseConj pd (show n ++ rest) = Ok (n, rest).
Proof using Hn Hprim Hlp Hcl.
  unfold parseConj. rewrite parseCmp_show by apply closes_not_cmp. cbn [rbind conj_loop].
  by rewrite closes_not_op.
Qed.

Lemma parseDisj_body_show : parseDisj_body pd (show n ++ rest) = Ok (n, rest).
Proof using Hn Hprim Hlp Hcl.
  unfold parseDisj_body. rewrite parseConj_show. cbn [rbind disj_loop]. by rewrite closes_not_op.
Qed.

End levels.

(** [parsePrimary] inverts [show], one level of brackets at a time. *)
Definition reads (n : node) : Prop := ∀ k rest,
  (length (show n) ≤ k)%nat → t_kind (peek rest) ≠ tokLP →
  parsePrimary (parseDisj k) (show n ++ rest) = Ok (n, rest).

Lemma parseDisj_show n k rest :
  printable n = true → reads n → (length (show n) < k)%nat → closes (peek rest) →
  parseDisj k (show n ++ rest) = Ok (n, rest).
Proof.
  intros Hn Hr Hk [Hlp Hop]. destruct k as [|k]; [lia|]. simpl.
  apply parseDisj_body_show; auto. intros _. apply Hr; [lia|done].
Qed.

Lemma args_loop_show args k j out rest :
  args ≠ [] → forallb printable args = true → Forall reads args →
  (length (commas (map show args)) < k)%nat → (length args ≤ j)%nat →
  args_loop (parseDisj k) j (commas (map show args) ++ Tok tokRP ")" :: rest) out
  = Ok (out ++ args, Tok tokRP ")" :: rest).
Proof.
  revert j out. induction args as [|a args IH]; intros j out Hne Hp Hr Hk Hj; [done|].
  simpl in Hp. apply andb_true_iff in Hp as [Ha Hp]. apply Forall_cons_1 in Hr as [Hra Hr].
  destruct j as [|j]; [simpl in Hj; lia|]. destruct args as [|a' args].
  - simpl commas in *. cbn [args_loop]. rewrite parseDisj_show; [done|done|done|done|by split].
  - change (commas (map show (a :: a' :: args))) with
      (show a ++ Tok tokComma "," :: commas (map show (a' :: args))) in *.
    rewrite length_app in Hk. cbn [length] in Hk.
    rewrite <-app_assoc. cbn [args_loop app].
    rewrite parseDisj_show; [|done|done|lia|by split]. cbn [rbind peek tail].
    change (is_kind tokComma _) with true. cbv iota.
    rewrite IH; [by rewrite <-app_assoc|done|done|done|lia|simpl in *; lia].
Qed.

Lemma commas_length {A} (f : A → list token) l :
  (∀ a, a ∈ l → f a ≠ []) → (length l ≤ length (commas (map f l)))%nat.
Proof.
  induction l as [|a l IH]; [done|]. intros Hf. destruct l as [|b l].
  - simpl. assert (f a ≠ []) by (apply Hf; left). destruct (f a); simpl; [done|lia].
  - change (commas (map f (a :: b :: l))) with (f a ++ Tok tokComma "," :: commas (map f (b :: l))).
    rewrite length_app. cbn [length]. specialize (IH (λ x Hx, Hf x (list_elem_of_further _ _ _ Hx))).
    simpl length in IH at 1. lia.
Qed.

Lemma show_nonempty n : printable n = true → show n ≠ [].
Proof. destruct n as [[[s|n|b|l]|]|x|op a b|n|f args]; done. Qed.

Lemma forallb_elem {A} (p : A → bool) l a : forallb p l = true → a ∈ l → p a = true.
Proof. intros Hl Ha. rewrite forallb_forall in Hl. apply Hl. by apply list_elem_of_In. Qed.

Lemma parsePrimary_lp pd n ts rest :
  pd ts = Ok (n, Tok tokRP ")" :: rest) →
  parsePrimary pd (Tok tokLP "(" :: ts) = Ok (n, rest).
Proof. intros Hpd. unfold parsePrimary. cbn [next peek tail t_kind]. by rewrite Hpd. Qed.

Lemma reads_binop op a b :
  mem_str op ("and" :: "or" :: cmpOps) = true → printable a = true → printable b = true →
  reads a → reads b → reads (binOpNode op a b).
Proof.
  intros Hop Ha Hb IHa IHb k rest Hk Hlp. cbn [show app].
  cbn [show length] in Hk. rewrite length_app in Hk. cbn [length] in Hk. rewrite length_app in Hk.
  cbn [length] in Hk. rewrite <-app_assoc. cbn [app]. rewrite <-app_assoc. cbn [app].
  apply parsePrimary_lp. destruct k as [|k]; [lia|]. cbn [parseDisj].
  assert (Hpa : ∀ r, t_kind (peek r) ≠ tokLP → parsePrimary (parseDisj k) (show a ++ r) = Ok (a, r))
    by (intros r Hr; apply IHa; [lia|done]).
  assert (Hpb : ∀ r, t_kind (peek r) ≠ tokLP → parsePrimary (parseDisj k) (show b ++ r) = Ok (b, r))
    by (intros r Hr; apply IHb; [lia|done]).
  assert (Hend : ∀ v, is_op v (Tok tokRP ")") = false) by done.
  change ((op =s? "and") || ((op =s? "or") || mem_str op cmpOps) = true) in Hop.
  unfold parseDisj_body, parseConj, parseCmp at 1.
  rewrite parseUnary_show by (done || auto). cbn [rbind peek tail t_val].
  change (is_kind tokOp (Tok tokOp op)) with true. cbn [andb].
  destruct (mem_str op cmpOps) eqn:Hcmp.
  { rewrite parseUnary_show by (done || auto). done. }
  rewrite orb_false_r in Hop. apply orb_true_iff in Hop as [->%String.eqb_eq| ->%String.eqb_eq].
  - cbn [rbind conj_loop length peek]. change (is_op "and" (Tok tokOp "and")) with true. cbn [tail].
    rewrite parseCmp_show by (done || auto). done.
  - cbn [rbind conj_loop length peek]. change (is_op "and" (Tok tokOp "or")) with false. cbv iota.
    cbn [rbind disj_loop length peek]. change (is_op "or" (Tok tokOp "or")) with true. cbn [tail].
    rewrite parseConj_show by (done || auto). done.
Qed.

Lemma reads_not n : printable n = true → reads n → reads (notNode n).
Proof.
  intros Hn IH k rest Hk Hlp. cbn [show app]. cbn [show length] in Hk. rewrite length_app in Hk.
  cbn [length] in Hk. rewrite <-app_assoc. cbn [app].
  apply parsePrimary_lp. destruct k as [|k]; [lia|]. cbn [parseDisj].
  assert (Hu : parseUnary (parseDisj k) (Tok tokOp "not" :: show n ++ Tok tokRP ")" :: rest)
               = Ok (notNode n, Tok tokRP ")" :: rest)).
  { unfold parseUnary. cbn [peek tail]. change (is_op "not" (Tok tokOp "not")) with true.
    rewrite IH; [done|lia|done]. }
  unfold parseDisj_body, parseConj, parseCmp at 1. by rewrite Hu.
Qed.

Lemma reads_call f args :
  forallb printable args = true → Forall reads args → reads (callNode f args).
Proof.
  intros Hp Hr k rest Hk Hlp. cbn [show app] in *.
  cbn [length] in Hk. rewrite length_app in Hk. cbn [length] in Hk. rewrite <-app_assoc. cbn [app].
  unfold parsePrimary. cbn [next peek tail t_kind t_val]. change (is_kind tokLP _) with true. cbv iota.
  destruct args as [|a args].
  { done. }
  assert (Hst : is_kind tokRP (peek (commas (map show (a :: args)) ++ Tok tokRP ")" :: rest)) = false).
  { simpl in Hp. apply andb_true_iff in Hp as [Ha _]. destruct args as [|a' args].
    - apply (show_starts a _ Ha).
    - change (commas (map show (a :: a' :: args))) with
        (show a ++ Tok tokComma "," :: commas (map show (a' :: args))).
      rewrite <-app_assoc. apply (show_starts a _ Ha). }
  rewrite Hst. rewrite args_loop_show; [done|done|done|done|lia|].
  rewrite length_app.
  pose proof (commas_length show (a :: args)
    ltac:(intros; apply show_nonempty; by eapply forallb_elem)). cbn [length] in *. lia.
Qed.

Lemma reads_lit v : lit_ok v = true → reads (literalNode (Some v)).
Proof.
  intros Hv k rest Hk Hlp. unfold parsePrimary. destruct v as [s|n|b|l]; try done.
  - cbn [show show_lit show_atom app next peek tail t_kind t_val]. by rewrite atoi_err_itoa.
  - cbn [show show_lit app]. rewrite <-app_assoc. cbn [app next peek tail t_kind].
    destruct l as [|v l]; [done|]. simpl in Hv.
    unfold parseList.
    assert (Hst : is_kind tokRB (peek (commas (map show_atom (v :: l)) ++ Tok tokRB "]" :: rest)) = false).
    { apply andb_true_iff in Hv as [Hv _]. by destruct v, l. }
    rewrite Hst. rewrite list_loop_show; [done|done|done|].
    rewrite length_app. cbn [length].
    pose proof (commas_length show_atom (v :: l)) as Hc. etrans; [apply Hc|lia].
    intros a Ha. apply (forallb_elem atom_ok (v :: l)) in Ha; [|exact Hv]. by destruct a.
Qed.

Lemma reads_printable n : printable n = true → reads n.
Proof.
  induction n as [v|x|op a b IHa IHb|n IH|f args IH] using node_rect'; cbn [printable].
  - destruct v; [apply reads_lit|done].
  - intros _ k rest _ Hlp. unfold parsePrimary. cbn [show app next peek tail t_kind].
    unfold is_kind. by rewrite bool_decide_false.
  - intros [[Hop Ha]%andb_true_iff Hb]%andb_true_iff. apply reads_binop; auto.
  - intros Hn. apply reads_not; auto.
  - intros [_ Hargs]%andb_true_iff. apply reads_call; [done|].
    induction IH as [|a args Ha _ IHargs]; [constructor|].
    simpl in Hargs. apply andb_true_iff in Hargs as [Hpa Hargs]. constructor; auto.
Qed.

(** ** Rendered text needs no trimming *)

Lemma tok_text_ends t :
  wf_tok t = true → t_kind t ≠ tokEOF →
  ∃ c r a d, tok_text t = String c r ∧ tok_text t = a +:+ str d ∧
    is_space c = false ∧ is_space d = false.
Proof.
  assert (Hw : ∀ c, is_word c = true → is_space c = false).
  { intros c. unfold is_word, is_space, is_lower, is_upper, is_digit, in_range.
    destruct (Ascii.eqb_spec c "_") as [->|]; [done|]. rewrite orb_false_r. lia. }
  assert (Hall : ∀ s, s ≠ "" → sforall is_word s = true →
    ∃ c r a d, s = String c r ∧ s = a +:+ str d ∧ is_space c = false ∧ is_space d = false).
  { intros s Hne Hs. destruct (string_snoc s Hne) as (a & d & Ha).
    destruct s as [|c r]; [done|]. exists c, r, a, d. split; [done|]. split; [done|].
    rewrite Ha, sforall_app in Hs. apply andb_true_iff in Hs as [Hsa Hsd].
    simpl in Hsd. rewrite andb_true_r in Hsd. split; [|auto].
    destruct a as [|c' a]; simpl in Ha; injection Ha as -> ->; [auto|].
    simpl in Hsa. apply andb_true_iff in Hsa as [? _]. auto. }
  intros Hwf Hk. destruct t as [k v]. unfold wf_tok in Hwf; simpl in Hwf, Hk. unfold tok_text; simpl.
  destruct k; try done;
    try (apply String.eqb_eq in Hwf as ->;
         match goal with |- context [String ?c ""] => exists c, "", "", c; done end).
  - apply andb_true_iff in Hwf as [Hv _]. destruct v as [|c r]; [done|].
    apply Hall; [done|]. simpl. apply andb_true_iff in Hv as [Hc ->].
    by rewrite is_word_start_word.
  - apply andb_true_iff in Hwf as [Hne%negb_true_iff%String.eqb_neq Hd]. apply Hall; [done|].
    eapply sforall_impl; [|exact Hd]. intros c Hc. unfold is_word. rewrite Hc. by rewrite orb_true_r.
  - exists dquote, (esc v +:+ str dquote), (String dquote (esc v)), dquote. done.
  - change (mem_str v opSet = true) in Hwf.
    apply mem_str_spec in Hwf. unfold opSet in Hwf. rewrite !elem_of_cons, elem_of_nil in Hwf.
    destruct Hwf as [->|[->|[->|[->|[->|[->|[->|[->|[->|[->|[->|[]]]]]]]]]]]];
      first [by apply Hall |
        match goal with
        | |- context [String ?c (String ?d "")] => exists c, (str d), (str c), d; done
        | |- context [String ?c ""] => exists c, "", "", c; done
        end].
Qed.

Lemma render_trim ts : real_toks ts → trim_space (render ts) = render ts.
Proof.
  intros Hts. destruct ts as [|t ts]; [done|].
  assert (Hfirst : starts_outside is_space (render (t :: ts))).
  { apply Forall_cons_1 in Hts as [[Hwf Hk] _].
    destruct (tok_text_ends t Hwf Hk) as (c & r & _ & _ & Ht & _ & Hc & _).
    unfold render. simpl map. destruct ts; simpl sjoin; rewrite Ht; exact Hc. }
  assert (Hlast : ∃ a d, render (t :: ts) = a +:+ str d ∧ is_space d = false).
  { clear Hfirst. revert t Hts. induction ts as [|t' ts IH]; intros t Hts;
      apply Forall_cons_1 in Hts as [[Hwf Hk] Hts].
    - destruct (tok_text_ends t Hwf Hk) as (_ & _ & a & d & _ & Ht & _ & Hd). by exists a, d.
    - destruct (IH t' Hts) as (a & d & Ha & Hd). exists (tok_text t +:+ " " +:+ a), d.
      split; [|done]. change (render (t :: t' :: ts)) with (tok_text t +:+ " " +:+ render (t' :: ts)).
      by rewrite Ha, !append_assoc. }
  destruct Hlast as (a & d & Ha & Hd). rewrite Ha in *. by apply trim_id.
Qed.

Lemma render_nonempty t ts : real_toks (t :: ts) → render (t :: ts) ≠ "".
Proof.
  intros [[Hwf Hk] _]%Forall_cons_1.
  destruct (tok_text_ends t Hwf Hk) as (c & r & _ & _ & Ht & _).
  unfold render. simpl map. destruct ts; simpl sjoin; by rewrite Ht.
Qed.

(** * The round trip *)

Lemma CompileExpr_print n :
  printable n = true → CompileExpr (print_expr n) = Ok (mkExpr n (print_expr n)).
Proof.
  intros Hn. unfold CompileExpr. change (print_expr n) with (render (show n)). cbv zeta.
  rewrite render_trim by by apply show_real.
  assert (Hne : render (show n) ≠ "").
  { pose proof (show_real n Hn) as Hr. pose proof (show_nonempty n Hn).
    destruct (show n); [done|by apply render_nonempty]. }
  rewrite (proj2 (String.eqb_neq _ _) Hne), tokenize_render by by apply show_real.
  rewrite parseDisj_show; [done|done|by apply reads_printable|rewrite length_app; simpl; lia|done].
Qed.
