(* ===== verification/ExprTypes.v ===== *)
(** Static types of rule expressions, evaluation without type errors, and the
    properties of the expression language as a whole. *)
From S2P Require Export ExprPrint.

Inductive ty := TStr | TInt | TBool | TList.

#[export] Instance ty_eq_dec : EqDecision ty.
Proof. solve_decision. Defined.

Definition value_ty (v : value) : ty :=
  match v with VStr _ => TStr | VInt _ => TInt | VBool _ => TBool | VList _ => TList end.

Definition ident_ty (x : string) : option ty :=
  if mem_str x ["rule_id"; "tactic"; "severity"; "kill_chain_phase"; "entity_path"; "entity_id";
                "comm"; "container_runtime"] then Some TStr
  else if mem_str x ["confidence"; "uid"; "euid"] then Some TInt
  else if mem_str x ["signals"; "techniques"] then Some TList
  else if mem_str x ["true"; "false"] then Some TBool
  else None.

Section types.
Context `{RegexpEngine}.

(** The type of a binary operator, from those of its operands. *)
Definition binop_ty (op : string) (s t : ty) : option ty :=
  if mem_str op ["and"; "or"] then
    if bool_decide (s = TBool ∧ t = TBool) then Some TBool else None
  else if mem_str op ["=="; "!="] then Some TBool
  else if mem_str op ["<"; "<="; ">"; ">="] then
    if bool_decide (s = TInt ∧ t = TInt) then Some TBool else None
  else if op =s? "contains" then
    if bool_decide (s = TList ∨ (s = TStr ∧ t = TStr)) then Some TBool else None
  else if op =s? "in" then
    if bool_decide (t = TList) then Some TBool else None
  else None.

(** [matches] is typed when its pattern is a literal that compiles. *)
Fixpoint typeof (n : node) : option ty :=
  match n with
  | literalNode l => value_ty <$> l
  | identNode x => ident_ty x
  | binOpNode op a b =>
      match typeof a, typeof b with Some s, Some t => binop_ty op s t | _, _ => None end
  | notNode n => if bool_decide (typeof n = Some TBool) then Some TBool else None
  | callNode f [a] =>
      if mem_str f ["signal"; "technique"] then
        if bool_decide (typeof a = Some TStr) then Some TBool else None
      else None
  | callNode f [a; literalNode (Some (VStr p))] =>
      if (f =s? "matches") && is_ok (regexp_compile p) then
        if bool_decide (typeof a = Some TStr) then Some TBool else None
      else None
  | callNode _ _ => None
  end.

Lemma ident_typed x t f :
  ident_ty x = Some t → ∃ v, ident_eval x f = Ok v ∧ value_ty v = t.
Proof.
  unfold ident_ty, ident_eval, mem_str; cbn [existsb].
  repeat match goal with
  | |- context [x =s? ?y] => destruct (String.eqb_spec x y) as [->|?]; [cbn; by intros [= <-]; eauto|]
  end. done.
Qed.

Ltac by_type v := destruct v; try discriminate.

Lemma cmp_typed op u w t :
  mem_str op ["and"; "or"] = false →
  binop_ty op (value_ty u) (value_ty w) = Some t →
  ∃ v, cmpEval op u w = Ok v ∧ value_ty v = t.
Proof.
  intros Hop. unfold binop_ty. rewrite Hop. unfold mem_str, cmpEval; cbn [existsb].
  destruct (op =s? "=="); [intros [= <-]; by eauto|].
  destruct (op =s? "!="); [intros [= <-]; by eauto|].
  destruct (op =s? "<"), (op =s? "<="), (op =s? ">"), (op =s? ">="); cbn [orb];
    try (case_bool_decide as Hd; [|done]; destruct Hd as [Hu Hw]; intros [= <-];
         by_type u; by_type w; simpl; by eauto).
  destruct (op =s? "contains").
  { case_bool_decide as Hd; [|done]. intros [= <-]. destruct Hd as [Hu|[Hu Hw]].
    - by_type u. by eauto.
    - by_type u. by_type w. by eauto. }
  destruct (op =s? "matches") eqn:Em.
  { apply String.eqb_eq in Em as ->. done. }
  destruct (op =s? "in"); [|done]. case_bool_decide as Hw; [|done]. intros [= <-].
  by_type w. by eauto.
Qed.

Lemma bool_value v : value_ty v = TBool → ∃ b, v = VBool b.
Proof. by_type v. by eauto. Qed.

Lemma str_value v : value_ty v = TStr → ∃ s, v = VStr s.
Proof. by_type v. by eauto. Qed.

Lemma binop_typed op a b t f :
  (∃ v, eval a f = Ok v ∧ Some (value_ty v) = typeof a) →
  (∃ v, eval b f = Ok v ∧ Some (value_ty v) = typeof b) →
  typeof (binOpNode op a b) = Some t →
  ∃ v, eval (binOpNode op a b) f = Ok v ∧ value_ty v = t.
Proof.
  intros (u & Ha & Hu) (w & Hb & Hw). cbn [typeof eval]. rewrite <-Hu, <-Hw, Ha, Hb. cbn [rbind].
  destruct (mem_str op ["and"; "or"]) eqn:Hop.
  - unfold binop_ty. rewrite Hop. case_bool_decide as Hd; [|done]. destruct Hd as [Hu' Hw'].
    intros [= <-]. apply bool_value in Hu' as [x ->]. apply bool_value in Hw' as [y ->].
    unfold mem_str in Hop; cbn [existsb] in Hop. rewrite orb_false_r in Hop.
    destruct (op =s? "and") eqn:Eop; cbn [toBool]; [by destruct x; eauto|].
    simpl in Hop. rewrite Hop. by destruct x; eauto.
  - intros Ht. destruct (cmp_typed op u w t Hop Ht) as (v & Hv & Hvt).
    unfold mem_str in Hop; cbn [existsb] in Hop.
    apply orb_false_iff in Hop as [-> [-> _]%orb_false_iff]. eauto.
Qed.

Lemma typed_call_eval g args :
  (∃ a, args = [a] ∧ mem_str g ["signal"; "technique"] = true ∧ typeof a = Some TStr) ∨
  (∃ a p, args = [a; literalNode (Some (VStr p))] ∧ g = "matches" ∧ is_ok (regexp_compile p) = true ∧
     typeof a = Some TStr) ↔ typeof (callNode g args) = Some TBool.
Proof.
  cbn [typeof]. split.
  - intros [(a & -> & -> & ->)|(a & p & -> & -> & Hp & ->)]; [done|]. simpl. rewrite Hp. done.
  - destruct args as [|a [|b [|c args]]]; [done| | |by destruct b as [[[]|]| | | |]].
    + destruct (mem_str g _) eqn:Hg; [|done]. case_bool_decide; [|done]. intros _. left. eauto.
    + destruct b as [[[p| | |]|]| | | |]; try done.
      destruct (g =s? "matches") eqn:Hg; [|done]. simpl. apply String.eqb_eq in Hg as ->.
      destruct (is_ok (regexp_compile p)) eqn:Hp; [|done].
      case_bool_decide; [|done]. intros _. right. eauto 10.
Qed.

Lemma call_type g args t : typeof (callNode g args) = Some t → t = TBool.
Proof.
  cbn [typeof]. destruct args as [|a [|b [|c args]]]; [done| | |by destruct b as [[[]|]| | | |]].
  - destruct (mem_str _ _); [|done]. case_bool_decide; [|done]. by intros [= <-].
  - destruct b as [[[p| | |]|]| | | |]; try done. destruct (_ && _); [|done].
    case_bool_decide; [|done]. by intros [= <-].
Qed.

Lemma eval_typed n t f : typeof n = Some t → ∃ v, eval n f = Ok v ∧ value_ty v = t.
Proof.
  revert t. induction n as [v|x|op a b IHa IHb|n IH|g args IH] using node_rect'; intros t Ht.
  - cbn [typeof eval literal_eval] in *. destruct v; [|done]. injection Ht as <-. eauto.
  - by apply ident_typed.
  - pose proof Ht as Ht'. cbn [typeof] in Ht'.
    destruct (typeof a) as [s|] eqn:Ea; [|done]. destruct (typeof b) as [s'|] eqn:Eb; [|done].
    apply binop_typed; [|rewrite Eb|done]; [rewrite Ea|].
    + destruct (IHa s) as (v & ? & <-); eauto.
    + destruct (IHb s') as (v & ? & <-); eauto.
  - cbn [typeof] in Ht. case_bool_decide as Hn; [|done]. injection Ht as <-.
    destruct (IH _ Hn) as (v & Hv & Hvt). apply bool_value in Hvt as [b ->].
    cbn [eval]. rewrite Hv. simpl. eauto.
  - pose proof (call_type g args t Ht) as ->. apply typed_call_eval in Ht.
    destruct Ht as [(a & -> & Hg & Ha)|(a & p & -> & -> & Hp & Ha)].
    + apply Forall_cons_1 in IH as [IH _]. destruct (IH _ Ha) as (v & Hv & Hvt).
      apply str_value in Hvt as [s ->]. cbn [eval]. rewrite Hv.
      apply mem_str_spec in Hg. rewrite !elem_of_cons, elem_of_nil in Hg.
      destruct Hg as [->|[->|[]]]; simpl; eauto.
    + apply Forall_cons_1 in IH as [IH _]. destruct (IH _ Ha) as (v & Hv & Hvt).
      apply str_value in Hvt as [s ->]. cbn [eval]. rewrite Hv. simpl.
      unfold regexp_match. destruct (regexp_compile p) as [m|]; [|done]. simpl. eauto.
Qed.

End types.

(** An infix use of [op] anywhere in the expression. *)
Fixpoint uses_infix (op : string) (n : node) : bool :=
  match n with
  | literalNode _ | identNode _ => false
  | binOpNode o a b => (o =s? op) || uses_infix op a || uses_infix op b
  | notNode n => uses_infix op n
  | callNode _ args => existsb (uses_infix op) args
  end.

Lemma printable_infix op n :
  mem_str op ("and" :: "or" :: cmpOps) = false → printable n = true → uses_infix op n = false.
Proof.
  intros Hop. induction n as [v|x|o a b IHa IHb|n IH|g args IH] using node_rect'; cbn [printable uses_infix]; auto.
  - intros [[Ho Ha]%andb_true_iff Hb]%andb_true_iff. rewrite IHa, IHb by done. rewrite !orb_false_r.
    destruct (String.eqb_spec o op) as [->|]; [congruence|done].
  - intros [_ Hargs]%andb_true_iff. induction IH as [|a args Ha _ IHargs]; [done|]. simpl in *.
    apply andb_true_iff in Hargs as [Hpa Hargs]. rewrite Ha, IHargs; done.
Qed.
