(* ===== verification/ExprProps.v ===== *)
(** The contract of the rule expression language: what [CompileExpr] and [Eval]
    promise to the rule engine. *)
From S2P Require Export ExprTypes.

(** A regular expression engine for concrete runs: a pattern is a literal to
    be found; the pattern ["("] does not compile. *)
Definition literal_regexp : RegexpEngine :=
  λ p, if p =s? "(" then Err "missing closing )" else Ok (λ s, contains s p).

Definition quoted (s : string) : string := String dquote (s +:+ str dquote).

(** C30: The lexer consumes the whole source within its fuel and ends its tokens
    with exactly one end marker, and the recursive-descent parser never gets
    stuck: [CompileExpr] returns an expression or one of its own errors. *)
Theorem CompileExpr_total src :
  tokenize_go (String.length src) src = Some (tokenize src) ∧
  ends_in_eof (tokenize src) ∧
  CompileExpr src ≠ Err out_of_fuel.
Proof.
  destruct (tokenize_total src) as [Ht He]. split; [done|]. split; [done|].
  pose proof (CompileExpr_good src) as Hg. by destruct (CompileExpr src) as [|]; [|intros [= ->]].
Qed.



(** C12: An expression that type-checks as a boolean always evaluates to a
    boolean, whatever the event: no identifier, operand, call or pattern error
    is left, so the engine never drops the signal because of the expression. *)
Theorem Eval_type_safe `{RegexpEngine} e f :
  typeof (ex_node e) = Some TBool → ∃ b, Eval e f = Ok b.
Proof.
  intros Ht. destruct (eval_typed (ex_node e) TBool f Ht) as (v & Hv & Hvt).
  apply bool_value in Hvt as [b ->]. exists b. unfold Eval. by rewrite Hv.
Qed.

Lemma Eval_type_safe_witness :
  ∃ b, @Eval literal_regexp
         (ok_or (mkExpr (literalNode None) "")
            (CompileExpr ("uid > 0 and matches(comm, " +:+ quoted "sh" +:+ ")"))) zero_Facts = Ok b.
Proof. apply (@Eval_type_safe literal_regexp). vm_compute. reflexivity. Defined.

(** No expression that compiles uses [matches] as an infix operator, although
    the grammar in the package comment lists it among the comparison operators:
    only the call form [matches(subject, pattern)] is reachable. *)
Theorem infix_matches_unreachable src e :
  CompileExpr src = Ok e → uses_infix "matches" (ex_node e) = false.
Proof.
  intros He. pose proof (CompileExpr_good src) as Hg. rewrite He in Hg.
  destruct Hg as [Hb|Hp]; [|by apply printable_infix].
  unfold CompileExpr in He. rewrite Hb in He. by injection He as <-.
Qed.

Lemma infix_matches_unreachable_witness :
  uses_infix "matches" (ex_node (mkExpr (callNode "matches" [identNode "comm"; identNode "comm"])
                                   "matches(comm, comm)")) = false ∧
  is_ok (CompileExpr "comm matches comm") = false.
Proof.
  split; [|reflexivity]. apply (infix_matches_unreachable "matches(comm, comm)").
  vm_compute. reflexivity.
Defined.
