(* ===== verification/Rules.v ===== *)
(** [internal/rules]: rule packs ([pack.go]), scoring ([engine.go]) and the
    detached signature of a pack ([verify.go]).

    [gopkg.in/yaml.v3] is a parameter of the loaders: the decoded document or
    the error it returns. *)
From S2P Require Export GoOS Expr.

Record RuleResponse := mkRuleResponse { rr_Action : string }.

Record Rule := mkRule {
  ru_ID : string;
  ru_Techniques : list string;
  ru_Tactic : string;
  ru_MinSignals : Z;
  ru_BaseScore : Z;
  ru_PerSignal : Z;
  ru_CapScore : Z;
  ru_Description : string;
  ru_Macro : string;
  ru_Micro : string;
  ru_Src : string;
  ru_Type : string;
  ru_Conf : string;
  ru_Expr : string;
  ru_Correlate : list string;
  ru_CorrelateWindow : string;
  ru_CorrelateBoost : Z;
  ru_KillChainPhase : string;
  ru_Response : RuleResponse;
  ru_compiled : option Expr
}.

Record Pack := mkPack { pk_Version : string; pk_Rules : list Rule }.

#[export] Instance eta_Rule : Eta Rule := λ r,
  mkRule (ru_ID r) (ru_Techniques r) (ru_Tactic r) (ru_MinSignals r) (ru_BaseScore r)
    (ru_PerSignal r) (ru_CapScore r) (ru_Description r) (ru_Macro r) (ru_Micro r) (ru_Src r)
    (ru_Type r) (ru_Conf r) (ru_Expr r) (ru_Correlate r) (ru_CorrelateWindow r)
    (ru_CorrelateBoost r) (ru_KillChainPhase r) (ru_Response r) (ru_compiled r).

#[export] Instance eta_Pack : Eta Pack := λ p, mkPack (pk_Version p) (pk_Rules p).

Definition zero_Rule : Rule :=
  mkRule "" [] "" 0 0 0 0 "" "" "" "" "" "" "" [] "" 0 "" (mkRuleResponse "") None.

(** * Packs *)

Definition true_Expr : Expr := mkExpr (literalNode (Some (VBool true))) "".

Definition CompiledExpr (r : Rule) : Expr :=
  match ru_compiled r with
  | Some e => e
  | None => ok_or true_Expr (CompileExpr "")
  end.

(** One iteration of the loop of [LoadPack]. *)
Definition hydrate (r : Rule) : result Rule :=
  let r := if ru_CapScore r =? 0 then r <| ru_CapScore := 100 |> else r in
  let r := if ru_MinSignals r =? 0 then r <| ru_MinSignals := 1 |> else r in
  let r := if ru_PerSignal r =? 0 then r <| ru_PerSignal := 15 |> else r in
  if negb (ru_Expr r =s? "") then
    match CompileExpr (ru_Expr r) with
    | Ok e => Ok (r <| ru_compiled := Some e |>)
    | Err msg => Err ("rule " +:+ ru_ID r +:+ ": compile expr: " +:+ msg)
    end
  else Ok r.

Fixpoint hydrate_all (rs : list Rule) : result (list Rule) :=
  match rs with
  | [] => Ok []
  | r :: rs =>
      let? r' := hydrate r in
      let? rs' := hydrate_all rs in Ok (r' :: rs')
  end.

Definition LoadPack `{FileReader} (yaml_Unmarshal : string → result Pack) (path : string)
  : result Pack :=
  let? b := ReadFile path in
  let? p := yaml_Unmarshal b in
  let p := if pk_Version p =s? "" then p <| pk_Version := "0.0.0" |> else p in
  let? rs := hydrate_all (pk_Rules p) in
  Ok (p <| pk_Rules := rs |>).

Definition ByID (p : Pack) (id : string) : option Rule :=
  List.find (λ r, ru_ID r =s? id) (pk_Rules p).

Definition MergePack (p : Pack) (extra : option Pack) : Pack :=
  match extra with
  | None => p
  | Some extra =>
      let have := map ru_ID (pk_Rules p) in
      p <| pk_Rules := pk_Rules p ++ List.filter (λ r, negb (mem_str (ru_ID r) have)) (pk_Rules extra) |>
  end.

(** * Scoring *)

Definition Score (p : Pack) (ruleID : string) (signals : list string) : Z * bool :=
  match ByID p ruleID with
  | None => (0, false)
  | Some rule =>
      let n := Z.of_nat (length signals) in
      if n <? ru_MinSignals rule then (ru_BaseScore rule, true)
      else
        let conf := wrap64 (ru_BaseScore rule +
                      wrap64 (wrap64 (n - ru_MinSignals rule + 1) * ru_PerSignal rule)) in
        (if ru_CapScore rule <? conf then ru_CapScore rule else conf, true)
  end.

Definition SeverityFromConfidence (c : Z) (learning : bool) : string :=
  if learning then SeverityInfo
  else if 95 <=? c then SeverityCritical
  else if 85 <=? c then SeverityHigh
  else if 70 <=? c then SeverityMedium
  else SeverityLow.

(** * Signatures

    [crypto/ed25519]'s [Verify] is kept as the decision procedure it is. *)

Class Ed25519 := ed25519_Verify : string (* pub *) → string (* msg *) → string (* sig *) → bool.

Definition PublicKeySize : Z := 32.

Definition b64_decode_err (s : string) : result string :=
  match Base64.decode s with Some b => Ok b | None => Err "illegal base64 data" end.

Definition with_context {A} (ctx : string) (m : result A) : result A :=
  match m with Ok a => Ok a | Err e => Err (ctx +:+ ": " +:+ e) end.

Definition loadEd25519Pub `{FileReader} (path : string) : result string :=
  let? raw := ReadFile path in
  let s := trim_prefix (trim_space raw) "ed25519:" in
  let? b := with_context "decode pubkey" (b64_decode_err s) in
  if negb (slen b =? PublicKeySize) then Err "unexpected pubkey size" else Ok b.

Definition VerifyPackSignature `{FileReader} `{Ed25519} (packPath sigPath pubKeyPath : string)
  : result unit :=
  if pubKeyPath =s? "" then Err "rules: no public key configured; refusing to verify"
  else
    let? pub := with_context "load pubkey" (loadEd25519Pub pubKeyPath) in
    let? msg := ReadFile packPath in
    let? sigRaw := ReadFile sigPath in
    let? sig := with_context "decode signature" (b64_decode_err (trim_space sigRaw)) in
    if negb (ed25519_Verify pub msg sig) then Err "rules: signature verification failed"
    else Ok tt.
