(* ===== verification/RulesFacts.v ===== *)
(** Properties of packs, scoring and pack signatures ([Rules.v]). *)
From S2P Require Export Rules ExprTypes.

#[global] Arguments CompileExpr : simpl never.

(** * Packs *)

Lemma hydrate_spec r r' :
  ru_compiled r = None → hydrate r = Ok r' →
  ru_ID r' = ru_ID r ∧ ru_Expr r' = ru_Expr r ∧
  ru_CapScore r' ≠ 0 ∧ ru_MinSignals r' ≠ 0 ∧ ru_PerSignal r' ≠ 0 ∧
  CompileExpr (ru_Expr r') = Ok (CompiledExpr r').
Proof.
  intros Hc.
  destruct r as [id te ta mi ba pe ca de ma mic sr ty co ex cor cw cb kc rs cm].
  cbn in Hc. subst cm. unfold hydrate, upd. cbn.
  destruct (Z.eqb_spec ca 0); cbn; destruct (Z.eqb_spec mi 0); cbn;
    destruct (Z.eqb_spec pe 0); cbn;
    destruct (String.eqb_spec ex "") as [He|He]; cbn;
    try (destruct (CompileExpr ex) as [e'|msg] eqn:Ee; [|done]);
    intros [= <-]; cbn; repeat split; try done; by rewrite He.
Qed.

Lemma hydrate_all_spec rs rs' :
  hydrate_all rs = Ok rs' → Forall2 (λ r r', hydrate r = Ok r') rs rs'.
Proof.
  revert rs'. induction rs as [|r rs IH]; intros rs'; simpl; [by intros [= <-]|].
  intros (r' & Hr & (rs1 & Hrs & [= <-])%rbind_Ok)%rbind_Ok. constructor; auto.
Qed.

Lemma ByID_Some p id r : ByID p id = Some r → r ∈ pk_Rules p ∧ ru_ID r = id.
Proof.
  unfold ByID. intros [Hr He]%find_some. split; [by apply list_elem_of_In|]. by apply String.eqb_eq.
Qed.

Lemma find_app {A} (p : A → bool) l k :
  List.find p (l ++ k) = match List.find p l with Some a => Some a | None => List.find p k end.
Proof. induction l as [|a l IH]; simpl; [done|]. by destruct (p a). Qed.

Lemma find_filter {A} (p q : A → bool) l :
  (∀ a, p a = true → q a = true) → List.find p (List.filter q l) = List.find p l.
Proof.
  intros Hpq. induction l as [|a l IH]; simpl; [done|].
  destruct (p a) eqn:Ep.
  - rewrite (Hpq a Ep). simpl. by rewrite Ep.
  - destruct (q a); simpl; [by rewrite Ep|done].
Qed.

Lemma ByID_None p id : ByID p id = None → mem_str id (map ru_ID (pk_Rules p)) = false.
Proof.
  intros Hn. apply not_true_is_false. intros (r & Hr & He)%mem_str_spec%list_elem_of_In%in_map_iff.
  pose proof (find_none _ _ Hn r He) as Hf. simpl in Hf. by rewrite Hr, String.eqb_refl in Hf.
Qed.

(** * Scoring *)

(** A rule whose knobs are ordered and far from the edges of [int]. *)
Definition sane_rule (r : Rule) : Prop :=
  0 ≤ ru_BaseScore r ≤ ru_CapScore r ∧ ru_CapScore r ≤ 100 ∧
  0 ≤ ru_PerSignal r < 2 ^ 30 ∧ 0 ≤ ru_MinSignals r < 2 ^ 30.

Lemma Score_sane p id r sigs :
  ByID p id = Some r → sane_rule r → Z.of_nat (length sigs) < 2 ^ 30 →
  Score p id sigs =
    (if Z.of_nat (length sigs) <? ru_MinSignals r then ru_BaseScore r
     else Z.min (ru_CapScore r)
            (ru_BaseScore r + (Z.of_nat (length sigs) - ru_MinSignals r + 1) * ru_PerSignal r), true).
Proof.
  intros Hr (Hb & Hc & Hp & Hm) Hn. unfold Score. rewrite Hr.
  destruct (Z.ltb_spec (Z.of_nat (length sigs)) (ru_MinSignals r)) as [|Hge]; [done|].
  set (k := Z.of_nat (length sigs) - ru_MinSignals r + 1).
  assert (0 < k <= 2 ^ 30) by (unfold k; lia).
  assert (0 <= k * ru_PerSignal r <= 2 ^ 30 * 2 ^ 30) by nia.
  rewrite (wrap64_id k) by (unfold in64, int64_min, int64_max; lia).
  rewrite (wrap64_id (k * _)) by (unfold in64, int64_min, int64_max; lia).
  rewrite wrap64_id by (unfold in64, int64_min, int64_max; lia).
  f_equal. case_match; lia.
Qed.

(** Severities in increasing order. *)
Definition severity_rank (s : string) : Z :=
  if s =s? SeverityCritical then 4 else if s =s? SeverityHigh then 3
  else if s =s? SeverityMedium then 2 else if s =s? SeverityLow then 1 else 0.

(** For a rule whose base score is at most its cap and whose cap is at most
    100, the confidence is a percentage and never decreases when signals are
    added; nor does the severity bucket it falls in. *)
Theorem Score_monotone p id r sigs sigs' :
  ByID p id = Some r → sane_rule r →
  (length sigs ≤ length sigs')%nat → Z.of_nat (length sigs') < 2 ^ 30 →
  let c := fst (Score p id sigs) in
  let c' := fst (Score p id sigs') in
  0 ≤ c ≤ c' ∧ c' ≤ 100 ∧
  severity_rank (SeverityFromConfidence c false) ≤ severity_rank (SeverityFromConfidence c' false).
Proof.
  intros Hr Hs Hle Hn. rewrite (Score_sane p id r sigs), (Score_sane p id r sigs') by (done || lia).
  destruct Hs as (Hb & Hc & Hp & Hm). simpl.
  match goal with |- 0 ≤ ?c ≤ ?c' ∧ _ => assert (0 ≤ c ≤ c' ∧ c' ≤ 100) as [H1 H2] end.
  { repeat case_match; rewrite ?Z.ltb_lt, ?Z.ltb_ge in *; nia. }
  split; [done|]. split; [done|]. unfold SeverityFromConfidence.
  repeat case_match; rewrite ?Z.leb_le, ?Z.leb_gt in *; vm_compute; (done || lia).
Qed.

Definition demo_rule : Rule :=
  zero_Rule <| ru_ID := "R" |> <| ru_BaseScore := 60 |> <| ru_CapScore := 95 |>
    <| ru_PerSignal := 15 |> <| ru_MinSignals := 1 |>.

Lemma Score_monotone_witness :
  let p := mkPack "1" [demo_rule] in
  let c := fst (Score p "R" ["a"]) in
  let c' := fst (Score p "R" ["a"; "b"; "c"]) in
  0 ≤ c ≤ c' ∧ c' ≤ 100 ∧
  severity_rank (SeverityFromConfidence c false) ≤ severity_rank (SeverityFromConfidence c' false).
Proof.
  apply (Score_monotone (mkPack "1" [demo_rule]) "R" demo_rule);
    [reflexivity|unfold sane_rule; simpl; lia|simpl; lia|simpl; lia].
Defined.

(** A base score above the cap is returned as it is below the signal minimum. *)
Example Score_above_cap :
  Score (mkPack "1" [demo_rule <| ru_BaseScore := 120 |> <| ru_MinSignals := 2 |>]) "R" ["a"] = (120, true).
Proof. reflexivity. Qed.

(** A pack that loads has a version and, in the order of the file, the
    rules of the file with their identifiers; every rule has non-zero knobs,
    and its cached expression is the compilation of its source (the constant
    true when it has none). *)
Theorem LoadPack_hydrated `{FileReader} (yaml : string → result Pack) path p :
  (∀ b q, yaml b = Ok q → Forall (λ r, ru_compiled r = None) (pk_Rules q)) →
  LoadPack yaml path = Ok p →
  pk_Version p ≠ "" ∧
  (∃ b q, ReadFile path = Ok b ∧ yaml b = Ok q ∧ map ru_ID (pk_Rules p) = map ru_ID (pk_Rules q)) ∧
  Forall (λ r, ru_CapScore r ≠ 0 ∧ ru_MinSignals r ≠ 0 ∧ ru_PerSignal r ≠ 0 ∧
               CompileExpr (ru_Expr r) = Ok (CompiledExpr r)) (pk_Rules p).
Proof.
  intros Hyaml. unfold LoadPack.
  intros (b & Hb & (q & Hq & (rs & Hrs & [= <-])%rbind_Ok)%rbind_Ok)%rbind_Ok.
  pose proof (Hyaml _ _ Hq) as Hnone.
  assert (Hrules : hydrate_all (pk_Rules q) = Ok rs) by (by destruct (pk_Version q =s? "")).
  apply hydrate_all_spec in Hrules. split; [|split].
  - simpl. destruct (String.eqb_spec (pk_Version q) ""); done.
  - exists b, q. split; [done|]. split; [done|]. simpl. clear Hrs.
    induction Hrules as [|r r' l l' Hr Hl IH]; [done|]. inversion_clear Hnone as [|? ? Hrn Hn].
    destruct (hydrate_spec _ _ Hrn Hr) as (Hid & _). simpl. rewrite Hid, IH; done.
  - simpl. clear Hrs. induction Hrules as [|r r' l l' Hr Hl IH]; [done|].
    inversion_clear Hnone as [|? ? Hrn Hn].
    destruct (hydrate_spec _ _ Hrn Hr) as (_ & _ & ? & ? & ? & ?). constructor; auto.
Qed.

Definition demo_yaml (b : string) : result Pack :=
  if b =s? "doc" then Ok (mkPack "" [zero_Rule <| ru_ID := "R" |> <| ru_Expr := "uid == 0" |>])
  else Err "yaml: bad".

Definition demo_reader : FileReader := λ path, if path =s? "pack.yaml" then Ok "doc" else Err "not found".

Definition demo_loaded : Pack :=
  mkPack "0.0.0"
    [zero_Rule <| ru_ID := "R" |> <| ru_Expr := "uid == 0" |> <| ru_CapScore := 100 |>
       <| ru_MinSignals := 1 |> <| ru_PerSignal := 15 |>
       <| ru_compiled := Some (mkExpr (binOpNode "==" (identNode "uid") (literalNode (Some (VInt 0)))) "uid == 0") |>].

Lemma LoadPack_hydrated_witness :
  pk_Version demo_loaded ≠ "" ∧
  (∃ b q, @ReadFile demo_reader "pack.yaml" = Ok b ∧ demo_yaml b = Ok q ∧
          map ru_ID (pk_Rules demo_loaded) = map ru_ID (pk_Rules q)) ∧
  Forall (λ r, ru_CapScore r ≠ 0 ∧ ru_MinSignals r ≠ 0 ∧ ru_PerSignal r ≠ 0 ∧
               CompileExpr (ru_Expr r) = Ok (CompiledExpr r)) (pk_Rules demo_loaded).
Proof.
  apply (@LoadPack_hydrated demo_reader demo_yaml "pack.yaml" demo_loaded).
  - intros b q. unfold demo_yaml. destruct (b =s? "doc"); [|discriminate]. intros [= <-].
    constructor; [reflexivity|constructor].
  - vm_compute. reflexivity.
Defined.

(** Merging a second pack never shadows a rule: a rule the pack already had
    is still found under its identifier, and every other identifier is looked
    up in the second pack. *)
Theorem MergePack_ByID p extra id :
  ByID (MergePack p (Some extra)) id =
    match ByID p id with Some r => Some r | None => ByID extra id end.
Proof.
  unfold ByID at 1. simpl. rewrite find_app. fold (ByID p id).
  destruct (ByID p id) as [r|] eqn:E; [done|]. apply find_filter.
  intros r ->%String.eqb_eq. by rewrite (ByID_None _ _ E).
Qed.

(** Verification succeeds exactly when a public key is configured, it
    decodes to 32 bytes, both files are readable, the signature decodes and
    ed25519 accepts it on the bytes of the pack: no error path accepts. *)
Theorem VerifyPackSignature_iff `{FileReader} `{Ed25519} packPath sigPath pubKeyPath :
  VerifyPackSignature packPath sigPath pubKeyPath = Ok tt ↔
  pubKeyPath ≠ "" ∧ ∃ rawkey pub msg rawsig sig,
    ReadFile pubKeyPath = Ok rawkey ∧
    Base64.decode (trim_prefix (trim_space rawkey) "ed25519:") = Some pub ∧
    String.length pub = 32%nat ∧
    ReadFile packPath = Ok msg ∧ ReadFile sigPath = Ok rawsig ∧
    Base64.decode (trim_space rawsig) = Some sig ∧ ed25519_Verify pub msg sig = true.
Proof.
  unfold VerifyPackSignature, loadEd25519Pub, b64_decode_err, slen, PublicKeySize. split.
  - destruct (String.eqb_spec pubKeyPath ""); [done|]. intros Hok. split; [done|].
    destruct (ReadFile pubKeyPath) as [rawkey|]; [|done]. simpl in Hok.
    destruct (Base64.decode (trim_prefix (trim_space rawkey) "ed25519:")) as [pub|] eqn:Ek; [|done].
    simpl in Hok. destruct (Z.eqb_spec (Z.of_nat (String.length pub)) 32); [|done]. simpl in Hok.
    destruct (ReadFile packPath) as [msg|]; [|done]. simpl in Hok.
    destruct (ReadFile sigPath) as [rawsig|]; [|done]. simpl in Hok.
    destruct (Base64.decode (trim_space rawsig)) as [sig|] eqn:Es; [|done]. simpl in Hok.
    destruct (ed25519_Verify pub msg sig) eqn:Ev; [|done].
    exists rawkey, pub, msg, rawsig, sig. repeat split; try done. lia.
  - intros (Hne & rawkey & pub & msg & rawsig & sig & H1 & H2 & H3 & H4 & H5 & H6 & H7).
    rewrite (proj2 (String.eqb_neq _ _) Hne), H1. simpl. rewrite H2. simpl. rewrite H3. simpl.
    rewrite H4. simpl. rewrite H5. simpl. rewrite H6. simpl. by rewrite H7.
Qed.
