(* ===== verification/Sigma.v ===== *)
(** [internal/rules/sigma_lite.go]: translation of Sigma rules into rules of the
    engine, by generating the text of an expression.

    A decoded YAML value is a string, a list, a mapping, or something else that
    the translation ignores.  A mapping is the list of its entries in the order
    in which Go happens to iterate over them. *)
From S2P Require Export Rules.

Inductive yaml :=
| YStr (s : string)
| YSeq (l : list yaml)
| YMap (l : list (string * yaml))
| YOther.

Record sigmaDoc := mkSigmaDoc {
  sd_Title : string;
  sd_ID : string;
  sd_Level : string;
  sd_Description : string;
  sd_Tags : list string;
  sd_Detection : list (string * yaml);
  sd_Fields : list string
}.

Definition escape (s : string) : string :=
  replace_byte dquote (String backslash (str dquote))
    (replace_byte backslash (String backslash (str backslash)) s).

Definition sigmaFieldMap (f : string) : string :=
  let f := to_lower f in
  if mem_str f ["commandline"; "process_command_line"; "argv"] then "entity_path"
  else if mem_str f ["image"; "process"] then "comm"
  else if mem_str f ["path"; "targetfilename"] then "entity_path"
  else if mem_str f ["user"; "username"] then "comm"
  else if f =s? "ruleid" then "rule_id"
  else "".

Definition yaml_str (y : yaml) : option string :=
  match y with YStr s => Some s | _ => None end.

Definition toStringSlice (raw : yaml) : list string :=
  match raw with
  | YStr v => [v]
  | YSeq l => omap yaml_str l
  | _ => []
  end.

Definition qq (s : string) : string := String dquote (s +:+ str dquote).

Definition sigmaCompare (field md value : string) : string :=
  if (md =s? "contains") || (md =s? "") then field +:+ " contains " +:+ qq (escape value)
  else if md =s? "endswith" then "matches(" +:+ field +:+ ", " +:+ qq (escape value +:+ "$") +:+ ")"
  else if md =s? "startswith" then "matches(" +:+ field +:+ ", " +:+ qq ("^" +:+ escape value) +:+ ")"
  else if md =s? "re" then "matches(" +:+ field +:+ ", " +:+ qq (escape value) +:+ ")"
  else field +:+ " == " +:+ qq (escape value).

(** [field] and [mod], split at the first bar. *)
Definition split_mod (key : string) : string * string :=
  match index_byte key "|" with
  | Some i => (stake i key, sdrop (S i) key)
  | None => (key, "")
  end.

Definition sigmaFieldToExpr (key : string) (raw : yaml) : string :=
  let '(field, md) := split_mod key in
  let our := sigmaFieldMap field in
  if our =s? "" then ""
  else
    let values := toStringSlice raw in
    if (length values =? 0)%nat then ""
    else "(" +:+ sjoin " or " (map (sigmaCompare our md) values) +:+ ")".

Fixpoint sanitizeID (s : string) : string :=
  match s with
  | "" => ""
  | String c r =>
      if is_upper c || is_digit c then String c (sanitizeID r)
      else if is_lower c then String (chr (code c - 97 + 65)) (sanitizeID r)
      else if Ascii.eqb c " " || Ascii.eqb c "-" || Ascii.eqb c "." then String "_" (sanitizeID r)
      else sanitizeID r
  end.

Definition detection (d : sigmaDoc) (key : string) : option yaml :=
  snd <$> List.find (λ kv, fst kv =s? key) (sd_Detection d).

Definition sigma_part (kv : string * yaml) : option string :=
  let '(k, raw) := kv in
  if equal_fold k "timeframe" || equal_fold k "count" then None
  else let part := sigmaFieldToExpr k raw in if part =s? "" then None else Some part.

Definition sigma_tags (tags : list string) : list string :=
  omap (λ t, if has_prefix t "attack.t" then Some (to_upper (trim_prefix t "attack.")) else None) tags.

Definition sigmaToRule (d : sigmaDoc) : option Rule :=
  match detection d "selection" with
  | Some (YMap sel) =>
      let parts := omap sigma_part sel in
      if (length parts =? 0)%nat then None
      else
        let id := if sd_ID d =s? "" then "SIGMA_" +:+ sanitizeID (sd_Title d) else sd_ID d in
        Some (zero_Rule
          <| ru_ID := id |>
          <| ru_Tactic := "sigma" |>
          <| ru_Techniques := sigma_tags (sd_Tags d) |>
          <| ru_Description := sd_Description d |>
          <| ru_BaseScore := 60 |>
          <| ru_PerSignal := 10 |>
          <| ru_CapScore := 90 |>
          <| ru_MinSignals := 1 |>
          <| ru_Expr := sjoin " and " parts |>)
  | _ => None
  end.

(** * The loader *)

Section load.
Context `{FileReader} `{DirReader}.
Variable yaml_Unmarshal : string → result sigmaDoc.

Definition sigma_file (dir : string) (e : DirEntry) : option Rule :=
  if de_IsDir e then None
  else
    let name := to_lower (de_Name e) in
    if negb (has_suffix name ".yml") && negb (has_suffix name ".yaml") then None
    else match ReadFile (path_join [dir; de_Name e]) with
         | Err _ => None
         | Ok data => match yaml_Unmarshal data with Err _ => None | Ok doc => sigmaToRule doc end
         end.

Fixpoint compile_all (rs : list Rule) : result (list Rule) :=
  match rs with
  | [] => Ok []
  | r :: rs =>
      let? r' :=
        if ru_Expr r =s? "" then Ok r
        else match CompileExpr (ru_Expr r) with
             | Ok e => Ok (r <| ru_compiled := Some e |>)
             | Err msg => Err ("rule " +:+ ru_ID r +:+ ": " +:+ msg)
             end in
      let? rs' := compile_all rs in Ok (r' :: rs')
  end.

Definition LoadSigmaLiteDir (dir : string) : result Pack :=
  let? ents := ReadDir dir in
  let rules := omap (sigma_file dir) ents in
  if (length rules =? 0)%nat then Err ("no sigma-lite rules compiled under " +:+ dir)
  else let? rs := compile_all rules in Ok (mkPack "sigma-lite" rs).

End load.
