(* ===== verification/SigmaFacts.v ===== *)
(** The text that [Sigma.v] generates: it always compiles, and the compiled
    expression means what the Sigma selection says. *)
From S2P Require Export Sigma RulesFacts ExprProps.

#[local] Arguments String.append : simpl nomatch.

(** * What a selection means *)

Section semantics.
Context `{RegexpEngine}.

(** Conditions are tried from left to right, until one decides. *)
Fixpoint any_of (l : list (result bool)) : result bool :=
  match l with [] => Ok false | r :: l => let? b := r in if b then Ok true else any_of l end.

Fixpoint all_of (l : list (result bool)) : result bool :=
  match l with [] => Ok true | r :: l => let? b := r in if b then all_of l else Ok false end.

Definition fact (our : string) (f : EventFacts) : string :=
  if our =s? "entity_path" then f_EntityPath f
  else if our =s? "comm" then f_Comm f else f_RuleID f.

Definition regexp_test (s p : string) : result bool :=
  let? m := regexp_compile p in Ok (m s).

Definition value_holds (our md v : string) (f : EventFacts) : result bool :=
  if (md =s? "contains") || (md =s? "") then Ok (contains (fact our f) v)
  else if md =s? "endswith" then regexp_test (fact our f) (v +:+ "$")
  else if md =s? "startswith" then regexp_test (fact our f) ("^" +:+ v)
  else if md =s? "re" then regexp_test (fact our f) v
  else Ok (fact our f =s? v).

(** The supported conditions of a selection: our field, modifier and values. *)
Definition condition (kv : string * yaml) : option (string * string * list string) :=
  let '(k, raw) := kv in
  if equal_fold k "timeframe" || equal_fold k "count" then None
  else
    let '(field, md) := split_mod k in
    let our := sigmaFieldMap field in
    let values := toStringSlice raw in
    if (our =s? "") || (length values =? 0)%nat then None else Some (our, md, values).

Definition selection_holds (sel : list (string * yaml)) (f : EventFacts) : result bool :=
  all_of (map (λ '(our, md, vs), any_of (map (λ v, value_holds our md v f) vs))
            (omap condition sel)).

End semantics.

(** * Escaping *)

Lemma escape_esc s : escape s = esc s.
Proof.
  unfold escape. induction s as [|c s IH]; [done|]. cbn [replace_byte].
  destruct (Ascii.eqb_spec c backslash) as [->|Hb].
  - simpl. by rewrite <-IH.
  - simpl. destruct (Ascii.eqb_spec c dquote) as [->|Hq]; simpl; [by rewrite <-IH|].
    by rewrite (proj2 (Ascii.eqb_neq _ _) Hb), <-IH.
Qed.

Lemma esc_app a b : esc (a +:+ b) = esc a +:+ esc b.
Proof. induction a as [|c a IH]; simpl; [done|]. rewrite IH. by destruct (_ || _). Qed.

(** * The tokens of the generated text *)

Definition our_field (our : string) : Prop := our ∈ ["entity_path"; "comm"; "rule_id"].

Lemma sigmaFieldMap_our f : sigmaFieldMap f ≠ "" → our_field (sigmaFieldMap f).
Proof.
  unfold sigmaFieldMap, our_field. cbv zeta.
  repeat (case_match; [intros _; repeat constructor|]). done.
Qed.

Definition call_toks (our p : string) : list token :=
  [Tok tokIdent "matches"; Tok tokLP "("; Tok tokIdent our; Tok tokComma ","; Tok tokStr p; Tok tokRP ")"].

Definition value_toks (our md v : string) : list token :=
  if (md =s? "contains") || (md =s? "") then [Tok tokIdent our; Tok tokOp "contains"; Tok tokStr v]
  else if md =s? "endswith" then call_toks our (v +:+ "$")
  else if md =s? "startswith" then call_toks our ("^" +:+ v)
  else if md =s? "re" then call_toks our v
  else [Tok tokIdent our; Tok tokOp "=="; Tok tokStr v].

Fixpoint sep_toks (sep : token) (l : list (list token)) : list token :=
  match l with
  | [] => []
  | [x] => x
  | x :: r => x ++ sep :: sep_toks sep r
  end.

Definition condition_toks (c : string * string * list string) : list token :=
  let '(our, md, vs) := c in
  Tok tokLP "(" :: sep_toks (Tok tokOp "or") (map (value_toks our md) vs) ++ [Tok tokRP ")"].

Lemma lexes_str v rest ts : lexes rest ts → lexes (qq (esc v) +:+ rest) (Tok tokStr v :: ts).
Proof.
  intros Hr. unfold qq.
  change (String dquote (esc v +:+ str dquote)) with (tok_text (Tok tokStr v)).
  destruct Hr as [n Hn]. exists (S n). unfold tok_text; simpl t_kind; simpl t_val; cbv iota.
  change (tokenize_go (S n) (String dquote ((esc v +:+ str dquote) +:+ rest)) = Some (Tok tokStr v :: ts)).
  rewrite append_assoc. change (str dquote +:+ rest) with (String dquote rest).
  cbn [tokenize_go]. change (is_blank dquote) with false. cbv iota.
  change (Ascii.eqb dquote "(") with false. change (Ascii.eqb dquote ")") with false.
  change (Ascii.eqb dquote "[") with false. change (Ascii.eqb dquote "]") with false.
  change (Ascii.eqb dquote ",") with false. change (Ascii.eqb dquote dquote) with true. cbv iota.
  by rewrite scan_str_esc, Hn.
Qed.

Lemma lexes_lp rest ts : lexes rest ts → lexes (String "(" rest) (Tok tokLP "(" :: ts).
Proof. intros [n Hn]. exists (S n). simpl. by rewrite Hn. Qed.

Lemma lexes_rp rest ts : lexes rest ts → lexes (String ")" rest) (Tok tokRP ")" :: ts).
Proof. intros [n Hn]. exists (S n). simpl. by rewrite Hn. Qed.

Lemma lexes_comma rest ts : lexes rest ts → lexes (String "," rest) (Tok tokComma "," :: ts).
Proof. intros [n Hn]. exists (S n). simpl. by rewrite Hn. Qed.

Lemma lexes_our our rest ts :
  our_field our → starts_outside is_word rest → lexes rest ts →
  lexes (our +:+ rest) (Tok tokIdent our :: ts).
Proof.
  unfold our_field. rewrite !elem_of_cons, elem_of_nil.
  intros [->|[->|[->|[]]]] Hr Hl;
    match goal with |- lexes (String ?c ?w +:+ _) _ => by apply (lexes_word c w) end.
Qed.

Lemma lexes_call our p rest ts :
  our_field our → lexes rest ts →
  lexes (("matches(" +:+ our +:+ ", " +:+ qq (esc p) +:+ ")") +:+ rest) (call_toks our p ++ ts).
Proof.
  intros Ho Hr. rewrite !append_assoc.
  change ("matches(" +:+ our +:+ ", " +:+ qq (esc p) +:+ ")" +:+ rest) with
    ("matches" +:+ String "(" (our +:+ String "," (String " " (qq (esc p) +:+ String ")" rest)))).
  apply (lexes_word "m" "atches"); [done|done|done|].
  apply lexes_lp, lexes_our; [done|done|]. by apply lexes_comma, lexes_blank, lexes_str, lexes_rp.
Qed.

Lemma lexes_value our md v rest ts :
  our_field our → lexes rest ts →
  lexes (sigmaCompare our md v +:+ rest) (value_toks our md v ++ ts).
Proof.
  intros Ho Hr. unfold sigmaCompare, value_toks. rewrite !escape_esc.
  destruct (_ || _).
  { rewrite !append_assoc. change (" contains " +:+ ?s) with (String " " ("contains" +:+ String " " s)).
    apply lexes_our; [done|done|]. apply lexes_blank.
    apply (lexes_word "c" "ontains"); [done..|]. by apply lexes_blank, lexes_str. }
  destruct (md =s? "endswith").
  { change ("$") with (esc "$") at 1. rewrite <-esc_app. by apply lexes_call. }
  destruct (md =s? "startswith"). { by apply (lexes_call our ("^" +:+ v)). }
  destruct (md =s? "re"). { by apply lexes_call. }
  rewrite !append_assoc. change (" == " +:+ ?s) with (String " " ("==" +:+ String " " s)).
  apply lexes_our; [done|done|]. apply lexes_blank.
  apply (lexes_sym "=="); [done|done|]. by apply lexes_blank, lexes_str.
Qed.

(** A list of rendered parts, joined by a word operator. *)
Lemma lexes_join (sep : string) l (toks : list (list token)) rest ts :
  (sep = "or" ∨ sep = "and") →
  Forall2 (λ s tks, ∀ r us, lexes r us → lexes (s +:+ r) (tks ++ us)) l toks →
  lexes rest ts →
  lexes (sjoin (" " +:+ sep +:+ " ") l +:+ rest) (sep_toks (Tok tokOp sep) toks ++ ts).
Proof.
  intros Hsep Hl Hr. induction Hl as [|s tks l toks Hs Hl IH]; [done|].
  destruct Hl as [|s' tks' l toks Hs' Hl]; [by apply Hs|].
  change (sjoin ?x (s :: s' :: l)) with (s +:+ x +:+ sjoin x (s' :: l)).
  change (sep_toks ?x (tks :: tks' :: toks)) with (tks ++ x :: sep_toks x (tks' :: toks)).
  rewrite !append_assoc, <-app_assoc. apply Hs.
  destruct Hsep as [->| ->].
  - change (" " +:+ "or" +:+ " " +:+ ?s) with (String " " ("or" +:+ String " " s)).
    apply lexes_blank, (lexes_word "o" "r"); [done..|]. by apply lexes_blank.
  - change (" " +:+ "and" +:+ " " +:+ ?s) with (String " " ("and" +:+ String " " s)).
    apply lexes_blank, (lexes_word "a" "nd"); [done..|]. by apply lexes_blank.
Qed.

Definition wf_condition (c : string * string * list string) : Prop :=
  let '(our, _, vs) := c in our_field our ∧ vs ≠ [].

Lemma condition_wf kv c : condition kv = Some c → wf_condition c.
Proof.
  destruct kv as [k raw]. unfold condition. destruct (_ || _); [done|].
  destruct (split_mod k) as [field md].
  destruct (String.eqb_spec (sigmaFieldMap field) "") as [|Hne]; [done|].
  destruct (toStringSlice raw) as [|v vs] eqn:Ev; [done|]. simpl. intros [= <-].
  split; [by apply sigmaFieldMap_our|done].
Qed.

Definition condition_text (c : string * string * list string) : string :=
  let '(our, md, vs) := c in "(" +:+ sjoin " or " (map (sigmaCompare our md) vs) +:+ ")".

Lemma sigma_part_condition kv : sigma_part kv = condition_text <$> condition kv.
Proof.
  destruct kv as [k raw]. unfold sigma_part, condition, sigmaFieldToExpr. destruct (_ || _); [done|].
  destruct (split_mod k) as [field md]. destruct (sigmaFieldMap field =s? ""); [done|].
  by destruct (toStringSlice raw).
Qed.

Lemma lexes_condition c r us :
  wf_condition c → lexes r us → lexes (condition_text c +:+ r) (condition_toks c ++ us).
Proof.
  destruct c as [[our md] vs]. intros [Ho Hvs] Hr. unfold condition_text, condition_toks.
  rewrite !append_assoc. cbn [app]. rewrite <-app_assoc.
  change ("(" +:+ ?s) with (String "(" s). change (")" +:+ r) with (String ")" r). apply lexes_lp.
  apply (lexes_join "or"); [by left| |by apply lexes_rp].
  clear Hvs. induction vs as [|v vs IH]; constructor; [|done]. intros. by apply lexes_value.
Qed.

(** * The expression it denotes *)

Definition str_node (s : string) : node := literalNode (Some (VStr s)).

Definition value_node (our md v : string) : node :=
  if (md =s? "contains") || (md =s? "") then binOpNode "contains" (identNode our) (str_node v)
  else if md =s? "endswith" then callNode "matches" [identNode our; str_node (v +:+ "$")]
  else if md =s? "startswith" then callNode "matches" [identNode our; str_node ("^" +:+ v)]
  else if md =s? "re" then callNode "matches" [identNode our; str_node v]
  else binOpNode "==" (identNode our) (str_node v).

Definition fold_op (op : string) (l : list node) : node :=
  match l with [] => literalNode None | n :: r => fold_left (binOpNode op) r n end.

Definition condition_node (c : string * string * list string) : node :=
  let '(our, md, vs) := c in fold_op "or" (map (value_node our md) vs).

(** After a value comes either an operator between parts, or a bracket. *)
Definition stops (ts : list token) : Prop :=
  peek ts = Tok tokOp "or" ∨ peek ts = Tok tokOp "and" ∨ peek ts = Tok tokRP ")" ∨
  peek ts = Tok tokEOF "".

Lemma parseCmp_value k our md v rest :
  our_field our → stops rest →
  parseCmp (parseDisj (S k)) (value_toks our md v ++ rest) = Ok (value_node our md v, rest).
Proof.
  unfold our_field. rewrite !elem_of_cons, elem_of_nil. unfold stops, value_toks, value_node.
  intros Ho Hst.
  destruct (_ || _);
    [|repeat case_match]; destruct Ho as [->|[->|[->|[]]]], rest as [|t rest]; simpl peek in Hst;
    (destruct Hst as [Ht|[Ht|[Ht|Ht]]]; first [discriminate Ht|subst t|idtac]; reflexivity).
Qed.

Lemma is_op_stop op rest : is_op op (peek rest) = bool_decide (peek rest = Tok tokOp op).
Proof.
  destruct (peek rest) as [k v] eqn:E. unfold is_op, is_kind. simpl.
  destruct (String.eqb_spec v op) as [->|Hv].
  - rewrite andb_true_r. apply bool_decide_ext. split; [by intros ->|by intros [= ->]].
  - rewrite andb_false_r. symmetry. apply bool_decide_eq_false. by intros [= _ ->].
Qed.

Definition tail_toks (op : string) (l : list (list token)) : list token :=
  concat (map (cons (Tok tokOp op)) l).

Lemma sep_tail op x l : sep_toks (Tok tokOp op) (x :: l) = x ++ tail_toks op l.
Proof.
  revert x. induction l as [|y l IH]; intros x; [by rewrite app_nil_r|].
  change (sep_toks (Tok tokOp op) (x :: y :: l)) with (x ++ Tok tokOp op :: sep_toks (Tok tokOp op) (y :: l)).
  by rewrite IH.
Qed.

Lemma parseConj_value k our md v rest :
  our_field our → peek rest = Tok tokOp "or" ∨ peek rest = Tok tokRP ")" →
  parseConj (parseDisj (S k)) (value_toks our md v ++ rest) = Ok (value_node our md v, rest).
Proof.
  intros Ho Hst. unfold parseConj.
  rewrite parseCmp_value by (done || (unfold stops; tauto)). cbn [rbind conj_loop].
  rewrite is_op_stop. by destruct Hst as [->| ->].
Qed.

Lemma disj_loop_values k j our md vs n rest :
  our_field our → peek rest = Tok tokRP ")" → (length vs < j)%nat →
  disj_loop (parseDisj (S k)) j n (tail_toks "or" (map (value_toks our md) vs) ++ rest)
  = Ok (fold_left (binOpNode "or") (map (value_node our md) vs) n, rest).
Proof.
  intros Ho Hst. revert j n. induction vs as [|v vs IH]; intros j n Hj; (destruct j as [|j]; [lia|]).
  - cbn [map tail_toks concat app disj_loop]. rewrite is_op_stop. by rewrite Hst.
  - change (tail_toks "or" (map (value_toks our md) (v :: vs))) with
      (Tok tokOp "or" :: (value_toks our md v ++ tail_toks "or" (map (value_toks our md) vs))).
    cbn [app disj_loop peek tail]. change (is_op "or" (Tok tokOp "or")) with true. cbv iota.
    rewrite <-app_assoc. rewrite parseConj_value; [|done|].
    + cbn [rbind]. rewrite IH; [done|simpl in Hj; lia].
    + destruct vs; [by right|by left].
Qed.

Lemma tail_toks_length op l : (length l ≤ length (tail_toks op l))%nat.
Proof.
  induction l as [|x l IH]; [done|].
  change (tail_toks op (x :: l)) with (Tok tokOp op :: (x ++ tail_toks op l)).
  cbn [length]. rewrite length_app. lia.
Qed.

Lemma parsePrimary_condition k c rest :
  wf_condition c → parsePrimary (parseDisj (S (S k))) (condition_toks c ++ rest) = Ok (condition_node c, rest).
Proof.
  destruct c as [[our md] vs]. intros [Ho Hvs]. destruct vs as [|v vs]; [done|].
  unfold condition_toks, condition_node, fold_op. cbn [map app]. rewrite <-app_assoc.
  apply parsePrimary_lp. cbn [app].
  change (parseDisj (S (S k))) with (parseDisj_body (parseDisj (S k))).
  rewrite sep_tail, <-app_assoc. unfold parseDisj_body.
  rewrite parseConj_value; [|done|by destruct vs; [right|left]]. cbn [rbind].
  rewrite disj_loop_values; [done|done|done|].
  rewrite length_app. pose proof (tail_toks_length "or" (map (value_toks our md) vs)) as Hl.
  rewrite length_map in Hl. lia.
Qed.

Lemma parseCmp_condition k c rest :
  wf_condition c → stops rest →
  parseCmp (parseDisj (S (S k))) (condition_toks c ++ rest) = Ok (condition_node c, rest).
Proof.
  intros Hc Hst. unfold parseCmp, parseUnary.
  assert (is_op "not" (peek (condition_toks c ++ rest)) = false) as -> by (by destruct c as [[? ?] ?]).
  rewrite parsePrimary_condition by done. cbn [rbind].
  by destruct Hst as [->|[->|[->| ->]]].
Qed.

Lemma conj_loop_conditions k j cs n rest :
  Forall wf_condition cs → peek rest = Tok tokEOF "" → (length cs < j)%nat →
  conj_loop (parseDisj (S (S k))) j n (tail_toks "and" (map condition_toks cs) ++ rest)
  = Ok (fold_left (binOpNode "and") (map condition_node cs) n, rest).
Proof.
  intros Hcs Hst. revert j n. induction Hcs as [|c cs Hc Hcs IH]; intros j n Hj;
    (destruct j as [|j]; [lia|]).
  - cbn [map tail_toks concat app conj_loop]. rewrite is_op_stop. by rewrite Hst.
  - change (tail_toks "and" (map condition_toks (c :: cs))) with
      (Tok tokOp "and" :: (condition_toks c ++ tail_toks "and" (map condition_toks cs))).
    cbn [app conj_loop peek tail]. change (is_op "and" (Tok tokOp "and")) with true. cbv iota.
    rewrite <-app_assoc. rewrite parseCmp_condition; [|done|].
    + cbn [rbind]. rewrite IH; [done|simpl in Hj; lia].
    + destruct cs; [by right; right; right|by right; left].
Qed.

Lemma parseDisj_conditions k cs :
  Forall wf_condition cs → cs ≠ [] →
  parseDisj (S (S (S k))) (sep_toks (Tok tokOp "and") (map condition_toks cs) ++ [Tok tokEOF ""])
  = Ok (fold_op "and" (map condition_node cs), [Tok tokEOF ""]).
Proof.
  intros Hcs Hne. destruct Hcs as [|c cs Hc Hcs]; [done|]. cbn [map]. rewrite sep_tail, <-app_assoc.
  change (parseDisj (S (S (S k)))) with (parseDisj_body (parseDisj (S (S k)))).
  unfold parseDisj_body, parseConj.
  rewrite parseCmp_condition; [|done|by destruct cs; [right; right; right|right; left]]. cbn [rbind].
  rewrite conj_loop_conditions; [by cbn|done|done|].
  rewrite length_app. pose proof (tail_toks_length "and" (map condition_toks cs)) as Hl.
  rewrite length_map in Hl. lia.
Qed.

(** ** Generated text compiles to that expression *)

Lemma sjoin_lp cs : cs ≠ [] →
  ∃ r, sjoin " and " (map condition_text cs) = String "(" r.
Proof.
  destruct cs as [|[[our md] vs] cs]; [done|]. intros _. simpl map.
  destruct (map condition_text cs) as [|y l].
  - by eexists.
  - change (sjoin ?x (?s :: y :: l)) with (s +:+ x +:+ sjoin x (y :: l)). by eexists.
Qed.

Lemma sjoin_rp cs : cs ≠ [] →
  ∃ a, sjoin " and " (map condition_text cs) = a +:+ str ")".
Proof.
  induction cs as [|c cs IH]; [done|]. intros _. destruct cs as [|c' cs].
  - destruct c as [[our md] vs]. simpl map. simpl sjoin. unfold condition_text.
    exists ("(" +:+ sjoin " or " (map (sigmaCompare our md) vs)). by rewrite append_assoc.
  - destruct IH as [a Ha]; [done|].
    change (sjoin " and " (map condition_text (c :: c' :: cs))) with
      (condition_text c +:+ " and " +:+ sjoin " and " (map condition_text (c' :: cs))).
    rewrite Ha. exists (condition_text c +:+ " and " +:+ a). by rewrite !append_assoc.
Qed.

Lemma CompileExpr_conditions cs :
  Forall wf_condition cs → cs ≠ [] →
  let src := sjoin " and " (map condition_text cs) in
  CompileExpr src = Ok (mkExpr (fold_op "and" (map condition_node cs)) src).
Proof.
  intros Hcs Hne src. unfold CompileExpr.
  assert (Htrim : trim_space src = src).
  { destruct (sjoin_lp cs Hne) as [r Hr]. destruct (sjoin_rp cs Hne) as [a Ha].
    unfold src. rewrite Ha. apply trim_id; [|done]. rewrite <-Ha, Hr. done. }
  rewrite Htrim.
  assert (Hsrc : src ≠ "") by (destruct (sjoin_lp cs Hne) as [r Hr]; unfold src; by rewrite Hr).
  rewrite (proj2 (String.eqb_neq _ _) Hsrc).
  assert (Htok : tokenize src = sep_toks (Tok tokOp "and") (map condition_toks cs) ++ [Tok tokEOF ""]).
  { apply lexes_tokenize. unfold src. rewrite <-(append_nil_r (sjoin _ _)).
    apply (lexes_join "and"); [by right| |by exists O].
    clear -Hcs. induction Hcs as [|c cs Hc Hcs IH]; constructor; [|done].
    intros. by apply lexes_condition. }
  rewrite Htok. destruct Hcs as [|c cs Hc Hcs]; [done|].
  set (ts := sep_toks (Tok tokOp "and") (map condition_toks (c :: cs)) ++ [Tok tokEOF ""]).
  assert (Hlen : (2 ≤ length ts)%nat).
  { unfold ts. destruct c as [[our md] vs]. cbn [map].
    rewrite sep_tail, !length_app. unfold condition_toks at 1. cbn [length]. lia. }
  replace (S (length ts)) with (S (S (S (length ts - 2)))) by lia. unfold ts.
  rewrite parseDisj_conditions; [done|by constructor|done].
Qed.

(** * Its meaning *)

Section meaning.
Context `{RegexpEngine}.

Definition eval_bool (n : node) (f : EventFacts) (r : result bool) : Prop :=
  eval n f = match r with Ok b => Ok (VBool b) | Err e => Err e end.

Lemma eval_or_chain ns n r rs f :
  eval_bool n f r → Forall2 (λ n r, eval_bool n f r) ns rs →
  eval_bool (fold_left (binOpNode "or") ns n) f (any_of (r :: rs)).
Proof.
  intros Hn Hns. revert n r Hn. induction Hns as [|m s ns rs Hm Hns IH]; intros n r Hn.
  - cbn [fold_left any_of]. unfold eval_bool in *. rewrite Hn. by destruct r as [[]|].
  - cbn [fold_left]. replace (any_of (r :: s :: rs)) with (any_of (any_of [r; s] :: rs)).
    + apply IH. unfold eval_bool in *. cbn [eval any_of]. rewrite Hn, Hm.
      destruct r as [[]|]; cbn; [done| |done]. by destruct s as [[]|].
    + cbn [any_of]. destruct r as [[]|]; cbn; [done| |done]. by destruct s as [[]|].
Qed.

Lemma eval_and_chain ns n r rs f :
  eval_bool n f r → Forall2 (λ n r, eval_bool n f r) ns rs →
  eval_bool (fold_left (binOpNode "and") ns n) f (all_of (r :: rs)).
Proof.
  intros Hn Hns. revert n r Hn. induction Hns as [|m s ns rs Hm Hns IH]; intros n r Hn.
  - cbn [fold_left all_of]. unfold eval_bool in *. rewrite Hn. by destruct r as [[]|].
  - cbn [fold_left]. replace (all_of (r :: s :: rs)) with (all_of (all_of [r; s] :: rs)).
    + apply IH. unfold eval_bool in *. cbn [eval all_of]. rewrite Hn, Hm.
      destruct r as [[]|]; cbn; [|done|done]. by destruct s as [[]|].
    + cbn [all_of]. destruct r as [[]|]; cbn; [|done|done]. by destruct s as [[]|].
Qed.

Lemma eval_our our f : our_field our → ident_eval our f = Ok (VStr (fact our f)).
Proof. unfold our_field. rewrite !elem_of_cons, elem_of_nil. by intros [->|[->|[->|[]]]]. Qed.

Lemma eval_call our p f :
  our_field our →
  eval_bool (callNode "matches" [identNode our; str_node p]) f (regexp_test (fact our f) p).
Proof.
  intros Ho. unfold eval_bool, regexp_test. cbn [eval]. rewrite eval_our by done. cbn.
  unfold regexp_match. by destruct (regexp_compile p).
Qed.

Lemma eval_value our md v f :
  our_field our → eval_bool (value_node our md v) f (value_holds our md v f).
Proof.
  intros Ho. unfold value_node, value_holds.
  destruct (_ || _); [unfold eval_bool; cbn [eval]; by rewrite eval_our|].
  repeat (case_match; [by apply eval_call|]). unfold eval_bool; cbn [eval]; by rewrite eval_our.
Qed.

Lemma eval_condition our md vs f :
  wf_condition (our, md, vs) →
  eval_bool (condition_node (our, md, vs)) f (any_of (map (λ v, value_holds our md v f) vs)).
Proof.
  intros [Ho Hvs]. destruct vs as [|v vs]; [done|]. unfold condition_node, fold_op. cbn [map].
  apply eval_or_chain; [by apply eval_value|].
  clear Hvs. induction vs; constructor; [by apply eval_value|done].
Qed.

Lemma eval_conditions cs f :
  Forall wf_condition cs → cs ≠ [] →
  eval_bool (fold_op "and" (map condition_node cs)) f
    (all_of (map (λ '(our, md, vs), any_of (map (λ v, value_holds our md v f) vs)) cs)).
Proof.
  intros Hcs Hne. destruct Hcs as [|[[our md] vs] cs Hc Hcs]; [done|]. cbn [map fold_op].
  apply eval_and_chain; [by apply eval_condition|].
  clear Hne. induction Hcs as [|[[our' md'] vs'] cs Hc' Hcs IH]; constructor; [|done].
  by apply eval_condition.
Qed.

End meaning.

Lemma conditions_wf sel : Forall wf_condition (omap condition sel).
Proof.
  induction sel as [|kv sel IH]; [constructor|]. change (omap condition (kv :: sel)) with
    (match condition kv with Some c => c :: omap condition sel | None => omap condition sel end).
  destruct (condition kv) eqn:E; [|done]. constructor; [by eapply condition_wf|done].
Qed.

Lemma sigma_parts sel : omap sigma_part sel = map condition_text (omap condition sel).
Proof.
  induction sel as [|kv sel IH]; [done|]. cbn [omap list_omap] in *.
  rewrite sigma_part_condition. destruct (condition kv); simpl; [by rewrite IH|done].
Qed.

Lemma sigmaToRule_parts d r :
  sigmaToRule d = Some r →
  ∃ sel, detection d "selection" = Some (YMap sel) ∧ omap condition sel ≠ [] ∧
    ru_Expr r = sjoin " and " (map condition_text (omap condition sel)) ∧ ru_Expr r ≠ "".
Proof.
  unfold sigmaToRule. destruct (detection d "selection") as [[s|l|sel|]|]; try done.
  rewrite sigma_parts. rewrite length_map.
  destruct (omap condition sel) as [|c cs] eqn:E; [done|]. cbn -[sjoin].
  intros [= <-]. exists sel. split; [done|]. split; [by rewrite E|]. split; [by rewrite E|].
  destruct (sjoin_lp (c :: cs)) as [x Hx]; [done|].
  change (sjoin " and " (map condition_text (c :: cs)) ≠ ""). by rewrite Hx.
Qed.


Definition demo_sigma : sigmaDoc :=
  mkSigmaDoc "Shell" "" "high" "" ["attack.t1059"]
    [("selection", YMap [("Image|endswith", YStr "sh"); ("CommandLine", YSeq [YStr (qq "x"); YStr "curl"])])] [].


Lemma compile_all_sigma rs :
  Forall (λ r, ru_Expr r ≠ "" ∧ ∃ e, CompileExpr (ru_Expr r) = Ok e) rs →
  ∃ rs', compile_all rs = Ok rs' ∧
    Forall2 (λ r r', ru_ID r' = ru_ID r ∧ ru_Expr r' = ru_Expr r ∧
               CompileExpr (ru_Expr r') = Ok (CompiledExpr r')) rs rs'.
Proof.
  induction 1 as [|r rs [Hne (e & He)] Hrs (rs' & IH & Hf)]; [by exists []|].
  cbn [compile_all]. rewrite (proj2 (String.eqb_neq _ _) Hne), He. cbn [rbind]. rewrite IH.
  eexists. split; [done|]. constructor; [|done].
  destruct r. unfold upd, CompiledExpr in *. by cbn in *.
Qed.

Lemma omap_Forall {A B} (f : A → option B) (P : B → Prop) l :
  (∀ a b, f a = Some b → P b) → Forall P (omap f l).
Proof.
  intros Hf. induction l as [|a l IH]; [constructor|]. simpl. destruct (f a) eqn:E; [|done].
  constructor; eauto.
Qed.

(** Loading a directory of Sigma rules never fails because of a rule: when
    the directory is readable and one file translates, the loader returns a
    pack with the rules of all files that translate, every one with its
    compiled expression. *)
Theorem LoadSigmaLiteDir_total `{FileReader} `{DirReader} yaml dir ents :
  ReadDir dir = Ok ents → omap (sigma_file yaml dir) ents ≠ [] →
  ∃ p, LoadSigmaLiteDir yaml dir = Ok p ∧
    map ru_ID (pk_Rules p) = map ru_ID (omap (sigma_file yaml dir) ents) ∧
    Forall (λ r, CompileExpr (ru_Expr r) = Ok (CompiledExpr r)) (pk_Rules p).
Proof.
  intros Hd Hne. unfold LoadSigmaLiteDir. rewrite Hd. cbn [rbind].
  destruct (compile_all_sigma (omap (sigma_file yaml dir) ents)) as (rs' & Hrs & Hf).
  { apply omap_Forall. intros e r. unfold sigma_file. destruct (de_IsDir e); [done|].
    cbv zeta. destruct (_ && _); [done|]. destruct (ReadFile _); [|done]. destruct (yaml _); [|done].
    intros Hr. destruct (sigmaToRule_parts _ _ Hr) as (sel & _ & Hc & Hexpr & Hnz). split; [done|].
    rewrite Hexpr. eexists. apply CompileExpr_conditions; [apply conditions_wf|done]. }
  destruct (omap (sigma_file yaml dir) ents) as [|r rs]; [done|]. cbn [length Nat.eqb].
  rewrite Hrs. eexists. split; [done|]. cbn [pk_Rules]. split.
  - clear -Hf. induction Hf as [|x y l l' (Hid & _) _ IH]; [done|]. cbn [map]. by rewrite Hid, IH.
  - clear -Hf. induction Hf as [|x y l l' (_ & _ & Hc) _ IH]; constructor; done.
Qed.

Lemma LoadSigmaLiteDir_total_witness :
  ∃ p, @LoadSigmaLiteDir (λ _, Ok "doc") (λ _, Ok [mkDirEntry "a.yml" false; mkDirEntry "b.txt" false])
         (λ _, Ok demo_sigma) "sigma" = Ok p ∧
    map ru_ID (pk_Rules p) = map ru_ID (omap (@sigma_file (λ _, Ok "doc") (λ _, Ok demo_sigma) "sigma")
                                          [mkDirEntry "a.yml" false; mkDirEntry "b.txt" false]) ∧
    Forall (λ r, CompileExpr (ru_Expr r) = Ok (CompiledExpr r)) (pk_Rules p).
Proof.
  apply (@LoadSigmaLiteDir_total (λ _, Ok "doc")
           (λ _, Ok [mkDirEntry "a.yml" false; mkDirEntry "b.txt" false]) (λ _, Ok demo_sigma) "sigma");
    [reflexivity|vm_compute; discriminate].
Defined.

(** The documentation's [Image|contains|all: [a, b]] is not the conjunction it
    looks like: the modifier falls through to equality with one of the values. *)
Example contains_all_is_equality :
  sigmaFieldToExpr "Image|contains|all" (YSeq [YStr "a"; YStr "b"])
  = "(comm == " +:+ qq "a" +:+ " or comm == " +:+ qq "b" +:+ ")".
Proof. reflexivity. Qed.
