(* ===== verification/Killchain.v ===== *)
(** [internal/killchain]: from MITRE tactics to kill-chain phases. *)
From S2P Require Export GoStrings.

Definition PhaseReconnaissance : string := "reconnaissance".
Definition PhaseWeaponization : string := "weaponization".
Definition PhaseDelivery : string := "delivery".
Definition PhaseExploitation : string := "exploitation".
Definition PhaseInstallation : string := "installation".
Definition PhaseCommandAndControl : string := "c2".
Definition PhaseActionsOnObjectives : string := "actions-on-objectives".

Definition normalize (s : string) : string :=
  let l := to_lower (trim_space s) in
  if mem_str l ["recon"; "reconnaissance"] then PhaseReconnaissance
  else if l =s? "weaponization" then PhaseWeaponization
  else if l =s? "delivery" then PhaseDelivery
  else if mem_str l ["exploit"; "exploitation"] then PhaseExploitation
  else if mem_str l ["install"; "installation"] then PhaseInstallation
  else if mem_str l ["c2"; "c&c"; "command-and-control"; "command_and_control"]
  then PhaseCommandAndControl
  else if mem_str l ["actions"; "actions-on-objectives"; "actions_on_objectives"; "ao"]
  then PhaseActionsOnObjectives
  else s.

Definition tacticToPhase (tactic : string) : string :=
  if mem_str tactic ["reconnaissance"; "resource-development"; "resource_development"]
  then PhaseReconnaissance
  else if mem_str tactic ["initial-access"; "initial_access"] then PhaseDelivery
  else if tactic =s? "execution" then PhaseExploitation
  else if mem_str tactic ["persistence"; "privilege-escalation"; "privilege_escalation";
                          "defense-evasion"; "defense_evasion"] then PhaseInstallation
  else if mem_str tactic ["command-and-control"; "command_and_control"] then PhaseCommandAndControl
  else if mem_str tactic ["credential-access"; "credential_access"; "discovery";
                          "lateral-movement"; "lateral_movement"; "collection";
                          "exfiltration"; "impact"] then PhaseActionsOnObjectives
  else "".

Definition PhaseFor (tactic ruleOverride : string) : string :=
  let o := trim_space ruleOverride in
  if negb (o =s? "") then normalize o else tacticToPhase (to_lower (trim_space tactic)).

Definition EarlyPhase (phase : string) : bool :=
  (phase =s? PhaseExploitation) || (phase =s? PhaseInstallation).

(** * Properties *)

Definition phases : list string :=
  [PhaseReconnaissance; PhaseWeaponization; PhaseDelivery; PhaseExploitation; PhaseInstallation;
   PhaseCommandAndControl; PhaseActionsOnObjectives].

Lemma normalize_cases s :
  normalize s = s ∨ (normalize s ∈ phases ∧ normalize (normalize s) = normalize s).
Proof.
  unfold normalize at 1 2 4 5. cbv zeta.
  repeat (case_match; [right; split; [by repeat constructor|reflexivity]|]). by left.
Qed.

Lemma normalize_idemp s : normalize (normalize s) = normalize s.
Proof. destruct (normalize_cases s) as [H|[_ H]]; [by rewrite H|done]. Qed.
