(* ===== verification/Taxonomy.v ===== *)
(** [internal/taxonomy]: the catalogue of detections ([mapping.yaml]), its index
    by identifier, and the completion of events from it. *)
From S2P Require Export Rules.

Record Nano := mkNano {
  na_ID : string;
  na_Macro : string;
  na_Micro : string;
  na_Src : string;
  na_Type : string;
  na_Conf : string;
  na_Techniques : list string;
  na_Tactic : string;
  na_FP : string;
  na_Desc : string
}.

Record Chain := mkChain {
  ch_ID : string;
  ch_Window : string;
  ch_Score : string;
  ch_Flag : string;
  ch_Steps : list (list string)
}.

Record Mapping := mkMapping {
  mp_Version : string;
  mp_Nanos : list Nano;
  mp_Chains : list Chain;
  mp_byID : gmap string Nano
}.

(** The file as [yaml.Unmarshal] fills it, before the index is built. *)
Record MappingFile := mkMappingFile {
  mf_Version : string;
  mf_Nanos : list Nano;
  mf_Chains : list Chain
}.

(** The indexing loop of [Load]. *)
Definition index_nanos (ns : list Nano) : gmap string Nano :=
  fold_left (λ m n, if na_ID n =s? "" then m else <[na_ID n := n]> m) ns ∅.

Definition Load `{FileReader} (yaml_Unmarshal : string → result MappingFile) (path : string)
  : result Mapping :=
  let? b := ReadFile path in
  let? m := yaml_Unmarshal b in
  Ok (mkMapping (mf_Version m) (mf_Nanos m) (mf_Chains m) (index_nanos (mf_Nanos m))).

Definition Lookup (m : option Mapping) (id : string) : option Nano :=
  match m with None => None | Some m => mp_byID m !! id end.

Definition fill (have from : string) : string := if have =s? "" then from else have.

(** [Apply] with the process-wide mapping as an argument. *)
Definition Apply (global : option Mapping) (e : Event) : Event :=
  match global with
  | None => e
  | Some _ =>
      match Lookup global (ev_RuleID e) with
      | None => e
      | Some n =>
          e <| ev_Macro := fill (ev_Macro e) (na_Macro n) |>
            <| ev_Micro := fill (ev_Micro e) (na_Micro n) |>
            <| ev_Src := fill (ev_Src e) (na_Src n) |>
            <| ev_Type := fill (ev_Type e) (na_Type n) |>
            <| ev_ConfBand := fill (ev_ConfBand e) (na_Conf n) |>
            <| ev_TechniqueIDs := if bool_decide (ev_TechniqueIDs e = []) then na_Techniques n
                                  else ev_TechniqueIDs e |>
            <| ev_Tactic := fill (ev_Tactic e) (na_Tactic n) |>
      end
  end.

Fixpoint MustHave (m : option Mapping) (ids : list string) : result unit :=
  match ids with
  | [] => Ok tt
  | id :: ids =>
      match Lookup m id with
      | None => Err ("mapping missing nano " +:+ id)
      | Some _ => MustHave m ids
      end
  end.

(** * Properties *)

(** The entry a reader of the file expects: the last one with the identifier. *)
Definition last_nano (id : string) (ns : list Nano) : option Nano :=
  List.find (λ n, na_ID n =s? id) (rev ns).

Lemma index_nanos_app ns n :
  index_nanos (ns ++ [n]) =
    if na_ID n =s? "" then index_nanos ns else <[na_ID n := n]> (index_nanos ns).
Proof. unfold index_nanos. by rewrite fold_left_app. Qed.

Lemma index_nanos_lookup ns id :
  index_nanos ns !! id = if id =s? "" then None else last_nano id ns.
Proof.
  unfold last_nano. induction ns as [|n ns IH] using rev_ind.
  { by destruct (id =s? ""). }
  rewrite index_nanos_app, rev_unit. cbn [List.find].
  destruct (String.eqb_spec (na_ID n) "") as [He|He]; destruct (String.eqb_spec (na_ID n) id) as [Hi|Hi].
  - rewrite IH, <-Hi, He. done.
  - done.
  - rewrite Hi, lookup_insert_eq. rewrite <-Hi. by rewrite (proj2 (String.eqb_neq _ _) He).
  - by rewrite lookup_insert_ne by done.
Qed.

Lemma fill_idemp a b : fill (fill a b) b = fill a b.
Proof. unfold fill. destruct (a =s? "") eqn:E; [by destruct (b =s? "")|by rewrite E]. Qed.

(** Loading the catalogue indexes it the way the file reads: looking up an
    identifier gives the last entry that carries it, and entries without an
    identifier are not indexed. *)
Theorem Load_Lookup `{FileReader} (yaml : string → result MappingFile) path m :
  Load yaml path = Ok m →
  mp_byID m !! "" = None ∧
  ∀ id, id ≠ "" → Lookup (Some m) id = last_nano id (mp_Nanos m).
Proof.
  unfold Load. intros (b & Hb & (f & Hf & [= <-])%rbind_Ok)%rbind_Ok. simpl. split.
  - by rewrite index_nanos_lookup.
  - intros id Hid. rewrite index_nanos_lookup. by rewrite (proj2 (String.eqb_neq _ _) Hid).
Qed.

Definition demo_nano (id macro : string) : Nano :=
  mkNano id macro "m" "FIM" "DELTA" "HIGH" ["T1"] "persistence" "" "".

Lemma Load_Lookup_witness :
  let ns := [demo_nano "A" "one"; demo_nano "" "x"; demo_nano "A" "two"] in
  let m := mkMapping "1" ns [] (index_nanos ns) in
  mp_byID m !! "" = None ∧ ∀ id, id ≠ "" → Lookup (Some m) id = last_nano id (mp_Nanos m).
Proof.
  intros ns m.
  apply (@Load_Lookup (λ _, Ok "doc") (λ _, Ok (mkMappingFile "1" ns [])) "mapping.yaml" m).
  reflexivity.
Defined.

(** Completing an event from the catalogue never overwrites what the
    detector set, fills every empty taxonomy field of a catalogued rule, leaves
    the other fields alone, and completing twice changes nothing more. *)
Theorem Apply_completes g e :
  let e' := Apply g e in
  Apply g e' = e' ∧
  (ev_Macro e ≠ "" → ev_Macro e' = ev_Macro e) ∧
  (ev_TechniqueIDs e ≠ [] → ev_TechniqueIDs e' = ev_TechniqueIDs e) ∧
  (ev_Tactic e ≠ "" → ev_Tactic e' = ev_Tactic e) ∧
  (ev_ConfBand e ≠ "" → ev_ConfBand e' = ev_ConfBand e) ∧
  (∀ n, Lookup g (ev_RuleID e) = Some n →
     (ev_Macro e = "" → ev_Macro e' = na_Macro n) ∧ (ev_Micro e = "" → ev_Micro e' = na_Micro n) ∧
     (ev_Src e = "" → ev_Src e' = na_Src n) ∧ (ev_Type e = "" → ev_Type e' = na_Type n) ∧
     (ev_ConfBand e = "" → ev_ConfBand e' = na_Conf n) ∧
     (ev_TechniqueIDs e = [] → ev_TechniqueIDs e' = na_Techniques n) ∧
     (ev_Tactic e = "" → ev_Tactic e' = na_Tactic n)) ∧
  (ev_RuleID e' = ev_RuleID e ∧ ev_Confidence e' = ev_Confidence e ∧ ev_Severity e' = ev_Severity e ∧
   ev_Entity e' = ev_Entity e ∧ ev_DedupKey e' = ev_DedupKey e ∧ ev_Signals e' = ev_Signals e).
Proof.
  destruct g as [m|]; [|cbn; naive_solver].
  assert (Hfill : ∀ a b, a ≠ "" → fill a b = a).
  { intros a b Ha. unfold fill. by rewrite (proj2 (String.eqb_neq _ _) Ha). }
  unfold Apply. cbv zeta. destruct (Lookup (Some m) (ev_RuleID e)) as [n|] eqn:En.
  - split_and!; cbn -[fill Lookup]; try done; try (intros; by apply Hfill).
    + rewrite En. apply Event_ext; cbn -[fill Lookup]; rewrite ?fill_idemp; try done.
      by repeat case_bool_decide.
    + intros. by rewrite bool_decide_false.
    + intros ? [= <-]. split_and!; by intros ->.
  - cbn -[Lookup]. rewrite En. naive_solver.
Qed.
