(* ===== verification/Correlation.v ===== *)
(** [internal/runner/correlation.go]: the bounded ring of recent firings, the
    pairwise [correlate] directives and the attack chains.

    Every method runs under the correlator's mutex, so each is one step on the
    record of its fields. *)
From S2P Require Export Taxonomy.

Record corrEntry := mkCorrEntry {
  ce_ruleID : string;
  ce_entity : string;
  ce_anchor : string;
  ce_confBand : string;
  ce_when : Time
}.

Record correlator := mkCorrelator {
  co_entries : list corrEntry;
  co_cap : Z;
  co_chains : list Chain
}.

#[export] Instance eta_correlator : Eta correlator := λ c,
  mkCorrelator (co_entries c) (co_cap c) (co_chains c).

Definition newCorrelator (cap : Z) : correlator :=
  mkCorrelator [] (if cap <=? 0 then 1024 else cap) [].

Definition setChains (c : correlator) (chains : list Chain) : correlator :=
  c <| co_chains := chains |>.

Definition addFull (c : correlator) (ruleID entity anchor confBand : string) (now : Time)
  : correlator :=
  let es := co_entries c ++ [mkCorrEntry ruleID entity anchor confBand now] in
  let n := Z.of_nat (length es) in
  c <| co_entries := if co_cap c <? n then drop (Z.to_nat (n - co_cap c)) es else es |>.

Definition parseDuration (s : string) (fallback : Duration) : Duration :=
  if s =s? "" then fallback
  else match time_parse_duration s with None => fallback | Some d => d end.

(** * Pairwise correlation *)

(** The tests of the loop body of [matchBoost]. *)
Definition boost_entry (rule : Rule) (e : Event) (now : Time) (win : Duration) (en : corrEntry) : bool :=
  if negb (mem_str (ce_ruleID en) (ru_Correlate rule)) then false
  else if win <? time_sub now (ce_when en) then false
  else
    let entity := en_ID (ev_Entity e) in
    let anchor := ev_Anchor e in
    if negb (anchor =s? "") && negb (ce_anchor en =s? "") then anchor =s? ce_anchor en
    else negb (negb (entity =s? "") && negb (ce_entity en =s? "") && negb (ce_entity en =s? entity)).

Definition matchBoost (c : correlator) (e : Event) (rule : Rule) (now : Time) : Z :=
  if (length (ru_Correlate rule) =? 0)%nat then 0
  else
    let win := parseDuration (ru_CorrelateWindow rule) (5 * minute) in
    match List.find (boost_entry rule e now win) (co_entries c) with
    | None => 0
    | Some _ => if ru_CorrelateBoost rule =? 0 then 10 else ru_CorrelateBoost rule
    end.

(** * Chains *)

Definition stepMatches (step : list string) (ruleID confBand : string) (anyHigh : bool) : bool :=
  if anyHigh || (length step =? 0)%nat then confBand =s? ConfHigh else mem_str ruleID step.

Definition same_anchor (anchor : string) (en : corrEntry) : bool :=
  negb (negb (anchor =s? "") && negb (ce_anchor en =s? "") && negb (anchor =s? ce_anchor en)).

Definition anyRuleInWindow (c : correlator) (ids : list string) (anchor : string) (now : Time)
  (win : Duration) : bool :=
  existsb (λ en, negb (win <? time_sub now (ce_when en)) && mem_str (ce_ruleID en) ids &&
                 same_anchor anchor en) (co_entries c).

Definition anyHighInWindow (c : correlator) (anchor : string) (now : Time) (win : Duration) : bool :=
  existsb (λ en, negb (win <? time_sub now (ce_when en)) && (ce_confBand en =s? ConfHigh) &&
                 same_anchor anchor en) (co_entries c).

(** The first step that the event satisfies; [i] is the index of the head. *)
Fixpoint cur_step (i : nat) (steps : list (list string)) (ruleID confBand : string) : option nat :=
  match steps with
  | [] => None
  | step :: steps =>
      if stepMatches step ruleID confBand ((i =? 0)%nat && (length step =? 0)%nat) then Some i
      else cur_step (S i) steps ruleID confBand
  end.

Definition prior_fired (c : correlator) (e : Event) (now : Time) (win : Duration) (step : list string)
  : bool :=
  if (length step =? 0)%nat then anyHighInWindow c (ev_Anchor e) now win
  else anyRuleInWindow c step (ev_Anchor e) now win.

Definition evalChainProgress (c : correlator) (ch : Chain) (e : Event) (now : Time) (win : Duration)
  : Z * bool :=
  match cur_step 0 (ch_Steps ch) (ev_RuleID e) (ev_ConfBand e) with
  | None => (0, false)
  | Some curStep =>
      if negb (forallb (prior_fired c e now win) (take curStep (ch_Steps ch))) then (0, false)
      else if (curStep =? 0)%nat then (0, false)
      else (25, true)
  end.

(** Both branches of the test on the last step are the same call. *)
Definition evalChain (c : correlator) (ch : Chain) (e : Event) (now : Time) : Z * bool :=
  if (length (ch_Steps ch) =? 0)%nat then (0, false)
  else
    let win := parseDuration (ch_Window ch) (30 * minute) in
    let lastIdx := (length (ch_Steps ch) - 1)%nat in
    if negb (stepMatches (nth lastIdx (ch_Steps ch) []) (ev_RuleID e) (ev_ConfBand e)
               ((lastIdx =? 0)%nat && (length (nth 0 (ch_Steps ch) []) =? 0)%nat))
    then evalChainProgress c ch e now win
    else evalChainProgress c ch e now win.

(** The stores into the event when a chain improves on the best boost. *)
Definition stamp_chain (ch : Chain) (e : Event) : Event :=
  let e := e <| ev_ChainID := ch_ID ch |> in
  let e := if ch_Flag ch =s? "evidence_loss" then e <| ev_EvidenceLoss := true |> else e in
  if ch_Score ch =s? "CRITICAL" then e <| ev_Severity := SeverityCritical |> else e.

Definition match_chain_step (c : correlator) (now : Time) (st : Event * Z) (ch : Chain) : Event * Z :=
  let '(e, best) := st in
  let '(boost, ok) := evalChain c ch e now in
  if ok && (best <? boost) then (stamp_chain ch e, boost) else (e, best).

Definition matchChain (c : correlator) (e : Event) (now : Time) : Event * Z :=
  fold_left (match_chain_step c now) (co_chains c) (e, 0).
