(* ===== verification/CorrelationFacts.v ===== *)
(** Properties of the correlator ([Correlation.v]). *)
From S2P Require Export Correlation.

(** * The ring *)

(** A firing, as the pipeline records it. *)
Definition add (c : correlator) (en : corrEntry) : correlator :=
  addFull c (ce_ruleID en) (ce_entity en) (ce_anchor en) (ce_confBand en) (ce_when en).

Definition last_n {A} (n : nat) (l : list A) : list A := drop (length l - n) l.

Lemma last_n_app {A} n (l : list A) a : (0 < n)%nat → last_n n (last_n n l ++ [a]) = last_n n (l ++ [a]).
Proof.
  intros Hn. unfold last_n. rewrite !length_app, !length_drop. cbn [length].
  destruct (le_lt_dec (length l) n) as [Hle|Hgt].
  - replace (length l - n)%nat with O by lia. rewrite drop_0, Nat.sub_0_r. done.
  - rewrite (drop_app_le l) by lia. rewrite drop_app_le by (rewrite length_drop; lia).
    rewrite drop_drop. f_equal. f_equal. lia.
Qed.

Lemma add_entries c en :
  0 < co_cap c →
  co_entries (add c en) = last_n (Z.to_nat (co_cap c)) (co_entries c ++ [en]) ∧
  co_cap (add c en) = co_cap c ∧ co_chains (add c en) = co_chains c.
Proof.
  intros Hc. unfold add, addFull, upd, last_n. cbn. split; [|done].
  destruct en as [r i a b w]; cbn. rewrite !length_app. cbn [length].
  case_match eqn:E; rewrite ?Z.ltb_lt, ?Z.ltb_ge in E.
  - f_equal. lia.
  - replace (length (co_entries c) + 1 - Z.to_nat (co_cap c))%nat with O by lia. by rewrite drop_0.
Qed.

(** Whatever has been fired, the ring holds exactly the most recent firings
    in order, and never more than its capacity. *)
Theorem ring_is_recent cap ens :
  let c := fold_left add ens (newCorrelator cap) in
  co_entries c = last_n (Z.to_nat (co_cap (newCorrelator cap))) ens ∧
  Z.of_nat (length (co_entries c)) ≤ co_cap (newCorrelator cap).
Proof.
  cbv zeta. set (k := co_cap (newCorrelator cap)).
  assert (Hk : 0 < k) by (unfold k; simpl; case_match; lia).
  assert (H : co_entries (fold_left add ens (newCorrelator cap)) = last_n (Z.to_nat k) ens ∧
              co_cap (fold_left add ens (newCorrelator cap)) = k).
  { induction ens as [|en ens [IH1 IH2]] using rev_ind; [done|]. rewrite fold_left_app. cbn [fold_left].
    destruct (add_entries (fold_left add ens (newCorrelator cap)) en ltac:(lia)) as (H1 & H2 & _).
    rewrite H1, H2, IH1, IH2. split; [|done]. apply last_n_app. lia. }
  destruct H as [-> _]. split; [done|]. unfold last_n. rewrite length_drop. lia.
Qed.

(** * Correlation and chains *)

(** An entry counts while it is not older than the window. *)
Definition in_window (now : Time) (win : Duration) (en : corrEntry) : Prop :=
  time_sub now (ce_when en) ≤ win.

Definition anchors_agree (anchor : string) (en : corrEntry) : Prop :=
  anchor = "" ∨ ce_anchor en = "" ∨ anchor = ce_anchor en.

Lemma same_anchor_spec a en : same_anchor a en = true ↔ anchors_agree a en.
Proof.
  unfold same_anchor, anchors_agree. rewrite negb_true_iff, !andb_false_iff, !negb_false_iff, !String.eqb_eq.
  tauto.
Qed.

(** What the loop of [matchBoost] looks for. *)
Definition correlates (rule : Rule) (e : Event) (now : Time) (en : corrEntry) : Prop :=
  ce_ruleID en ∈ ru_Correlate rule ∧
  in_window now (parseDuration (ru_CorrelateWindow rule) (5 * minute)) en ∧
  (if bool_decide (ev_Anchor e ≠ "" ∧ ce_anchor en ≠ "") then ev_Anchor e = ce_anchor en
   else en_ID (ev_Entity e) = "" ∨ ce_entity en = "" ∨ ce_entity en = en_ID (ev_Entity e)).

Lemma boost_entry_spec rule e now en :
  boost_entry rule e now (parseDuration (ru_CorrelateWindow rule) (5 * minute)) en = true ↔
  correlates rule e now en.
Proof.
  unfold boost_entry, correlates, in_window. rewrite <-mem_str_spec.
  destruct (mem_str (ce_ruleID en) (ru_Correlate rule)); cbn [negb]; [|naive_solver].
  destruct (Z.ltb_spec (parseDuration (ru_CorrelateWindow rule) (5 * minute)) (time_sub now (ce_when en))).
  { split; [done|]. intros (_ & ? & _). lia. }
  destruct (String.eqb_spec (ev_Anchor e) ""), (String.eqb_spec (ce_anchor en) ""); cbn [negb andb];
    first [rewrite bool_decide_false by naive_solver | rewrite bool_decide_true by done].
  4: { rewrite String.eqb_eq. naive_solver. }
  all: rewrite negb_true_iff, !andb_false_iff, !negb_false_iff, !String.eqb_eq; naive_solver.
Qed.

(** A rule's correlation boost is added exactly when one of its peer rules
    fired within the rule's window on the same anchor, or, when one side has no
    anchor, on a compatible entity; the boost is then the rule's own (10 when
    unset), and 0 otherwise. *)
Theorem matchBoost_iff c e rule now :
  (∃ en, en ∈ co_entries c ∧ correlates rule e now en) ∧
    matchBoost c e rule now = (if ru_CorrelateBoost rule =? 0 then 10 else ru_CorrelateBoost rule) ∨
  ¬ (∃ en, en ∈ co_entries c ∧ correlates rule e now en) ∧ matchBoost c e rule now = 0.
Proof.
  unfold matchBoost. destruct (ru_Correlate rule) as [|p ps] eqn:Ec.
  { right. split; [|done]. intros (en & _ & Hc & _). rewrite Ec in Hc. by apply elem_of_nil in Hc. }
  cbn [length Nat.eqb].
  destruct (List.find _ (co_entries c)) as [en|] eqn:Ef.
  - left. apply find_some in Ef as [Hin Hb]. split; [|done]. exists en.
    split; [by apply list_elem_of_In|]. by apply boost_entry_spec.
  - right. split; [|done]. intros (en & Hin & Hc). apply boost_entry_spec in Hc.
    apply list_elem_of_In in Hin. pose proof (find_none _ _ Ef en Hin). congruence.
Qed.

(** The step of the chain that the event is on. *)
Definition event_on_step (e : Event) (step : list string) : Prop :=
  if bool_decide (step = []) then ev_ConfBand e = ConfHigh else ev_RuleID e ∈ step.

Definition step_fired (c : correlator) (e : Event) (now : Time) (win : Duration) (step : list string)
  : Prop :=
  ∃ en, en ∈ co_entries c ∧ in_window now win en ∧ anchors_agree (ev_Anchor e) en ∧
    (if bool_decide (step = []) then ce_confBand en = ConfHigh else ce_ruleID en ∈ step).

(** A chain hit: the event is on some step after the first and on no earlier
    one, and every earlier step has fired within the window. *)
Definition chain_hit (c : correlator) (e : Event) (now : Time) (ch : Chain) : Prop :=
  ∃ before step after,
    ch_Steps ch = before ++ step :: after ∧ before ≠ [] ∧ event_on_step e step ∧
    Forall (λ s, ¬ event_on_step e s) before ∧
    Forall (step_fired c e now (parseDuration (ch_Window ch) (30 * minute))) before.

Lemma stepMatches_spec i e step :
  stepMatches step (ev_RuleID e) (ev_ConfBand e) ((i =? 0)%nat && (length step =? 0)%nat) = true ↔
  event_on_step e step.
Proof.
  unfold stepMatches, event_on_step. destruct step as [|x l]; cbn [length Nat.eqb].
  - rewrite orb_true_r, bool_decide_true by done. by rewrite String.eqb_eq.
  - rewrite andb_false_r, bool_decide_false by done. cbn [orb]. by rewrite mem_str_spec.
Qed.

Lemma cur_step_spec e steps i k :
  cur_step i steps (ev_RuleID e) (ev_ConfBand e) = Some k ↔
  ∃ before step after, steps = before ++ step :: after ∧ k = (i + length before)%nat ∧
    event_on_step e step ∧ Forall (λ s, ¬ event_on_step e s) before.
Proof.
  revert i. induction steps as [|step steps IH]; intros i; cbn [cur_step].
  { split; [done|]. intros ([|] & ? & ? & ? & _); done. }
  destruct (stepMatches _ _ _ _) eqn:E.
  - apply stepMatches_spec in E. split.
    + intros [= <-]. exists [], step, steps. split; [done|]. split; [cbn; lia|]. by split.
    + intros ([|s before] & step' & after & [= <- ->] & -> & Hon & Hb); [cbn; f_equal; lia|].
      by apply Forall_cons_1 in Hb as [? _].
  - assert (¬ event_on_step e step) as Hn by (rewrite <-(stepMatches_spec i); congruence).
    rewrite IH. split.
    + intros (before & step' & after & -> & -> & Hon & Hb). exists (step :: before), step', after.
      split; [done|]. split; [cbn; lia|]. split; [done|]. by constructor.
    + intros ([|s before] & step' & after & [= -> ->] & -> & Hon & Hb); [done|].
      exists before, step', after. apply Forall_cons_1 in Hb as [_ Hb]. cbn. split_and!; first [done|lia].
Qed.

Lemma prior_fired_spec c e now win step :
  prior_fired c e now win step = true ↔ step_fired c e now win step.
Proof.
  unfold prior_fired, step_fired, anyHighInWindow, anyRuleInWindow, in_window.
  destruct step as [|x l]; cbn [length Nat.eqb]; apply existsb_elem; intros en;
    rewrite !andb_true_iff, negb_true_iff, Z.ltb_ge, same_anchor_spec.
  - rewrite bool_decide_true by done. rewrite String.eqb_eq. tauto.
  - rewrite bool_decide_false by done. rewrite mem_str_spec. tauto.
Qed.

Lemma evalChain_spec c e now ch :
  evalChain c ch e now = (if bool_decide (snd (evalChain c ch e now) = true) then 25 else 0,
                          snd (evalChain c ch e now)) ∧
  (snd (evalChain c ch e now) = true ↔ chain_hit c e now ch).
Proof.
  unfold evalChain, chain_hit. destruct (ch_Steps ch) as [|s0 steps] eqn:Es; cbn [length Nat.eqb].
  { split; [done|]. split; [done|]. by intros ([|] & ? & ? & ? & _). }
  set (win := parseDuration (ch_Window ch) (30 * minute)).
  match goal with |- context [if ?b then ?x else ?x] => assert ((if b then x else x) = x) as -> by (by destruct b) end.
  unfold evalChainProgress. rewrite Es.
  destruct (cur_step 0 (s0 :: steps) (ev_RuleID e) (ev_ConfBand e)) as [k|] eqn:Ec.
  - apply cur_step_spec in Ec as (before & step & after & Hs & -> & Hon & Hb). cbn [Nat.add].
    rewrite Hs. rewrite take_app_length.
    destruct (forallb (prior_fired c e now win) before) eqn:Ef; cbn [negb].
    + rewrite (forallb_Forall _ _ _ (prior_fired_spec c e now win)) in Ef.
      destruct before as [|b before]; cbn [length Nat.eqb snd].
      * split; [done|]. split; [done|]. intros (before' & step' & after' & Hs' & Hne & Hon' & Hb' & _).
        destruct before' as [|b' before']; [done|]. injection Hs' as <- _. by apply Forall_cons_1 in Hb' as [? _].
      * split; [done|]. split; [|done]. intros _. exists (b :: before), step, after. done.
    + cbn [snd]. split; [done|]. split; [done|].
      intros (before' & step' & after' & Hs' & Hne & Hon' & Hb' & Hf').
      assert (before' = before) as ->.
      { clear -Hs' Hon Hb Hon' Hb'. revert before' Hs' Hb'. induction before as [|b l IH]; intros [|b' l'] Hs' Hb'.
        - done.
        - injection Hs' as <- _. by apply Forall_cons_1 in Hb' as [? _].
        - injection Hs' as -> _. by apply Forall_cons_1 in Hb as [? _].
        - injection Hs' as -> Hs'. apply Forall_cons_1 in Hb as [_ Hb], Hb' as [_ Hb'].
          f_equal. by apply IH. }
      apply (forallb_Forall _ _ _ (prior_fired_spec c e now win)) in Hf'. congruence.
  - cbn [snd]. split; [done|]. split; [done|].
    intros (before & step & after & Hs & _ & Hon & Hb & _).
    assert (cur_step 0 (s0 :: steps) (ev_RuleID e) (ev_ConfBand e) = Some (length before)) as H; [|congruence].
    apply cur_step_spec. by exists before, step, after.
Qed.

#[export] Instance chain_hit_dec c e now ch : Decision (chain_hit c e now ch).
Proof.
  refine (cast_if (decide (snd (evalChain c ch e now) = true))); by rewrite <-(proj2 (evalChain_spec c e now ch)).
Defined.

(** The event is only stamped after it has been compared. *)
Lemma stamp_chain_keeps ch e :
  ev_RuleID (stamp_chain ch e) = ev_RuleID e ∧ ev_ConfBand (stamp_chain ch e) = ev_ConfBand e ∧
  ev_Anchor (stamp_chain ch e) = ev_Anchor e.
Proof. unfold stamp_chain. repeat case_match; done. Qed.

Lemma match_chain_done c now chs e :
  fold_left (match_chain_step c now) chs (e, 25) = (e, 25).
Proof.
  induction chs as [|ch chs IH]; [done|]. cbn [fold_left]. unfold match_chain_step at 2.
  destruct (evalChain_spec c e now ch) as [-> _]. destruct (snd _); [|done].
  rewrite bool_decide_true by done. done.
Qed.


(** Chains are documented as ordered, but only the step of the current
    event is: the earlier steps may have fired in any order, since permuting
    the recorded firings never changes the outcome. *)
Theorem chain_order_irrelevant c c' e now :
  co_entries c ≡ₚ co_entries c' → co_chains c = co_chains c' →
  matchChain c e now = matchChain c' e now.
Proof.
  intros Hp Hch. unfold matchChain. rewrite Hch. clear Hch. generalize (e, 0).
  assert (Hstep : ∀ st ch, match_chain_step c now st ch = match_chain_step c' now st ch).
  { intros [x b] ch. unfold match_chain_step.
    assert (evalChain c ch x now = evalChain c' ch x now) as ->; [|done].
    destruct (evalChain_spec c x now ch) as [H1 H2], (evalChain_spec c' x now ch) as [H3 H4].
    assert (Hiff : chain_hit c x now ch ↔ chain_hit c' x now ch).
    { unfold chain_hit, step_fired. by setoid_rewrite Hp. }
    assert (snd (evalChain c ch x now) = snd (evalChain c' ch x now)) as Heq
      by (apply eq_true_iff_eq; by rewrite H2, H4).
    by rewrite H1, H3, Heq. }
  induction (co_chains c') as [|ch chs IH]; intros st; [done|]. cbn [fold_left]. rewrite Hstep. apply IH.
Qed.

Lemma chain_order_irrelevant_witness :
  let ch := mkChain "CHAIN-1" "30m" "CRITICAL" "" [["A"]; ["B"]; ["C"]] in
  let a := mkCorrEntry "A" "" "" "HIGH" 10 in
  let b := mkCorrEntry "B" "" "" "HIGH" 5 in
  let e := zero_Event <| ev_RuleID := "C" |> in
  matchChain (mkCorrelator [a; b] 8 [ch]) e 20 = matchChain (mkCorrelator [b; a] 8 [ch]) e 20 ∧
  snd (matchChain (mkCorrelator [b; a] 8 [ch]) e 20) = 25.
Proof.
  intros ch a b e. split; [|vm_compute; reflexivity].
  apply (chain_order_irrelevant (mkCorrelator [a; b] 8 [ch]) (mkCorrelator [b; a] 8 [ch]));
    [simpl; constructor|reflexivity].
Defined.
