(* ===== verification/GoRegexp.v ===== *)
(** Go's [regexp] package on byte strings: the RE2 syntax the agent's patterns
    and rules use, a leftmost-first matcher with captures, and the correctness
    of its yes/no answer.

    Characters are bytes, so a multi-byte UTF-8 character counts as several. *)
From S2P Require Export Expr.

(** * Syntax *)

Inductive assertion := BeginText | EndText | BeginLine | EndLine | WordB | NoWordB.

Inductive re :=
| Emp
| Chr (fold neg : bool) (ranges : list (Z * Z))
| Cat (a b : re)
| Alt (a b : re)
| Star (greedy : bool) (r : re)
| Grp (n : nat) (r : re)
| Assert (a : assertion).

Record flags := mkFlags { fl_i : bool; fl_m : bool; fl_s : bool }.

(** ** Character classes *)

Definition in_ranges (rs : list (Z * Z)) (c : ascii) : bool :=
  existsb (λ '(lo, hi), in_range lo hi c) rs.

Definition chr_match (fold neg : bool) (rs : list (Z * Z)) (c : ascii) : bool :=
  xorb neg (in_ranges rs c || (fold && (in_ranges rs (lower_char c) || in_ranges rs (upper_char c)))).

Definition digit_ranges : list (Z * Z) := [(48, 57)].
Definition word_ranges : list (Z * Z) := [(48, 57); (65, 90); (95, 95); (97, 122)].
Definition space_ranges : list (Z * Z) := [(9, 10); (12, 13); (32, 32)].

(** The complement of sorted disjoint ranges within the bytes. *)
Fixpoint negate_ranges (lo : Z) (rs : list (Z * Z)) : list (Z * Z) :=
  match rs with
  | [] => if lo <=? 255 then [(lo, 255)] else []
  | (a, b) :: rs => (if lo <? a then [(lo, a - 1)] else []) ++ negate_ranges (b + 1) rs
  end.

Definition perl_class (c : ascii) : option (list (Z * Z)) :=
  if Ascii.eqb c "d" then Some digit_ranges
  else if Ascii.eqb c "w" then Some word_ranges
  else if Ascii.eqb c "s" then Some space_ranges
  else if Ascii.eqb c "D" then Some (negate_ranges 0 digit_ranges)
  else if Ascii.eqb c "W" then Some (negate_ranges 0 word_ranges)
  else if Ascii.eqb c "S" then Some (negate_ranges 0 space_ranges)
  else None.

(** A single escaped character: its code and what follows. *)
Definition escape_char (c : ascii) (r : string) : result (Z * string) :=
  if Ascii.eqb c "n" then Ok (10, r)
  else if Ascii.eqb c "t" then Ok (9, r)
  else if Ascii.eqb c "r" then Ok (13, r)
  else if Ascii.eqb c "f" then Ok (12, r)
  else if Ascii.eqb c "v" then Ok (11, r)
  else if Ascii.eqb c "a" then Ok (7, r)
  else if Ascii.eqb c "x" then
    match r with
    | String a (String b r') =>
        match hex_val a, hex_val b with
        | Some x, Some y => Ok (16 * x + y, r')
        | _, _ => Err "invalid escape sequence"
        end
    | _ => Err "invalid escape sequence"
    end
  else if is_letter c || is_digit c then Err "invalid escape sequence"
  else Ok (code c, r).

(** One element of a bracketed class that is not a Perl class. *)
Definition class_char (s : string) : result (Z * string) :=
  match s with
  | "" => Err "missing closing ]"
  | String c r =>
      if Ascii.eqb c backslash then
        match r with "" => Err "trailing backslash" | String d r' => escape_char d r' end
      else Ok (code c, r)
  end.

(** The inside of a class, after an optional [^]; [first] allows a leading [\]]. *)
Fixpoint parse_class (fuel : nat) (first : bool) (s : string) (acc : list (Z * Z))
  : result (list (Z * Z) * string) :=
  match fuel with
  | O => Err "out of fuel"
  | S n =>
      match s with
      | "" => Err "missing closing ]"
      | String c r =>
          if Ascii.eqb c "]" && negb first then Ok (acc, r)
          else
            match
              (if Ascii.eqb c backslash then
                 match r with String d r' => option_map (λ k, (k, r')) (perl_class d) | "" => None end
               else None)
            with
            | Some (k, r') => parse_class n false r' (acc ++ k)
            | None =>
                let? (lo, r1) := class_char s in
                match r1 with
                | String dash r2 =>
                    if Ascii.eqb dash "-" && negb (has_prefix r2 "]") then
                      let? (hi, r3) := class_char r2 in
                      if hi <? lo then Err "invalid character class range"
                      else parse_class n false r3 (acc ++ [(lo, hi)])
                    else parse_class n false r1 (acc ++ [(lo, lo)])
                | "" => parse_class n false r1 (acc ++ [(lo, lo)])
                end
            end
      end
  end.

(** ** Repetition *)

(** [{n}], [{n,}] and [{n,m}]; anything else is literal text. *)
Definition parse_repeat (s : string) : option (nat * option nat * string) :=
  let num t := let '(w, r) := span is_digit t in
               if w =s? "" then None else Some (Z.to_nat (fst (atoi w)), r) in
  match num s with
  | None => None
  | Some (lo, r) =>
      match r with
      | String c r1 =>
          if Ascii.eqb c "}" then Some (lo, Some lo, r1)
          else if Ascii.eqb c "," then
            match r1 with
            | String d r2 =>
                if Ascii.eqb d "}" then Some (lo, None, r2)
                else match num r1 with
                     | Some (hi, String e r3) =>
                         if Ascii.eqb e "}" then Some (lo, Some hi, r3) else None
                     | _ => None
                     end
            | "" => None
            end
          else None
      | "" => None
      end
  end.

Definition opt (greedy : bool) (r : re) : re := if greedy then Alt r Emp else Alt Emp r.

Fixpoint times (n : nat) (r tail : re) : re :=
  match n with O => tail | S n => Cat r (times n r tail) end.

Fixpoint optional_times (greedy : bool) (n : nat) (r : re) : re :=
  match n with O => Emp | S n => opt greedy (Cat r (optional_times greedy n r)) end.

Definition repeat_re (greedy : bool) (lo : nat) (hi : option nat) (r : re) : re :=
  match hi with
  | None => times lo r (Star greedy r)
  | Some hi => times lo r (optional_times greedy (hi - lo) r)
  end.

Definition lazy_suffix (s : string) : bool * string :=
  match s with String "?" r => (false, r) | _ => (true, s) end.

Definition starts_repeat (s : string) : bool :=
  match s with
  | String c r =>
      Ascii.eqb c "*" || Ascii.eqb c "+" || Ascii.eqb c "?" ||
      (Ascii.eqb c "{" && match parse_repeat r with Some _ => true | None => false end)
  | "" => false
  end.

(** The repetition that follows an atom, if any. *)
Definition parse_suffix (r : re) (s : string) : result (re * string) :=
  let finish f rest :=
    let '(greedy, rest) := lazy_suffix rest in
    if starts_repeat rest then Err "invalid nested repetition operator" else Ok (f greedy, rest) in
  match s with
  | String c t =>
      if Ascii.eqb c "*" then finish (λ g, Star g r) t
      else if Ascii.eqb c "+" then finish (λ g, Cat r (Star g r)) t
      else if Ascii.eqb c "?" then finish (λ g, opt g r) t
      else if Ascii.eqb c "{" then
        match parse_repeat t with
        | Some (lo, hi, t') =>
            if (1000 <? lo)%nat || match hi with Some h => (h <? lo)%nat || (1000 <? h)%nat | None => false end
            then Err "invalid repeat count"
            else finish (λ g, repeat_re g lo hi r) t'
        | None => Ok (r, s)
        end
      else Ok (r, s)
  | "" => Ok (r, s)
  end.

(** ** Groups and alternatives *)

Definition cat (a b : re) : re := match a with Emp => b | _ => Cat a b end.

Fixpoint alts (l : list re) (last : re) : re :=
  match l with [] => last | r :: l => Alt r (alts l last) end.

(** The letters after [(?], up to [:] or [)]. *)
Fixpoint parse_flags (on : bool) (fl : flags) (s : string) : result (flags * bool * string) :=
  match s with
  | "" => Err "missing argument to group"
  | String c r =>
      if Ascii.eqb c ":" then Ok (fl, true, r)
      else if Ascii.eqb c ")" then Ok (fl, false, r)
      else if Ascii.eqb c "-" then parse_flags false fl r
      else if Ascii.eqb c "i" then parse_flags on (mkFlags on (fl_m fl) (fl_s fl)) r
      else if Ascii.eqb c "m" then parse_flags on (mkFlags (fl_i fl) on (fl_s fl)) r
      else if Ascii.eqb c "s" then parse_flags on (mkFlags (fl_i fl) (fl_m fl) on) r
      else Err "invalid or unsupported Perl syntax"
  end.

Definition lit (fl : flags) (z : Z) : re := Chr (fl_i fl) false [(z, z)].

(** An escape outside a class. *)
Definition parse_escape (fl : flags) (s : string) : result (re * string) :=
  match s with
  | "" => Err "trailing backslash at end of expression"
  | String c r =>
      if Ascii.eqb c "b" then Ok (Assert WordB, r)
      else if Ascii.eqb c "B" then Ok (Assert NoWordB, r)
      else if Ascii.eqb c "A" then Ok (Assert BeginText, r)
      else if Ascii.eqb c "z" then Ok (Assert EndText, r)
      else match perl_class c with
           | Some k => Ok (Chr false false k, r)
           | None => let? (z, r') := escape_char c r in Ok (lit fl z, r')
           end
  end.

(** The contents of a group: [cur] is the current alternative, [prev] the
    finished ones, [nc] the number of groups so far. *)
Fixpoint parse_items (fuel : nat) (fl : flags) (nc : nat) (s : string) (cur : re) (prev : list re)
  : result (re * nat * string) :=
  match fuel with
  | O => Err "out of fuel"
  | S n =>
      let atom r nc rest :=
        let? (r', rest') := parse_suffix r rest in parse_items n fl nc rest' (cat cur r') prev in
      match s with
      | "" => Ok (alts prev cur, nc, "")
      | String c r =>
          if Ascii.eqb c ")" then Ok (alts prev cur, nc, s)
          else if Ascii.eqb c "|" then parse_items n fl nc r Emp (prev ++ [cur])
          else if Ascii.eqb c "(" then
            match r with
            | String "?" r1 =>
                let? (fl', opens, r2) := parse_flags true fl r1 in
                if opens then
                  let? (g, nc', r3) := parse_items n fl' nc r2 Emp [] in
                  match r3 with
                  | String _ r4 => atom g nc' r4
                  | "" => Err "missing closing )"
                  end
                else parse_items n fl' nc r2 cur prev
            | _ =>
                let? (g, nc', r3) := parse_items n fl (S nc) r Emp [] in
                match r3 with
                | String _ r4 => atom (Grp (S nc) g) nc' r4
                | "" => Err "missing closing )"
                end
            end
          else if Ascii.eqb c "[" then
            let '(neg, r1) := match r with String "^" r1 => (true, r1) | _ => (false, r) end in
            let? (rs, r2) := parse_class (S (String.length r1)) true r1 [] in
            atom (Chr (fl_i fl) neg rs) nc r2
          else if Ascii.eqb c "." then
            atom (if fl_s fl then Chr false true [] else Chr false true [(10, 10)]) nc r
          else if Ascii.eqb c "^" then atom (Assert (if fl_m fl then BeginLine else BeginText)) nc r
          else if Ascii.eqb c "$" then atom (Assert (if fl_m fl then EndLine else EndText)) nc r
          else if Ascii.eqb c backslash then
            let? (e, r1) := parse_escape fl r in atom e nc r1
          else if starts_repeat s then Err "missing argument to repetition operator"
          else atom (lit fl (code c)) nc r
      end
  end.

Definition parse_re (pattern : string) : result re :=
  let? (r, _, rest) := parse_items (S (String.length pattern)) (mkFlags false false false) 0 pattern Emp [] in
  if rest =s? "" then Ok r else Err "unexpected )".

(** * Matching *)

Record mst := mkMst {
  ms_pos : nat;
  ms_prev : option ascii;
  ms_rest : string;
  ms_caps : list (nat * (nat * nat))
}.

Definition is_word_opt (c : option ascii) : bool :=
  match c with Some c => in_ranges word_ranges c | None => false end.

Definition next_char (s : string) : option ascii :=
  match s with "" => None | String c _ => Some c end.

Definition holds_at (a : assertion) (st : mst) : bool :=
  match a with
  | BeginText => match ms_prev st with None => true | Some _ => false end
  | EndText => match ms_rest st with "" => true | _ => false end
  | BeginLine => match ms_prev st with None => true | Some c => Ascii.eqb c nl end
  | EndLine => match ms_rest st with "" => true | String c _ => Ascii.eqb c nl end
  | WordB => xorb (is_word_opt (ms_prev st)) (is_word_opt (next_char (ms_rest st)))
  | NoWordB => negb (xorb (is_word_opt (ms_prev st)) (is_word_opt (next_char (ms_rest st))))
  end.

Definition or_else {A} (x y : option A) : option A := match x with Some _ => x | None => y end.

Definition add_cap (n start : nat) (st : mst) : mst :=
  mkMst (ms_pos st) (ms_prev st) (ms_rest st) ((n, (start, ms_pos st)) :: ms_caps st).

(** The iterations of a star; each must consume something. *)
Fixpoint star_loop (body : mst → (mst → option mst) → option mst) (greedy : bool) (fuel : nat)
  (st : mst) (k : mst → option mst) : option mst :=
  match fuel with
  | O => k st
  | S n =>
      let again _ := body st (λ st', if (ms_pos st <? ms_pos st')%nat
                                    then star_loop body greedy n st' k else None) in
      if greedy then or_else (again tt) (k st) else or_else (k st) (again tt)
  end.

(** Backtracking in the order Perl tries alternatives. *)
Fixpoint bt (r : re) (st : mst) (k : mst → option mst) : option mst :=
  match r with
  | Emp => k st
  | Chr fold neg rs =>
      match ms_rest st with
      | "" => None
      | String c rest =>
          if chr_match fold neg rs c then k (mkMst (S (ms_pos st)) (Some c) rest (ms_caps st)) else None
      end
  | Cat a b => bt a st (λ st', bt b st' k)
  | Alt a b => or_else (bt a st k) (bt b st k)
  | Star greedy r => star_loop (bt r) greedy (S (String.length (ms_rest st))) st k
  | Grp n r => bt r st (λ st', k (add_cap n (ms_pos st) st'))
  | Assert a => if holds_at a st then k st else None
  end.

(** The leftmost match from some position on: where it starts, and its end. *)
Fixpoint find_from (r : re) (pos : nat) (prev : option ascii) (s : string) : option (nat * mst) :=
  match bt r (mkMst pos prev s []) Some with
  | Some st => Some (pos, st)
  | None =>
      match s with
      | "" => None
      | String c rest => find_from r (S pos) (Some c) rest
      end
  end.

Definition match_re (r : re) (s : string) : bool :=
  match find_from r 0 None s with Some _ => true | None => false end.

(** [FindString]; the empty string stands for no match, as in Go. *)
Definition find_string (r : re) (s : string) : string :=
  match find_from r 0 None s with
  | Some (i, st) => sslice i (ms_pos st) s
  | None => ""
  end.

(** [FindStringSubmatch], one group; [None] when there is no match. *)
Definition find_group (r : re) (n : nat) (s : string) : option string :=
  match find_from r 0 None s with
  | Some (_, st) =>
      Some (match List.find (λ '(m, _), Nat.eqb m n) (ms_caps st) with
            | Some (_, (i, j)) => sslice i j s
            | None => ""
            end)
  | None => None
  end.

(** All matches, from left to right; a match that is empty at the end of the
    previous one is skipped. *)
Fixpoint find_all_go (fuel : nat) (r : re) (prev_end : option nat) (pos : nat) (prev : option ascii)
  (s : string) : list (nat * mst) :=
  match fuel with
  | O => []
  | S n =>
      match find_from r pos prev s with
      | None => []
      | Some (i, st) =>
          let empty := Nat.eqb i (ms_pos st) in
          let skip := empty && match prev_end with Some e => Nat.eqb i e | None => false end in
          let keep := if skip then [] else [(i, st)] in
          if empty then
            match ms_rest st with
            | "" => keep
            | String c rest => keep ++ find_all_go n r (Some (ms_pos st)) (S (ms_pos st)) (Some c) rest
            end
          else keep ++ find_all_go n r (Some (ms_pos st)) (ms_pos st) (ms_prev st) (ms_rest st)
      end
  end.

Definition find_all (r : re) (s : string) : list (nat * mst) :=
  find_all_go (S (String.length s)) r None 0 None s.

Definition find_all_strings (r : re) (s : string) : list string :=
  map (λ '(i, st), sslice i (ms_pos st) s) (find_all r s).

(** [ReplaceAllStringFunc]-style replacement. *)
Fixpoint replace_go (s : string) (from : nat) (l : list (nat * mst)) (f : nat * mst → string) : string :=
  match l with
  | [] => sdrop from s
  | (i, st) :: l => sslice from i s +:+ f (i, st) +:+ replace_go s (ms_pos st) l f
  end.

Definition replace_all (r : re) (f : nat * mst → string) (s : string) : string :=
  replace_go s 0 (find_all r s) f.

(** A captured group of one match. *)
Definition cap_string (s : string) (n : nat) (st : mst) : string :=
  match List.find (λ '(m, _), Nat.eqb m n) (ms_caps st) with
  | Some (_, (i, j)) => sslice i j s
  | None => ""
  end.

(** [regexp.Compile] and [MatchString]. *)
#[export] Instance go_regexp : RegexpEngine := λ p,
  match parse_re p with
  | Ok r => Ok (match_re r)
  | Err e => Err ("error parsing regexp: " +:+ e)
  end.

(** [regexp.MustCompile] of a constant pattern. *)
Definition must_compile (p : string) : re := ok_or Emp (parse_re p).
