(* ===== verification/GoRegexpFacts.v ===== *)
(** The matcher of [GoRegexp.v] against a declarative reading of regular
    expressions: it finds a match exactly when there is one. *)
From S2P Require Export GoRegexp.

(** [matches r st st']: [r] leads from state [st] to state [st'].  Iterations of
    a star consume something. *)
Inductive matches : re → mst → mst → Prop :=
| m_emp st : matches Emp st st
| m_chr fold neg rs pos prev c rest caps :
    chr_match fold neg rs c = true →
    matches (Chr fold neg rs) (mkMst pos prev (String c rest) caps) (mkMst (S pos) (Some c) rest caps)
| m_cat a b st st1 st2 : matches a st st1 → matches b st1 st2 → matches (Cat a b) st st2
| m_alt_l a b st st' : matches a st st' → matches (Alt a b) st st'
| m_alt_r a b st st' : matches b st st' → matches (Alt a b) st st'
| m_star_nil g r st : matches (Star g r) st st
| m_star_cons g r st st1 st2 :
    matches r st st1 → (ms_pos st < ms_pos st1)%nat → matches (Star g r) st1 st2 →
    matches (Star g r) st st2
| m_grp n r st st' : matches r st st' → matches (Grp n r) st (add_cap n (ms_pos st) st')
| m_assert a st : holds_at a st = true → matches (Assert a) st st.

(** A match moves forward: what it consumes leaves the rest. *)
Lemma matches_moves r st st' :
  matches r st st' →
  (ms_pos st ≤ ms_pos st')%nat ∧
  (ms_pos st + String.length (ms_rest st) = ms_pos st' + String.length (ms_rest st'))%nat.
Proof. induction 1; cbn in *; lia. Qed.

Lemma or_else_Some {A} (x y : option A) a :
  or_else x y = Some a → x = Some a ∨ (x = None ∧ y = Some a).
Proof. destruct x; cbn; auto. Qed.

Lemma or_else_is_Some {A} (x y : option A) : is_Some (or_else x y) ↔ is_Some x ∨ is_Some y.
Proof. destruct x; cbn; [|naive_solver]. split; eauto. Qed.

(** Soundness. *)
Lemma bt_sound r : ∀ st k x, bt r st k = Some x → ∃ st', matches r st st' ∧ k st' = Some x.
Proof.
  induction r as [|fold neg rs|a IHa b IHb|a IHa b IHb|g r IH|n r IH|a]; intros st k x; cbn [bt].
  - intros H. exists st. split; [constructor|done].
  - destruct st as [pos prev rest caps]; cbn. destruct rest as [|c rest]; [done|].
    destruct (chr_match fold neg rs c) eqn:E; [|done]. intros H. eexists. split; [by constructor|done].
  - intros (st1 & H1 & (st2 & H2 & Hk)%IHb)%IHa. exists st2. split; [by econstructor|done].
  - intros [H|[_ H]]%or_else_Some.
    + apply IHa in H as (st' & ? & ?). exists st'. split; [by constructor|done].
    + apply IHb in H as (st' & ? & ?). exists st'. split; [by apply m_alt_r|done].
  - generalize (S (String.length (ms_rest st))). intros n. revert st. induction n as [|n IHn]; intros st; cbn [star_loop].
    { intros H. exists st. split; [constructor|done]. }
    assert (Hagain : bt r st (λ st', if (ms_pos st <? ms_pos st')%nat
                       then star_loop (bt r) g n st' k else None) = Some x →
              ∃ st', matches (Star g r) st st' ∧ k st' = Some x).
    { intros (st1 & H1 & H2)%IH. destruct (Nat.ltb_spec (ms_pos st) (ms_pos st1)); [|done].
      apply IHn in H2 as (st2 & ? & ?). exists st2. split; [by econstructor|done]. }
    assert (Hnil : k st = Some x → ∃ st', matches (Star g r) st st' ∧ k st' = Some x).
    { intros H. exists st. split; [constructor|done]. }
    destruct g; intros [H|[_ H]]%or_else_Some; auto.
  - intros (st' & H & Hk)%IH. eexists. split; [by constructor|done].
  - destruct (holds_at a st) eqn:E; [|done]. intros H. exists st. split; [by constructor|done].
Qed.

(** Completeness.  A continuation that succeeds more often makes the matcher
    succeed more often, and so does more fuel for the iterations of a star. *)
Lemma bt_mono r : ∀ st k k',
  (∀ st', is_Some (k st') → is_Some (k' st')) → is_Some (bt r st k) → is_Some (bt r st k').
Proof.
  induction r as [|fold neg rs|a IHa b IHb|a IHa b IHb|g r IH|n r IH|a]; intros st k k' Hk; cbn [bt].
  - apply Hk.
  - destruct (ms_rest st); [done|]. case_match; [apply Hk|done].
  - apply IHa. intros st'. by apply IHb.
  - rewrite !or_else_is_Some. intros [H|H]; [left; by apply (IHa _ k)|right; by apply (IHb _ k)].
  - generalize (S (String.length (ms_rest st))). intros n. revert st.
    induction n as [|n IHn]; intros st; cbn [star_loop]; [apply Hk|].
    destruct g; rewrite !or_else_is_Some; intros [H|H]; auto; [left|right]; revert H; apply IH;
      intros st'; case_match; auto.
  - apply IH. intros st'. apply Hk.
  - case_match; [apply Hk|done].
Qed.

Lemma star_fuel r g n m st k :
  (n ≤ m)%nat → is_Some (star_loop (bt r) g n st k) → is_Some (star_loop (bt r) g m st k).
Proof.
  revert m st. induction n as [|n IH]; intros [|m] st Hle; try lia; cbn [star_loop]; [done| |].
  - intros Hk. destruct g; rewrite or_else_is_Some; auto.
  - destruct g; rewrite !or_else_is_Some; intros [H|H]; auto; [left|right]; revert H;
      apply bt_mono; intros st'; case_match; try done; apply IH; lia.
Qed.

Lemma bt_complete r st st' :
  matches r st st' → ∀ k, is_Some (k st') → is_Some (bt r st k).
Proof.
  induction 1 as
    [st|fold neg rs pos prev c rest caps Hc|a b st st1 st2 H1 IH1 H2 IH2|a b st st' H IH|a b st st' H IH
    |g r st|g r st st1 st2 H1 IH1 Hlt H2 IH2|n r st st' H IH|a st Ha]; intros k Hk; cbn [bt].
  - done.
  - cbn. by rewrite Hc.
  - auto.
  - apply or_else_is_Some. auto.
  - apply or_else_is_Some. auto.
  - cbn [star_loop]. destruct g; apply or_else_is_Some; auto.
  - pose proof (matches_moves _ _ _ H1) as [_ Hmv].
    assert (Hag : is_Some (bt r st (λ st', if (ms_pos st <? ms_pos st')%nat
                     then star_loop (bt r) g (String.length (ms_rest st)) st' k else None))).
    { apply IH1. rewrite (proj2 (Nat.ltb_lt _ _) Hlt). apply (star_fuel _ _ (S (String.length (ms_rest st1)))); [lia|].
      by apply IH2. }
    cbn [star_loop]. destruct g; apply or_else_is_Some; auto.
  - auto.
  - by rewrite Ha.
Qed.

(** The states a search in [s] can start from: any position, with the byte
    before it. *)
Fixpoint starts (pos : nat) (prev : option ascii) (s : string) : list mst :=
  mkMst pos prev s [] ::
  match s with "" => [] | String c rest => starts (S pos) (Some c) rest end.

Lemma find_from_iff r pos prev s :
  is_Some (find_from r pos prev s) ↔ ∃ st st', st ∈ starts pos prev s ∧ matches r st st'.
Proof.
  revert pos prev. induction s as [|c s IH]; intros pos prev; cbn [find_from starts].
  - destruct (bt r _ Some) as [x|] eqn:E.
    + apply bt_sound in E as (st' & Hm & _). split; [|by eauto]. intros _. do 2 eexists. split; [|done]. left.
    + split; [by intros [? ?]|]. intros (st & st' & ->%list_elem_of_singleton & Hm).
      destruct (bt_complete _ _ _ Hm Some ltac:(eauto)) as [? ?]. congruence.
  - destruct (bt r _ Some) as [x|] eqn:E.
    + apply bt_sound in E as (st' & Hm & _). split; [|by eauto]. intros _. do 2 eexists. split; [|done]. left.
    + rewrite IH. split; intros (st & st' & Hin & Hm); exists st, st'; (split; [|done]).
      * by right.
      * apply elem_of_cons in Hin as [->|]; [|done]. exfalso.
        destruct (bt_complete _ _ _ Hm Some ltac:(eauto)) as [? ?]. congruence.
Qed.

(** The regular-expression matcher decides matching.  For every parsed
    expression and every text, [MatchString] answers yes exactly when from some
    position of the text the expression leads, by the declarative rules of
    regular expressions (alternatives, iterations that consume something,
    assertions on the neighbouring bytes), to some later position; backtracking
    never gives up too early. *)
Theorem match_re_iff r s :
  match_re r s = true ↔ ∃ st st', st ∈ starts 0 None s ∧ matches r st st'.
Proof. unfold match_re. rewrite <-find_from_iff. destruct (find_from r 0 None s); split; try done; by intros []. Qed.
