(* ===== verification/Container.v ===== *)
(** [internal/container] and [internal/anchor]: what a process's cgroup file
    says about its container and its systemd unit. *)
From S2P Require Export GoRegexpFacts Procfs.

(** * Containers *)

Record CInfo := mkCInfo { ci_Runtime : string; ci_ID : string; ci_PodUID : string }.

#[export] Instance eta_CInfo : Eta CInfo := λ i, mkCInfo (ci_Runtime i) (ci_ID i) (ci_PodUID i).

Definition dockerIDRE : re := must_compile "[0-9a-f]{64}".

Definition k8sPodUIDRE : re := must_compile
  "pod([0-9a-fA-F]{8}[-_]?[0-9a-fA-F]{4}[-_]?[0-9a-fA-F]{4}[-_]?[0-9a-fA-F]{4}[-_]?[0-9a-fA-F]{12})".

(** The switch on the lower-cased text. *)
Definition runtime_of (low : string) : string :=
  if contains low "/docker/" || contains low "docker-" || contains low "/docker-" then "docker"
  else if contains low "/containerd/" || contains low "cri-containerd" || contains low "containerd-"
  then "containerd"
  else if contains low "cri-o" || contains low "crio-" then "cri-o"
  else if contains low "/lxc/" || contains low "lxc.payload." then "lxc"
  else if contains low "kubepods" then "k8s"
  else "".

Definition Classify (cgroup : string) : CInfo :=
  if cgroup =s? "" then mkCInfo "" "" ""
  else
    let info := mkCInfo (runtime_of (to_lower cgroup)) "" "" in
    let info :=
      let m := find_string dockerIDRE cgroup in
      if negb (m =s? "") then info <| ci_ID := if 12 <=? slen m then stake 12 m else m |> else info in
    match find_group k8sPodUIDRE 1 cgroup with
    | Some uid =>
        let info := info <| ci_PodUID := uid |> in
        if ci_Runtime info =s? "" then info <| ci_Runtime := "k8s" |> else info
    | None => info
    end.

Definition CInfo_IsZero (i : CInfo) : bool :=
  (ci_Runtime i =s? "") && (ci_ID i =s? "") && (ci_PodUID i =s? "").

Definition sample_id : string := "5f2cd1b0c4a35f2cd1b0c4a35f2cd1b0c4a35f2cd1b0c4a35f2cd1b0c4a35f2c".

Example Classify_samples :
  Classify ("0::/system.slice/docker-" +:+ sample_id +:+ ".scope") = mkCInfo "docker" "5f2cd1b0c4a3" "" ∧
  Classify "0::/kubepods/besteffort/pod12345678-1234-1234-1234-123456789abc/x" =
    mkCInfo "k8s" "" "12345678-1234-1234-1234-123456789abc" ∧
  Classify "0::/user.slice" = mkCInfo "" "" "".
Proof. vm_compute. done. Qed.

(** * Anchors *)

Definition reSystemSlice : re := must_compile "(?:^|/)(system\.slice/[^/\s]+\.service)(?:/|$)".
Definition reUserSlice : re := must_compile "(?:^|/)(user\.slice/user-\d+\.slice/[^/\s]+\.service)(?:/|$)".
Definition reAnyUnit : re := must_compile "((?:system|user)\.slice/[^\s/]+(?:\.service|\.scope|\.socket))".

Record AInfo := mkAInfo { ai_Cgroup : string; ai_CgroupPath : string; ai_SystemdUnit : string; ai_Anchor : string }.

(** What follows the last colon of the first line where that is a path below the root. *)
Definition cgroup_path (line : string) : option string :=
  let line := trim_space line in
  if line =s? "" then None
  else match last_index_byte line ":" with
       | Some i => let p := sdrop (S i) line in
                   if negb (p =s? "") && negb (p =s? "/") then Some p else None
       | None => None
       end.

Definition firstCgroupPath (raw : string) : string :=
  match omap cgroup_path (split nl raw) with p :: _ => p | [] => "" end.

Definition unit_suffixes : list string := [".service"; ".scope"; ".socket"].

Definition extractUnit (cgroupPath : string) : string :=
  if cgroupPath =s? "" then ""
  else match find_group reSystemSlice 1 cgroupPath with
  | Some m => path_base m
  | None =>
  match find_group reUserSlice 1 cgroupPath with
  | Some m => path_base m
  | None =>
  match find_group reAnyUnit 1 cgroupPath with
  | Some m => path_base m
  | None =>
      let base := path_base cgroupPath in
      if existsb (has_suffix base) unit_suffixes then base else ""
  end end end.

Definition FromCgroup (raw : string) : AInfo :=
  let line := firstCgroupPath raw in
  let u := extractUnit line in
  if negb (u =s? "") then mkAInfo (trim_space raw) line u u
  else mkAInfo (trim_space raw) line "" line.

Definition FromPID `{FileReader} (pid : Z) : AInfo :=
  match ReadCgroup pid with
  | (raw, true) => FromCgroup raw
  | (_, false) => mkAInfo "" "" "" ""
  end.

(** The first suffix that fits is trimmed. *)
Fixpoint trim_first (unit : string) (sufs : list string) : string :=
  match sufs with
  | [] => unit
  | suf :: sufs => if has_suffix unit suf then trim_suffix unit suf else trim_first unit sufs
  end.

Definition UnitBasename (unit : string) : string := trim_first (path_base unit) unit_suffixes.

Definition normalizeUnitName (s : string) : string :=
  sfilter (λ c, negb (is_digit c || Ascii.eqb c ".")) s.

(** The tests of the loop body of [IsWatchedUnit]. *)
Definition watched_by (base w : string) : bool :=
  let name := to_lower (UnitBasename base) in
  let baseLow := to_lower base in
  let nameNorm := normalizeUnitName name in
  let w := trim_space (to_lower w) in
  if w =s? "" then false
  else
    let wBase := UnitBasename w in
    let wNorm := normalizeUnitName wBase in
    ((baseLow =s? w) || (name =s? w) || (name =s? wBase) || (baseLow =s? wBase +:+ ".service")) ||
    (has_prefix name w || has_prefix nameNorm wNorm) ||
    (negb (wNorm =s? "") && ((nameNorm =s? wNorm) || has_prefix nameNorm wNorm || contains nameNorm wNorm)).

Definition IsWatchedUnit (unit : string) (watched : list string) : bool :=
  if (unit =s? "") || (length watched =? 0)%nat then false
  else existsb (watched_by (path_base unit)) watched.

Example anchor_samples :
  map (ai_Anchor ∘ FromCgroup)
    ["0::/system.slice/nginx.service" +:+ str nl; "12:name=systemd:/" +:+ str nl +:+ "0::/user.slice/user-1000.slice/app.service/x";
     "0::/docker/abc"; "0::/"] = ["nginx.service"; "app.service"; "/docker/abc"; ""] ∧
  IsWatchedUnit "php8.3-fpm.service" ["php-fpm"] = true ∧
  IsWatchedUnit "sshd.service" ["nginx"; "php"] = false.
Proof. vm_compute. done. Qed.

(** A pattern whose name is all digits matches every unit. *)
Example digits_pattern_matches_all : IsWatchedUnit "sshd.service" ["389"] = true.
Proof. vm_compute. reflexivity. Qed.

(** * Properties *)

Lemma find_from_split r pos prev s i st :
  find_from r pos prev s = Some (i, st) →
  ∃ a b prev', s = a +:+ b ∧ i = (pos + String.length a)%nat ∧ matches r (mkMst i prev' b []) st.
Proof.
  assert (Hhere : ∀ pos prev s x, bt r (mkMst pos prev s []) Some = Some x → (pos, x) = (i, st) →
            ∃ a b prev', s = a +:+ b ∧ i = (pos + String.length a)%nat ∧ matches r (mkMst i prev' b []) st).
  { clear. intros pos prev s x (st' & Hm & [= ->])%bt_sound [= <- <-].
    exists "", s, prev. split; [done|]. split; [cbn; lia|done]. }
  revert pos prev. induction s as [|c s IH]; intros pos prev; cbn [find_from];
    (destruct (bt r _ Some) as [x|] eqn:E; [intros [= -> ->]; by eapply Hhere|]); [done|].
  intros (a & b & prev' & -> & -> & Hm)%IH. exists (String c a), b, prev'. split; [done|]. cbn [String.length].
  split; [lia|]. by replace (pos + S (String.length a))%nat with (S pos + String.length a)%nat by lia.
Qed.

Lemma starts_split pos prev a b : ∃ prev', mkMst (pos + String.length a) prev' b [] ∈ starts pos prev (a +:+ b).
Proof.
  revert pos prev. induction a as [|c a IH]; intros pos prev.
  - exists prev. cbn. rewrite Nat.add_0_r. destruct b; cbn; left.
  - destruct (IH (S pos) (Some c)) as [prev' Hin]. exists prev'.
    change (String c a +:+ b) with (String c (a +:+ b)). cbn [starts String.length]. right.
    by replace (pos + S (String.length a))%nat with (S pos + String.length a)%nat by lia.
Qed.

(** [n] characters of one class. *)
Fixpoint rep_chr (n : nat) (rs : list (Z * Z)) : re :=
  match n with O => Emp | S n => Cat (Chr false false rs) (rep_chr n rs) end.

Lemma matches_rep n rs st st' :
  matches (rep_chr n rs) st st' →
  ∃ w rest, ms_rest st = w +:+ rest ∧ String.length w = n ∧ sforall (in_ranges rs) w = true ∧
            ms_pos st' = (ms_pos st + n)%nat.
Proof.
  revert st. induction n as [|n IH]; intros st; cbn; inversion 1; subst.
  - eexists "", _. split; [done|]. split_and!; (done || lia).
  - match goal with H : matches (Chr _ _ _) _ _ |- _ => inversion H; subst end.
    match goal with H : matches (rep_chr _ _) _ _ |- _ => apply IH in H as (w & rest' & He & Hl & Hw & Hp) end.
    cbn in *. subst. exists (String c w), rest'. unfold chr_match in *. rewrite orb_false_r in *.
    split; [done|]. cbn. split_and!; [done| |lia]. by destruct (in_ranges rs c).
Qed.

Lemma rep_matches n rs w rest st :
  ms_rest st = w +:+ rest → String.length w = n → sforall (in_ranges rs) w = true →
  ∃ st', matches (rep_chr n rs) st st'.
Proof.
  revert w st. induction n as [|n IH]; intros w [pos prev s caps] Hs Hl Hw; cbn in *.
  - exists (mkMst pos prev s caps). constructor.
  - destruct w as [|c w]; [done|]. cbn in *. apply andb_true_iff in Hw as [Hc Hw]. subst s.
    destruct (IH w (mkMst (S pos) (Some c) (w +:+ rest) caps)) as [st' Hm]; [done|lia|done|].
    exists st'. econstructor; [|exact Hm]. apply (m_chr false false rs). unfold chr_match. rewrite Hc. done.
Qed.

Definition hex_ranges : list (Z * Z) := [(48, 57); (97, 102)].

Lemma dockerIDRE_is : dockerIDRE = rep_chr 64 hex_ranges.
Proof. vm_compute. reflexivity. Qed.

(** Go's [FindString]: a leftmost substring that matches. *)
Lemma find_string_rep n rs s :
  (0 < n)%nat →
  let m := find_string (rep_chr n rs) s in
  (m ≠ "" → ∃ a b, s = a +:+ m +:+ b ∧ String.length m = n ∧ sforall (in_ranges rs) m = true) ∧
  (∀ a w b, s = a +:+ w +:+ b → String.length w = n → sforall (in_ranges rs) w = true → m ≠ "").
Proof.
  intros Hn m. unfold m, find_string. destruct (find_from _ 0 None s) as [[i st]|] eqn:E.
  - apply find_from_split in E as (a & b & prev' & -> & -> & Hm). apply matches_rep in Hm as (w & rest & Hr & Hl & Hw & Hp).
    cbn [ms_rest ms_pos] in *. subst b. unfold sslice. rewrite Hp. cbn [plus]. rewrite sdrop_app.
    replace (String.length a + n - String.length a)%nat with (String.length w) by lia.
    rewrite stake_app. split; [intros _; by exists a, rest|]. intros _ _ _ _ _ _ ->. cbn in Hl. lia.
  - split; [done|]. intros a w b -> Hl Hw. exfalso. destruct (starts_split 0 None a (w +:+ b)) as [prev' Hin].
    destruct (rep_matches n rs w b (mkMst (0 + String.length a) prev' (w +:+ b) [])) as [st' Hm]; [done|done|done|].
    assert (is_Some (find_from (rep_chr n rs) 0 None (a +:+ w +:+ b))) as [? ?]; [|congruence].
    apply find_from_iff. eauto.
Qed.

(** A process is given a container id exactly when its cgroup text has 64
    consecutive hexadecimal digits, and the id is the first 12 of such a run, as
    container runtimes print it; nothing shorter is taken for an id. *)
Theorem Classify_ID cgroup :
  (ci_ID (Classify cgroup) ≠ "" ↔
   ∃ a w b, cgroup = a +:+ w +:+ b ∧ String.length w = 64%nat ∧ sforall (in_ranges hex_ranges) w = true) ∧
  (ci_ID (Classify cgroup) ≠ "" →
   ∃ a w b, cgroup = a +:+ w +:+ b ∧ String.length w = 64%nat ∧ sforall (in_ranges hex_ranges) w = true ∧
            ci_ID (Classify cgroup) = stake 12 w).
Proof.
  assert (Hid : ci_ID (Classify cgroup) =
                let m := find_string dockerIDRE cgroup in
                if m =s? "" then "" else if 12 <=? slen m then stake 12 m else m).
  { unfold Classify. destruct (String.eqb_spec cgroup "") as [->|_]; [reflexivity|].
    destruct (find_string dockerIDRE cgroup =s? ""); cbn [negb];
      destruct (find_group k8sPodUIDRE 1 cgroup); try reflexivity;
      by match goal with |- context[if ?c then _ else _] => destruct c end. }
  rewrite Hid. rewrite dockerIDRE_is. cbv zeta.
  destruct (find_string_rep 64 hex_ranges cgroup ltac:(lia)) as [H1 H2].
  set (m := find_string (rep_chr 64 hex_ranges) cgroup) in *.
  destruct (String.eqb_spec m "") as [He|Hne].
  - split; [|done]. split; [done|]. intros (a & w & b & Hs & Hl & Hw). by destruct (H2 a w b Hs Hl Hw).
  - destruct (H1 Hne) as (a & b & Hs & Hl & Hw). unfold slen. rewrite Hl. cbn [Z.leb Z.of_nat].
    assert (Hst : stake 12 m ≠ "") by (by destruct m).
    split; [split; [|done]|]; intros _; exists a, m, b; done.
Qed.

(** One careless pattern watches the whole host: a pattern whose name has
    nothing but digits and dots (port numbers, a bare suffix) matches every
    unit, because the prefix test on normalised names does not require a
    non-empty pattern. *)
Theorem digit_pattern_watches_all unit watched w :
  unit ≠ "" → w ∈ watched → trim_space (to_lower w) ≠ "" →
  normalizeUnitName (UnitBasename (trim_space (to_lower w))) = "" → IsWatchedUnit unit watched = true.
Proof.
  intros Hu Hin Hw Hn. unfold IsWatchedUnit. rewrite (proj2 (String.eqb_neq _ _) Hu).
  destruct watched as [|x watched]; [by apply elem_of_nil in Hin|]. cbn [length Nat.eqb orb].
  apply existsb_exists. exists w. split; [by apply list_elem_of_In|]. unfold watched_by.
  rewrite (proj2 (String.eqb_neq _ _) Hw). cbv zeta. rewrite Hn.
  assert (Hp : ∀ s, has_prefix s "" = true) by (intros s; apply (has_prefix_app "" s)).
  by rewrite !Hp, !orb_true_r.
Qed.

Lemma digit_pattern_watches_all_witness : IsWatchedUnit "sshd.service" ["nginx"; "389.service"] = true.
Proof.
  apply (digit_pattern_watches_all "sshd.service" ["nginx"; "389.service"] "389.service");
    [discriminate|right; left|vm_compute; discriminate|vm_compute; reflexivity].
Defined.
