(* ===== verification/Baseline.v ===== *)
(** [internal/baseline]: the committed snapshot of the host, its file, and the
    cache in front of it.

    [encoding/json] is a parameter: the bytes of a document, and the document
    of some bytes.  A Go map is [None] when it is nil. *)
From S2P Require Export GoOS.

Definition BaselineVersion : Z := 1.

Record WebFileRecord := mkWebFileRecord { wf_SHA256 : string; wf_Mtime : Time; wf_Size : Z }.

Abbreviation gomap V := (option (gmap string V)).

Record Snapshot := mkSnapshot {
  bs_Version : Z;
  bs_CommittedAt : Time;
  bs_AuthKeys : gomap (list string);
  bs_CronLines : gomap (list string);
  bs_WebFiles : gomap WebFileRecord;
  bs_LDPreload : list string;
  bs_PersistenceFiles : gomap string;
  bs_LoadedKernelModules : list string;
  bs_SUIDInventory : gomap string;
  bs_FileCapabilities : gomap string;
  bs_ProcessAncestry : list string;
  bs_LoadedLibraries : gomap (list string)
}.

#[export] Instance WebFileRecord_eq : EqDecision WebFileRecord.
Proof. solve_decision. Defined.

#[export] Instance Snapshot_eq : EqDecision Snapshot.
Proof. solve_decision. Defined.

#[export] Instance eta_Snapshot : Eta Snapshot := λ s,
  mkSnapshot (bs_Version s) (bs_CommittedAt s) (bs_AuthKeys s) (bs_CronLines s) (bs_WebFiles s)
    (bs_LDPreload s) (bs_PersistenceFiles s) (bs_LoadedKernelModules s) (bs_SUIDInventory s)
    (bs_FileCapabilities s) (bs_ProcessAncestry s) (bs_LoadedLibraries s).

Definition EmptySnapshot : Snapshot :=
  mkSnapshot BaselineVersion 0 (Some ∅) (Some ∅) (Some ∅) [] (Some ∅) [] (Some ∅) (Some ∅) [] (Some ∅).

(** A nil map replaced by an empty one. *)
Definition make {V} (m : gomap V) : gomap V := Some (default ∅ m).

(** The error for which [os.IsNotExist] holds. *)
Definition ErrNotExist : string := "no such file or directory".

Definition make_maps (s : Snapshot) : Snapshot :=
  mkSnapshot (bs_Version s) (bs_CommittedAt s) (make (bs_AuthKeys s)) (make (bs_CronLines s))
    (make (bs_WebFiles s)) (bs_LDPreload s) (make (bs_PersistenceFiles s)) (bs_LoadedKernelModules s)
    (make (bs_SUIDInventory s)) (make (bs_FileCapabilities s)) (bs_ProcessAncestry s)
    (make (bs_LoadedLibraries s)).

Definition IsCommitted (s : Snapshot) : bool := negb (time_is_zero (bs_CommittedAt s)).

Section codec.
Variable json_Unmarshal : string → result Snapshot.
Variable json_MarshalIndent : Snapshot → result string.

Definition Load_baseline `{FileReader} (path : string) : result Snapshot :=
  match ReadFile path with
  | Err e => if e =s? ErrNotExist then Ok EmptySnapshot else Err e
  | Ok b => let? s := json_Unmarshal b in Ok (make_maps s)
  end.

(** Failures of one [Save]: a failed write leaves some of the bytes. *)
Record SaveFaults := mkSaveFaults { sv_write : option nat; sv_rename : bool }.

Definition Save (ft : SaveFaults) (fs : gmap string string) (path : string) (s : Snapshot)
  : gmap string string * result unit :=
  let tmp := path +:+ ".tmp" in
  match json_MarshalIndent s with
  | Err e => (fs, Err e)
  | Ok b =>
      match sv_write ft with
      | Some n => (<[tmp := stake n b]> fs, Err "write")
      | None =>
          let fs := <[tmp := b]> fs in
          if sv_rename ft then (fs, Err "rename") else (<[path := b]> (delete tmp fs), Ok tt)
      end
  end.

(** * The cache *)

Record Cache := mkCache {
  ca_path : string;
  ca_modTime : Time;
  ca_size : Z;
  ca_missing : bool;
  ca_snap : option Snapshot
}.

#[export] Instance eta_Cache : Eta Cache := λ c,
  mkCache (ca_path c) (ca_modTime c) (ca_size c) (ca_missing c) (ca_snap c).

Definition zero_Cache : Cache := mkCache "" 0 0 false None.

Definition Get `{FileReader} `{Stater} (c : Cache) (path : string) : Cache * result Snapshot :=
  let reload c fi :=
    match Load_baseline path with
    | Err e => (c, Err e)
    | Ok s => (mkCache path (fi_ModTime fi) (fi_Size fi) false (Some s), Ok s)
    end in
  match Stat path with
  | FStatErr e => (c, Err e)
  | FNotExist =>
      match ca_snap c with
      | Some s => if (ca_path c =s? path) && ca_missing c then (c, Ok s)
                  else (mkCache path 0 0 true (Some EmptySnapshot), Ok EmptySnapshot)
      | None => (mkCache path 0 0 true (Some EmptySnapshot), Ok EmptySnapshot)
      end
  | FOk fi =>
      match ca_snap c with
      | Some s => if (ca_path c =s? path) && negb (ca_missing c) && (ca_modTime c =? fi_ModTime fi) &&
                     (ca_size c =? fi_Size fi) then (c, Ok s) else reload c fi
      | None => reload c fi
      end
  end.

Definition Invalidate (c : Cache) : Cache :=
  c <| ca_snap := None |> <| ca_path := "" |> <| ca_missing := false |>.

(** * Saving and loading *)

(** What [omitempty] drops from the document, and the decoder leaves nil. *)
Definition omit {V} (m : gomap V) : gomap V :=
  match m with Some m => if bool_decide (m = ∅) then None else Some m | None => None end.

Definition omit_empty (s : Snapshot) : Snapshot :=
  s <| bs_PersistenceFiles := omit (bs_PersistenceFiles s) |> <| bs_SUIDInventory := omit (bs_SUIDInventory s) |>
    <| bs_FileCapabilities := omit (bs_FileCapabilities s) |> <| bs_LoadedLibraries := omit (bs_LoadedLibraries s) |>.

(** The documented behaviour of [encoding/json] on this type. *)
Definition json_roundtrip : Prop :=
  ∀ s b, json_MarshalIndent s = Ok b → json_Unmarshal b = Ok (omit_empty s).

End codec.

(** A file system as the reader of its files. *)
Definition reader_of (fs : gmap string string) : FileReader :=
  λ p, match fs !! p with Some b => Ok b | None => Err ErrNotExist end.

Lemma make_omit {V} (m : gomap V) : make (omit m) = make m.
Proof. destruct m as [m|]; [|done]. cbn. by case_bool_decide; subst. Qed.

(** What a successful save leaves is loaded back. *)
Lemma Save_load unm mar ft fs path s fs' :
  json_roundtrip unm mar → Save mar ft fs path s = (fs', Ok tt) →
  @Load_baseline unm (reader_of fs') path = Ok (make_maps s).
Proof.
  intros Hj. unfold Save. destruct (mar s) as [b|e] eqn:Hm; [|done]. apply Hj in Hm.
  destruct (sv_write ft) as [n|]; [done|]. destruct (sv_rename ft); [done|]. intros [= <-].
  unfold Load_baseline, ReadFile, reader_of. simplify_map_eq. rewrite Hm. cbn [rbind].
  destruct s. unfold omit_empty, make_maps. cbn. by rewrite !make_omit.
Qed.

Lemma tmp_neq path : path +:+ ".tmp" ≠ path.
Proof. intros H. apply (f_equal String.length) in H. rewrite length_append in H. cbn in H. lia. Qed.


(** A codec for the snapshots that differ from the empty one in [ld_preload]. *)
Definition demo_snapshot (b : string) : Snapshot := EmptySnapshot <| bs_LDPreload := [b] |>.
Definition demo_unmarshal (b : string) : result Snapshot := Ok (omit_empty (demo_snapshot b)).
Definition demo_marshal (s : Snapshot) : result string :=
  match bs_LDPreload s with
  | [b] => if bool_decide (s = demo_snapshot b) then Ok b else Err "unsupported"
  | _ => Err "unsupported"
  end.

Lemma demo_roundtrip : json_roundtrip demo_unmarshal demo_marshal.
Proof.
  intros s b. unfold demo_marshal, demo_unmarshal. destruct (bs_LDPreload s) as [|x [|? ?]]; try done.
  case_bool_decide as Hs; [|done]. intros [= <-]. by rewrite <-Hs.
Qed.


(** * The cache is coherent *)

(** The file system at the time of a call. *)
Record World := mkWorld { w_stat : string → stat_result; w_read : string → result string }.

Definition Get_in (unm : string → result Snapshot) (w : World) (c : Cache) (path : string) : Cache * result Snapshot :=
  @Get unm (w_read w) (w_stat w) c path.

Fixpoint Gets (unm : string → result Snapshot) (c : Cache) (calls : list (World * string)) : list (result Snapshot) :=
  match calls with
  | [] => []
  | (w, p) :: calls => let '(c', r) := Get_in unm w c p in r :: Gets unm c' calls
  end.

(** What a call would return without a cache. *)
Definition uncached (unm : string → result Snapshot) (call : World * string) : result Snapshot :=
  let '(w, p) := call in
  match w_stat w p with
  | FStatErr e => Err e
  | FNotExist => Ok EmptySnapshot
  | FOk _ => @Load_baseline unm (w_read w) p
  end.

(** A file whose modification time and size are the same has the same bytes. *)
Definition faithful_metadata (calls : list (World * string)) : Prop :=
  ∀ w1 w2 p f1 f2, (w1, p) ∈ calls → (w2, p) ∈ calls →
    w_stat w1 p = FOk f1 → w_stat w2 p = FOk f2 →
    fi_ModTime f1 = fi_ModTime f2 → fi_Size f1 = fi_Size f2 → w_read w1 p = w_read w2 p.

(** Where the cached snapshot came from. *)
Definition cache_ok (unm : string → result Snapshot) (past : list (World * string)) (c : Cache) : Prop :=
  match ca_snap c with
  | None => True
  | Some s =>
      if ca_missing c then s = EmptySnapshot
      else ∃ w fi, (w, ca_path c) ∈ past ∧ w_stat w (ca_path c) = FOk fi ∧
             fi_ModTime fi = ca_modTime c ∧ fi_Size fi = ca_size c ∧
             @Load_baseline unm (w_read w) (ca_path c) = Ok s
  end.

Lemma cache_ok_mono unm past past' c :
  (∀ x, x ∈ past → x ∈ past') → cache_ok unm past c → cache_ok unm past' c.
Proof. unfold cache_ok. intros H. destruct (ca_snap c); [|done]. case_match; [done|]. naive_solver. Qed.

Lemma Get_in_ok unm past w p c :
  faithful_metadata ((w, p) :: past) → cache_ok unm past c →
  cache_ok unm ((w, p) :: past) (Get_in unm w c p).1 ∧ (Get_in unm w c p).2 = uncached unm (w, p).
Proof.
  intros Hf Hc. assert (Hc' : cache_ok unm ((w, p) :: past) c).
  { eapply cache_ok_mono; [|exact Hc]. intros x Hx. by right. }
  unfold Get_in, Get, uncached, Stat. destruct (w_stat w p) as [fi| |e] eqn:Hst; [| |done].
  - set (reload := match @Load_baseline unm (w_read w) p with Ok _ => _ | Err _ => _ end).
    assert (Hre : cache_ok unm ((w, p) :: past) reload.1 ∧ reload.2 = @Load_baseline unm (w_read w) p).
    { unfold reload. destruct (Load_baseline _ p) as [s|] eqn:E; [|done]. split; [|done].
      exists w, fi. cbn. split; [left|done]. }
    destruct c as [cp ct cs cm [s|]]; [|exact Hre]. cbn [ca_snap ca_path ca_missing ca_modTime ca_size].
    destruct ((cp =s? p) && negb cm && (ct =? fi_ModTime fi) && (cs =? fi_Size fi)) eqn:E; [|exact Hre].
    split; [exact Hc'|]. cbn. rewrite !andb_true_iff, String.eqb_eq, negb_true_iff, !Z.eqb_eq in E.
    destruct E as [[[-> ->] ->] ->]. cbn in Hc. destruct Hc as (w' & fi' & Hin & Hst' & Ht & Hs & Hl).
    rewrite <-Hl. unfold Load_baseline, ReadFile.
    by rewrite (Hf w w' p fi fi') by (done || by left || by right).
  - destruct c as [cp ct cs cm [s|]]; [|done]. cbn [ca_snap ca_path ca_missing].
    destruct ((cp =s? p) && cm) eqn:E; [|done]. apply andb_true_iff in E as [_ ->]. cbn in *. by subst.
Qed.

(** C33: Caching the baseline never changes what a scan sees: as long as two
    versions of the file never share both modification time and size, every
    call of the cache, through any sequence of changes, disappearances and
    errors of the file, returns exactly what reading the file at that moment
    would. *)
Theorem Cache_coherent unm calls :
  faithful_metadata calls → Gets unm zero_Cache calls = map (uncached unm) calls.
Proof.
  assert (Hgen : ∀ past c, faithful_metadata (past ++ calls) → cache_ok unm past c →
            Gets unm c calls = map (uncached unm) calls); [|intros Hf; by apply (Hgen [] zero_Cache)].
  induction calls as [|[w p] calls IH]; intros past c Hf Hc; [done|]. cbn [Gets map].
  destruct (Get_in_ok unm past w p c) as [Hok Hr]; [|done|].
  { intros w1 w2 q f1 f2 H1 H2. apply Hf; set_solver. }
  destruct (Get_in unm w c p) as [c' r]. cbn in *. rewrite Hr. f_equal.
  apply (IH ((w, p) :: past)); [|done]. intros w1 w2 q f1 f2 H1 H2. apply Hf; set_solver.
Qed.

(** Three readings of a file that is written once in between. *)
Definition demo_world (v : string) (mtime : Time) : World :=
  mkWorld (λ _, FOk (mkFileInfo false 1 mtime 0 0)) (λ _, Ok v).
Definition demo_calls : list (World * string) :=
  [(demo_world "a" 1, "b.json"); (demo_world "a" 1, "b.json"); (demo_world "b" 2, "b.json")].

Lemma Cache_coherent_witness :
  Gets demo_unmarshal zero_Cache demo_calls = map (uncached demo_unmarshal) demo_calls.
Proof.
  apply (Cache_coherent demo_unmarshal demo_calls). intros w1 w2 p f1 f2 H1 H2 S1 S2 Ht _.
  unfold demo_calls in H1, H2. rewrite !elem_of_cons in H1, H2.
  destruct H1 as [H1|[H1|[H1|H1]]], H2 as [H2|[H2|[H2|H2]]];
    try (by apply elem_of_nil in H1); try (by apply elem_of_nil in H2);
    injection H1 as -> ->; injection H2 as ->; try reflexivity;
    injection S1 as <-; injection S2 as <-; discriminate Ht.
Defined.

