(* ===== verification/Gate.v ===== *)
(** A table of the last time each key was let through, with pruning: what the
    sensor's debouncer and the runner's alert deduplication both are.

    The clock is read up to three times in a call: to test the window, to store
    the new time, and to prune. *)
From S2P Require Export Prelude.

Abbreviation table := (gmap string Time).

Record gcall := mkGcall {
  gc_key : string;
  gc_check : Time;
  gc_store : Time;
  gc_prune : option Time  (* [None] when this call does not prune *)
}.

(** [if t, ok := m[key]; ok && now.Sub(t) < window]. *)
Definition blocked (w : Duration) (m : table) (key : string) (now : Time) : bool :=
  match m !! key with Some t => time_sub now t <? w | None => false end.

(** Deletes every entry before [now.Add(-window)]. *)
Definition prune (w : Duration) (m : table) (now : Time) : table :=
  filter (λ '(_, t), time_before t (time_add now (- w)) = false) m.

Definition gate_step (w : Duration) (m : table) (c : gcall) : table * bool :=
  if blocked w m (gc_key c) (gc_check c) then (m, false)
  else
    let m := <[gc_key c := gc_store c]> m in
    (match gc_prune c with Some now => prune w m now | None => m end, true).

Fixpoint gate_run (w : Duration) (m : table) (cs : list gcall) : table * list bool :=
  match cs with
  | [] => (m, [])
  | c :: cs => let '(m, ok) := gate_step w m c in
               let '(m, oks) := gate_run w m cs in (m, ok :: oks)
  end.

(** The clock does not go backwards, within calls and between them. *)
Fixpoint gate_clock (now : Time) (cs : list gcall) : Prop :=
  match cs with
  | [] => True
  | c :: cs =>
      let last := default (gc_store c) (gc_prune c) in
      now ≤ gc_check c ∧ gc_check c ≤ gc_store c ∧ gc_store c ≤ last ∧ gate_clock last cs
  end.

(** * The gate remembers every passage *)

(** The calls let through so far, the latest first. *)
Definition last_pass (key : string) (hist : list (string * Time)) : option Time :=
  snd <$> List.find (λ p, fst p =s? key) hist.

Definition recent (w : Duration) (key : string) (now : Time) (hist : list (string * Time)) : Prop :=
  ∃ t, (key, t) ∈ hist ∧ now - t < w.

Definition hist_sorted (hist : list (string * Time)) (now : Time) : Prop :=
  (∀ k t, (k, t) ∈ hist → t ≤ now) ∧
  ∀ k t t', last_pass k hist = Some t → (k, t') ∈ hist → t' ≤ t.

(** The table holds each key's last passage, up to entries that are too old to
    block anything any more. *)
Definition gate_ok (w : Duration) (m : table) (hist : list (string * Time)) (now : Time) : Prop :=
  ∀ k, m !! k = last_pass k hist ∨ (m !! k = None ∧ ∃ t, last_pass k hist = Some t ∧ w ≤ now - t).

Section gate.
Variable w : Duration.
Hypothesis Hw : 0 < w ≤ int64_max.

Lemma time_sub_ltb a b : (time_sub a b <? w) = (a - b <? w).
Proof using Hw.
  unfold time_sub, clamp64, int64_min, int64_max in *.
  destruct (Z.ltb_spec (a - b) w); [apply Z.ltb_lt|apply Z.ltb_ge]; lia.
Qed.

Lemma last_pass_elem k hist t : last_pass k hist = Some t → (k, t) ∈ hist.
Proof.
  unfold last_pass. destruct (List.find _ hist) as [[k' t']|] eqn:E; [|done]. cbn. intros [= <-].
  apply List.find_some in E as [Hin He%String.eqb_eq]. cbn in He. subst. by apply list_elem_of_In.
Qed.

Lemma last_pass_none k t hist : last_pass k hist = None → (k, t) ∉ hist.
Proof.
  unfold last_pass. destruct (List.find _ hist) as [|] eqn:E; [done|]. intros _ Hin%list_elem_of_In.
  apply (List.find_none _ _ E) in Hin. cbn in Hin. by rewrite String.eqb_refl in Hin.
Qed.

Lemma blocked_recent m hist key now t1 :
  gate_ok w m hist now → hist_sorted hist now → now ≤ t1 →
  blocked w m key t1 = true ↔ recent w key t1 hist.
Proof using Hw.
  intros Hok [_ Hs] Hle. unfold blocked, recent. destruct (Hok key) as [He|(He & t & Hl & Hold)]; rewrite He.
  - destruct (last_pass key hist) as [t|] eqn:Hl.
    + rewrite time_sub_ltb, Z.ltb_lt. split.
      * intros Hlt. exists t. split; [by apply last_pass_elem|done].
      * intros (t' & Hin & Hlt). pose proof (Hs _ _ _ Hl Hin). lia.
    + split; [done|]. intros (t & Hin & _). by eapply last_pass_none in Hin.
  - split; [done|]. intros (t' & Hin & Hlt). pose proof (Hs _ _ _ Hl Hin). lia.
Qed.

Lemma last_pass_cons k t k' hist :
  last_pass k' ((k, t) :: hist) = if k =s? k' then Some t else last_pass k' hist.
Proof. unfold last_pass. cbn. by destruct (k =s? k'). Qed.

Lemma gate_ok_store m hist now k t :
  gate_ok w m hist now → now ≤ t → gate_ok w (<[k := t]> m) ((k, t) :: hist) t.
Proof.
  intros Hok Hle k'. rewrite last_pass_cons. destruct (String.eqb_spec k k') as [->|Hne].
  - left. by rewrite lookup_insert_eq.
  - rewrite lookup_insert_ne by done. destruct (Hok k') as [?|(? & s & ? & ?)]; [by left|].
    right. split; [done|]. exists s. split; [done|lia].
Qed.

Lemma gate_ok_prune m hist now t :
  gate_ok w m hist now → now ≤ t → gate_ok w (prune w m t) hist t.
Proof.
  intros Hok Hle k. unfold prune. rewrite map_lookup_filter.
  destruct (Hok k) as [He|(He & s & Hl & Hold)]; rewrite He; cbn.
  - destruct (last_pass k hist) as [s|]; cbn; [|by left]. case_guard as Hg; cbn; [by left|].
    right. split; [done|]. exists s. split; [done|]. unfold time_before, time_add in Hg.
    destruct (Z.ltb_spec s (t + - w)); [lia|done].
  - right. split; [done|]. exists s. split; [done|lia].
Qed.

Lemma hist_sorted_cons hist now k t :
  hist_sorted hist now → now ≤ t → hist_sorted ((k, t) :: hist) t.
Proof.
  intros [H1 H2] Hle. split.
  - intros k' t' [[= -> ->]|Hin]%elem_of_cons; [lia|]. specialize (H1 _ _ Hin). lia.
  - intros k' s s'. rewrite last_pass_cons. destruct (String.eqb_spec k k') as [->|Hne].
    + intros [= ->] [[= ->]|Hin]%elem_of_cons; [lia|]. specialize (H1 _ _ Hin). lia.
    + intros Hl [[= -> ->]|Hin]%elem_of_cons; [done|]. by eapply H2.
Qed.

Lemma hist_sorted_le hist now t : hist_sorted hist now → now ≤ t → hist_sorted hist t.
Proof. intros [H1 H2] Hle. split; [|done]. intros k s Hin. specialize (H1 _ _ Hin). lia. Qed.

(** The gate without a table: a call is refused when an earlier call with its
    key was let through less than [w] ago. *)
Definition recentb (key : string) (now : Time) (hist : list (string * Time)) : bool :=
  existsb (λ '(k, t), (k =s? key) && (now - t <? w)) hist.

Fixpoint gate_ref (hist : list (string * Time)) (cs : list gcall) : list bool :=
  match cs with
  | [] => []
  | c :: cs =>
      let ok := negb (recentb (gc_key c) (gc_check c) hist) in
      ok :: gate_ref (if ok then (gc_key c, gc_store c) :: hist else hist) cs
  end.

Lemma recentb_iff key now hist : recentb key now hist = true ↔ recent w key now hist.
Proof.
  unfold recentb, recent. rewrite existsb_exists. split.
  - intros ([k t] & Hin & [->%String.eqb_eq Hlt%Z.ltb_lt]%andb_true_iff). exists t. by rewrite list_elem_of_In.
  - intros (t & Hin & Hlt). exists (key, t). rewrite <-list_elem_of_In. split; [done|].
    by rewrite String.eqb_refl, (proj2 (Z.ltb_lt _ _) Hlt).
Qed.

Lemma gate_run_ref m hist now cs :
  gate_ok w m hist now → hist_sorted hist now → gate_clock now cs →
  (gate_run w m cs).2 = gate_ref hist cs.
Proof using Hw.
  revert m hist now. induction cs as [|c cs IH]; intros m hist now Hok Hs Hc; [done|].
  destruct Hc as (H1 & H2 & H3 & Hc). cbn [gate_run gate_ref]. unfold gate_step.
  pose proof (blocked_recent m hist (gc_key c) now (gc_check c) Hok Hs H1) as Hb.
  rewrite <-recentb_iff in Hb. apply eq_true_iff_eq in Hb. rewrite <-Hb. set (last := default (gc_store c) (gc_prune c)) in *.
  destruct (blocked w m (gc_key c) (gc_check c)); cbn [negb].
  - rewrite <-(IH m hist last); [by destruct (gate_run w m cs)| | |done].
    + intros k. destruct (Hok k) as [?|(? & t & ? & ?)]; [by left|]. right. split; [done|]. exists t. split; [done|lia].
    + eapply hist_sorted_le; [done|lia].
  - set (m' := match gc_prune c with Some _ => _ | None => _ end).
    rewrite <-(IH m' _ last); [by destruct (gate_run w m' cs)| | |done].
    + assert (Hst : gate_ok w (<[gc_key c := gc_store c]> m) ((gc_key c, gc_store c) :: hist) (gc_store c))
        by (eapply gate_ok_store; [done|lia]).
      unfold m', last. destruct (gc_prune c); [by eapply gate_ok_prune|done].
    + eapply hist_sorted_le; [eapply hist_sorted_cons; [done|lia]|done].
Qed.

End gate.

Lemma gate_ok_empty w now : gate_ok w ∅ [] now.
Proof. intros k. left. by rewrite lookup_empty. Qed.

Lemma hist_sorted_nil now : hist_sorted [] now.
Proof. split; [by intros k t Hin%elem_of_nil|]. by intros k t t' ? Hin%elem_of_nil. Qed.

Lemma gate_run_exact w now cs :
  0 < w ≤ int64_max → gate_clock now cs → (gate_run w ∅ cs).2 = gate_ref w [] cs.
Proof. intros Hw. apply gate_run_ref; [done|apply gate_ok_empty|apply hist_sorted_nil]. Qed.
