(* ===== verification/Sensor.v ===== *)
(** [internal/sensor]: the events of the host, how the audit log is parsed into
    them, and what stands between a backend and the runner.

    The clock reading of a call is an argument.  A send into the channel of
    capacity [cap] is a step on its contents.  The loops of the backends are in
    [Sources]. *)
From S2P Require Export GoNet Gate.

Definition KindExec : string := "exec".
Definition KindOpenat : string := "openat".
Definition KindConnect : string := "connect".
Definition KindPtrace : string := "ptrace".
Definition KindInitModule : string := "init_module".
Definition KindMemfdCreate : string := "memfd_create".
Definition KindListen : string := "listen".
Definition KindSocket : string := "socket".
Definition KindSplice : string := "splice".

(** [sensor.Event]; a missing key of [Extra] reads as the empty string. *)
Record SEvent := mkSEvent {
  sn_Kind : string;
  sn_When : Time;
  sn_PID : Z;
  sn_PPID : Z;
  sn_UID : Z;
  sn_Comm : string;
  sn_Argv : list string;
  sn_Path : string;
  sn_RemoteIP : string;
  sn_RemotePort : Z;
  sn_SyscallNR : Z;
  sn_Extra : gmap string string
}.

#[export] Instance eta_SEvent : Eta SEvent := λ e,
  mkSEvent (sn_Kind e) (sn_When e) (sn_PID e) (sn_PPID e) (sn_UID e) (sn_Comm e) (sn_Argv e)
    (sn_Path e) (sn_RemoteIP e) (sn_RemotePort e) (sn_SyscallNR e) (sn_Extra e).

Definition zero_SEvent : SEvent := mkSEvent "" 0 0 0 0 "" [] "" "" 0 0 ∅.

Definition get (m : gmap string string) (k : string) : string := default "" (m !! k).

(** * The audit log *)

Definition syscallMap : list (Z * string) :=
  [(59, KindExec); (322, KindExec); (257, KindOpenat); (42, KindConnect); (101, KindPtrace);
   (175, KindInitModule); (313, KindInitModule); (319, KindMemfdCreate); (50, KindListen);
   (41, KindSocket); (275, KindSplice)].

Definition syscall_kind (nr : Z) : option string :=
  snd <$> List.find (λ p, fst p =? nr) syscallMap.

(** One [key=value] word of a record. *)
Definition audit_field (m : gmap string string) (part : string) : gmap string string :=
  match index_byte part "=" with
  | Some (S i) => <[stake (S i) part := trim (Ascii.eqb dquote) (sdrop (S (S i)) part)]> m
  | _ => m
  end.

Definition audit_fields (line : string) : gmap string string := fold_left audit_field (fields line) ∅.

(** The byte pairs of a dump; a last odd digit is not looked at. *)
Fixpoint hex_pairs (s : string) : option (list Z) :=
  match s with
  | String a (String b r) =>
      match parse_uint 16 8 (String a (str b)) with
      | (v, true) => cons v <$> hex_pairs r
      | _ => None
      end
  | _ => Some []
  end.

Definition decodeAuditAddr (hexAddr : string) : string :=
  if slen hexAddr <? 16 then ""
  else match hex_pairs hexAddr with
       | Some (0x02 :: _ :: _ :: _ :: a :: b :: c :: d :: _) => ip_String [a; b; c; d]
       | _ => ""
       end.

(** The stores of [parseAuditLine] after the event has been built, in order. *)
Definition put (k v : string) (e : SEvent) : SEvent := e <| sn_Extra := <[k := v]> (sn_Extra e) |>.

Definition set_exe (fs : gmap string string) (e : SEvent) : SEvent :=
  if get fs "exe" =s? "" then e else put "exe" (get fs "exe") (e <| sn_Path := get fs "exe" |>).

Definition set_name (fs : gmap string string) (e : SEvent) : SEvent :=
  if get fs "name" =s? "" then e
  else
    let e := put "path" (get fs "name") e in
    if (sn_Path e =s? "") || (sn_Kind e =s? KindOpenat) then e <| sn_Path := get fs "name" |> else e.

Definition set_cwd (fs : gmap string string) (e : SEvent) : SEvent :=
  if get fs "cwd" =s? "" then e
  else
    let e := put "cwd" (get fs "cwd") e in
    if (sn_Kind e =s? KindOpenat) && negb (sn_Path e =s? "") && negb (has_prefix (sn_Path e) "/") then
      let e := e <| sn_Path := trim_right (Ascii.eqb slash) (get fs "cwd") +:+ "/" +:+ sn_Path e |> in
      put "path" (sn_Path e) e
    else e.

Definition set_key (fs : gmap string string) (e : SEvent) : SEvent :=
  if get fs "key" =s? "" then e else put "key" (get fs "key") e.

Definition set_args (fs : gmap string string) (e : SEvent) : SEvent :=
  if (sn_Kind e =s? KindSocket) || (sn_Kind e =s? KindSplice) then
    fold_left (λ e k, if get fs k =s? "" then e else put k (get fs k) e)
      ["a0"; "a1"; "a2"; "a3"; "exit"; "success"] e
  else e.

Definition set_addr (fs : gmap string string) (e : SEvent) : SEvent :=
  if (sn_Kind e =s? KindConnect) && negb (get fs "addr" =s? "")
  then put "addr" (get fs "addr") e <| sn_RemoteIP := decodeAuditAddr (get fs "addr") |> else e.

Definition parseAuditLine (now : Time) (line : string) : option SEvent :=
  if negb (contains line "type=SYSCALL") then None
  else
    let fs := audit_fields line in
    let nr := fst (atoi (get fs "syscall")) in
    match syscall_kind nr with
    | None => None
    | Some kind =>
        let ev := mkSEvent kind now (fst (atoi (get fs "pid"))) (fst (atoi (get fs "ppid")))
                    (wrapu 32 (fst (parse_uint 10 32 (get fs "uid")))) (get fs "comm") [] "" "" 0 nr ∅ in
        Some (set_addr fs (set_args fs (set_key fs (set_cwd fs (set_name fs (set_exe fs ev))))))
    end.

Example parseAuditLine_sample :
  let line := "type=SYSCALL msg=audit(1:2): syscall=257 success=yes pid=42 ppid=1 uid=1000 comm=" +:+ str dquote +:+
              "cat" +:+ str dquote +:+ " exe=/bin/cat name=shadow cwd=/etc/" in
  (λ e, (sn_Kind e, sn_PID e, sn_Comm e, sn_Path e)) <$> parseAuditLine 5 line =
  Some (KindOpenat, 42, "cat", "/etc/shadow").
Proof. vm_compute. reflexivity. Qed.

(** * Back-pressure *)

Record Stats := mkStats { ss_ChannelDrop : Z; ss_RingbufOverrun : Z; ss_Emitted : Z }.

#[export] Instance eta_Stats : Eta Stats := λ s, mkStats (ss_ChannelDrop s) (ss_RingbufOverrun s) (ss_Emitted s).

(** A send that never blocks; [done] is a cancelled context.  When the context
    is done and the channel has room Go picks either case: [pick_done]. *)
Definition TryEmit (done pick_done : bool) (cap : nat) (st : Stats) (ch : list SEvent) (ev : SEvent)
  : Stats * list SEvent * bool :=
  let room := (length ch <? cap)%nat in
  if done && (pick_done || negb room) then (st, ch, false)
  else if room then (st <| ss_Emitted := wrapu 64 (ss_Emitted st + 1) |>, ch ++ [ev], true)
  else (st <| ss_ChannelDrop := wrapu 64 (ss_ChannelDrop st + 1) |>, ch, false).

Definition NoteRingbufOverrun (st : Stats) : Stats :=
  st <| ss_RingbufOverrun := wrapu 64 (ss_RingbufOverrun st + 1) |>.

(** * The debouncer *)

Record Debouncer := mkDebouncer { db_window : Duration; db_last : table }.

(** [None] is the nil debouncer, which lets everything through. *)
Definition NewDebouncer (window : Duration) : option Debouncer :=
  if window <=? 0 then None else Some (mkDebouncer window ∅).

Definition debounce_key (ev : SEvent) : string :=
  sn_Kind ev +:+ "|" +:+ itoa (sn_PID ev) +:+ "|" +:+ sn_Path ev +:+ "|" +:+ sn_Comm ev +:+ "|" +:+ sn_RemoteIP ev.

Definition Allow_event (d : option Debouncer) (ev : SEvent) (now : Time) : option Debouncer * bool :=
  match d with
  | None => (None, true)
  | Some d =>
      if blocked (db_window d) (db_last d) (debounce_key ev) now then (Some d, false)
      else
        let last := <[debounce_key ev := now]> (db_last d) in
        (Some (mkDebouncer (db_window d) (if 4096 <? Z.of_nat (size last) then prune (db_window d) last now else last)), true)
  end.

(** * Process polling *)

(** One tick: the pids that were not there at the last one. *)
Definition new_pids (prev cur : list Z) : list Z := List.filter (λ p, negb (existsb (Z.eqb p) prev)) cur.

Definition poll_event `{FileReader} (now : Time) (pid : Z) : SEvent :=
  mkSEvent KindExec now pid (fst (PPid pid)) 0 (fst (Procfs.Comm pid)) (fst (Cmdline pid)) "" "" 0 0 ∅.

(** A failed listing keeps the previous set. *)
Definition poll_tick `{FileReader} `{DirReader} (now : Time) (prev : list Z) : list Z * list SEvent :=
  match Processes with
  | (_, false) => (prev, [])
  | (pids, true) => (pids, map (poll_event now) (new_pids prev pids))
  end.

(** * Selecting a backend *)

(** [sensor.Open]: [ebpf] and [auditd] say whether the backend starts. *)
Inductive source := EBPF | Auditd | ProcPoll.

Definition Auto (ebpf auditd : result unit) : source :=
  if is_ok ebpf then EBPF else if is_ok auditd then Auditd else ProcPoll.

Definition Open (ebpf auditd : result unit) (backend : string) : result source :=
  let b := to_lower (trim_space backend) in
  if mem_str b [""; "auto"] then Ok (Auto ebpf auditd)
  else if b =s? "ebpf" then
    match ebpf with Ok _ => Ok EBPF | Err e => Err ("sensor.backend=ebpf: " +:+ e) end
  else if mem_str b ["auditd"; "audit"] then
    match auditd with Ok _ => Ok Auditd | Err e => Err ("sensor.backend=auditd: " +:+ e) end
  else if mem_str b ["proc-poll"; "procpoll"; "proc"] then Ok ProcPoll
  else Err ("unknown sensor.backend " +:+ backend +:+ " (want auto|ebpf|auditd|proc-poll)").

(** * Properties *)

(** The debouncer on a sequence of events. *)
Fixpoint debounce_run (d : option Debouncer) (calls : list (SEvent * Time)) : list bool :=
  match calls with
  | [] => []
  | (ev, now) :: calls => let '(d, ok) := Allow_event d ev now in ok :: debounce_run d calls
  end.

(** Debouncing, said without a table: an event is dropped when an earlier event
    of its kind, process, path, command and peer was let through less than the
    window ago. *)
Fixpoint debounce_ref (w : Duration) (hist : list (string * Time)) (calls : list (SEvent * Time)) : list bool :=
  match calls with
  | [] => []
  | (ev, now) :: calls =>
      let ok := negb (recentb w (debounce_key ev) now hist) in
      ok :: debounce_ref w (if ok then (debounce_key ev, now) :: hist else hist) calls
  end.

Fixpoint clock_ok (now : Time) (times : list Time) : Prop :=
  match times with [] => True | t :: times => now ≤ t ∧ clock_ok t times end.

Lemma debounce_run_gate w m now calls :
  clock_ok now (map snd calls) →
  ∃ cs, gate_clock now cs ∧ debounce_run (Some (mkDebouncer w m)) calls = (gate_run w m cs).2 ∧
        ∀ hist, debounce_ref w hist calls = gate_ref w hist cs.
Proof.
  revert m now. induction calls as [|[ev t] calls IH]; intros m now Hc; [by exists []|].
  destruct Hc as [H1 Hc]. set (key := debounce_key ev).
  set (c := mkGcall key t t (if blocked w m key t then None
                             else if 4096 <? Z.of_nat (size (<[key := t]> m)) then Some t else None)).
  destruct (IH (gate_step w m c).1 t Hc) as (cs & Hcl & Hrun & Href). exists (c :: cs).
  assert (Hlast : default (gc_store c) (gc_prune c) = t) by (cbn; by repeat case_match).
  split; [cbn [gate_clock]; rewrite Hlast; cbn; split_and!; (done || lia)|].
  split; [|intros hist; cbn [debounce_ref gate_ref gc_key gc_check gc_store c]; f_equal; apply Href].
  cbn [debounce_run gate_run]. unfold gate_step in *. cbn [gc_key gc_check gc_store gc_prune c] in *.
  unfold Allow_event. cbn [db_window db_last]. fold key.
  destruct (blocked w m key t).
  - cbn [fst] in Hrun. rewrite Hrun. by destruct (gate_run w m cs).
  - revert Hrun. cbn [fst].
    destruct (4096 <? Z.of_nat (size (<[key := t]> m))); cbn [fst]; intros ->; by destruct (gate_run w _ cs).
Qed.


Definition demo_ev (pid : Z) : SEvent := zero_SEvent <| sn_Kind := KindOpenat |> <| sn_PID := pid |>.


(** Sending never blocks and loses nothing silently: an event is appended to
    the channel, counted as dropped, or refused because the run is over. *)
Lemma TryEmit_cases done pick cap st ch ev st' ch' ok :
  TryEmit done pick cap st ch ev = (st', ch', ok) →
  if ok then ch' = ch ++ [ev] ∧ (length ch' ≤ cap)%nat ∧ ss_Emitted st' = wrapu 64 (ss_Emitted st + 1)
  else ch' = ch ∧ (done = true ∨ ss_ChannelDrop st' = wrapu 64 (ss_ChannelDrop st + 1)).
Proof.
  unfold TryEmit. destruct (Nat.ltb_spec (length ch) cap) as [Hlt|Hge].
  - destruct done, pick; cbn; intros [= <- <- <-]; cbn; rewrite ?length_app; cbn; auto; split_and!; (done || lia).
  - destruct done, pick; cbn; intros [= <- <- <-]; cbn; auto.
Qed.
