(* ===== verification/Limiter.v ===== *)
(** [internal/emit/limiter.go]: the per-rule sliding-window cap on events.

    [Allow] runs under the limiter's mutex and reads the clock once; the clock
    reading is an argument, and a run of the limiter is a sequence of calls. *)
From Stdlib Require Import Sorting.Sorted.
From S2P Require Export Prelude.

Record Limiter := mkLimiter {
  li_perMinute : Z;
  li_window : Duration;
  li_hits : gmap string (list Time);
  li_dropped : gmap string Z
}.

#[export] Instance eta_Limiter : Eta Limiter := λ l,
  mkLimiter (li_perMinute l) (li_window l) (li_hits l) (li_dropped l).

Definition NewLimiter (perMinute : Z) : Limiter := mkLimiter perMinute minute ∅ ∅.

(** The trimming loop: entries up to the first one after the cutoff are aged. *)
Fixpoint trim_aged (cutoff : Time) (buf : list Time) : list Time :=
  match buf with
  | [] => []
  | t :: r => if time_after t cutoff then buf else trim_aged cutoff r
  end.

Definition hits_of (l : Limiter) (ruleID : string) : list Time := default [] (li_hits l !! ruleID).
Definition dropped_of (l : Limiter) (ruleID : string) : Z := default 0 (li_dropped l !! ruleID).

Definition Allow (l : Limiter) (ruleID : string) (now : Time) : Limiter * bool :=
  if li_perMinute l <=? 0 then (l, true)
  else
    let cutoff := time_add now (- li_window l) in
    let buf := trim_aged cutoff (hits_of l ruleID) in
    if li_perMinute l <=? Z.of_nat (length buf) then
      (l <| li_hits := <[ruleID := buf]> (li_hits l) |>
         <| li_dropped := <[ruleID := wrap64 (dropped_of l ruleID + 1)]> (li_dropped l) |>, false)
    else (l <| li_hits := <[ruleID := buf ++ [now]]> (li_hits l) |>, true).

(** [Dropped] copies the map of counters. *)
Definition Dropped (l : Limiter) : gmap string Z := li_dropped l.

(** * Runs *)

Definition call : Type := string * Time.

(** The state after some calls, and what each call returned. *)
Fixpoint run (l : Limiter) (cs : list call) : Limiter * list bool :=
  match cs with
  | [] => (l, [])
  | (r, t) :: cs =>
      let '(l', ok) := Allow l r t in
      let '(l'', oks) := run l' cs in (l'', ok :: oks)
  end.

(** The times at which calls for [ruleID] were let through, oldest first. *)
Fixpoint accepted (ruleID : string) (cs : list call) (oks : list bool) : list Time :=
  match cs, oks with
  | (r, t) :: cs, ok :: oks =>
      if (r =s? ruleID) && ok then t :: accepted ruleID cs oks else accepted ruleID cs oks
  | _, _ => []
  end.

Definition refused (ruleID : string) (cs : list call) (oks : list bool) : Z :=
  Z.of_nat (length (List.filter (λ '(c, ok), (fst c =s? ruleID) && negb ok) (combine cs oks))).

(** Accepted calls in the half-open window that ends at [t]. *)
Definition within (w : Duration) (t : Time) (l : list Time) : Z :=
  Z.of_nat (length (List.filter (λ x, (t - w <? x) && (x <=? t)) l)).

(** The clock does not go backwards. *)
Definition monotone (cs : list call) : Prop := StronglySorted Z.le (map snd cs).

(** Concrete call sequences. *)
Ltac solve_monotone :=
  unfold monotone; cbn;
  repeat first [apply SSorted_nil | apply SSorted_cons | apply List.Forall_nil | apply List.Forall_cons]; lia.

(** * Lemmas *)

Lemma trim_aged_trim c c' l : c ≤ c' → trim_aged c' (trim_aged c l) = trim_aged c' l.
Proof.
  intros Hc. induction l as [|t l IH]; [done|]. cbn. unfold time_after in *.
  destruct (Z.ltb_spec c t); [done|]. rewrite IH. by destruct (Z.ltb_spec c' t); [lia|].
Qed.

Lemma trim_aged_sorted c l :
  StronglySorted Z.le l → trim_aged c l = List.filter (λ x, c <? x) l.
Proof.
  induction 1 as [|t l Hl IH Ht]; [done|]. cbn. unfold time_after.
  destruct (Z.ltb_spec c t); [|done]. f_equal. symmetry.
  clear -Ht H. induction Ht as [|x l Hx Hl IH]; [done|]. cbn.
  rewrite (proj2 (Z.ltb_lt c x)) by lia. by rewrite IH.
Qed.

Lemma Allow_keeps l r t :
  li_perMinute (Allow l r t).1 = li_perMinute l ∧ li_window (Allow l r t).1 = li_window l.
Proof. unfold Allow. by repeat case_match. Qed.

Lemma run_app l cs cs' :
  run l (cs ++ cs') = ((run (run l cs).1 cs').1, (run l cs).2 ++ (run (run l cs).1 cs').2).
Proof.
  revert l. induction cs as [|[r t] cs IH]; intros l; cbn; [by destruct (run l cs')|].
  destruct (Allow l r t) as [l' ok]. rewrite IH. destruct (run l' cs) as [l'' oks]. done.
Qed.

Lemma run_length l cs : length (run l cs).2 = length cs.
Proof.
  revert l. induction cs as [|[r t] cs IH]; intros l; [done|]. cbn.
  destruct (Allow l r t) as [l' ok]. specialize (IH l'). destruct (run l' cs); cbn in *. by f_equal.
Qed.

Lemma run_keeps l cs :
  li_perMinute (run l cs).1 = li_perMinute l ∧ li_window (run l cs).1 = li_window l.
Proof.
  revert l. induction cs as [|[r t] cs IH]; intros l; [done|]. cbn.
  pose proof (Allow_keeps l r t) as [H1 H2]. destruct (Allow l r t) as [l' ok]. specialize (IH l').
  destruct (run l' cs). cbn in *. destruct IH. split; congruence.
Qed.

Lemma accepted_app r cs oks cs' oks' :
  length cs = length oks →
  accepted r (cs ++ cs') (oks ++ oks') = accepted r cs oks ++ accepted r cs' oks'.
Proof.
  revert oks. induction cs as [|[x t] cs IH]; intros [|ok oks] Hl; try done. cbn.
  rewrite IH by (cbn in Hl; lia). by destruct (_ && _).
Qed.

Lemma accepted_sub r cs oks t : t ∈ accepted r cs oks → t ∈ map snd cs.
Proof.
  revert oks. induction cs as [|[x u] cs IH]; intros [|ok oks]; cbn; try (by intros ?%elem_of_nil).
  rewrite elem_of_cons. destruct (_ && _); [rewrite elem_of_cons|]; naive_solver.
Qed.

Lemma StronglySorted_snoc l t :
  StronglySorted Z.le (l ++ [t]) ↔ StronglySorted Z.le l ∧ Forall (λ x, x ≤ t) l.
Proof.
  induction l as [|a l IH]; cbn; [split; [split; constructor|repeat constructor]|].
  split.
  - intros H. inversion_clear H as [|? ? Hs Hf]. apply IH in Hs as [Hs Ht].
    apply Forall_app in Hf as [Hf Ha]. inversion_clear Ha.
    split; [by constructor|by constructor].
  - intros [Hs Hf]. inversion_clear Hs as [|? ? Hs' Ha]. inversion_clear Hf.
    constructor; [by apply IH|]. apply Forall_app; split; [done|by constructor].
Qed.

(** What the stored hits are: the accepted times, less some aged ones. *)
Definition hits_inv (l : Limiter) (r : string) (acc : list Time) (now : Time) : Prop :=
  ∃ c, c ≤ now - li_window l ∧ hits_of l r = trim_aged c acc.

Lemma Allow_decision l r acc now :
  0 < li_perMinute l → hits_inv l r acc now →
  (Allow l r now).2 =
    (Z.of_nat (length (trim_aged (now - li_window l) acc)) <? li_perMinute l).
Proof.
  intros Hn (c & Hc & Hh). unfold Allow. rewrite (proj2 (Z.leb_gt (li_perMinute l) 0)) by done.
  rewrite Hh. unfold time_add. rewrite trim_aged_trim by lia.
  replace (now + - li_window l) with (now - li_window l) by lia.
  destruct (Z.leb_spec (li_perMinute l) (Z.of_nat (length (trim_aged (now - li_window l) acc))));
    symmetry; [by apply Z.ltb_ge|by apply Z.ltb_lt].
Qed.

Lemma trim_aged_snoc c l t : c < t → trim_aged c (l ++ [t]) = trim_aged c l ++ [t].
Proof.
  intros Ht. induction l as [|x l IH]; cbn; unfold time_after in *.
  - by rewrite (proj2 (Z.ltb_lt c t)).
  - by destruct (c <? x).
Qed.

Lemma Allow_hits l r x acc now :
  0 < li_perMinute l → 0 < li_window l → hits_inv l r acc now →
  hits_inv (Allow l x now).1 r
    (if (x =s? r) && (Allow l x now).2 then acc ++ [now] else acc) now.
Proof.
  intros Hn Hw (c & Hc & Hh). destruct (Allow_keeps l x now) as [Hk1 Hk2].
  unfold hits_inv. rewrite Hk2. clear Hk1 Hk2.
  destruct (String.eqb_spec x r) as [->|Hne]; cbn [andb].
  - unfold Allow. rewrite (proj2 (Z.leb_gt (li_perMinute l) 0)) by done.
    rewrite Hh. unfold time_add. rewrite trim_aged_trim by lia.
    replace (now + - li_window l) with (now - li_window l) by lia.
    destruct (_ <=? _); unfold hits_of; cbn [fst snd li_hits upd]; cbn;
      rewrite lookup_insert_eq; cbn; (exists (now - li_window l); split; [done|]).
    + done.
    + by rewrite trim_aged_snoc by lia.
  - exists c. split; [done|]. rewrite <-Hh. unfold Allow, hits_of. repeat case_match; cbn;
      by rewrite ?lookup_insert_ne by done.
Qed.

(** The invariant along a run, with the clock at its last reading. *)
Lemma run_hits n cs r :
  0 < n → ∀ now, Forall (λ x, x ≤ now) (map snd cs) → monotone cs →
  hits_inv (run (NewLimiter n) cs).1 r (accepted r cs (run (NewLimiter n) cs).2) now.
Proof.
  intros Hn. induction cs as [|[x t] cs IH] using rev_ind; intros now Hle Hm.
  { exists (now - minute). split; [done|]. done. }
  unfold monotone in Hm. rewrite map_app in Hm, Hle. apply StronglySorted_snoc in Hm as [Hm Ht].
  apply Forall_app in Hle as [Hle Htn]. apply Forall_cons_1 in Htn as [Htn _]. cbn in Htn.
  rewrite run_app. cbn [fst snd]. destruct (run_keeps (NewLimiter n) cs) as [Hk1 Hk2].
  specialize (IH t Ht Hm). set (l := (run (NewLimiter n) cs).1) in *.
  rewrite accepted_app by (by rewrite run_length).
  pose proof (Allow_hits l r x _ t ltac:(by rewrite Hk1) ltac:(by rewrite Hk2) IH) as (c & Hc & Hh).
  destruct (Allow_keeps l x t) as [_ Hk3]. cbn [run].
  destruct (Allow l x t) as [l' ok]. cbn [fst snd accepted] in *.
  exists c. split; [lia|]. rewrite Hh. destruct (_ && _); [done|by rewrite app_nil_r].
Qed.

Lemma accepted_sorted r cs oks : monotone cs → StronglySorted Z.le (accepted r cs oks).
Proof.
  unfold monotone. revert oks. induction cs as [|[x t] cs IH]; intros [|ok oks] Hm; try constructor.
  cbn in *. inversion_clear Hm as [|? ? Hm' Ht]. destruct (_ && _); [|by apply IH].
  constructor; [by apply IH|]. apply Forall_forall. intros u Hu.
  apply list_elem_of_In, accepted_sub, list_elem_of_In in Hu. rewrite Forall_forall in Ht. by apply Ht.
Qed.

Lemma filter_le {A} (p q : A → bool) l :
  (∀ a, a ∈ l → p a = true → q a = true) →
  (length (List.filter p l) ≤ length (List.filter q l))%nat.
Proof.
  induction l as [|a l IH]; cbn; [done|]. intros H. specialize (IH (λ x Hx, H x (list_elem_of_further _ _ _ Hx))).
  destruct (p a) eqn:E; [rewrite (H a (list_elem_of_here _ _) E); cbn; lia|]. destruct (q a); cbn; lia.
Qed.

Lemma within_app w t l x :
  within w t (l ++ [x]) = within w t l + (if (t - w <? x) && (x <=? t) then 1 else 0).
Proof.
  unfold within. rewrite List.filter_app, length_app. cbn. case_match; cbn; lia.
Qed.

(** * Properties *)

(** The limiter decides exactly by the events it has let through: a call is
    allowed if and only if fewer than the cap were let through for its rule
    during the 60 seconds before it; no event is refused below the cap. *)
Theorem Allow_exact n cs r now :
  0 < n → monotone (cs ++ [(r, now)]) →
  let '(l, oks) := run (NewLimiter n) cs in
  (Allow l r now).2 = (within minute now (accepted r cs oks) <? n).
Proof.
  intros Hn Hm. unfold monotone in Hm. rewrite map_app in Hm. apply StronglySorted_snoc in Hm as [Hm Hle].
  cbn [snd] in Hle. pose proof (run_hits n cs r Hn now Hle Hm) as Hinv.
  destruct (run_keeps (NewLimiter n) cs) as [Hk1 Hk2].
  destruct (run (NewLimiter n) cs) as [l oks]. cbn [fst snd] in *.
  rewrite (Allow_decision l r _ now ltac:(by rewrite Hk1) Hinv), Hk1, Hk2. f_equal.
  unfold within. rewrite trim_aged_sorted by (by apply accepted_sorted). do 2 f_equal.
  apply List.filter_ext_in. intros x Hx. apply list_elem_of_In, accepted_sub, list_elem_of_In in Hx.
  rewrite Forall_forall in Hle. specialize (Hle x Hx). cbn in Hle.
  change (li_window (NewLimiter n)) with minute.
  rewrite (proj2 (Z.leb_le x now)) by done. by rewrite andb_true_r.
Qed.

Lemma Allow_exact_witness :
  let '(l, oks) := run (NewLimiter 1) [("R", 5)] in
  (Allow l "R" 7).2 = (within minute 7 (accepted "R" [("R", 5)] oks) <? 1).
Proof. apply (Allow_exact 1 [("R", 5)] "R" 7); [lia|]. solve_monotone. Defined.



(** The drop counters account for every refused event of every rule, until
    the 64-bit counter itself wraps. *)
Theorem Dropped_accounts n cs r :
  Z.of_nat (length cs) < 2 ^ 63 →
  let '(l, oks) := run (NewLimiter n) cs in
  default 0 (Dropped l !! r) = refused r cs oks.
Proof.
  intros Hlen. enough (H : default 0 (Dropped (run (NewLimiter n) cs).1 !! r)
                          = refused r cs (run (NewLimiter n) cs).2 ∧
                       refused r cs (run (NewLimiter n) cs).2 ≤ Z.of_nat (length cs)).
  { by destruct (run (NewLimiter n) cs), H. }
  induction cs as [|[x t] cs IH] using rev_ind; [done|].
  rewrite length_app in *. cbn [length] in *. destruct (IH ltac:(lia)) as [IH1 IH2]. clear IH.
  rewrite run_app. cbn [fst snd]. set (l := (run (NewLimiter n) cs).1) in *.
  assert (Href : ∀ ok, refused r (cs ++ [(x, t)]) ((run (NewLimiter n) cs).2 ++ [ok]) =
            refused r cs (run (NewLimiter n) cs).2 + (if (x =s? r) && negb ok then 1 else 0)).
  { intros ok. unfold refused. rewrite combine_snoc by (by rewrite run_length).
    rewrite List.filter_app, length_app. cbn [List.filter fst].
    rewrite Nat2Z.inj_add. f_equal. by destruct ((x =s? r) && negb ok). }
  assert (Hal : default 0 (Dropped (Allow l x t).1 !! r) =
            if (x =s? r) && negb (Allow l x t).2 then wrap64 (default 0 (Dropped l !! r) + 1)
            else default 0 (Dropped l !! r)).
  { unfold Allow, Dropped, dropped_of. destruct (_ <=? 0); [by rewrite andb_false_r|].
    destruct (_ <=? _); cbn; [|by rewrite andb_false_r]. rewrite andb_true_r.
    destruct (String.eqb_spec x r) as [->|]; [by rewrite lookup_insert_eq|by rewrite lookup_insert_ne]. }
  cbn [run]. destruct (Allow l x t) as [l' ok]. cbn [fst snd] in *. rewrite Href, Hal, IH1.
  destruct ((x =s? r) && negb ok); [|lia]. rewrite wrap64_id; [lia|].
  assert (0 ≤ refused r cs (run (NewLimiter n) cs).2) by (unfold refused; lia).
  unfold in64, int64_min, int64_max. lia.
Qed.

Lemma Dropped_accounts_witness :
  let '(l, oks) := run (NewLimiter 1) [("R", 5); ("R", 6)] in
  default 0 (Dropped l !! "R") = refused "R" [("R", 5); ("R", 6)] oks.
Proof. apply (Dropped_accounts 1 [("R", 5); ("R", 6)] "R"). vm_compute. reflexivity. Defined.
