(* ===== verification/Spool.v ===== *)
(** [internal/emit/spool.go]: the on-disk buffer of records that could not be
    delivered, with rotation.

    The directory holds the spool file and its [.old] copy.  Every system call
    can fail; which ones do is an argument of each operation, so that a theorem
    without a restriction on it covers every failure. *)
From S2P Require Export GoStrings.

(** The [*os.File] field: open for appending, closed, or nil. *)
Inductive handle := FOpen | FClosed | FNil.

#[export] Instance handle_eq_dec : EqDecision handle.
Proof. solve_decision. Defined.

Record Spool := mkSpool {
  sp_file : option string;  (* events.ndjson *)
  sp_old : option string;   (* events.ndjson.old *)
  sp_maxBytes : Z;
  sp_f : handle
}.

#[export] Instance eta_Spool : Eta Spool := λ s,
  mkSpool (sp_file s) (sp_old s) (sp_maxBytes s) (sp_f s).

(** Failures of one call; a failed [Write] has written some bytes. *)
Record Faults := mkFaults {
  ft_stat : bool;
  ft_remove : bool;
  ft_rename : bool;
  ft_open : bool;
  ft_close : bool;
  ft_read : bool;
  ft_truncate : bool;
  ft_write : option nat;
  ft_write_nl : option nat
}.

Definition no_faults : Faults :=
  mkFaults false false false false false false false None None.

(** [os.OpenFile] with [O_CREATE|O_APPEND]. *)
Definition open_append (s : Spool) : Spool :=
  s <| sp_file := Some (default "" (sp_file s)) |> <| sp_f := FOpen |>.

Definition NewSpool (mkdir_fails open_fails : bool) (dir : string) (maxBytes : Z)
  (file old : option string) : result Spool :=
  if dir =s? "" then Err "spool dir required"
  else if mkdir_fails then Err "mkdir"
  else if open_fails then Err "open"
  else Ok (open_append (mkSpool file old maxBytes FNil)).

(** [s.f.Write]: the error is whether all bytes were written. *)
Definition write (s : Spool) (fault : option nat) (bytes : string) : Spool * bool :=
  if bool_decide (sp_f s = FOpen) then
    match fault with
    | None => (s <| sp_file := Some (default "" (sp_file s) +:+ bytes) |>, true)
    | Some k => (s <| sp_file := Some (default "" (sp_file s) +:+ stake k bytes) |>, false)
    end
  else (s, false).

Definition rotateIfNeeded (ft : Faults) (s : Spool) (incoming : Z) : Spool * bool :=
  if sp_maxBytes s <=? 0 then (s, true)
  else if ft_stat ft || negb (bool_decide (sp_f s = FOpen)) then (s, false)
  else if slen (default "" (sp_file s)) + incoming <? sp_maxBytes s then (s, true)
  else
    let s := s <| sp_f := FClosed |> in
    let s := if ft_remove ft then s else s <| sp_old := None |> in
    match sp_file s with
    | None => (s, false)
    | Some data =>
        if ft_rename ft then (s, false)
        else
          let s := s <| sp_old := Some data |> <| sp_file := None |> in
          if ft_open ft then (s, false) else (open_append s, true)
    end.

(** The boolean is whether the returned error is nil. *)
Definition Append (ft : Faults) (s : Spool) (line : string) : Spool * bool :=
  if bool_decide (sp_f s = FNil) then (s, true)
  else
    let '(s, ok) := rotateIfNeeded ft s (slen line + 1) in
    if negb ok then (s, false)
    else
      let '(s, ok) := write s (ft_write ft) line in
      if negb ok then (s, false) else write s (ft_write_nl ft) (str nl).

(** The splitting loop of [Drain]; [cur] is [data[start:i]]. *)
Fixpoint drain_lines (data cur : string) : list string :=
  match data with
  | "" => []
  | String c r =>
      if Ascii.eqb c nl then
        if cur =s? "" then drain_lines r "" else cur :: drain_lines r ""
      else drain_lines r (cur +:+ str c)
  end.

Definition Drain (ft : Faults) (s : Spool) : Spool * result (list string) :=
  if ft_close ft || negb (bool_decide (sp_f s = FOpen)) then
    (if bool_decide (sp_f s = FNil) then s else s <| sp_f := FClosed |>, Err "close")
  else
    let s := s <| sp_f := FClosed |> in
    match sp_file s with
    | None => (s, Err "read")
    | Some data =>
        if ft_read ft then (s, Err "read")
        else if ft_truncate ft then (s, Err "truncate")
        else
          let s := s <| sp_file := Some "" |> in
          if ft_open ft then (s, Err "open")
          else (open_append s, Ok (drain_lines data ""))
    end.

Definition Close (ft : Faults) (s : Spool) : Spool * bool :=
  if bool_decide (sp_f s = FNil) then (s, true)
  else (s <| sp_f := FNil |>, negb (ft_close ft) && bool_decide (sp_f s = FOpen)).

(** [Age], from what [os.Stat] gives for the modification time. *)
Definition Age (mtime : option Time) (now : Time) : Duration :=
  match mtime with None => 0 | Some t => time_sub now t end.

(** * Lemmas *)

#[local] Arguments String.append : simpl nomatch.

Definition line_ok (l : string) : Prop := sforall (λ c, negb (Ascii.eqb c nl)) l = true.

(** The contents of the file after some records. *)
Fixpoint stored (ls : list string) : string :=
  match ls with [] => "" | l :: ls => l +:+ str nl +:+ stored ls end.

Lemma stored_snoc ls l : stored (ls ++ [l]) = stored ls +:+ l +:+ str nl.
Proof. induction ls as [|x ls IH]; [done|]. cbn [app stored]. by rewrite IH, !append_assoc. Qed.

Definition nonempty (l : string) : bool := negb (l =s? "").

Lemma drain_line l cur rest :
  line_ok l → cur +:+ l ≠ "" →
  drain_lines (l +:+ str nl +:+ rest) cur = (cur +:+ l) :: drain_lines rest "".
Proof.
  unfold line_ok. revert cur. induction l as [|c l IH]; intros cur Hl Hne.
  - rewrite append_nil_r in *. change ("" +:+ str nl +:+ rest) with (String nl rest).
    cbn [drain_lines]. change (Ascii.eqb nl nl) with true. cbv iota.
    by rewrite (proj2 (String.eqb_neq _ _) Hne).
  - cbn [sforall] in Hl. apply andb_true_iff in Hl as [Hc Hl]. apply negb_true_iff in Hc.
    change (String c l +:+ str nl +:+ rest) with (String c (l +:+ str nl +:+ rest)).
    cbn [drain_lines]. rewrite Hc.
    assert (Hcl : cur +:+ String c l = (cur +:+ str c) +:+ l) by by rewrite append_assoc.
    rewrite Hcl in *. by apply IH.
Qed.

Lemma drain_stored ls : Forall line_ok ls → drain_lines (stored ls) "" = List.filter nonempty ls.
Proof.
  induction 1 as [|l ls Hl Hls IH]; [done|]. cbn [stored List.filter]. unfold nonempty at 1.
  destruct (String.eqb_spec l "") as [->|Hne]; cbn [negb].
  - by rewrite <-IH.
  - rewrite drain_line by done. by rewrite IH.
Qed.

(** A spool whose file holds exactly the records [ls]. *)
Definition holds (s : Spool) (ls : list string) : Prop :=
  sp_f s = FOpen ∧ sp_file s = Some (stored ls).

Lemma Append_no_faults s ls l :
  holds s ls →
  ∃ s', Append no_faults s l = (s', true) ∧ sp_maxBytes s' = sp_maxBytes s ∧
    (holds s' (ls ++ [l]) ∧ sp_old s' = sp_old s ∧
       (0 < sp_maxBytes s → slen (stored ls) + slen l + 1 < sp_maxBytes s) ∨
     holds s' [l] ∧ sp_old s' = Some (stored ls) ∧ 0 < sp_maxBytes s).
Proof.
  destruct s as [f o m h]. intros [Hf Hfile]. cbn in Hf, Hfile. subst.
  unfold Append, rotateIfNeeded. cbn. destruct (Z.leb_spec m 0) as [Hm|Hm].
  - cbn. eexists. split; [done|]. split; [done|]. left. unfold holds; cbn.
    rewrite stored_snoc, append_assoc. split_and!; first [done|lia].
  - cbn. destruct (Z.ltb_spec (slen (stored ls) + (slen l + 1)) m) as [Hlt|Hge]; cbn.
    + eexists. split; [done|]. split; [done|]. left. unfold holds; cbn.
      rewrite stored_snoc, append_assoc. split_and!; first [done|lia].
    + eexists. split; [done|]. split; [done|]. right.
      unfold holds; cbn. by split_and!.
Qed.

Fixpoint append_all (s : Spool) (ls : list string) : Spool :=
  match ls with [] => s | l :: ls => append_all (Append no_faults s l).1 ls end.

Lemma append_all_snoc s ls l : append_all s (ls ++ [l]) = (Append no_faults (append_all s ls) l).1.
Proof. revert s. induction ls as [|x ls IH]; intros s; [done|]. apply IH. Qed.

Lemma append_all_app s a b : append_all s (a ++ b) = append_all (append_all s a) b.
Proof. revert s. induction a as [|x a IH]; intros s; [done|]. apply IH. Qed.

(** Appending to a spool: it holds a suffix of everything, and everything
    without a limit. *)
Lemma append_all_holds s ls0 ls :
  holds s ls0 →
  ∃ k, (sp_maxBytes s ≤ 0 → k = O) ∧ (k ≤ length (ls0 ++ ls))%nat ∧
    holds (append_all s ls) (drop k (ls0 ++ ls)) ∧ sp_maxBytes (append_all s ls) = sp_maxBytes s.
Proof.
  intros H0. induction ls as [|l ls IH] using rev_ind.
  { exists O. rewrite app_nil_r. split_and!; first [done|lia]. }
  destruct IH as (k & Hk & Hkl & Hh & Hm). rewrite append_all_snoc, app_assoc, length_app.
  destruct (Append_no_faults _ _ l Hh) as (s' & Hs' & Hm' & [(Hh' & _)|(Hh' & _ & Hpos)]); rewrite Hs'; cbn.
  - exists k. split; [done|]. split; [lia|]. rewrite drop_app_le by lia. split; [done|congruence].
  - exists (length (ls0 ++ ls)). split; [lia|]. split; [lia|]. rewrite drop_app_length.
    split; [done|congruence].
Qed.

Lemma Drain_holds s ls :
  Forall line_ok ls → holds s ls →
  Drain no_faults s = (s <| sp_file := Some "" |> <| sp_f := FOpen |>, Ok (List.filter nonempty ls)).
Proof.
  intros Hok [Hf Hfile]. destruct s as [f o m h]. cbn in Hf, Hfile. subst. unfold Drain. cbn. by rewrite drain_stored.
Qed.

(** * Properties *)

(** C35: On a disk without errors the spool file always holds a suffix of the
    records appended, complete and in order, and draining returns exactly the
    non-empty ones of them and leaves the file empty; without a size limit the
    suffix is everything. *)
Theorem Spool_roundtrip ls max s :
  Forall line_ok ls → NewSpool false false "spool" max None None = Ok s →
  ∃ k, (max ≤ 0 → k = O) ∧
    Drain no_faults (append_all s ls) =
      ((append_all s ls) <| sp_file := Some "" |> <| sp_f := FOpen |>,
       Ok (List.filter nonempty (drop k ls))).
Proof.
  intros Hok [= <-].
  destruct (append_all_holds (open_append (mkSpool None None max FNil)) [] ls) as (k & Hk & _ & Hh & _); [done|].
  exists k. split; [done|]. by apply Drain_holds; [apply Forall_drop|].
Qed.

Lemma Spool_roundtrip_witness :
  ∃ k, (10 ≤ 0 → k = O) ∧
    Drain no_faults (append_all (mkSpool (Some "") None 10 FOpen) ["aaa"; "bb"; "cccc"]) =
      ((append_all (mkSpool (Some "") None 10 FOpen) ["aaa"; "bb"; "cccc"])
         <| sp_file := Some "" |> <| sp_f := FOpen |>,
       Ok (List.filter nonempty (drop k ["aaa"; "bb"; "cccc"]))).
Proof. apply (Spool_roundtrip ["aaa"; "bb"; "cccc"] 10); [|reflexivity]. repeat constructor. Defined.

(** The disk use is bounded: whatever fails, after a successful append to a
    spool with a size limit, the file is smaller than the limit or holds that
    record alone. *)
Theorem Append_bounded ft s l s' :
  0 < sp_maxBytes s → sp_f s ≠ FNil → Append ft s l = (s', true) →
  slen (default "" (sp_file s')) < sp_maxBytes s' ∨ sp_file s' = Some (l +:+ str nl).
Proof.
  assert (Hlen : ∀ a b, slen (a +:+ b) = slen a + slen b)
    by (intros; unfold slen; rewrite length_append; lia).
  destruct s as [f o m h]. cbn. intros Hm Hnil. unfold Append, rotateIfNeeded. cbn.
  rewrite bool_decide_false by done. rewrite (proj2 (Z.leb_gt _ _) Hm).
  destruct (ft_stat ft); [done|]. destruct h; [|done|done]. cbn.
  destruct (Z.ltb_spec (slen (default "" f) + (slen l + 1)) m) as [Hlt|Hge]; cbn.
  - destruct (ft_write ft); [done|]. cbn. destruct (ft_write_nl ft); [done|]. intros [= <-]. left. cbn.
    rewrite !Hlen. change (slen (str nl)) with 1. lia.
  - destruct (ft_remove ft); cbn; (destruct f; [|done]); (destruct (ft_rename ft); [done|]);
      cbn; (destruct (ft_open ft); [done|]); cbn; (destruct (ft_write ft); [done|]); cbn;
      (destruct (ft_write_nl ft); [done|]); intros [= <-]; by right.
Qed.

Lemma Append_bounded_witness :
  slen "x;" < 3 ∨ Some "y
" = Some ("y" +:+ str nl).
Proof.
  destruct (Append_bounded no_faults (mkSpool (Some "xx") None 3 FOpen) "y"
    (mkSpool (Some ("y" +:+ str nl)) (Some "xx") 3 FOpen)) as [H|H];
    [reflexivity|discriminate|reflexivity|left; reflexivity|right; reflexivity].
Defined.

(** A rotation that fails after the file was closed wedges the spool: every
    later append and drain reports an error and stores nothing, until the
    spool is reopened. *)
Theorem failed_rotation_wedges ft ft' ft'' s l l' s1 :
  0 < sp_maxBytes s → sp_f s = FOpen → ft_stat ft = false →
  sp_maxBytes s ≤ slen (default "" (sp_file s)) + slen l + 1 →
  ft_rename ft = true → Append ft s l = (s1, false) →
  Append ft' s1 l' = (s1, false) ∧ (Drain ft'' s1).2 = Err "close" ∧ (Drain ft'' s1).1 = s1.
Proof.
  assert (Hclosed : ∀ f o m, 0 < m → let t := mkSpool f o m FClosed in
            Append ft' t l' = (t, false) ∧ (Drain ft'' t).2 = Err "close" ∧ (Drain ft'' t).1 = t).
  { intros f o m Hm t. unfold t, Append, rotateIfNeeded, Drain. cbn.
    rewrite (proj2 (Z.leb_gt _ _) Hm). by rewrite !orb_true_r. }
  destruct s as [f o m h]. cbn. intros Hm -> Hst Hfull Hren.
  unfold Append at 1, rotateIfNeeded. cbn. rewrite Hst, Hren.
  rewrite (proj2 (Z.leb_gt _ _) Hm). cbn. rewrite (proj2 (Z.ltb_ge _ _)) by lia. cbn.
  destruct (ft_remove ft); cbn; destruct f; intros [= <-]; by apply Hclosed.
Qed.

Lemma failed_rotation_wedges_witness :
  let ft := mkFaults false false true false false false false None None in
  let s1 := mkSpool (Some "xx") None 3 FClosed in
  Append no_faults s1 "z" = (s1, false) ∧ (Drain no_faults s1).2 = Err "close" ∧
  (Drain no_faults s1).1 = s1.
Proof.
  intros ft s1.
  apply (failed_rotation_wedges ft no_faults no_faults (mkSpool (Some "xx") None 3 FOpen) "y" "z" s1);
    vm_compute; (reflexivity || discriminate).
Defined.
