(* ===== verification/Config.v ===== *)
(** [internal/config]: the agent's configuration, its defaults, loading and
    validation.

    [yaml.Unmarshal] into a pre-filled configuration is a parameter of [Load]:
    it maps the bytes of the file and the defaults to the decoded value. *)
From S2P Require Export Rules.

Record SuddenRootConfig := mkSuddenRootConfig {
  sr_Enabled : bool;
  sr_SnapshotInterval : Duration;
  sr_AllowedExeBasenames : list string;
  sr_AllowedAncestorComms : list string
}.

#[export] Instance eta_SuddenRootConfig : Eta SuddenRootConfig := λ c,
  mkSuddenRootConfig
    (sr_Enabled c) (sr_SnapshotInterval c) (sr_AllowedExeBasenames c) (sr_AllowedAncestorComms
    c).

Definition zero_SuddenRootConfig : SuddenRootConfig :=
  mkSuddenRootConfig
    false 0 [] [].

Record SensorConfig := mkSensorConfig {
  se_Backend : string;
  se_DebounceMS : Z
}.

#[export] Instance eta_SensorConfig : Eta SensorConfig := λ c,
  mkSensorConfig
    (se_Backend c) (se_DebounceMS c).

Definition zero_SensorConfig : SensorConfig :=
  mkSensorConfig
    "" 0.

Record ResponseConfig := mkResponseConfig {
  rp_Enabled : bool;
  rp_Mode : string;
  rp_KillSwitch : bool;
  rp_MinConfidence : Z;
  rp_MinSeverity : string;
  rp_AllowQuarantine : bool;
  rp_AllowKillProcess : bool;
  rp_AllowIsolateHost : bool;
  rp_ProtectedComms : list string;
  rp_ProtectedPIDs : list Z;
  rp_IsolationAllowlistCIDRs : list string;
  rp_RateLimitPerActionPerMin : Z;
  rp_RequireRoot : bool
}.

#[export] Instance eta_ResponseConfig : Eta ResponseConfig := λ c,
  mkResponseConfig
    (rp_Enabled c) (rp_Mode c) (rp_KillSwitch c) (rp_MinConfidence c) (rp_MinSeverity c)
    (rp_AllowQuarantine c) (rp_AllowKillProcess c) (rp_AllowIsolateHost c) (rp_ProtectedComms c)
    (rp_ProtectedPIDs c) (rp_IsolationAllowlistCIDRs c) (rp_RateLimitPerActionPerMin c)
    (rp_RequireRoot c).

Definition zero_ResponseConfig : ResponseConfig :=
  mkResponseConfig
    false "" false 0 "" false false false [] [] [] 0 false.

Record CopyFailConfig := mkCopyFailConfig {
  cf_Enabled : bool;
  cf_PageCacheCheckEnabled : bool;
  cf_AllowedCommExtras : list string;
  cf_TargetSUIDBinaries : list string
}.

#[export] Instance eta_CopyFailConfig : Eta CopyFailConfig := λ c,
  mkCopyFailConfig
    (cf_Enabled c) (cf_PageCacheCheckEnabled c) (cf_AllowedCommExtras c) (cf_TargetSUIDBinaries
    c).

Definition zero_CopyFailConfig : CopyFailConfig :=
  mkCopyFailConfig
    false false [] [].

Record SyslogTCPConfig := mkSyslogTCPConfig {
  st_Enabled : bool;
  st_Host : string;
  st_Port : Z;
  st_TLS : bool;
  st_TLSCACertFile : string;
  st_TLSServerName : string;
  st_Format : string;
  st_Facility : string;
  st_AppName : string;
  st_Hostname : string;
  st_ProcID : string;
  st_MaxMsgBytes : Z
}.

#[export] Instance eta_SyslogTCPConfig : Eta SyslogTCPConfig := λ c,
  mkSyslogTCPConfig
    (st_Enabled c) (st_Host c) (st_Port c) (st_TLS c) (st_TLSCACertFile c) (st_TLSServerName c)
    (st_Format c) (st_Facility c) (st_AppName c) (st_Hostname c) (st_ProcID c) (st_MaxMsgBytes
    c).

Definition zero_SyslogTCPConfig : SyslogTCPConfig :=
  mkSyslogTCPConfig
    false "" 0 false "" "" "" "" "" "" "" 0.

Record SplunkHECConfig := mkSplunkHECConfig {
  sh_Enabled : bool;
  sh_URL : string;
  sh_Token : string;
  sh_Index : string;
  sh_SourceType : string;
  sh_Insecure : bool
}.

#[export] Instance eta_SplunkHECConfig : Eta SplunkHECConfig := λ c,
  mkSplunkHECConfig
    (sh_Enabled c) (sh_URL c) (sh_Token c) (sh_Index c) (sh_SourceType c) (sh_Insecure c).

Definition zero_SplunkHECConfig : SplunkHECConfig :=
  mkSplunkHECConfig
    false "" "" "" "" false.

Record ElasticBulkConfig := mkElasticBulkConfig {
  eb_Enabled : bool;
  eb_URL : string;
  eb_Index : string;
  eb_APIKey : string;
  eb_Username : string;
  eb_Password : string;
  eb_Insecure : bool
}.

#[export] Instance eta_ElasticBulkConfig : Eta ElasticBulkConfig := λ c,
  mkElasticBulkConfig
    (eb_Enabled c) (eb_URL c) (eb_Index c) (eb_APIKey c) (eb_Username c) (eb_Password c)
    (eb_Insecure c).

Definition zero_ElasticBulkConfig : ElasticBulkConfig :=
  mkElasticBulkConfig
    false "" "" "" "" "" false.

Record LokiPushConfig := mkLokiPushConfig {
  lk_Enabled : bool;
  lk_URL : string;
  lk_Labels : gmap string string;
  lk_Username : string;
  lk_Password : string;
  lk_Insecure : bool
}.

#[export] Instance eta_LokiPushConfig : Eta LokiPushConfig := λ c,
  mkLokiPushConfig
    (lk_Enabled c) (lk_URL c) (lk_Labels c) (lk_Username c) (lk_Password c) (lk_Insecure c).

Definition zero_LokiPushConfig : LokiPushConfig :=
  mkLokiPushConfig
    false "" ∅ "" "" false.

Record SelfGuardConfig := mkSelfGuardConfig {
  sg_Enabled : bool;
  sg_BinaryPath : string;
  sg_ExpectedBinarySHA256 : string;
  sg_SystemdWatchdog : bool
}.

#[export] Instance eta_SelfGuardConfig : Eta SelfGuardConfig := λ c,
  mkSelfGuardConfig
    (sg_Enabled c) (sg_BinaryPath c) (sg_ExpectedBinarySHA256 c) (sg_SystemdWatchdog c).

Definition zero_SelfGuardConfig : SelfGuardConfig :=
  mkSelfGuardConfig
    false "" "" false.

Record SyslogUDPConfig := mkSyslogUDPConfig {
  su_Enabled : bool;
  su_Host : string;
  su_Port : Z;
  su_Format : string;
  su_Facility : string;
  su_AppName : string;
  su_Hostname : string;
  su_ProcID : string;
  su_MaxMsgBytes : Z
}.

#[export] Instance eta_SyslogUDPConfig : Eta SyslogUDPConfig := λ c,
  mkSyslogUDPConfig
    (su_Enabled c) (su_Host c) (su_Port c) (su_Format c) (su_Facility c) (su_AppName c)
    (su_Hostname c) (su_ProcID c) (su_MaxMsgBytes c).

Definition zero_SyslogUDPConfig : SyslogUDPConfig :=
  mkSyslogUDPConfig
    false "" 0 "" "" "" "" "" 0.

Record Config := mkConfig {
  cfg_ScanInterval : Duration;
  cfg_DocumentRoots : list string;
  cfg_BaselinePath : string;
  cfg_RulePackPath : string;
  cfg_StateDir : string;
  cfg_MinConfidenceAlert : Z;
  cfg_LearningMode : bool;
  cfg_RequireRoot : bool;
  cfg_WebRecentDays : Z;
  cfg_PathAllowlist : list string;
  cfg_LDPreloadAllowlist : list string;
  cfg_TargetProcessNames : list string;
  cfg_FirstRunAllowAlerts : bool;
  cfg_MapsScanEnabled : bool;
  cfg_MapsWatchProcesses : list string;
  cfg_MapsPathAllowlist : list string;
  cfg_IntegrityVerifyEnabled : bool;
  cfg_IntegrityScanInterval : Duration;
  cfg_IntegrityPaths : list string;
  cfg_WebReconChildScanEnabled : bool;
  cfg_WatchAuthorizedKeys : bool;
  cfg_WatchDebounce : Duration;
  cfg_WatchSensitivePaths : bool;
  cfg_NetworkScanEnabled : bool;
  cfg_NetworkScanInterval : Duration;
  cfg_NetworkAllowlist : list string;
  cfg_IOCFeedHashFiles : list string;
  cfg_IOCFeedIPFiles : list string;
  cfg_IOCFeedDomainFiles : list string;
  cfg_RateLimitPerRulePerMin : Z;
  cfg_SpoolDir : string;
  cfg_SpoolMaxBytes : Z;
  cfg_RulePackPubKey : string;
  cfg_RulePackSigPath : string;
  cfg_SigmaLiteDir : string;
  cfg_AncestryScanEnabled : bool;
  cfg_YARARulesDir : string;
  cfg_YARAMemoryEnabled : bool;
  cfg_QuarantineDir : string;
  cfg_QuarantineMinConfidence : Z;
  cfg_BaselineCommitTokenEnv : string;
  cfg_SyslogUDP : SyslogUDPConfig;
  cfg_SyslogTCP : SyslogTCPConfig;
  cfg_SplunkHEC : SplunkHECConfig;
  cfg_ElasticBulk : ElasticBulkConfig;
  cfg_LokiPush : LokiPushConfig;
  cfg_SelfGuard : SelfGuardConfig;
  cfg_CopyFail : CopyFailConfig;
  cfg_SuddenRoot : SuddenRootConfig;
  cfg_Sensor : SensorConfig;
  cfg_Respond : ResponseConfig;
  cfg_MappingPath : string;
  cfg_WatchedUnits : list string;
  cfg_FPAllowlistUnits : list string
}.

#[export] Instance eta_Config : Eta Config := λ c,
  mkConfig
    (cfg_ScanInterval c) (cfg_DocumentRoots c) (cfg_BaselinePath c) (cfg_RulePackPath c)
    (cfg_StateDir c) (cfg_MinConfidenceAlert c) (cfg_LearningMode c) (cfg_RequireRoot c)
    (cfg_WebRecentDays c) (cfg_PathAllowlist c) (cfg_LDPreloadAllowlist c)
    (cfg_TargetProcessNames c) (cfg_FirstRunAllowAlerts c) (cfg_MapsScanEnabled c)
    (cfg_MapsWatchProcesses c) (cfg_MapsPathAllowlist c) (cfg_IntegrityVerifyEnabled c)
    (cfg_IntegrityScanInterval c) (cfg_IntegrityPaths c) (cfg_WebReconChildScanEnabled c)
    (cfg_WatchAuthorizedKeys c) (cfg_WatchDebounce c) (cfg_WatchSensitivePaths c)
    (cfg_NetworkScanEnabled c) (cfg_NetworkScanInterval c) (cfg_NetworkAllowlist c)
    (cfg_IOCFeedHashFiles c) (cfg_IOCFeedIPFiles c) (cfg_IOCFeedDomainFiles c)
    (cfg_RateLimitPerRulePerMin c) (cfg_SpoolDir c) (cfg_SpoolMaxBytes c) (cfg_RulePackPubKey c)
    (cfg_RulePackSigPath c) (cfg_SigmaLiteDir c) (cfg_AncestryScanEnabled c) (cfg_YARARulesDir
    c) (cfg_YARAMemoryEnabled c) (cfg_QuarantineDir c) (cfg_QuarantineMinConfidence c)
    (cfg_BaselineCommitTokenEnv c) (cfg_SyslogUDP c) (cfg_SyslogTCP c) (cfg_SplunkHEC c)
    (cfg_ElasticBulk c) (cfg_LokiPush c) (cfg_SelfGuard c) (cfg_CopyFail c) (cfg_SuddenRoot c)
    (cfg_Sensor c) (cfg_Respond c) (cfg_MappingPath c) (cfg_WatchedUnits c)
    (cfg_FPAllowlistUnits c).

Definition zero_Config : Config :=
  mkConfig
    0 [] "" "" "" 0 false false 0 [] [] [] false false [] [] false 0 [] false false 0 false
    false 0 [] [] [] [] 0 "" 0 "" "" "" false "" false "" 0 "" zero_SyslogUDPConfig
    zero_SyslogTCPConfig zero_SplunkHECConfig zero_ElasticBulkConfig zero_LokiPushConfig
    zero_SelfGuardConfig zero_CopyFailConfig zero_SuddenRootConfig zero_SensorConfig
    zero_ResponseConfig "" [] [].

Definition Default : Config :=
  zero_Config
    <| cfg_ScanInterval := 5 * minute |>
    <| cfg_BaselinePath := "/var/lib/ghostcatcher/baseline.json" |>
    <| cfg_RulePackPath := "/etc/ghostcatcher/rule_pack.yaml" |>
    <| cfg_StateDir := "/var/lib/ghostcatcher" |>
    <| cfg_MinConfidenceAlert := 70 |>
    <| cfg_WebRecentDays := 14 |>
    <| cfg_PathAllowlist := ["/usr/share/nginx/html/"; "/var/www/html/vendor/"] |>
    <| cfg_LDPreloadAllowlist := [] |>
    <| cfg_TargetProcessNames := ["nginx"; "apache2"; "httpd"; "sshd"; "cron"; "CRON"] |>
    <| cfg_FirstRunAllowAlerts := false |>
    <| cfg_MapsScanEnabled := false |>
    <| cfg_MapsWatchProcesses := ["nginx"; "apache2"; "httpd"] |>
    <| cfg_MapsPathAllowlist := [] |>
    <| cfg_IntegrityVerifyEnabled := false |>
    <| cfg_IntegrityScanInterval := 6 * hour |>
    <| cfg_IntegrityPaths := ["/bin/ls"; "/bin/ps"; "/usr/bin/ls"; "/usr/bin/ps"; "/usr/bin/netstat"; "/usr/bin/ss"] |>
    <| cfg_WebReconChildScanEnabled := true |>
    <| cfg_WatchAuthorizedKeys := false |>
    <| cfg_WatchDebounce := 800 * millisecond |>
    <| cfg_WatchSensitivePaths := true |>
    <| cfg_NetworkScanEnabled := true |>
    <| cfg_NetworkScanInterval := 15 * minute |>
    <| cfg_NetworkAllowlist := ["127.0.0.0/8"; "10.0.0.0/8"; "172.16.0.0/12"; "192.168.0.0/16"; "::1/128"; "fc00::/7"] |>
    <| cfg_RateLimitPerRulePerMin := 120 |>
    <| cfg_SpoolDir := "/var/lib/ghostcatcher/spool" |>
    <| cfg_SpoolMaxBytes := 64 * 1024 * 1024 |>
    <| cfg_AncestryScanEnabled := true |>
    <| cfg_CopyFail := zero_CopyFailConfig
        <| cf_Enabled := true |>
        <| cf_PageCacheCheckEnabled := false |> |>
    <| cfg_SuddenRoot := zero_SuddenRootConfig
        <| sr_Enabled := true |>
        <| sr_SnapshotInterval := 10 * second |> |>
    <| cfg_Sensor := zero_SensorConfig
        <| se_Backend := "auto" |>
        <| se_DebounceMS := 0 |> |>
    <| cfg_Respond := zero_ResponseConfig
        <| rp_Enabled := true |>
        <| rp_Mode := "audit" |>
        <| rp_MinConfidence := 85 |>
        <| rp_MinSeverity := "high" |>
        <| rp_AllowQuarantine := true |>
        <| rp_AllowKillProcess := true |>
        <| rp_AllowIsolateHost := false |>
        <| rp_ProtectedComms := ["sshd"; "systemd"; "ghostcatcher"] |>
        <| rp_ProtectedPIDs := [1] |>
        <| rp_RateLimitPerActionPerMin := 30 |>
        <| rp_RequireRoot := true |> |>
    <| cfg_MappingPath := "" |>
    <| cfg_WatchedUnits := ["nginx.service"; "apache2.service"; "httpd.service"; "php-fpm"; "php7.4-fpm";
        "php8.1-fpm"; "php8.3-fpm"; "uwsgi.service"; "gunicorn.service"; "tomcat";
        "node"] |>
    <| cfg_FPAllowlistUnits := ["unattended-upgrades.service"; "apt-daily.service"; "apt-daily-upgrade.service";
        "snapd.service"; "snapd.seeded.service"; "cloud-init.service";
        "cloud-final.service"; "logrotate.service"; "man-db.service";
        "plocate-updatedb.service"; "needrestart.service"; "dkms.service";
        "fwupd.service"; "ua-timer.service"; "landscape-client.service";
        "packagekit.service"; "motd-news.service"] |>.


Definition LoadConfig `{FileReader} (yaml_Unmarshal : string → Config → result Config) (path : string)
  : result Config :=
  let? b := ReadFile path in
  let? c := yaml_Unmarshal b Default in
  if cfg_BaselinePath c =s? "" then Err "baseline_path required"
  else if cfg_RulePackPath c =s? "" then Err "rule_pack_path required"
  else
    let c := if cfg_WebRecentDays c <=? 0 then c <| cfg_WebRecentDays := 14 |> else c in
    let c :=
      if sr_Enabled (cfg_SuddenRoot c) && (sr_SnapshotInterval (cfg_SuddenRoot c) <=? 0)
      then c <| cfg_SuddenRoot := (cfg_SuddenRoot c) <| sr_SnapshotInterval := 10 * second |> |>
      else c in
    let c :=
      if se_Backend (cfg_Sensor c) =s? ""
      then c <| cfg_Sensor := (cfg_Sensor c) <| se_Backend := "auto" |> |> else c in
    let c :=
      if se_DebounceMS (cfg_Sensor c) <? 0
      then c <| cfg_Sensor := (cfg_Sensor c) <| se_DebounceMS := 0 |> |> else c in
    Ok c.

Definition backends : list string :=
  [""; "auto"; "ebpf"; "auditd"; "audit"; "proc-poll"; "procpoll"; "proc"].

Definition Validate (c : Config) : result unit :=
  let b := se_Backend (cfg_Sensor c) in
  if negb (mem_str b backends) then
    Err ("sensor.backend must be auto|ebpf|auditd|proc-poll, got " +:+ b)
  else
    let u := cfg_SyslogUDP c in
    if negb (su_Enabled u) then Ok tt
    else if su_Host u =s? "" then Err "syslog_udp.host required when syslog_udp.enabled"
    else if (su_Port u <=? 0) || (65535 <? su_Port u) then Err "syslog_udp.port must be 1-65535"
    else
      let f := if su_Format u =s? "" then "rfc5424" else su_Format u in
      if negb (f =s? "rfc5424") && negb (f =s? "rfc3164")
      then Err "syslog_udp.format must be rfc5424 or rfc3164"
      else Ok tt.

(** [Duration.UnmarshalYAML] on a decoded scalar. *)
Definition UnmarshalDuration (scalar : result string) : result Duration :=
  let? s := scalar in
  match time_parse_duration s with
  | Some d => Ok d
  | None => Err ("time: invalid duration " +:+ s)
  end.

(** * Properties *)

(** Whatever the file says, a configuration that loads names a baseline and
    a rule pack, has a positive recency window and a positive snapshot interval
    when the sudden-root detector runs, names a backend and has a non-negative
    debounce; settings that were already valid are kept as written. *)
Theorem LoadConfig_normalised `{FileReader} yaml path c :
  LoadConfig yaml path = Ok c →
  cfg_BaselinePath c ≠ "" ∧ cfg_RulePackPath c ≠ "" ∧ 0 < cfg_WebRecentDays c ∧
  (sr_Enabled (cfg_SuddenRoot c) = true → 0 < sr_SnapshotInterval (cfg_SuddenRoot c)) ∧
  se_Backend (cfg_Sensor c) ≠ "" ∧ 0 ≤ se_DebounceMS (cfg_Sensor c) ∧
  ∃ b c0, ReadFile path = Ok b ∧ yaml b Default = Ok c0 ∧
    (0 < cfg_WebRecentDays c0 → cfg_WebRecentDays c = cfg_WebRecentDays c0) ∧
    (0 < sr_SnapshotInterval (cfg_SuddenRoot c0) → cfg_SuddenRoot c = cfg_SuddenRoot c0) ∧
    (se_Backend (cfg_Sensor c0) ≠ "" → 0 ≤ se_DebounceMS (cfg_Sensor c0) → cfg_Sensor c = cfg_Sensor c0) ∧
    cfg_Respond c = cfg_Respond c0 ∧ cfg_SyslogUDP c = cfg_SyslogUDP c0.
Proof.
  unfold LoadConfig. intros (b & Hb & (c0 & Hc & Hl)%rbind_Ok)%rbind_Ok. revert Hl.
  destruct (String.eqb_spec (cfg_BaselinePath c0) ""); [done|].
  destruct (String.eqb_spec (cfg_RulePackPath c0) ""); [done|]. cbv zeta.
  set (c1 := if cfg_WebRecentDays c0 <=? 0 then _ else _).
  assert (H1 : 0 < cfg_WebRecentDays c1 ∧
    (0 < cfg_WebRecentDays c0 → cfg_WebRecentDays c1 = cfg_WebRecentDays c0) ∧
    cfg_BaselinePath c1 = cfg_BaselinePath c0 ∧ cfg_RulePackPath c1 = cfg_RulePackPath c0 ∧
    cfg_SuddenRoot c1 = cfg_SuddenRoot c0 ∧ cfg_Sensor c1 = cfg_Sensor c0 ∧
    cfg_Respond c1 = cfg_Respond c0 ∧ cfg_SyslogUDP c1 = cfg_SyslogUDP c0).
  { unfold c1. destruct (Z.leb_spec (cfg_WebRecentDays c0) 0); cbn; split_and!; (done || lia). }
  clearbody c1. destruct H1 as (Hw & Hwk & Hbp & Hrp & Hsr & Hse & Hre & Hsu).
  set (c2 := if sr_Enabled _ && _ then _ else _).
  assert (H2 : (sr_Enabled (cfg_SuddenRoot c2) = true → 0 < sr_SnapshotInterval (cfg_SuddenRoot c2)) ∧
    (0 < sr_SnapshotInterval (cfg_SuddenRoot c1) → cfg_SuddenRoot c2 = cfg_SuddenRoot c1) ∧
    cfg_WebRecentDays c2 = cfg_WebRecentDays c1 ∧
    cfg_BaselinePath c2 = cfg_BaselinePath c1 ∧ cfg_RulePackPath c2 = cfg_RulePackPath c1 ∧
    cfg_Sensor c2 = cfg_Sensor c1 ∧
    cfg_Respond c2 = cfg_Respond c1 ∧ cfg_SyslogUDP c2 = cfg_SyslogUDP c1).
  { unfold c2. destruct (sr_Enabled (cfg_SuddenRoot c1)) eqn:Een; cbn [andb].
    - destruct (Z.leb_spec (sr_SnapshotInterval (cfg_SuddenRoot c1)) 0); cbn; split_and!; (done || lia).
    - rewrite Een. split_and!; done. }
  clearbody c2. destruct H2 as (Hs2 & Hsk & Hw2 & Hbp2 & Hrp2 & Hse2 & Hre2 & Hsu2).
  intros Hl. assert (Hc' : se_Backend (cfg_Sensor c) ≠ "" ∧ 0 ≤ se_DebounceMS (cfg_Sensor c) ∧
    (se_Backend (cfg_Sensor c2) ≠ "" → 0 ≤ se_DebounceMS (cfg_Sensor c2) → cfg_Sensor c = cfg_Sensor c2) ∧
    cfg_WebRecentDays c = cfg_WebRecentDays c2 ∧ cfg_SuddenRoot c = cfg_SuddenRoot c2 ∧
    cfg_BaselinePath c = cfg_BaselinePath c2 ∧ cfg_RulePackPath c = cfg_RulePackPath c2 ∧
    cfg_Respond c = cfg_Respond c2 ∧ cfg_SyslogUDP c = cfg_SyslogUDP c2).
  { revert Hl. destruct (String.eqb_spec (se_Backend (cfg_Sensor c2)) ""); cbn;
      destruct (Z.ltb_spec (se_DebounceMS (cfg_Sensor c2)) 0); cbn; intros [= <-]; cbn;
      split_and!; (done || lia). }
  destruct Hc' as (Hb1 & Hb2 & Hb3 & Hb4 & Hb5 & Hb6 & Hb7 & Hb8 & Hb9).
  split_and!; try congruence; [rewrite Hb5; done|].
  exists b, c0. split_and!; try congruence.
  - intros. rewrite Hb4, Hw2. auto.
  - intros. rewrite Hb5, Hsk; congruence.
  - intros. rewrite Hb3; congruence.
Qed.

Lemma LoadConfig_normalised_witness :
  let yaml := λ (_ : string) (c : Config), Ok (c <| cfg_WebRecentDays := -3 |>) in
  let c := Default <| cfg_WebRecentDays := 14 |> in
  0 < cfg_WebRecentDays c ∧ se_Backend (cfg_Sensor c) ≠ "".
Proof.
  intros yaml c.
  destruct (@LoadConfig_normalised (λ _, Ok "doc") yaml "config.yaml" c) as (_ & _ & Hw & _ & Hb & _).
  - vm_compute. reflexivity.
  - split; [exact Hw|exact Hb].
Defined.

(** Validation accepts exactly the configurations with a known sensor
    backend whose UDP syslog sink, when enabled, has a host, a port in 1-65535
    and a known format; the defaults are accepted. *)
Theorem Validate_iff c :
  (Validate c = Ok tt ↔
   se_Backend (cfg_Sensor c) ∈ backends ∧
   (su_Enabled (cfg_SyslogUDP c) = true →
    su_Host (cfg_SyslogUDP c) ≠ "" ∧ 1 ≤ su_Port (cfg_SyslogUDP c) ≤ 65535 ∧
    su_Format (cfg_SyslogUDP c) ∈ [""; "rfc5424"; "rfc3164"])) ∧
  Validate Default = Ok tt.
Proof.
  split; [|done]. unfold Validate. rewrite <-mem_str_spec.
  destruct (mem_str (se_Backend (cfg_Sensor c)) backends); cbn [negb]; [|naive_solver].
  destruct (cfg_SyslogUDP c) as [en h p f fa ap ho pr mx]. cbn. destruct en; cbn [negb]; [|naive_solver].
  destruct (String.eqb_spec h "") as [->|Hh]; [naive_solver|].
  destruct (Z.leb_spec p 0); cbn [orb]; [naive_solver lia|].
  destruct (Z.ltb_spec 65535 p); [naive_solver lia|].
  rewrite !elem_of_cons, elem_of_nil.
  destruct (String.eqb_spec f "") as [->|Hf]; [naive_solver lia|].
  destruct (String.eqb_spec f "rfc5424"), (String.eqb_spec f "rfc3164"); cbn; naive_solver lia.
Qed.
