(* ===== verification/Export.v ===== *)
(** [internal/export]: the clients that carry an emitted event to a collector.

    - [SyslogUDP]: [syslog/syslog.go], one datagram per event;
    - [SyslogTCP]: [syslogtcp/syslogtcp.go], octet-counted frames on a
      connection that is redialled once;
    - [Http]: [splunk], [elastic] and [loki], one request per event;
    - [Sinks]: [sink.go], the interface the runner calls, its four instances,
      and the sinks a configuration turns on ([Runner.initSinks]).

    The network is a log of what the client did and a [fate] for each action,
    so that a theorem without a restriction on it covers every outcome. *)
From S2P Require Export GoTime GoJson Event Config GoOS.

Module Import Wire.

(** [net.JoinHostPort]. *)
Definition JoinHostPort (host port : string) : string :=
  match index_byte host ":" with
  | Some _ => "[" +:+ host +:+ "]:" +:+ port
  | None => host +:+ ":" +:+ port
  end.

(** The RFC 5424 header of both clients, with no structured data. *)
Definition line5424 (pri : Z) (ts host app procid msgid msg : string) : string :=
  "<" +:+ itoa pri +:+ ">1 " +:+ ts +:+ " " +:+ host +:+ " " +:+ app +:+ " " +:+ procid +:+ " " +:+
  msgid +:+ " - " +:+ msg.

End Wire.

(** * [internal/export/syslog/syslog.go] *)
Module SyslogUDP.

Definition defaultMaxMsg : Z := 8192.

Definition facilityByName : gmap string Z := list_to_map
  [("kern", 0); ("user", 1); ("mail", 2); ("daemon", 3); ("auth", 4); ("syslog", 5); ("lpr", 6);
   ("news", 7); ("uucp", 8); ("cron", 9); ("authpriv", 10); ("ftp", 11); ("local0", 16);
   ("local1", 17); ("local2", 18); ("local3", 19); ("local4", 20); ("local5", 21); ("local6", 22);
   ("local7", 23)].

(** The fields of the two [SyslogUDPConfig]s are the same. *)
Abbreviation UDPConfig := SyslogUDPConfig.

Record Client := mkClient { uc_cfg : UDPConfig; uc_host : string; uc_pid : Z }.

(** What the operating system answers while the client is built. *)
Record Boot := mkBoot {
  bt_hostname : result string;
  bt_resolve : string → result string;   (* [net.ResolveUDPAddr] *)
  bt_dial : string → result unit;        (* [net.DialUDP] *)
  bt_pid : Z
}.

Definition normal_format (f : string) : string :=
  let f := to_lower (trim_space f) in if f =s? "" then "rfc5424" else f.

Definition NewUDP (os : Boot) (cfg : UDPConfig) : result (option Client) :=
  if negb (su_Enabled cfg) then Ok None
  else if su_Host cfg =s? "" then Err "syslog_udp: host required when enabled"
  else if (su_Port cfg <=? 0) || (65535 <? su_Port cfg) then Err "syslog_udp: port must be 1-65535"
  else
    let f := normal_format (su_Format cfg) in
    if negb (f =s? "rfc5424") && negb (f =s? "rfc3164")
    then Err "syslog_udp: format must be rfc5424 or rfc3164"
    else
      let cfg := cfg <| su_Format := f |> in
      let cfg := if su_MaxMsgBytes cfg <=? 0 then cfg <| su_MaxMsgBytes := defaultMaxMsg |> else cfg in
      let cfg := if su_AppName cfg =s? "" then cfg <| su_AppName := "ghostcatcher" |> else cfg in
      let hn := if su_Hostname cfg =s? "" then ok_or "localhost" (bt_hostname os) else su_Hostname cfg in
      let cfg := cfg <| su_Hostname := hn |> in
      match bt_resolve os (JoinHostPort (su_Host cfg) (itoa (su_Port cfg))) with
      | Err e => Err ("syslog_udp resolve: " +:+ e)
      | Ok addr =>
          match bt_dial os addr with
          | Err e => Err ("syslog_udp dial: " +:+ e)
          | Ok _ => Ok (Some (mkClient cfg (su_Hostname cfg) (bt_pid os)))
          end
      end.

Section Send.
(** [unicode.IsPrint] outside ASCII: [%q] in the error. *)
Variable is_print : Z → bool.

Definition bad_facility (s : string) : string :=
  "syslog_udp: invalid facility " +:+ Quote is_print s +:+ " (use local0-local7 or 0-23)".

Definition parseFacility (s : string) : result Z :=
  let s := trim_space (to_lower s) in
  if s =s? "" then Ok (default 0 (facilityByName !! "local0"))
  else match facilityByName !! s with
       | Some v => Ok v
       | None =>
           let '(n, ok) := atoi s in
           if negb ok || (n <? 0) || (23 <? n) then Err (bad_facility s) else Ok n
       end.

Definition severityToSyslog (s : string) : Z :=
  if s =s? SeverityCritical then 2
  else if s =s? SeverityHigh then 3
  else if s =s? SeverityMedium then 4
  else if s =s? SeverityLow then 5
  else 6.

Definition formatRFC5424 (pri : Z) (ts : Time) (hostname app procID msgID msg : string) : string :=
  line5424 pri (GoTime.format_millis ts) hostname app procID msgID msg.

Definition formatRFC3164 (pri : Z) (ts : Time) (hostname tag msg : string) : string :=
  "<" +:+ itoa pri +:+ ">" +:+ GoTime.format_stamp ts +:+ " " +:+ hostname +:+ " " +:+ tag +:+ ": " +:+ msg.

Definition trimToMax (b : string) (max : Z) : string :=
  if (max <=? 0) || (slen b <=? max) then b else stake (Z.to_nat max) b.

Definition msg_id (rule : string) : string :=
  if rule =s? "" then "-"
  else if contains_any rule (" " +:+ str tab +:+ "]") then "-" else rule.

Definition proc_id (c : Client) : string :=
  if su_ProcID (uc_cfg c) =s? "" then itoa (uc_pid c) else su_ProcID (uc_cfg c).

(** The datagram of an event; [now] is the clock at the call. *)
Definition datagram (c : Client) (now : Time) (ev : Event) (jsonLine : string) : result string :=
  let? fac := parseFacility (su_Facility (uc_cfg c)) in
  let pri := fac * 8 + severityToSyslog (ev_Severity ev) in
  let msg := trimToMax jsonLine (su_MaxMsgBytes (uc_cfg c)) in
  Ok (if su_Format (uc_cfg c) =s? "rfc3164"
      then formatRFC3164 pri now (uc_host c) (su_AppName (uc_cfg c)) msg
      else formatRFC5424 pri (ev_Timestamp ev) (uc_host c) (su_AppName (uc_cfg c)) (proc_id c)
             (msg_id (ev_RuleID ev)) msg).

(** The result, and the datagrams given to the socket; [write] is its answer. *)
Definition Send (write : string → result unit) (c : option Client) (now : Time) (ev : Event) (jsonLine : string)
  : result unit * list string :=
  match c with
  | None => (Ok tt, [])
  | Some c =>
      match datagram c now ev jsonLine with
      | Err e => (Err e, [])
      | Ok line => (write line, [line])
      end
  end.

End Send.
End SyslogUDP.

(** * [internal/export/syslogtcp/syslogtcp.go] *)
Module SyslogTCP.

Abbreviation TCPConfig := SyslogTCPConfig.

(** The connection is named by the position of its dial in the log. *)
Record Client := mkClient { tc_cfg : TCPConfig; tc_conn : option nat }.

#[export] Instance eta_Client : Eta Client := λ c, mkClient (tc_cfg c) (tc_conn c).

Inductive io :=
| IDial (secure : option (string * string)) (addr : string) (ok : bool)  (* TLS: server name, CA pool *)
| IWrite (conn : nat) (bytes : string) (ok : bool)
| IClose (conn : nat).

Record Net := mkNet { nt_log : list io; nt_fate : nat → option string }.

#[export] Instance eta_Net : Eta Net := λ w, mkNet (nt_log w) (nt_fate w).

Definition fate (w : Net) : option string := nt_fate w (length (nt_log w)).
Definition record_io (a : io) (w : Net) : Net := w <| nt_log := nt_log w ++ [a] |>.
Definition is_None {A} (o : option A) : bool := match o with None => true | Some _ => false end.

Definition net_dial (secure : option (string * string)) (addr : string) (w : Net) : Net * result nat :=
  (record_io (IDial secure addr (is_None (fate w))) w,
   match fate w with None => Ok (length (nt_log w)) | Some e => Err e end).

Definition net_write (conn : nat) (bytes : string) (w : Net) : Net * option string :=
  (record_io (IWrite conn bytes (is_None (fate w))) w, fate w).

Definition net_close (conn : nat) (w : Net) : Net := record_io (IClose conn) w.

Definition New (hostname : result string) (pid : Z) (cfg : TCPConfig) : result Client :=
  if negb (st_Enabled cfg) then Err "syslogtcp: disabled"
  else
    let cfg := if st_AppName cfg =s? "" then cfg <| st_AppName := "ghostcatcher" |> else cfg in
    let cfg := if st_Hostname cfg =s? "" then cfg <| st_Hostname := ok_or "" hostname |> else cfg in
    let cfg := if st_ProcID cfg =s? "" then cfg <| st_ProcID := itoa pid |> else cfg in
    let cfg := if st_MaxMsgBytes cfg =? 0 then cfg <| st_MaxMsgBytes := 8192 |> else cfg in
    Ok (mkClient cfg None).

Definition Name : string := "syslog-tcp".

Section Dial.
Context `{FileReader}.
(** [pool.AppendCertsFromPEM]. *)
Variable append_certs : string → bool.

Definition dial (c : Client) (w : Net) : Net * result nat :=
  let cfg := tc_cfg c in
  let addr := JoinHostPort (st_Host cfg) (itoa (st_Port cfg)) in
  if negb (st_TLS cfg) then net_dial None addr w
  else if st_TLSCACertFile cfg =s? "" then net_dial (Some (st_TLSServerName cfg, "")) addr w
  else match ReadFile (st_TLSCACertFile cfg) with
       | Err e => (w, Err e)
       | Ok pem =>
           if negb (append_certs pem) then (w, Err "syslogtcp: failed to load CA cert")
           else net_dial (Some (st_TLSServerName cfg, pem)) addr w
       end.

Definition message (c : Client) (e : Event) (raw : string) : string :=
  let msgID := if ev_RuleID e =s? "" then "-" else ev_RuleID e in
  line5424 (13 * 8 + 5) (GoTime.format_seconds (ev_Timestamp e)) (st_Hostname (tc_cfg c))
    (st_AppName (tc_cfg c)) (st_ProcID (tc_cfg c)) msgID raw.

(** [msg[:c.cfg.MaxMsgBytes]]: [None] is the panic of a negative bound. *)
Definition cut (max : Z) (msg : string) : option string :=
  if max <? slen msg then (if max <? 0 then None else Some (stake (Z.to_nat max) msg)) else Some msg.

Definition is_crlf (c : ascii) : bool := (code c =? 13) || (code c =? 10).

Definition octet_count (msg : string) : string := itoa (slen msg) +:+ " " +:+ trim_right is_crlf msg.

Definition frame (c : Client) (e : Event) (raw : string) : option string :=
  octet_count <$> cut (st_MaxMsgBytes (tc_cfg c)) (message c e raw).

(** The loop of [Send]; [n] attempts are left, of two. *)
Fixpoint send_go (n : nat) (framed : string) (c : Client) (w : Net) : Client * Net * result unit :=
  match n with
  | O => (c, w, Err "syslogtcp: exhausted retries")
  | S n' =>
      let '(w, conn) := match tc_conn c with Some k => (w, Ok k) | None => dial c w end in
      match conn with
      | Err e => (c, w, Err ("dial: " +:+ e))
      | Ok k =>
          let c := c <| tc_conn := Some k |> in
          let '(w, err) := net_write k framed w in
          match err with
          | None => (c, w, Ok tt)
          | Some e =>
              let w := net_close k w in
              let c := c <| tc_conn := None |> in
              if (n =? 2)%nat then send_go n' framed c w else (c, w, Err e)
          end
      end
  end.

(** [None]: the panic of [frame]. *)
Definition Send (e : Event) (raw : string) (c : Client) (w : Net) : option (Client * Net * result unit) :=
  framed ← frame c e raw; Some (send_go 2 framed c w).

(** The error of [conn.Close] is returned; it changes nothing else. *)
Definition Close (c : Client) (w : Net) : Client * Net * result unit :=
  match tc_conn c with
  | Some k => (c <| tc_conn := None |>, net_close k w,
               match fate w with None => Ok tt | Some e => Err e end)
  | None => (c, w, Ok tt)
  end.

End Dial.
End SyslogTCP.

(** * [internal/export/splunk], [elastic] and [loki] *)
Module Http.

Record Request := mkRequest {
  rq_URL : string;
  rq_Headers : list (string * string);
  rq_Body : string
}.

(** Requests so far; the fate of a request is an error or a status code. *)
Record Web := mkWeb { wb_log : list Request; wb_fate : nat → result Z }.

Definition Do (r : Request) (w : Web) : Web * result Z :=
  (mkWeb (wb_log w ++ [r]) (wb_fate w), wb_fate w (length (wb_log w))).

Definition status_error (what : string) (res : result Z) : result unit :=
  match res with
  | Err e => Err e
  | Ok st => if negb (Z.quot st 100 =? 2) then Err (what +:+ itoa st) else Ok tt
  end.

Section Clients.
(** What [http.NewRequestWithContext] says of a URL ([net/url.Parse]). *)
Variable bad_url : string → option string.
(** [json.Compact] with HTML escaping, which [Marshal] applies to a raw
    message; [None] when it is not JSON. *)
Variable json_compact : string → option string.
Variable is_print : Z → bool.

Definition post (what url body : string) (headers : list (string * string)) (w : Web) : Web * result unit :=
  match bad_url url with
  | Some e => (w, Err e)
  | None => let '(w, res) := Do (mkRequest url headers body) w in (w, status_error what res)
  end.

Definition trim_slashes (url : string) : string := trim_right (Ascii.eqb slash) url.
Definition basic_auth (user pass : string) : string :=
  "Basic " +:+ Base64.encode (user +:+ ":" +:+ pass).

(** ** Splunk HEC *)

Definition New_splunk (cfg : SplunkHECConfig) : result SplunkHECConfig :=
  if negb (sh_Enabled cfg) then Err "splunk: disabled"
  else if (sh_URL cfg =s? "") || (sh_Token cfg =s? "") then Err "splunk: url and token required"
  else Ok cfg.

(** [b, _ := json.Marshal(body)]: the error is dropped and the body is empty. *)
Definition splunk_body (cfg : SplunkHECConfig) (raw : string) : string :=
  match json_compact raw with
  | Some ev =>
      json_object ([("event", ev)] ++
        (if sh_Index cfg =s? "" then [] else [("index", json_string (sh_Index cfg))]) ++
        (if sh_SourceType cfg =s? "" then [] else [("sourcetype", json_string (sh_SourceType cfg))]))
  | None => ""
  end.

Definition Send_splunk (cfg : SplunkHECConfig) (e : Event) (raw : string) (w : Web) : Web * result unit :=
  post "splunk hec status " (sh_URL cfg) (splunk_body cfg raw)
    [("Authorization", "Splunk " +:+ sh_Token cfg); ("Content-Type", "application/json")] w.

(** ** Elastic bulk *)

Definition New_elastic (cfg : ElasticBulkConfig) : result ElasticBulkConfig :=
  if negb (eb_Enabled cfg) then Err "elastic: disabled"
  else if (eb_URL cfg =s? "") || (eb_Index cfg =s? "") then Err "elastic: url and index required"
  else Ok cfg.

Definition bulk_action (index : string) : string :=
  "{" +:+ str dquote +:+ "index" +:+ str dquote +:+ ":{" +:+ str dquote +:+ "_index" +:+ str dquote +:+ ":" +:+
  Quote is_print index +:+ "}}".

Definition bulk_body (index raw : string) : string :=
  bulk_action index +:+ str nl +:+ raw +:+ str nl.

Definition Send_elastic (cfg : ElasticBulkConfig) (e : Event) (raw : string) (w : Web) : Web * result unit :=
  post "elastic bulk status " (trim_slashes (eb_URL cfg) +:+ "/_bulk") (bulk_body (eb_Index cfg) raw)
    ([("Content-Type", "application/x-ndjson")] ++
     (if negb (eb_APIKey cfg =s? "") then [("Authorization", "ApiKey " +:+ eb_APIKey cfg)]
      else if negb (eb_Username cfg =s? "") && negb (eb_Password cfg =s? "")
      then [("Authorization", basic_auth (eb_Username cfg) (eb_Password cfg))] else [])) w.

(** ** Loki *)

Definition New_loki (cfg : LokiPushConfig) : result LokiPushConfig :=
  if negb (lk_Enabled cfg) then Err "loki: disabled"
  else if lk_URL cfg =s? "" then Err "loki: url required"
  else Ok cfg.

Definition loki_labels (cfg : LokiPushConfig) (e : Event) : gmap string string :=
  let labels := lk_Labels cfg ∪ {["app" := "ghostcatcher"]} in
  let labels := if ev_RuleID e =s? "" then labels else <["rule_id" := ev_RuleID e]> labels in
  if ev_Severity e =s? "" then labels else <["severity" := ev_Severity e]> labels.

Definition push_payload (labels : gmap string string) (ts raw : string) : string :=
  json_object [("streams", json_array [json_object
    [("stream", json_map labels);
     ("values", json_array [json_array [json_string ts; json_string raw]])]])].

Definition Send_loki (cfg : LokiPushConfig) (e : Event) (raw : string) (w : Web) : Web * result unit :=
  post "loki push status " (trim_slashes (lk_URL cfg) +:+ "/loki/api/v1/push")
    (push_payload (loki_labels cfg e) (itoa (GoTime.UnixNano (ev_Timestamp e))) raw)
    ([("Content-Type", "application/json")] ++
     (if negb (lk_Username cfg =s? "") && negb (lk_Password cfg =s? "")
      then [("Authorization", basic_auth (lk_Username cfg) (lk_Password cfg))] else [])) w.

End Clients.
End Http.

(** * [internal/export/sink.go] *)
Module Sinks.

Record World := mkWorld { wd_net : SyslogTCP.Net; wd_web : Http.Web }.

(** The interface; [None] is a panic of the client. *)
Class Sink (C : Type) := {
  Name : C → string;
  Send : Event → string → C → World → option (C * World * result unit);
  Close : C → World → C * World * result unit
}.

Section Instances.
Context `{FileReader}.
Variable append_certs : string → bool.
Variable bad_url : string → option string.
Variable json_compact : string → option string.
Variable is_print : Z → bool.

Definition on_net {A} (w : World) (r : SyslogTCP.Client * SyslogTCP.Net * A) : SyslogTCP.Client * World * A :=
  let '(c, n, a) := r in (c, mkWorld n (wd_web w), a).

Definition on_web {C A} (c : C) (w : World) (r : Http.Web * A) : C * World * A :=
  (c, mkWorld (wd_net w) (fst r), snd r).

#[local] Instance tcp_sink : Sink SyslogTCP.Client := {
  Name _ := SyslogTCP.Name;
  Send e raw c w := on_net w <$> SyslogTCP.Send append_certs e raw c (wd_net w);
  Close c w := on_net w (SyslogTCP.Close c (wd_net w))
}.

#[local] Instance splunk_sink : Sink SplunkHECConfig := {
  Name _ := "splunk-hec";
  Send e raw c w := Some (on_web c w (Http.Send_splunk bad_url json_compact c e raw (wd_web w)));
  Close c w := (c, w, Ok tt)
}.

#[local] Instance elastic_sink : Sink ElasticBulkConfig := {
  Name _ := "elastic-bulk";
  Send e raw c w := Some (on_web c w (Http.Send_elastic bad_url is_print c e raw (wd_web w)));
  Close c w := (c, w, Ok tt)
}.

#[local] Instance loki_sink : Sink LokiPushConfig := {
  Name _ := "loki";
  Send e raw c w := Some (on_web c w (Http.Send_loki bad_url c e raw (wd_web w)));
  Close c w := (c, w, Ok tt)
}.

(** A value of the interface type. *)
Inductive AnySink :=
| TCP (c : SyslogTCP.Client)
| Splunk (c : SplunkHECConfig)
| Elastic (c : ElasticBulkConfig)
| Loki (c : LokiPushConfig).

Definition wrap_sink {C} (f : C → AnySink) (r : C * World * result unit) : AnySink * World * result unit :=
  let '(c, w, res) := r in (f c, w, res).

#[local] Instance any_sink : Sink AnySink := {
  Name s := match s with TCP c => Name c | Splunk c => Name c | Elastic c => Name c | Loki c => Name c end;
  Send e raw s w := match s with
                    | TCP c => wrap_sink TCP <$> Send e raw c w
                    | Splunk c => wrap_sink Splunk <$> Send e raw c w
                    | Elastic c => wrap_sink Elastic <$> Send e raw c w
                    | Loki c => wrap_sink Loki <$> Send e raw c w
                    end;
  Close s w := match s with
               | TCP c => wrap_sink TCP (Close c w)
               | Splunk c => wrap_sink Splunk (Close c w)
               | Elastic c => wrap_sink Elastic (Close c w)
               | Loki c => wrap_sink Loki (Close c w)
               end
}.

Definition ok_list {A} (r : result A) : list A := match r with Ok a => [a] | Err _ => [] end.

(** [Runner.initSinks]: the sinks that the configuration turns on, a failed
    constructor leaving its sink out. *)
Definition initSinks (hostname : result string) (pid : Z) (cfg : Config) : list AnySink :=
  (if st_Enabled (cfg_SyslogTCP cfg)
   then TCP <$> ok_list (SyslogTCP.New hostname pid ((cfg_SyslogTCP cfg) <| st_Format := "" |>)) else []) ++
  (if sh_Enabled (cfg_SplunkHEC cfg) then Splunk <$> ok_list (Http.New_splunk (cfg_SplunkHEC cfg)) else []) ++
  (if eb_Enabled (cfg_ElasticBulk cfg) then Elastic <$> ok_list (Http.New_elastic (cfg_ElasticBulk cfg)) else []) ++
  (if lk_Enabled (cfg_LokiPush cfg) then Loki <$> ok_list (Http.New_loki (cfg_LokiPush cfg)) else []).

(** The loop of [Runner.emit] over the sinks: each result decides whether the
    line goes to the spool; [None] is a panic. *)
Fixpoint send_each (e : Event) (raw : string) (ss : list AnySink) (w : World)
  : option (list AnySink * World * list (result unit)) :=
  match ss with
  | [] => Some ([], w, [])
  | s :: ss =>
      '(s, w, res) ← Send e raw s w;
      '(ss, w, rs) ← send_each e raw ss w;
      Some (s :: ss, w, res :: rs)
  end.

End Instances.
End Sinks.
