(* ===== verification/ExportFacts.v ===== *)
(** Theorems about the export clients ([Export.v]).

    The collector's side is written down as the RFCs give it: [decode_stream]
    reads octet-counted frames (RFC 5425), [parse5424] a header (RFC 5424). *)
From S2P Require Export Export.

(** * What a collector reads from a stream *)
Module Collector.

(** One frame: its count, a space, that many bytes. *)
Definition decode1 (s : string) : option (string * string) :=
  let '(ds, r) := span is_digit s in
  match ds, r with
  | "", _ => None
  | _, String " " r =>
      n ← digits_val 10 ds 0;
      if n <=? slen r then Some (stake (Z.to_nat n) r, sdrop (Z.to_nat n) r) else None
  | _, _ => None
  end.

Fixpoint decode_go (fuel : nat) (s : string) : list string :=
  match fuel with
  | O => []
  | S f => match decode1 s with Some (m, r) => m :: decode_go f r | None => [] end
  end.

Definition decode_stream (s : string) : list string := decode_go (String.length s) s.

(** The fields of a header: the number in angle brackets, the version, six
    words, and what follows the space after the last of them. *)
Fixpoint next_field (s : string) : option (string * string) :=
  match s with
  | "" => None
  | String c r => if Ascii.eqb c " " then Some ("", r)
                  else '(w, r) ← next_field r; Some (String c w, r)
  end.

Fixpoint next_fields (n : nat) (s : string) : option (list string * string) :=
  match n with
  | O => Some ([], s)
  | S n => '(w, s) ← next_field s; '(ws, s) ← next_fields n s; Some (w :: ws, s)
  end.

Definition parse5424 (s : string) : option (Z * list string * string) :=
  match s with
  | String "<" s =>
      let '(ds, r) := span is_digit s in
      match r with
      | String ">" (String "1" (String " " r)) =>
          pri ← digits_val 10 ds 0; '(ws, msg) ← next_fields 6 r; Some (pri, ws, msg)
      | _ => None
      end
  | _ => None
  end.

End Collector.
Import Collector Wire.

(** * Octet counting *)

Lemma span_itoa n r : 0 ≤ n → starts_outside is_digit r → span is_digit (itoa n +:+ r) = (itoa n, r).
Proof. intros Hn Hr. by apply span_app; [apply itoa_digits|]. Qed.

Lemma digits_val_itoa n : 0 ≤ n → digits_val 10 (itoa n) 0 = Some n.
Proof. intros Hn. unfold itoa. destruct (Z.ltb_spec n 0); [lia|]. by apply digits_val_utoa; lia. Qed.

Lemma slen_app a b : slen (a +:+ b) = slen a + slen b.
Proof. unfold slen. rewrite length_append. lia. Qed.

Lemma slen_nonneg s : 0 ≤ slen s.
Proof. unfold slen. lia. Qed.

Lemma slen_nat s : Z.to_nat (slen s) = String.length s.
Proof. unfold slen. lia. Qed.

(** A counted message, and its head when it is cut. *)
Definition counted (m : string) : string := itoa (slen m) +:+ " " +:+ m.

Lemma decode1_counted m r : decode1 (counted m +:+ r) = Some (m, r).
Proof.
  unfold counted, decode1. rewrite append_assoc. change ((" " +:+ m) +:+ r) with (String " " (m +:+ r)).
  rewrite span_itoa by (apply slen_nonneg || done).
  pose proof (itoa_nonempty (slen m)) as Hne. pose proof (digits_val_itoa (slen m) (slen_nonneg m)) as Hv.
  destruct (itoa (slen m)) as [|c ds]; [done|]. rewrite Hv. cbn [mbind option_bind].
  rewrite slen_app. pose proof (slen_nonneg r). destruct (Z.leb_spec (slen m) (slen m + slen r)); [|lia].
  by rewrite slen_nat, stake_app, sdrop_app.
Qed.

Lemma stake_app_le n a b : (n ≤ String.length a)%nat → stake n (a +:+ b) = stake n a.
Proof.
  revert n. induction a as [|c a IH]; intros n Hn.
  - cbn in Hn. assert (n = O) as -> by lia. by destruct b.
  - destruct n as [|n]; [done|]. cbn in *. f_equal. apply IH. lia.
Qed.

Lemma stake_app_ge n a b : (String.length a ≤ n)%nat → stake n (a +:+ b) = a +:+ stake (n - String.length a) b.
Proof.
  revert n. induction a as [|c a IH]; intros n Hn; [cbn; by rewrite Nat.sub_0_r|].
  destruct n as [|n]; [cbn in Hn; lia|]. cbn in Hn.
  change (String c (stake n (a +:+ b)) = String c (a +:+ stake (n - String.length a) b)). by rewrite IH by lia.
Qed.

Lemma sdrop_app_plus n a b : sdrop (String.length a + n) (a +:+ b) = sdrop n b.
Proof. induction a as [|c a IH]; [done|]. exact IH. Qed.

Lemma append_inj_l a x y : a +:+ x = a +:+ y → x = y.
Proof. induction a as [|c a IH]; [done|]. intros [= Hr]. by apply IH. Qed.

Lemma stake_length n s : (String.length (stake n s) ≤ n)%nat.
Proof. revert n. induction s as [|c s IH]; intros [|n]; cbn; try lia. specialize (IH n). lia. Qed.

Lemma stake_all n s : (String.length s ≤ n)%nat → stake n s = s.
Proof. revert n. induction s as [|c s IH]; intros [|n] Hn; cbn in *; try done; [lia|]. f_equal. apply IH. lia. Qed.

Lemma sforall_stake p n s : sforall p s = true → sforall p (stake n s) = true.
Proof.
  revert n. induction s as [|c s IH]; intros [|n] Hs; cbn in *; try done.
  apply andb_true_iff in Hs as [Hc Hs]. by rewrite Hc, IH.
Qed.

(** A frame that did not go out whole is not read. *)
Lemma decode1_cut m j : (j < String.length (counted m))%nat → decode1 (stake j (counted m)) = None.
Proof.
  unfold counted. intros Hj. rewrite length_append in Hj. unfold decode1.
  destruct (decide (j ≤ String.length (itoa (slen m)))%nat) as [Hle|Hgt].
  - rewrite stake_app_le by done. rewrite <-(append_nil_r (stake j _)), span_app; [|by apply sforall_stake, itoa_digits, slen_nonneg|done].
    by destruct (stake j (itoa (slen m))).
  - rewrite stake_app_ge by lia. destruct (j - String.length (itoa (slen m)))%nat as [|k] eqn:Hk; [lia|].
    change (stake (S k) (" " +:+ m)) with (String " " (stake k m)).
    rewrite span_itoa by (apply slen_nonneg || done).
    pose proof (itoa_nonempty (slen m)) as Hne. pose proof (digits_val_itoa (slen m) (slen_nonneg m)) as Hv.
    destruct (itoa (slen m)) as [|c ds]; [done|]. rewrite Hv. cbn [mbind option_bind].
    destruct (Z.leb_spec (slen m) (slen (stake k m))) as [Hs|]; [|done]. exfalso.
    pose proof (stake_length k m). unfold slen in Hs. change (String.length (" " +:+ m)) with (S (String.length m)) in Hj. lia.
Qed.

(** The bytes of a stream: whole frames, then the part of one more. *)
Definition sconcat : list string → string := foldr String.append "".

Lemma sconcat_app a b : sconcat (a ++ b) = sconcat a +:+ sconcat b.
Proof. induction a as [|x a IH]; [done|]. cbn. by rewrite IH, append_assoc. Qed.

Lemma decode_go_counted ms tail f :
  (length ms ≤ f)%nat →
  decode_go f (sconcat (map counted ms) +:+ tail) = ms ++ decode_go (f - length ms) tail.
Proof.
  revert f. induction ms as [|m ms IH]; intros f Hf; cbn in *; [by rewrite Nat.sub_0_r|].
  destruct f as [|f]; [lia|]. cbn [decode_go]. rewrite append_assoc, decode1_counted, IH by lia. done.
Qed.

Lemma counted_length m : (0 < String.length (counted m))%nat.
Proof. unfold counted. rewrite length_append. change (String.length (" " +:+ m)) with (S (String.length m)). lia. Qed.

Lemma sconcat_length ms : (length ms ≤ String.length (sconcat (map counted ms)))%nat.
Proof.
  induction ms as [|m ms IH]; cbn; [lia|]. rewrite length_append. pose proof (counted_length m). lia.
Qed.

Lemma decode_stream_counted ms lost j :
  decode_stream (sconcat (map counted ms) +:+ sconcat (map (stake j) (map counted (option_list lost)))) =
  ms ++ (match lost with
         | Some m => if decide (String.length (counted m) ≤ j)%nat then [m] else []
         | None => []
         end).
Proof.
  unfold decode_stream. rewrite decode_go_counted by (rewrite length_append; pose proof (sconcat_length ms); lia).
  f_equal. rewrite length_append.
  assert (∀ f, (0 < f)%nat → decode_go f "" = []) as Hnil by (intros [|f]; [lia|done]).
  pose proof (sconcat_length ms). destruct lost as [m|]; cbn.
  - rewrite append_nil_r. case_decide as Hj.
    + rewrite stake_all by done. pose proof (counted_length m).
      destruct (_ + _ - _)%nat as [|f] eqn:Hf; [lia|]. cbn [decode_go].
      rewrite <-(append_nil_r (counted m)), decode1_counted. f_equal. by destruct f.
    + destruct (_ + _ - _)%nat as [|f]; [done|]. cbn [decode_go]. by rewrite decode1_cut by lia.
  - by destruct (_ + 0 - _)%nat.
Qed.

(** * Syslog over TCP *)
Module TCPFacts.
Import SyslogTCP.

(** The history of a client: what the runner calls. *)
Inductive op :=
| OSend (e : Event) (raw : string)
| OClose.

Definition ok_frames (log : list io) : list string :=
  omap (λ a, match a with IWrite _ f true => Some f | _ => None end) log.

Definition writes_on (k : nat) (log : list io) : list (string * bool) :=
  omap (λ a, match a with IWrite k' f ok => if decide (k' = k) then Some (f, ok) else None | _ => None end) log.

(** What the collector receives on a connection; of a write that failed, [j]
    bytes. *)
Definition received (k j : nat) (log : list io) : string :=
  sconcat (map (λ '(f, ok), if (ok : bool) then f else stake j f) (writes_on k log)).

Definition clean (s : string) : bool := sforall (λ c, negb (is_crlf c)) s.

Section History.
Context `{FileReader} (append_certs : string → bool).

Fixpoint run (ops : list op) (c : Client) (w : Net) : option (Client * Net * list (result unit)) :=
  match ops with
  | [] => Some (c, w, [])
  | o :: ops =>
      '(c, w, res) ← match o with
                      | OSend e raw => Send append_certs e raw c w
                      | OClose => Some (Close c w)
                      end;
      '(c, w, rs) ← run ops c w; Some (c, w, res :: rs)
  end.

(** The message of a frame: the header and the line, cut at the limit. *)
Definition sent (c : Client) (e : Event) (raw : string) : string :=
  let max := st_MaxMsgBytes (tc_cfg c) in
  let msg := message c e raw in
  if max <? slen msg then stake (Z.to_nat max) msg else msg.

(** The messages whose [Send] returned without error. *)
Fixpoint delivered (c : Client) (ops : list op) (rs : list (result unit)) : list string :=
  match ops, rs with
  | OSend e raw :: ops, Ok _ :: rs => sent c e raw :: delivered c ops rs
  | _ :: ops, _ :: rs => delivered c ops rs
  | _, _ => []
  end.

Definition op_clean (o : op) : Prop :=
  match o with OSend e raw => clean (ev_RuleID e) = true ∧ clean raw = true | OClose => True end.

Definition cfg_clean (c : Client) : Prop :=
  0 ≤ st_MaxMsgBytes (tc_cfg c) ∧ clean (st_Hostname (tc_cfg c)) = true ∧ clean (st_AppName (tc_cfg c)) = true ∧
  clean (st_ProcID (tc_cfg c)) = true.

Lemma clean_app a b : clean (a +:+ b) = clean a && clean b.
Proof. apply sforall_app. Qed.

Lemma digits_clean s : sforall is_digit s = true → clean s = true.
Proof.
  apply sforall_impl. intros c Hc. unfold is_digit, in_range, is_crlf in *. lia.
Qed.

Lemma itoa_clean n : 0 ≤ n → clean (itoa n) = true.
Proof. intros. by apply digits_clean, itoa_digits. Qed.

Lemma clean_octet m : clean m = true → octet_count m = counted m.
Proof. intros Hm. unfold octet_count, counted. by rewrite trim_right_none. Qed.

(** The use of the connections: on each, whole writes that succeeded, then at
    most one that failed; the current one has no failed write. *)
Definition well_used (cur : option nat) (log : list io) : Prop :=
  (∀ k, cur = Some k → (k < length log)%nat) ∧
  ∀ k, ∃ ms lost,
    writes_on k log = map (λ m, (counted m, true)) ms ++ map (λ m, (counted m, false)) (option_list lost) ∧
    (cur = Some k → lost = None) ∧ ((length log ≤ k)%nat → ms = [] ∧ lost = None).

Lemma writes_on_app k l1 l2 : writes_on k (l1 ++ l2) = writes_on k l1 ++ writes_on k l2.
Proof. apply omap_app. Qed.

Lemma ok_frames_app l1 l2 : ok_frames (l1 ++ l2) = ok_frames l1 ++ ok_frames l2.
Proof. apply omap_app. Qed.

(** What is not a write keeps the use; the current connection may be given up,
    or be the one just dialled. *)
Lemma well_used_other cur cur' log a :
  (match a with IWrite _ _ _ => False | _ => True end) →
  (cur' = cur ∨ cur' = None ∨ cur' = Some (length log)) →
  well_used cur log → well_used cur' (log ++ [a]).
Proof.
  intros Ha Hc [Hk Hw]. split.
  - intros k ->. rewrite length_app. cbn. destruct Hc as [<-|[?|[= ->]]]; [specialize (Hk k eq_refl)|done|]; lia.
  - intros k. destruct (Hw k) as (ms & lost & He & Hl & Hf). exists ms, lost. split.
    { rewrite writes_on_app, He. destruct a; [by rewrite app_nil_r|done|by rewrite app_nil_r]. }
    split.
    + intros ->. destruct Hc as [<-|[?|[= ->]]]; [by apply Hl|done|by apply Hf].
    + rewrite length_app. cbn. intros ?. apply Hf. lia.
Qed.

Lemma well_used_write k log m (ok : bool) :
  well_used (Some k) log → well_used (if ok then Some k else None) (log ++ [IWrite k (counted m) ok]).
Proof.
  intros [Hk Hw]. pose proof (Hk k eq_refl) as Hlt. split.
  - intros k' Hk'. rewrite length_app. cbn. destruct ok; simplify_eq. lia.
  - intros k'. destruct (Hw k') as (ms & lost & He & Hl & Hf). rewrite writes_on_app, He, length_app. cbn.
    destruct (decide (k = k')) as [<-|Hne].
    + rewrite (Hl eq_refl). cbn. rewrite app_nil_r. destruct ok.
      * exists (ms ++ [m]), None. rewrite map_app. cbn. rewrite app_nil_r. repeat split; intros; lia || done.
      * exists ms, (Some m). repeat split; intros; lia || done.
    + exists ms, lost. rewrite app_nil_r. split; [done|]. split; [destruct ok; [intros [= ->]|]; done|].
      intros ?. apply Hf. lia.
Qed.

Lemma dial_used c w w' r :
  well_used None (nt_log w) → dial append_certs c w = (w', r) →
  well_used (match r with Ok k => Some k | Err _ => None end) (nt_log w') ∧
  ok_frames (nt_log w') = ok_frames (nt_log w) ∧ nt_fate w' = nt_fate w.
Proof.
  intros Hu.
  assert (∀ s a, net_dial s a w = (w', r) →
    well_used (match r with Ok k => Some k | Err _ => None end) (nt_log w') ∧
    ok_frames (nt_log w') = ok_frames (nt_log w) ∧ nt_fate w' = nt_fate w) as Hd.
  { unfold net_dial, record_io. intros s a [= <- <-]. cbn. rewrite ok_frames_app, app_nil_r. split; [|done].
    apply (well_used_other None); [done| |done]. destruct (fate w); auto. }
  unfold dial. repeat case_match; eauto; by intros [= <- <-].
Qed.

Lemma send_go_used m n : ∀ c w c' w' res,
  well_used (tc_conn c) (nt_log w) → send_go append_certs n (counted m) c w = (c', w', res) →
  well_used (tc_conn c') (nt_log w') ∧ tc_cfg c' = tc_cfg c ∧ nt_fate w' = nt_fate w ∧
  ok_frames (nt_log w') = ok_frames (nt_log w) ++ (if is_ok res then [counted m] else []).
Proof.
  induction n as [|n IH]; intros c w c' w' res Hu; cbn [send_go].
  { intros [= <- <- <-]. cbn. by rewrite app_nil_r. }
  destruct (match tc_conn c with Some k => (w, Ok k) | None => dial append_certs c w end) as [w1 conn] eqn:Hd.
  assert (well_used (match conn with Ok k => Some k | Err _ => None end) (nt_log w1) ∧
          ok_frames (nt_log w1) = ok_frames (nt_log w) ∧ nt_fate w1 = nt_fate w ∧
          (is_ok conn = false → tc_conn c = None)) as (Hu1 & Hok1 & Hf1 & Hn).
  { destruct (tc_conn c) as [k|] eqn:Hc; [by simplify_eq|]. apply dial_used in Hd as (? & ? & ?); done. }
  destruct conn as [k|e].
  - unfold net_write. destruct (fate w1) as [e|] eqn:Hfate; cbn [is_None].
    + pose proof (well_used_write _ _ m false Hu1) as Hu2.
      pose proof (well_used_other None None _ (IClose k) I (or_introl eq_refl) Hu2) as Hu3.
      assert (ok_frames ((nt_log w1 ++ [IWrite k (counted m) false]) ++ [IClose k]) = ok_frames (nt_log w)) as Hok3
        by (rewrite !ok_frames_app; cbn; by rewrite !app_nil_r).
      destruct (S n =? 2)%nat.
      * intros Hs. apply IH in Hs as (? & ? & Hf & Hok); [|done]. split; [done|]. split; [done|].
        split; [by rewrite Hf|]. rewrite Hok. f_equal. exact Hok3.
      * intros [= <- <- <-]. cbn. rewrite app_nil_r. split; [exact Hu3|]. split; [done|]. split; [done|]. exact Hok3.
    + intros [= <- <- <-]. cbn [is_ok]. split; [exact (well_used_write _ _ m true Hu1)|]. split; [done|]. split; [done|].
      cbn. by rewrite ok_frames_app, Hok1.
  - intros [= <- <- <-]. cbn. rewrite (Hn eq_refl) in *. rewrite app_nil_r. done.
Qed.

Lemma Close_used c w c' w' res :
  well_used (tc_conn c) (nt_log w) → Close c w = (c', w', res) →
  well_used (tc_conn c') (nt_log w') ∧ tc_cfg c' = tc_cfg c ∧ nt_fate w' = nt_fate w ∧
  ok_frames (nt_log w') = ok_frames (nt_log w).
Proof.
  unfold Close. destruct (tc_conn c) as [k|] eqn:Hc; intros Hu [= <- <- <-]; cbn; [|by rewrite Hc].
  rewrite ok_frames_app, app_nil_r. split; [|done]. apply (well_used_other (Some k)); auto.
Qed.

Lemma sent_clean c e raw : cfg_clean c → op_clean (OSend e raw) → clean (sent c e raw) = true.
Proof.
  intros (_ & Hh & Ha & Hp) [Hr Hraw]. unfold sent.
  assert (clean (message c e raw) = true) as Hm.
  { unfold message, line5424. rewrite !clean_app, Hh, Ha, Hp, Hraw.
    assert (clean (GoTime.format_seconds (ev_Timestamp e)) = true) as ->.
    { eapply sforall_impl; [|apply GoTime.format_seconds_chars]. intros x. unfold GoTime.time_char, is_crlf, is_digit, in_range.
      rewrite !orb_true_iff, !Ascii.eqb_eq. intros [[[[[Hd| ->]| ->]| ->]| ->]| ->]; [lia|done..]. }
    destruct (ev_RuleID e =s? ""); [done|]. by rewrite Hr. }
  case_match; [|done]. by apply sforall_stake.
Qed.

Lemma Send_frame c e raw w :
  cfg_clean c → op_clean (OSend e raw) →
  Send append_certs e raw c w = Some (send_go append_certs 2 (counted (sent c e raw)) c w).
Proof.
  intros Hc Ho. pose proof (sent_clean c e raw Hc Ho) as Hcl. unfold Send, frame, cut, sent in *.
  destruct Hc as [Hmax _].
  destruct (Z.ltb_spec (st_MaxMsgBytes (tc_cfg c)) (slen (message c e raw))).
  - destruct (Z.ltb_spec (st_MaxMsgBytes (tc_cfg c)) 0); [lia|]. cbn. by rewrite clean_octet.
  - cbn. by rewrite clean_octet.
Qed.

Lemma sent_cfg c c' e raw : tc_cfg c = tc_cfg c' → sent c e raw = sent c' e raw.
Proof. unfold sent, message. by intros ->. Qed.

Lemma delivered_cfg c c' ops rs : tc_cfg c = tc_cfg c' → delivered c ops rs = delivered c' ops rs.
Proof.
  intros Hc. revert rs. induction ops as [|o ops IH]; intros [|r rs]; [done|done|by destruct o|].
  destruct o as [e raw|]; cbn; [|apply IH]. destruct r; [|apply IH]. by rewrite (sent_cfg c c'), IH.
Qed.

Lemma run_used ops : ∀ c w,
  cfg_clean c → Forall op_clean ops → well_used (tc_conn c) (nt_log w) →
  ∃ c' w' rs, run ops c w = Some (c', w', rs) ∧ length rs = length ops ∧
    well_used (tc_conn c') (nt_log w') ∧
    ok_frames (nt_log w') = ok_frames (nt_log w) ++ map counted (delivered c ops rs).
Proof.
  induction ops as [|o ops IH]; intros c w Hc Ho Hu.
  { exists c, w, []. cbn. by rewrite app_nil_r. }
  inversion_clear Ho as [|? ? Ho1 Ho2].
  assert (∃ c1 w1 r, (match o with OSend e raw => Send append_certs e raw c w | OClose => Some (Close c w) end) = Some (c1, w1, r) ∧
    well_used (tc_conn c1) (nt_log w1) ∧ tc_cfg c1 = tc_cfg c ∧
    ok_frames (nt_log w1) = ok_frames (nt_log w) ++
      match o, r with OSend e raw, Ok _ => [counted (sent c e raw)] | _, _ => [] end) as (c1 & w1 & r & Hs & Hu1 & Hcfg & Hok).
  { destruct o as [e raw|].
    - rewrite Send_frame by done. destruct (send_go _ _ _ _ _) as [[c1 w1] r] eqn:Hs.
      apply send_go_used in Hs as (? & ? & ? & ?); [|done]. exists c1, w1, r. do 3 (split; [done|]). by destruct r.
    - destruct (Close c w) as [[c1 w1] r] eqn:Hs. apply Close_used in Hs as (? & ? & ? & ?); [|done].
      exists c1, w1, r. rewrite app_nil_r. by destruct r. }
  destruct (IH c1 w1) as (c' & w' & rs & Hrun & Hlen & Hu' & Hok').
  { unfold cfg_clean. by rewrite Hcfg. }
  { done. }
  { done. }
  exists c', w', (r :: rs). cbn [run]. rewrite Hs. cbn [mbind option_bind]. rewrite Hrun. cbn [mbind option_bind].
  split; [done|]. split; [by cbn; rewrite Hlen|]. split; [done|].
  rewrite Hok', Hok, <-app_assoc, (delivered_cfg c1 c) by done. f_equal.
  destruct o as [e raw|]; cbn; [|done]. by destruct r.
Qed.

Lemma received_decodes cur log k j :
  well_used cur log → ∃ ms lost,
    writes_on k log = map (λ m, (counted m, true)) ms ++ map (λ m, (counted m, false)) (option_list lost) ∧
    decode_stream (received k j log) =
      ms ++ (match lost with
             | Some m => if decide (String.length (counted m) ≤ j)%nat then [m] else []
             | None => []
             end).
Proof.
  intros [_ Hw]. destruct (Hw k) as (ms & lost & He & _). exists ms, lost. split; [done|].
  rewrite <-decode_stream_counted. f_equal. unfold received. rewrite He, map_app, sconcat_app, !map_map. done.
Qed.

(** C20: The TCP syslog client, over any history of sends and closes and any
    outcome of every dial and write, never hands the collector a damaged
    stream.  Reading a connection as octet-counted frames gives exactly the
    messages written to it without error, in order, and after them at most the
    one whose write failed, only if all its bytes had gone out; the successful
    writes, over all connections and in order, are the messages of the sends
    that returned no error.  It holds when the limit is not negative and no
    text contains a carriage return or a line feed. *)
Theorem tcp_stream_decodes hostname pid cfg fates ops c0 :
  New hostname pid cfg = Ok c0 → cfg_clean c0 → Forall op_clean ops →
  ∃ c w rs, run ops c0 (mkNet [] fates) = Some (c, w, rs) ∧ length rs = length ops ∧
    ok_frames (nt_log w) = map counted (delivered c0 ops rs) ∧
    ∀ k j, ∃ ms lost,
      writes_on k (nt_log w) =
        map (λ m, (counted m, true)) ms ++ map (λ m, (counted m, false)) (option_list lost) ∧
      decode_stream (received k j (nt_log w)) =
        ms ++ (match lost with
               | Some m => if decide (String.length (counted m) ≤ j)%nat then [m] else []
               | None => []
               end).
Proof.
  intros Hnew Hc Ho.
  destruct (run_used ops c0 (mkNet [] fates)) as (c & w & rs & Hrun & Hlen & Hu & Hok); try done.
  { assert (tc_conn c0 = None) as -> by (revert Hnew; unfold New; case_match; by intros [= <-]).
    split; [done|]. intros k. exists [], None. done. }
  exists c, w, rs. repeat split; try done. intros k j. by eapply received_decodes.
Qed.

End History.
End TCPFacts.

(** * Syslog over UDP *)
Module UDPFacts.
Import SyslogUDP.

Definition no_space (s : string) : bool := sforall (λ c, negb (Ascii.eqb c " ")) s.

Lemma next_field_word w r : no_space w = true → next_field (w +:+ " " +:+ r) = Some (w, r).
Proof.
  induction w as [|c w IH]; [done|]. unfold no_space. cbn [sforall]. intros [Hc Hw]%andb_true_iff.
  apply negb_true_iff in Hc. change (String c w +:+ " " +:+ r) with (String c (w +:+ " " +:+ r)). cbn [next_field].
  by rewrite Hc, IH.
Qed.

Lemma next_fields_cons n w r :
  no_space w = true →
  next_fields (S n) (w +:+ " " +:+ r) = '(ws, s) ← next_fields n r; Some (w :: ws, s).
Proof. intros Hw. cbn [next_fields]. by rewrite next_field_word. Qed.

(** The header of both clients is read back when no field has a space. *)
Lemma parse_line5424 pri ts host app procid msgid msg :
  0 ≤ pri → Forall (λ s, no_space s = true) [ts; host; app; procid; msgid] →
  parse5424 (line5424 pri ts host app procid msgid msg) = Some (pri, [ts; host; app; procid; msgid; "-"], msg).
Proof.
  intros Hp Hf. repeat (apply Forall_cons_iff in Hf as [? Hf]).
  unfold line5424, parse5424.
  change ("<" +:+ ?x) with (String "<" x). cbv iota beta.
  change (">1 " +:+ ?x) with (String ">" (String "1" (String " " x))).
  rewrite span_itoa by done. cbv iota beta. rewrite digits_val_itoa by done. cbn [mbind option_bind].
  change (" - " +:+ msg) with (" " +:+ ("-" +:+ " " +:+ msg)).
  rewrite !next_fields_cons by done. done.
Qed.

Lemma time_no_space s : sforall GoTime.time_char s = true → no_space s = true.
Proof.
  apply sforall_impl. intros c. unfold GoTime.time_char, is_digit, in_range.
  rewrite !orb_true_iff, !Ascii.eqb_eq. intros [[[[[Hd| ->]| ->]| ->]| ->]| ->]; [|done..].
  apply negb_true_iff, Ascii.eqb_neq. intros ->. change (code " ") with 32 in Hd. lia.
Qed.

Lemma msg_id_no_space r : no_space (msg_id r) = true.
Proof.
  unfold msg_id. destruct (r =s? ""); [done|]. destruct (contains_any r _) eqn:Hc; [done|].
  revert Hc. unfold contains_any. induction r as [|c r IH]; [done|]. cbn [sexists]. intros [Hc Hr]%orb_false_iff.
  unfold no_space. cbn [sforall]. apply andb_true_iff; split; [|by apply IH].
  apply negb_true_iff, Ascii.eqb_neq. by intros ->.
Qed.

Section Facility.
Variable is_print : Z → bool.

Lemma facility_table_bounds : bool_decide (map_Forall (λ _ v, 0 ≤ v ≤ 23) facilityByName) = true.
Proof. vm_compute. done. Qed.

Lemma facility_bounds name v : facilityByName !! name = Some v → 0 ≤ v ≤ 23.
Proof. pose proof facility_table_bounds as Hb%bool_decide_eq_true. apply (Hb name). Qed.

Lemma parseFacility_bounds s n : parseFacility is_print s = Ok n → 0 ≤ n ≤ 23.
Proof.
  unfold parseFacility. destruct (_ =s? "").
  - assert (facilityByName !! "local0" = Some 16) as -> by (by vm_compute). intros [= <-]. lia.
  - destruct (facilityByName !! _) as [v|] eqn:Hf; [intros [= <-]; by eapply facility_bounds|].
    destruct (atoi _) as [m ok]. destruct ok; [|done]. cbn [negb orb].
    destruct (Z.ltb_spec m 0); [done|]. destruct (Z.ltb_spec 23 m); [done|]. intros [= <-]. lia.
Qed.

Lemma severity_bounds s : 2 ≤ severityToSyslog s ≤ 6.
Proof. unfold severityToSyslog. repeat case_match; lia. Qed.

Lemma NewUDP_client os cfg c :
  NewUDP os cfg = Ok (Some c) →
  su_Format (uc_cfg c) = normal_format (su_Format cfg) ∧
  (su_Format (uc_cfg c) = "rfc5424" ∨ su_Format (uc_cfg c) = "rfc3164") ∧ 0 < su_MaxMsgBytes (uc_cfg c) ∧
  su_AppName (uc_cfg c) ≠ "" ∧ su_Facility (uc_cfg c) = su_Facility cfg.
Proof.
  unfold NewUDP. destruct (negb (su_Enabled cfg)); [done|]. destruct (su_Host cfg =s? ""); [done|].
  destruct (_ || _); [done|]. set (f := normal_format _).
  destruct (String.eqb_spec f "rfc5424") as [Hf|Hf], (String.eqb_spec f "rfc3164") as [Hf'|Hf']; cbn [negb andb]; try done;
    (destruct (bt_resolve _ _) as [a|]; [|done]; destruct (bt_dial _ _); [|done]; intros [= <-]; cbn [uc_cfg];
     destruct (Z.leb_spec (su_MaxMsgBytes cfg) 0); cbn;
     destruct (String.eqb_spec (su_AppName cfg) ""); cbn; repeat split; auto; done || lia).
Qed.

(** C40: Every event that the UDP client sends in the RFC 5424 format is one
    datagram that a collector reads back: its priority is eight times the
    configured facility, at most 23, plus the severity of the event; its words
    are the time of the event, the host, the program, the process and the rule
    (or a dash); and its message is the event's line cut at the limit.  It
    holds when the three configured words have no space. *)
Theorem udp_datagram_parses os cfg c write now ev raw fac :
  NewUDP os cfg = Ok (Some c) → normal_format (su_Format cfg) = "rfc5424" →
  Forall (λ s, no_space s = true) [uc_host c; su_AppName (uc_cfg c); proc_id c] →
  parseFacility is_print (su_Facility cfg) = Ok fac →
  ∃ line, Send is_print write (Some c) now ev raw = (write line, [line]) ∧
    0 ≤ fac ≤ 23 ∧
    parse5424 line = Some (fac * 8 + severityToSyslog (ev_Severity ev),
      [GoTime.format_millis (ev_Timestamp ev); uc_host c; su_AppName (uc_cfg c); proc_id c; msg_id (ev_RuleID ev); "-"],
      trimToMax raw (su_MaxMsgBytes (uc_cfg c))).
Proof.
  intros Hc Hfmt Hw Hfac. apply NewUDP_client in Hc as (Hf & _ & _ & _ & Hfac'). rewrite Hfmt in Hf.
  unfold Send, datagram. rewrite Hfac', Hfac. cbn [rbind]. rewrite Hf. change ("rfc5424" =s? "rfc3164") with false.
  eexists. split; [done|]. split; [by eapply parseFacility_bounds|].
  pose proof (severity_bounds (ev_Severity ev)). pose proof (parseFacility_bounds _ _ Hfac).
  repeat (apply Forall_cons_iff in Hw as [? Hw]).
  apply parse_line5424; [lia|]. repeat constructor; try done; [apply time_no_space, GoTime.format_millis_chars|apply msg_id_no_space].
Qed.

(** The limit is for the line of the event alone: the datagram of an event
    that reaches it is longer. *)
Lemma udp_limit_exceeded c now ev raw line :
  0 < su_MaxMsgBytes (uc_cfg c) ≤ slen raw → datagram is_print c now ev raw = Ok line →
  su_MaxMsgBytes (uc_cfg c) < slen line.
Proof.
  intros Hm. unfold datagram. destruct (parseFacility _ _) as [fac|]; [|done]. cbn [rbind].
  assert (∀ m n, 0 < m ≤ slen raw → n = slen (trimToMax raw m) → n = m) as Ht.
  { intros m n Hb ->. unfold trimToMax. destruct (Z.leb_spec m 0); [lia|]. cbn [orb].
    destruct (Z.leb_spec (slen raw) m); [lia|]. unfold slen.
    assert (∀ k s, (k ≤ String.length s)%nat → String.length (stake k s) = k) as Hl.
    { intros k. induction k as [|k IH]; intros [|x s] Hk; cbn in *; try lia. rewrite IH; lia. }
    unfold slen in *. rewrite Hl; lia. }
  specialize (Ht _ _ Hm eq_refl).
  intros [= <-]. pose proof (slen_nonneg (uc_host c)). case_match; unfold formatRFC3164, formatRFC5424, line5424;
    rewrite !slen_app, Ht; change (slen "<") with 1;
    repeat match goal with |- context [slen ?s] => lazymatch goal with H : 0 ≤ slen s |- _ => fail | _ => pose proof (slen_nonneg s) end end; lia.
Qed.

End Facility.
End UDPFacts.

(** * Where the TCP client departs from the RFC *)
Module TCPDeviations.
Import SyslogTCP TCPFacts.

Definition quiet_reader : FileReader := λ _, Err "none".
Definition sample : Event := zero_Event <| ev_RuleID := "GC-1" |>.
Definition sample_client (max : Z) (e : Event) : Client :=
  mkClient (zero_SyslogTCPConfig <| st_Enabled := true |> <| st_Hostname := "h" |> <| st_AppName := "a" |>
              <| st_ProcID := "1" |> <| st_MaxMsgBytes := max |>) None.

Lemma octet_count_newline m : clean m = true → octet_count (m +:+ str nl) = itoa (slen m + 1) +:+ " " +:+ m.
Proof.
  intros Hm. unfold octet_count. rewrite slen_app. change (slen (str nl)) with 1. do 2 f_equal.
  induction m as [|c m IH]; [done|]. unfold clean in Hm. cbn [sforall] in Hm. apply andb_true_iff in Hm as [Hc Hm].
  change (trim_right is_crlf (String c m +:+ str nl)) with
    (match trim_right is_crlf (m +:+ str nl) with
     | "" => if is_crlf c then "" else str c | r' => String c r' end).
  rewrite IH by done. apply negb_true_iff in Hc. rewrite Hc. by destruct m.
Qed.

(** A count that is one too large takes the first digit of the next frame. *)
Lemma decode1_overrun m m' :
  ∃ d, is_digit d = true ∧
    decode1 (itoa (slen m + 1) +:+ " " +:+ m +:+ counted m') = Some (m +:+ str d, sdrop 1 (counted m')).
Proof.
  pose proof (slen_nonneg m). unfold decode1. change (" " +:+ m +:+ counted m') with (String " " (m +:+ counted m')).
  rewrite span_itoa by (lia || done). pose proof (itoa_nonempty (slen m + 1)).
  pose proof (digits_val_itoa (slen m + 1) ltac:(lia)) as Hv.
  destruct (itoa (slen m + 1)) as [|c ds]; [done|]. rewrite Hv. cbn [mbind option_bind].
  assert (∃ d r, is_digit d = true ∧ counted m' = String d r) as (d & r & Hd & Hr).
  { unfold counted. pose proof (itoa_digits (slen m') (slen_nonneg m')) as Hds. pose proof (itoa_nonempty (slen m')).
    destruct (itoa (slen m')) as [|d ds']; [done|]. cbn in Hds. apply andb_true_iff in Hds as [? _]. by eexists _, _. }
  exists d. split; [done|]. rewrite slen_app, Hr. pose proof (slen_nonneg r).
  assert (slen (String d r) = 1 + slen r) as -> by (unfold slen; cbn; lia).
  destruct (Z.leb_spec (slen m + 1) (slen m + (1 + slen r))); [|lia].
  replace (Z.to_nat (slen m + 1)) with (String.length m + 1)%nat by (unfold slen; lia).
  rewrite stake_app_ge, sdrop_app_plus by lia.
  replace (String.length m + 1 - String.length m)%nat with 1%nat by lia. by destruct r.
Qed.

(** The count is taken before the line breaks at the end are trimmed: after a
    line that ends in one, the collector reads a message that was not sent. *)
Lemma trailing_newline_desyncs m m' :
  clean m = true → clean m' = true →
  ∃ x r, decode1 (octet_count (m +:+ str nl) +:+ octet_count m') = Some (x, r) ∧ x ≠ m ∧ x ≠ m +:+ str nl.
Proof.
  intros Hm Hm'. rewrite octet_count_newline, (clean_octet m'), !append_assoc by done.
  destruct (decode1_overrun m m') as (d & Hd & Hdec).
  change ((" " +:+ m) +:+ counted m') with (" " +:+ m +:+ counted m'). rewrite Hdec. eexists _, _. split; [done|]. split; intros Hx.
  - by rewrite <-(append_nil_r m) in Hx at 2; apply append_inj_l in Hx.
  - by apply append_inj_l in Hx as [= ->].
Qed.

(** A negative limit, which no check of the configuration refuses, panics on
    the first event. *)
Lemma negative_limit_panics `{FileReader} append_certs c e raw w :
  st_MaxMsgBytes (tc_cfg c) < 0 → Send append_certs e raw c w = None.
Proof.
  intros Hm. unfold Send, frame, cut. pose proof (slen_nonneg (message c e raw)).
  destruct (Z.ltb_spec (st_MaxMsgBytes (tc_cfg c)) (slen (message c e raw))); [|lia].
  by destruct (Z.ltb_spec (st_MaxMsgBytes (tc_cfg c)) 0); [|lia].
Qed.

(** The priority is that of facility 13, whatever is configured. *)
Lemma facility_ignored c e raw : ∃ rest, message c e raw = "<109>1 " +:+ rest.
Proof. by eexists. Qed.

(** A rule with a space in its name shifts the words of the header. *)
Example rule_with_space_shifts :
  parse5424 (message (sample_client 8192 sample) (sample <| ev_RuleID := "a b" |>) "{}") =
    Some (109, ["0001-01-01T00:00:00Z"; "h"; "a"; "1"; "a"; "b"], "- {}").
Proof. vm_compute. reflexivity. Qed.

(** A first write that fails, and then two sends. *)
Lemma tcp_stream_decodes_witness :
  let c0 := sample_client 8192 sample in
  let ops := [OSend sample "{}"; OClose; OSend sample "[]"] in
  let fates := λ i : nat, if (i =? 1)%nat then Some "reset" else None in
  ∃ c w rs, run (H:=quiet_reader) (λ _, true) ops c0 (mkNet [] fates) = Some (c, w, rs) ∧ length rs = length ops ∧
    ok_frames (nt_log w) = map counted (delivered c0 ops rs) ∧
    ∀ k j, ∃ ms lost,
      writes_on k (nt_log w) =
        map (λ m, (counted m, true)) ms ++ map (λ m, (counted m, false)) (option_list lost) ∧
      decode_stream (received k j (nt_log w)) =
        ms ++ (match lost with
               | Some m => if decide (String.length (counted m) ≤ j)%nat then [m] else []
               | None => []
               end).
Proof.
  apply (tcp_stream_decodes (H:=quiet_reader) (λ _, true) (Ok "x") 7 (tc_cfg (sample_client 8192 sample))).
  - vm_compute. reflexivity.
  - unfold cfg_clean. repeat split; vm_compute; (reflexivity || discriminate).
  - repeat constructor; vm_compute; reflexivity.
Defined.

(** That history: the frame written twice, and what each connection reads. *)
Example history_1 :
  (λ '(_, w, rs), (map is_ok rs, map (λ k, decode_stream (received k 9 (nt_log w))) [0; 3]%nat, nt_log w)) <$>
    run (H:=quiet_reader) (λ _, true) [OSend sample "{}"; OSend sample "[]"] (sample_client 8192 sample)
      (mkNet [] (λ i : nat, if (i =? 1)%nat then Some "reset" else None)) =
  let f x := "43 <109>1 0001-01-01T00:00:00Z h a 1 GC-1 - " +:+ x in
  Some ([true; true], [[]; [sdrop 3 (f "{}"); sdrop 3 (f "[]")]],
        [IDial None ":0" true; IWrite 0 (f "{}") false; IClose 0; IDial None ":0" true; IWrite 3 (f "{}") true;
         IWrite 3 (f "[]") true]).
Proof. vm_compute. reflexivity. Qed.

End TCPDeviations.

(** * The HTTP clients *)
Module HttpFacts.
Import Http.

Section Clients.
Variable bad_url : string → option string.
Variable json_compact : string → option string.
Variable is_print : Z → bool.

(** A request goes out exactly when its URL is accepted, and the send succeeds
    exactly on a 2xx answer to it. *)
Lemma post_iff what url body hs w w' res :
  post bad_url what url body hs w = (w', res) →
  wb_log w' = wb_log w ++ (match bad_url url with Some _ => [] | None => [mkRequest url hs body] end) ∧ wb_fate w' = wb_fate w ∧
  (is_ok res = true ↔ bad_url url = None ∧ ∃ st, wb_fate w (length (wb_log w)) = Ok st ∧ Z.quot st 100 = 2).
Proof.
  unfold post, Do. destruct (bad_url url) as [e|].
  { intros [= <- <-]. rewrite app_nil_r. split; [done|]. split; [done|]. cbn. split; [done|]. by intros [? _]. }
  intros [= <- <-]. split; [done|]. split; [done|]. unfold status_error. cbn.
  destruct (wb_fate w _) as [st|e]; [|cbn; split; [done|by intros (_ & st & ? & _)]].
  destruct (Z.eqb_spec (Z.quot st 100) 2); cbn; split; try done; [eauto|].
  by intros (_ & ? & [= ->] & ?).
Qed.

Lemma insert_if_lookup (v key k : string) (m : gmap string string) :
  (if v =s? "" then m else <[key := v]> m) !! k = if (k =s? key) && negb (v =s? "") then Some v else m !! k.
Proof.
  destruct (v =s? ""); [by rewrite andb_false_r|]. rewrite andb_true_r.
  destruct (String.eqb_spec k key) as [->|]; [by rewrite lookup_insert_eq|by rewrite lookup_insert_ne by congruence].
Qed.

(** The labels a Loki line carries: the rule and the severity of the event win
    over the configured labels, and those over the name of the program. *)
Lemma loki_labels_lookup cfg e k :
  loki_labels cfg e !! k =
    if (k =s? "severity") && negb (ev_Severity e =s? "") then Some (ev_Severity e)
    else if (k =s? "rule_id") && negb (ev_RuleID e =s? "") then Some (ev_RuleID e)
    else match lk_Labels cfg !! k with
         | Some v => Some v
         | None => if k =s? "app" then Some "ghostcatcher" else None
         end.
Proof.
  assert ((lk_Labels cfg ∪ {["app" := "ghostcatcher"]}) !! k =
          match lk_Labels cfg !! k with
          | Some v => Some v | None => if k =s? "app" then Some "ghostcatcher" else None end) as Hu.
  { rewrite lookup_union. destruct (lk_Labels cfg !! k) as [v|]; [by rewrite union_Some_l|].
    rewrite (left_id_L None (∪)). destruct (String.eqb_spec k "app") as [->|Hk]; [by rewrite lookup_singleton_eq|].
    by rewrite lookup_singleton_ne by congruence. }
  unfold loki_labels. by rewrite !insert_if_lookup, Hu.
Qed.

Lemma split_no_nl s r : no_nl s = true → split nl (s +:+ String nl r) = s :: split nl r.
Proof.
  induction s as [|c s IH]; [done|]. unfold no_nl. cbn [sforall]. intros [Hc Hs]%andb_true_iff. apply negb_true_iff in Hc.
  change (String c s +:+ String nl r) with (String c (s +:+ String nl r)). cbn [split]. by rewrite Hc, IH.
Qed.

(** A bulk request has two lines, the action and the event, whatever the name
    of the index is. *)
Lemma bulk_body_lines index raw :
  no_nl raw = true → split nl (bulk_body is_print index raw) = [bulk_action is_print index; raw; ""].
Proof.
  intros Hr. unfold bulk_body. change (str nl +:+ raw +:+ str nl) with (String nl (raw +:+ str nl)).
  rewrite split_no_nl.
  - f_equal. change (raw +:+ str nl) with (raw +:+ String nl ""). by rewrite split_no_nl.
  - unfold bulk_action. rewrite !no_nl_app, Quote_no_nl. done.
Qed.

(** A line that is not JSON is posted to Splunk as an empty body, and counts as
    sent if the server accepts that. *)
Lemma splunk_drops_error cfg e raw w :
  json_compact raw = None → bad_url (sh_URL cfg) = None → wb_fate w (length (wb_log w)) = Ok 200 →
  ∃ w' rq, Send_splunk bad_url json_compact cfg e raw w = (w', Ok tt) ∧ wb_log w' = wb_log w ++ [rq] ∧ rq_Body rq = "".
Proof.
  intros Hj Hu Hf. unfold Send_splunk, splunk_body, post, Do. rewrite Hj, Hu, Hf. by eexists _, _.
Qed.

End Clients.
End HttpFacts.

(** * The sinks of a configuration *)
Module SinkFacts.
Import Sinks.

Section Facts.
Context `{FileReader} (append_certs : string → bool) (bad_url : string → option string)
  (json_compact : string → option string) (is_print : Z → bool).

#[local] Existing Instances tcp_sink splunk_sink elastic_sink loki_sink any_sink.

Definition names (ss : list AnySink) : list string :=
  map (Sinks.Name (Sink:=any_sink append_certs bad_url json_compact is_print)) ss.

Lemma name_ok {A} (r : result A) (f : A → AnySink) n name :
  (∀ a, Sinks.Name (Sink:=any_sink append_certs bad_url json_compact is_print) (f a) = n) →
  name ∈ names (f <$> ok_list r) ↔ name = n ∧ is_ok r = true.
Proof.
  intros Hn. unfold names. destruct r as [a|e]; cbn [ok_list fmap list_fmap map is_ok].
  - rewrite list_elem_of_singleton, Hn. naive_solver.
  - rewrite elem_of_nil. naive_solver.
Qed.

Lemma names_app a b : names (a ++ b) = names a ++ names b.
Proof. apply map_app. Qed.

Lemma name_if (b : bool) l name n P :
  (name ∈ names l ↔ name = n ∧ P) → name ∈ names (if b then l else []) ↔ name = n ∧ b = true ∧ P.
Proof. intros Hl. destruct b; [rewrite Hl|cbn; rewrite elem_of_nil]; naive_solver. Qed.

Lemma name_sink {A} (f : A → AnySink) n (b : bool) (r : result A) name :
  (∀ a, Sinks.Name (Sink:=any_sink append_certs bad_url json_compact is_print) (f a) = n) →
  name ∈ names (if b then f <$> ok_list r else []) ↔ name = n ∧ b = true ∧ is_ok r = true.
Proof. intros Hn. by apply name_if, name_ok. Qed.

Lemma tcp_ok hostname pid c : is_ok (SyslogTCP.New hostname pid c) = true ↔ st_Enabled c = true.
Proof. unfold SyslogTCP.New. by destruct (st_Enabled c). Qed.

Ltac ok_cases :=
  repeat match goal with
  | |- context [negb ?b] => destruct b; cbn [negb]
  | |- context [?x =s? ?y] => destruct (String.eqb_spec x y); cbn [orb]
  end; cbn [is_ok]; naive_solver.

Lemma splunk_ok c :
  is_ok (Http.New_splunk c) = true ↔ sh_Enabled c = true ∧ sh_URL c ≠ "" ∧ sh_Token c ≠ "".
Proof. clear. unfold Http.New_splunk. ok_cases. Qed.

Lemma elastic_ok c :
  is_ok (Http.New_elastic c) = true ↔ eb_Enabled c = true ∧ eb_URL c ≠ "" ∧ eb_Index c ≠ "".
Proof. clear. unfold Http.New_elastic. ok_cases. Qed.

Lemma loki_ok c : is_ok (Http.New_loki c) = true ↔ lk_Enabled c = true ∧ lk_URL c ≠ "".
Proof. clear. unfold Http.New_loki. ok_cases. Qed.

(** A destination is used exactly when it is enabled and complete; the TCP
    client needs no host to be built. *)
Lemma initSinks_names hostname pid cfg name :
  name ∈ names (initSinks hostname pid cfg) ↔
    (name = "syslog-tcp" ∧ st_Enabled (cfg_SyslogTCP cfg) = true) ∨
    (name = "splunk-hec" ∧ sh_Enabled (cfg_SplunkHEC cfg) = true ∧ sh_URL (cfg_SplunkHEC cfg) ≠ "" ∧
       sh_Token (cfg_SplunkHEC cfg) ≠ "") ∨
    (name = "elastic-bulk" ∧ eb_Enabled (cfg_ElasticBulk cfg) = true ∧ eb_URL (cfg_ElasticBulk cfg) ≠ "" ∧
       eb_Index (cfg_ElasticBulk cfg) ≠ "") ∨
    (name = "loki" ∧ lk_Enabled (cfg_LokiPush cfg) = true ∧ lk_URL (cfg_LokiPush cfg) ≠ "").
Proof.
  unfold initSinks. rewrite !names_app, !elem_of_app.
  rewrite (name_sink TCP "syslog-tcp"), (name_sink Splunk "splunk-hec"), (name_sink Elastic "elastic-bulk"),
    (name_sink Loki "loki") by done.
  rewrite tcp_ok, splunk_ok, elastic_ok, loki_ok. change (st_Enabled (_ <| st_Format := "" |>)) with (st_Enabled (cfg_SyslogTCP cfg)).
  clear. tauto.
Qed.

Definition limit_ok (s : AnySink) : Prop :=
  match s with TCP c => 0 ≤ st_MaxMsgBytes (SyslogTCP.tc_cfg c) | _ => True end.

Lemma send_go_cfg n framed : ∀ c w c' w' res,
  SyslogTCP.send_go append_certs n framed c w = (c', w', res) → SyslogTCP.tc_cfg c' = SyslogTCP.tc_cfg c.
Proof.
  induction n as [|n IH]; intros c w c' w' res; cbn [SyslogTCP.send_go]; [by intros [= <- <- <-]|].
  destruct (match SyslogTCP.tc_conn c with Some k => (w, Ok k) | None => SyslogTCP.dial append_certs c w end) as [w1 [k|e]];
    [|by intros [= <- <- <-]].
  destruct (SyslogTCP.net_write k framed w1) as [w2 [e|]]; [|by intros [= <- <- <-]].
  destruct (S n =? 2)%nat; [|by intros [= <- <- <-]]. intros Hs%IH. done.
Qed.

Lemma sink_sends e raw s w :
  limit_ok s → ∃ s' w' r,
    Sinks.Send (Sink:=any_sink append_certs bad_url json_compact is_print) e raw s w = Some (s', w', r) ∧ limit_ok s'.
Proof.
  intros Hl. destruct s as [c|c|c|c]; cbn; try by eexists _, _, _.
  unfold SyslogTCP.Send, SyslogTCP.frame, SyslogTCP.cut. cbn in Hl.
  destruct (Z.ltb_spec (st_MaxMsgBytes (SyslogTCP.tc_cfg c)) 0); [lia|].
  assert (∀ m, ∃ s' w' r, wrap_sink TCP <$> (on_net w <$> Some (SyslogTCP.send_go append_certs 2 m c (wd_net w))) = Some (s', w', r) ∧ limit_ok s') as Hs.
  { intros m. destruct (SyslogTCP.send_go _ _ _ _ _) as [[c' n'] r] eqn:Hg. apply send_go_cfg in Hg.
    eexists _, _, _. split; [done|]. cbn. by rewrite Hg. }
  destruct (_ <? slen _); apply Hs.
Qed.

(** The sinks do not depend on each other: every one is tried, whatever the
    earlier ones answered, and its result is the one that decides about the
    spool. *)
Lemma send_each_all e raw ss : ∀ w,
  Forall limit_ok ss → ∃ ss' w' rs,
    send_each append_certs bad_url json_compact is_print e raw ss w = Some (ss', w', rs) ∧
    length rs = length ss ∧ Forall limit_ok ss'.
Proof.
  induction ss as [|s ss IH]; intros w Hl; [by exists [], w, []|]. inversion_clear Hl as [|? ? Hs Hss].
  destruct (sink_sends e raw s w Hs) as (s' & w1 & r & Hr & Hs').
  destruct (IH w1 Hss) as (ss' & w2 & rs & Hrs & Hlen & Hss').
  exists (s' :: ss'), w2, (r :: rs). cbn [send_each]. rewrite Hr. cbn [mbind option_bind]. rewrite Hrs. cbn.
  rewrite Hlen. repeat split. by constructor.
Qed.

End Facts.
End SinkFacts.

(** * A datagram *)
Module UDPSamples.
Import SyslogUDP UDPFacts.

Definition boot : Boot := mkBoot (Err "none") (λ a, Ok a) (λ _, Ok tt) 77.
Definition udp_cfg : SyslogUDPConfig :=
  zero_SyslogUDPConfig <| su_Enabled := true |> <| su_Host := "siem" |> <| su_Port := 514 |> <| su_Facility := "AuthPriv" |>.
Definition udp_client : Client :=
  mkClient (udp_cfg <| su_Format := "rfc5424" |> <| su_MaxMsgBytes := 8192 |> <| su_AppName := "ghostcatcher" |>
              <| su_Hostname := "localhost" |>) "localhost" 77.
Definition udp_event : Event := zero_Event <| ev_RuleID := "GC 1" |> <| ev_Severity := "critical" |>.

Example udp_datagram_parses_witness :
  ∃ line, Send (λ _, true) (λ _, Ok tt) (Some udp_client) 0 udp_event "{}" = (Ok tt, [line]) ∧ 0 ≤ 10 ≤ 23 ∧
    parse5424 line = Some (10 * 8 + severityToSyslog (ev_Severity udp_event),
      [GoTime.format_millis (ev_Timestamp udp_event); uc_host udp_client; su_AppName (uc_cfg udp_client);
       proc_id udp_client; msg_id (ev_RuleID udp_event); "-"],
      trimToMax "{}" (su_MaxMsgBytes (uc_cfg udp_client))).
Proof.
  apply (udp_datagram_parses (λ _, true) boot udp_cfg udp_client (λ _, Ok tt) 0 udp_event "{}" 10).
  - vm_compute. reflexivity.
  - vm_compute. reflexivity.
  - repeat constructor; vm_compute; reflexivity.
  - vm_compute. reflexivity.
Defined.

Example datagram_1 :
  datagram (λ _, true) udp_client 0 udp_event "{}" =
    Ok "<82>1 0001-01-01T00:00:00.000Z localhost ghostcatcher 77 - - {}".
Proof. vm_compute. reflexivity. Qed.

(** A facility that is not one is found only when an event is sent, and then
    for every event. *)
Lemma bad_facility_fails_all is_print write c now ev raw err :
  parseFacility is_print (su_Facility (uc_cfg c)) = Err err →
  Send is_print write (Some c) now ev raw = (Err err, []).
Proof. intros Hf. unfold Send, datagram. by rewrite Hf. Qed.

End UDPSamples.
