(* ===== verification/Detect.v ===== *)
(** What the detectors share: the event they build, the learning mode, and the
    helpers that several packages of [internal/detect] repeat. *)
From S2P Require Export Config Event Baseline.

(** The fields every detector fills in the same way. *)
Definition route_event (pack : Pack) (agentVer : string) (now : Time) (ruleID : string) (conf : Z)
  (learning : bool) (entity : Entity) (sigs : list string) (evidence : string) : Event :=
  zero_Event
    <| ev_SchemaVersion := SchemaVersion |>
    <| ev_AgentVersion := agentVer |>
    <| ev_Timestamp := now |>
    <| ev_RuleID := ruleID |>
    <| ev_RulePackVersion := pk_Version pack |>
    <| ev_Confidence := conf |>
    <| ev_Severity := SeverityFromConfidence conf learning |>
    <| ev_Entity := entity |>
    <| ev_Signals := sigs |>
    <| ev_Evidence := evidence |>.

Definition with_labels (src typ anchor band : string) (e : Event) : Event :=
  e <| ev_Src := src |> <| ev_Type := typ |> <| ev_Anchor := anchor |> <| ev_ConfBand := band |>.

(** The score, at least [floor]; an unknown rule scores 0. *)
Definition score_floor (pack : Pack) (ruleID : string) (sigs : list string) (floor : Z) : Z :=
  let conf := fst (Score pack ruleID sigs) in if conf <? floor then floor else conf.


(** [cfg.LearningMode || !snap.IsCommitted()], unless alerts are allowed before
    the first commit. *)
Definition learning_of (cfg : Config) (snap : Snapshot) : bool :=
  if cfg_FirstRunAllowAlerts cfg then cfg_LearningMode cfg
  else cfg_LearningMode cfg || negb (IsCommitted snap).

(** [learning || conf < cfg.MinConfidenceAlert] *)
Definition held_back (cfg : Config) (learning : bool) (conf : Z) : bool :=
  learning || (conf <? cfg_MinConfidenceAlert cfg).

(** An event of a periodic scan; [learning] is what the severity is computed
    with, [only] the field [LearningOnly]. *)
Definition scan_event (pack : Pack) (agentVer : string) (now : Time) (ruleID : string) (tech : list string)
  (tactic : string) (conf : Z) (learning : bool) (entity : Entity) (sigs : list string) (evidence : string)
  (only : bool) : Event :=
  (route_event pack agentVer now ruleID conf learning entity sigs evidence)
    <| ev_TechniqueIDs := tech |> <| ev_Tactic := tactic |> <| ev_LearningOnly := only |>.

(** The fields of the event. *)
Lemma NormalizeDedup_signals e : ev_Signals (NormalizeDedup e) = ev_Signals e.
Proof. unfold NormalizeDedup. by destruct (ev_DedupKey e =s? ""). Qed.

Lemma NormalizeDedup_entity e : ev_Entity (NormalizeDedup e) = ev_Entity e.
Proof. unfold NormalizeDedup. by destruct (ev_DedupKey e =s? ""). Qed.

Lemma NormalizeDedup_rule e : ev_RuleID (NormalizeDedup e) = ev_RuleID e.
Proof. unfold NormalizeDedup. by destruct (ev_DedupKey e =s? ""). Qed.

Lemma NormalizeDedup_learning e : ev_LearningOnly (NormalizeDedup e) = ev_LearningOnly e.
Proof. unfold NormalizeDedup. by destruct (ev_DedupKey e =s? ""). Qed.

Lemma NormalizeDedup_severity e : ev_Severity (NormalizeDedup e) = ev_Severity e.
Proof. unfold NormalizeDedup. by destruct (ev_DedupKey e =s? ""). Qed.

Lemma scan_event_signals pack v now r tech tac conf le en sigs evd o :
  ev_Signals (scan_event pack v now r tech tac conf le en sigs evd o) = sigs.
Proof. reflexivity. Qed.

Lemma scan_event_entity pack v now r tech tac conf le en sigs evd o :
  ev_Entity (scan_event pack v now r tech tac conf le en sigs evd o) = en.
Proof. reflexivity. Qed.

Lemma scan_event_rule pack v now r tech tac conf le en sigs evd o :
  ev_RuleID (scan_event pack v now r tech tac conf le en sigs evd o) = r.
Proof. reflexivity. Qed.

Definition nonempty_list {A} (l : list A) : bool := match l with [] => false | _ => true end.

Definition truncate (s : string) (n : Z) : string :=
  if slen s <=? n then s else stake (Z.to_nat n) s +:+ "…".

(** The set of the lower-cased, trimmed names. *)
Definition name_set (names : list string) : list string := map (λ n, to_lower (trim_space n)) names.

(** A read of a Go map; a nil map holds nothing. *)
Definition glookup {V} (m : gomap V) (k : string) : option V := m ≫= lookup k.

(** A write.  Writing to a nil map panics in Go; every snapshot that is written
    to has been through [Load_baseline], which makes the maps. *)
Definition ginsert {V} (k : string) (v : V) (m : gomap V) : gomap V := <[k := v]> <$> m.

(** [!inBase || prev != hash] *)
Definition changed_since (files : gomap string) (path hash : string) : bool :=
  match glookup files path with Some prev => negb (prev =s? hash) | None => true end.

Section files.
Context `{FileReader} `{Stater} `{TreeWalker}.

(** [os.Stat] without an error. *)
Definition exists_ (path : string) : bool := match Stat path with FOk _ => true | _ => false end.

(** The lower-case hexadecimal SHA-256 of a file, empty on an error. *)
Definition fileSHA (path : string) : string :=
  match ReadFile path with Ok b => sha256_hex b | Err _ => "" end.

Definition walkFiles (root : string) (extensions : list string) : list string :=
  match Stat root with
  | FOk fi =>
      if fi_IsDir fi then
        map we_Path (List.filter (λ e,
          negb (we_Err e || we_IsDir e) &&
          match extensions with [] => true | _ => existsb (has_suffix (to_lower (we_Path e))) extensions end)
          (WalkDir root))
      else []
  | _ => []
  end.

(** The loop of the scanners that compare files with the baseline: a file that
    cannot be read is passed over. *)
Definition per_file (files : gomap string) (targets : list string)
  (f : string → string → string → bool → option Event) : list Event :=
  omap (λ path,
    match ReadFile path with
    | Err _ => None
    | Ok data =>
        let hash := fileSHA path in
        if hash =s? "" then None else f path data hash (changed_since files path hash)
    end) targets.

(** [recordPersistenceBaseline] of the persistence scanners. *)
Definition recordPersistenceBaseline (files : gomap string) (paths : list string) : gomap string :=
  fold_left (λ m p, let h := fileSHA p in if negb (h =s? "") then ginsert p h m else m) paths files.

End files.
