(* ===== verification/Privesc.v ===== *)
(** [internal/detect/privesc]: sudden-root detection.

    [tracker.go] remembers the credentials of each process instance;
    [privesc.go] turns a transition into an event.  Go iterates over a map in
    an unspecified order, which is a parameter where it matters. *)
From S2P Require Export Config Container Sensor Event.

(** * The tracker *)

(** A pid with its start time. *)
Definition ProcessKey : Type := Z * Z.

#[export] Instance ProcessKey_eq : EqDecision ProcessKey := _.
#[export] Instance ProcessKey_countable : Countable ProcessKey := _.

Record CredState := mkCredState {
  cs_UID : Z;
  cs_EUID : Z;
  cs_CapEff : string;
  cs_Comm : string;
  cs_Exe : string;
  cs_PPID : Z;
  cs_Ancestors : list string;
  cs_Container : string;
  cs_SeenAt : Time
}.

#[export] Instance eta_CredState : Eta CredState := λ c,
  mkCredState (cs_UID c) (cs_EUID c) (cs_CapEff c) (cs_Comm c) (cs_Exe c) (cs_PPID c) (cs_Ancestors c)
    (cs_Container c) (cs_SeenAt c).

Record Transition := mkTransition {
  tr_Key : ProcessKey;
  tr_Prev : CredState;
  tr_Curr : CredState;
  tr_Kind : string;
  tr_SeenAt : Time
}.

Record tracked := mkTracked { tk_state : CredState; tk_alerted : bool }.

Record Tracker := mkTracker { tk_procs : gmap ProcessKey tracked; tk_maxSize : Z }.

Definition NewTracker (maxSize : Z) : Tracker := mkTracker ∅ (if maxSize <=? 0 then 8192 else maxSize).

Definition trimLeftZeros (s : string) : string :=
  let out := trim_left (λ c, Ascii.eqb c "0" || Ascii.eqb c " ") s in
  if out =s? "" then "0" else out.

Definition capLooksFull (capEff : string) : bool := 10 <=? slen (trimLeftZeros capEff).

Definition transitionKind (prev curr : CredState) : string :=
  if negb (negb (cs_UID prev =? 0) && negb (cs_EUID prev =? 0)) then ""
  else if cs_EUID curr =? 0 then "euid_root"
  else if negb (capLooksFull (cs_CapEff prev)) && capLooksFull (cs_CapEff curr) then "capeff_full"
  else "".

(** Deletes entries in the given order until few enough are left. *)
Fixpoint delete_until (limit : Z) (order : list ProcessKey) (m : gmap ProcessKey tracked) : gmap ProcessKey tracked :=
  match order with
  | [] => m
  | k :: order => if Z.of_nat (size m) <? limit then m else delete_until limit order (delete k m)
  end.

Section tracker.
(** The order in which [range] visits a map. *)
Variable range : gmap ProcessKey tracked → list ProcessKey.

Definition pruneLocked (maxSize : Z) (m : gmap ProcessKey tracked) (now : Time) : gmap ProcessKey tracked :=
  let cutoff := time_add now (- (10 * minute)) in
  let m := filter (λ '(_, v), time_before (cs_SeenAt (tk_state v)) cutoff = false) m in
  delete_until (Z.quot (maxSize * 3) 4) (range m) m.

Definition Observe (now : Time) (t : Tracker) (key : ProcessKey) (curr : CredState) : Tracker * option Transition :=
  if fst key <=? 0 then (t, None)
  else
    let curr := if time_is_zero (cs_SeenAt curr) then curr <| cs_SeenAt := now |> else curr in
    let put m v := mkTracker (<[key := v]> m) (tk_maxSize t) in
    match tk_procs t !! key with
    | None =>
        let m := if tk_maxSize t <=? Z.of_nat (size (tk_procs t))
                 then pruneLocked (tk_maxSize t) (tk_procs t) (cs_SeenAt curr) else tk_procs t in
        (put m (mkTracked curr false), None)
    | Some prev =>
        if tk_alerted prev then (put (tk_procs t) (mkTracked curr true), None)
        else
          let kind := transitionKind (tk_state prev) curr in
          (put (tk_procs t) (mkTracked curr (negb (kind =s? ""))),
           if kind =s? "" then None
           else Some (mkTransition key (tk_state prev) curr kind (cs_SeenAt curr)))
    end.

Definition Forget (t : Tracker) (key : ProcessKey) : Tracker :=
  mkTracker (delete key (tk_procs t)) (tk_maxSize t).

Definition RetainOnly (t : Tracker) (live : list ProcessKey) : Tracker :=
  mkTracker (filter (λ '(k, _), k ∈ live) (tk_procs t)) (tk_maxSize t).

Definition Len (t : Tracker) : Z := Z.of_nat (size (tk_procs t)).

(** * The detector *)

Definition RuleSuddenRoot : string := "PROC_SUDDEN_ROOT".

Definition DefaultAllowedExeBasenames : list string :=
  ["sudo"; "sudoedit"; "su"; "pkexec"; "doas";
   "login"; "sshd"; "passwd"; "chsh"; "chfn"; "newgrp"; "gpasswd";
   "mount"; "umount"; "fusermount"; "fusermount3";
   "ping"; "ping6"; "traceroute"; "traceroute6";
   "crontab"; "at"; "newuidmap"; "newgidmap"].

Definition DefaultAllowedAncestorComms : list string := ["sudo"; "su"; "pkexec"; "doas"; "login"].

(** The set of defaults and non-blank extras, in lower case. *)
Definition lower_set (defaults extra : list string) : list string :=
  map to_lower defaults ++ List.filter (λ b, negb (b =s? "")) (map (to_lower ∘ trim_space) extra).

Definition allowedExeSet (extra : list string) : list string := lower_set DefaultAllowedExeBasenames extra.
Definition allowedAncestorSet (extra : list string) : list string := lower_set DefaultAllowedAncestorComms extra.

Definition isDefaultAllowedBasename (base : string) : bool := mem_str base (allowedExeSet []).

Definition stripDeletedSuffix (exe : string) : string := trim_space (trim_suffix exe " (deleted)").

Definition exe_base (exe : string) : string := to_lower (path_base (stripDeletedSuffix exe)).

Definition isTempPath (exe : string) : bool :=
  existsb (has_prefix (to_lower exe)) ["/tmp/"; "/var/tmp/"; "/dev/shm/"; "/run/user/"].

Definition containsAny (sigs prefixes : list string) : bool :=
  existsb (λ s, existsb (λ p, (p =s? s) || has_prefix s p) prefixes) sigs.

Definition ancestorAllowlisted (cfg : Config) (ancs : list string) : bool :=
  existsb (λ a, mem_str (to_lower (trim_space a)) (allowedAncestorSet (sr_AllowedAncestorComms (cfg_SuddenRoot cfg)))) ancs.

Definition ancestorComm (tr : Transition) : string :=
  match cs_Ancestors (tr_Curr tr) with a :: _ => a | [] => "" end.

Definition isAllowlisted (cfg : Config) (tr : Transition) : bool :=
  let bases := allowedExeSet (sr_AllowedExeBasenames (cfg_SuddenRoot cfg)) in
  mem_str (exe_base (cs_Exe (tr_Curr tr))) bases ||
  mem_str (to_lower (cs_Comm (tr_Curr tr))) bases ||
  mem_str (exe_base (cs_Exe (tr_Prev tr))) bases ||
  mem_str (to_lower (cs_Comm (tr_Prev tr))) bases ||
  ancestorAllowlisted cfg (cs_Ancestors (tr_Curr tr)).

(** The signal about where the executable is. *)
Definition exe_signal (exe : string) : list string :=
  if contains exe "memfd:" then ["exe_memfd"]
  else if contains exe "(deleted)" then ["exe_deleted"]
  else if isTempPath exe then ["exe_temp_path"]
  else if negb (exe_base exe =s? "") && negb (isDefaultAllowedBasename (exe_base exe))
  then ["exe_outside_helper_allowlist"] else [].

Definition sudden_root_signals (cfg : Config) (tr : Transition) : list string :=
  let prev := tr_Prev tr in
  let curr := tr_Curr tr in
  ["cred_transition"; "transition:" +:+ tr_Kind tr; "prev_uid:" +:+ itoa (cs_UID prev);
   "prev_euid:" +:+ itoa (cs_EUID prev); "new_euid:" +:+ itoa (cs_EUID curr); "comm:" +:+ cs_Comm curr] ++
  (if negb (cs_CapEff curr =s? "") then ["capeff:" +:+ cs_CapEff curr] else []) ++
  (if negb (cs_CapEff prev =s? "") && negb (cs_CapEff prev =s? cs_CapEff curr)
   then ["prev_capeff:" +:+ cs_CapEff prev] else []) ++
  exe_signal (cs_Exe curr) ++
  (if negb (cs_Container curr =s? "") then ["container:" +:+ cs_Container curr] else []) ++
  (if negb (ancestorAllowlisted cfg (cs_Ancestors curr)) && negb (ancestorAllowlisted cfg [ancestorComm tr])
   then ["unexpected_ancestry"] else []).

(** The least confidence that the pack's scoring can lead to. *)
Definition sudden_root_floor (sigs : list string) : Z :=
  let floor := if containsAny sigs ["exe_memfd"; "exe_deleted"; "exe_temp_path"] then 90 else 80 in
  if containsAny sigs ["container:"] && containsAny sigs ["exe_outside_helper_allowlist"] then 92 else floor.

Definition buildEvent (cfg : Config) (pack : Pack) (agentVer : string) (tr : Transition) : option Event :=
  if isAllowlisted cfg tr then None
  else
    let prev := tr_Prev tr in
    let curr := tr_Curr tr in
    let sigs := sudden_root_signals cfg tr in
    let conf := match Score pack RuleSuddenRoot sigs with (c, true) => c | (_, false) => 80 end in
    let conf := if conf <? sudden_root_floor sigs then sudden_root_floor sigs else conf in
    let learning := cfg_LearningMode cfg in
    let pid := fst (tr_Key tr) in
    Some (NormalizeDedup (zero_Event
      <| ev_SchemaVersion := SchemaVersion |>
      <| ev_AgentVersion := agentVer |>
      <| ev_Timestamp := tr_SeenAt tr |>
      <| ev_RuleID := RuleSuddenRoot |>
      <| ev_RulePackVersion := pk_Version pack |>
      <| ev_TechniqueIDs := ["T1068"] |>
      <| ev_Tactic := "privilege-escalation" |>
      <| ev_Confidence := conf |>
      <| ev_Severity := SeverityFromConfidence conf learning |>
      <| ev_Entity := mkEntity EntityProcess (itoa pid) (cs_Exe curr) "" |>
      <| ev_Signals := sigs |>
      <| ev_Evidence := "sudden_root pid=" +:+ itoa pid +:+ " starttime=" +:+ itoa (snd (tr_Key tr)) +:+ " " +:+
           tr_Kind tr +:+ " uid " +:+ itoa (cs_UID prev) +:+ "/" +:+ itoa (cs_EUID prev) +:+ " → " +:+
           itoa (cs_UID curr) +:+ "/" +:+ itoa (cs_EUID curr) +:+ " exe=" +:+ cs_Exe curr |>
      <| ev_LearningOnly := learning |>
      <| ev_Process := Some (mkProcessContext pid (cs_PPID curr) (cs_Comm curr) [] (cs_Exe curr) (cs_UID curr)
           (cs_EUID curr) (cs_CapEff curr) (cs_Ancestors curr) "" "") |>
      <| ev_Container := if negb (cs_Container curr =s? "")
                         then Some (mkContainerContext (cs_Container curr) "" "") else None |>)).

Section proc.
Context `{FileReader} `{DirReader} `{LinkReader}.

Definition readCred (pid : Z) (now : Time) : option (CredState * ProcessKey) :=
  match ReadStartTime pid with
  | (_, false) => None
  | (start, true) =>
      match ReadStatus pid with
      | (_, false) => None
      | (st, true) =>
          let comm := match Procfs.Comm pid with
                      | (c, true) => if negb (c =s? "") then c else st_Name st
                      | (_, false) => st_Name st
                      end in
          Some (mkCredState (st_RealUID st) (st_EffUID st) (st_CapEff st) comm (ResolveExe pid)
                  (fst (PPid pid)) (Ancestry pid 6)
                  (match ReadCgroup pid with (cg, true) => ci_Runtime (Classify cg) | _ => "" end) now,
                (pid, start))
      end
  end.

(** The loop of [Snapshot]: the tracker, the live keys and the events so far. *)
Definition snapshot_pid (cfg : Config) (pack : Pack) (agentVer : string) (now : Time)
  (acc : Tracker * list ProcessKey * list Event) (pid : Z) : Tracker * list ProcessKey * list Event :=
  let '(t, live, out) := acc in
  match readCred pid now with
  | None => acc
  | Some (st, key) =>
      let '(t, tr) := Observe now t key st in
      let out := match tr with
                 | Some tr => match buildEvent cfg pack agentVer tr with Some ev => out ++ [ev] | None => out end
                 | None => out
                 end in
      (t, live ++ [key], out)
  end.

Definition Snapshot_creds (cfg : Config) (pack : Pack) (agentVer : string) (now : Time) (t : Tracker)
  : Tracker * list Event * bool :=
  if negb (sr_Enabled (cfg_SuddenRoot cfg)) then (t, [], true)
  else match Processes with
       | (_, false) => (t, [], false)
       | (pids, true) =>
           let '(t, live, out) := fold_left (snapshot_pid cfg pack agentVer now) pids (t, [], []) in
           (RetainOnly t live, out, true)
       end.

Definition RouteSensorEvent_privesc (cfg : Config) (pack : Pack) (agentVer : string) (now : Time) (t : Tracker)
  (ev : SEvent) : Tracker * option Event :=
  if negb (sr_Enabled (cfg_SuddenRoot cfg)) then (t, None)
  else if negb (sn_Kind ev =s? KindExec) || (sn_PID ev <=? 0) then (t, None)
  else
    let now := if time_is_zero (sn_When ev) then now else sn_When ev in
    match readCred (sn_PID ev) now with
    | None => (t, None)
    | Some (st, key) =>
        let st := if (cs_Comm st =s? "") && negb (sn_Comm ev =s? "") then st <| cs_Comm := sn_Comm ev |> else st in
        let st := if (cs_Exe st =s? "") && negb (sn_Path ev =s? "") then st <| cs_Exe := sn_Path ev |> else st in
        let '(t, tr) := Observe now t key st in
        (t, match tr with Some tr => buildEvent cfg pack agentVer tr | None => None end)
    end.

End proc.
End tracker.

(** An executable that cannot be read counts as outside the helpers, because the
    base name of the empty path is a dot. *)
Example empty_exe_is_outside : exe_signal "" = ["exe_outside_helper_allowlist"].
Proof. vm_compute. reflexivity. Qed.
