(* ===== verification/PrivescFacts.v ===== *)
(** Theorems on the credential tracker: when it reports a transition, how often,
    and how much it remembers. *)
From S2P Require Export Privesc.

Lemma time_set_uid c now :
  let c' := if time_is_zero (cs_SeenAt c) then c <| cs_SeenAt := now |> else c in
  cs_EUID c' = cs_EUID c ∧ cs_UID c' = cs_UID c ∧ cs_CapEff c' = cs_CapEff c.
Proof. cbv zeta. by destruct (time_is_zero (cs_SeenAt c)). Qed.

Definition unprivileged (c : CredState) : Prop := cs_UID c ≠ 0 ∧ cs_EUID c ≠ 0.

Definition gained (prev curr : CredState) : Prop :=
  cs_EUID curr = 0 ∨ (capLooksFull (cs_CapEff prev) = false ∧ capLooksFull (cs_CapEff curr) = true).

Lemma transitionKind_iff prev curr :
  transitionKind prev curr ≠ "" ↔ unprivileged prev ∧ gained prev curr.
Proof.
  unfold transitionKind, unprivileged, gained.
  destruct (Z.eqb_spec (cs_UID prev) 0), (Z.eqb_spec (cs_EUID prev) 0); cbn; try naive_solver.
  destruct (Z.eqb_spec (cs_EUID curr) 0); [naive_solver|].
  destruct (capLooksFull (cs_CapEff prev)), (capLooksFull (cs_CapEff curr)); cbn; naive_solver.
Qed.

Section facts.
Variable range : gmap ProcessKey tracked → list ProcessKey.


(** * Sequences of operations *)

Inductive t_op :=
| OpObserve (now : Time) (key : ProcessKey) (curr : CredState)
| OpForget (key : ProcessKey)
| OpRetain (live : list ProcessKey).

Definition t_step (t : Tracker) (op : t_op) : Tracker * option Transition :=
  match op with
  | OpObserve now key curr => Observe range now t key curr
  | OpForget key => (Forget t key, None)
  | OpRetain live => (RetainOnly t live, None)
  end.

Fixpoint t_run (t : Tracker) (ops : list t_op) : Tracker :=
  match ops with [] => t | op :: ops => t_run (t_step t op).1 ops end.

Fixpoint t_alerts (t : Tracker) (ops : list t_op) : list Transition :=
  match ops with
  | [] => []
  | op :: ops => match (t_step t op).2 with Some tr => [tr] | None => [] end ++ t_alerts (t_step t op).1 ops
  end.

Definition is_alerted (t : Tracker) (key : ProcessKey) : Prop :=
  ∃ v, tk_procs t !! key = Some v ∧ tk_alerted v = true.

Lemma delete_until_keeps limit order m (k : ProcessKey) v :
  delete_until limit order m !! k = Some v → m !! k = Some v.
Proof.
  revert m. induction order as [|x order IH]; intros m; [done|]. cbn. case_match; [done|].
  intros Hd%IH. by apply lookup_delete_Some in Hd as [_ ?].
Qed.

Lemma prune_keeps maxSize m now k v :
  pruneLocked range maxSize m now !! k = Some v → m !! k = Some v.
Proof. unfold pruneLocked. intros H%delete_until_keeps. by apply map_lookup_filter_Some in H as [? _]. Qed.

(** An alerted instance stays alerted for as long as it is remembered. *)
Lemma step_alerted t op key :
  is_alerted t key → (∃ tr, (t_step t op).2 = Some tr ∧ tr_Key tr = key) ∨ is_Some (tk_procs (t_step t op).1 !! key) →
  (¬ ∃ tr, (t_step t op).2 = Some tr ∧ tr_Key tr = key) ∧ is_alerted (t_step t op).1 key.
Proof.
  intros (v & Hv & Ha) Hor. destruct op as [now k curr|k|live]; cbn [t_step] in *.
  - unfold Observe in *. destruct (Z.leb_spec (fst k) 0) as [Hk|Hk]; cbn [fst snd] in *.
    { split; [naive_solver|]. by exists v. }
    set (c := if time_is_zero _ then _ else _) in *. destruct (decide (k = key)) as [->|Hne].
    + rewrite Hv in *. rewrite Ha in *. cbn [fst snd] in *. split; [naive_solver|].
      exists (mkTracked c true). cbn. by rewrite lookup_insert_eq.
    + destruct (tk_procs t !! k) as [p|] eqn:Hp.
      * assert (Hmap : ∀ w m, is_alerted (mkTracker (<[k := w]> (tk_procs t)) m) key).
        { intros w m. exists v. cbn. by rewrite lookup_insert_ne. }
        destruct (tk_alerted p); cbn [fst snd]; [split; [naive_solver|apply Hmap]|].
        split; [|apply Hmap]. case_match; naive_solver.
      * cbn [fst snd] in *. split; [naive_solver|]. destruct Hor as [(? & ? & _)|[w Hw]]; [done|].
        cbn in Hw. rewrite lookup_insert_ne in Hw by done. exists w. cbn. rewrite lookup_insert_ne by done.
        split; [done|]. case_match; [|congruence]. apply prune_keeps in Hw. congruence.
  - cbn in *. split; [naive_solver|]. destruct Hor as [(? & ? & _)|[w Hw]]; [done|].
    exists w. split; [done|]. apply lookup_delete_Some in Hw as [_ ?]. congruence.
  - cbn in *. split; [naive_solver|]. destruct Hor as [(? & ? & _)|[w Hw]]; [done|].
    exists w. split; [done|]. apply map_lookup_filter_Some in Hw as [? _]. congruence.
Qed.

Lemma Observe_alerts now t key curr t' tr :
  Observe range now t key curr = (t', Some tr) → tr_Key tr = key ∧ is_alerted t' key.
Proof.
  unfold Observe. case_match; [done|]. set (c := if time_is_zero _ then _ else _).
  destruct (tk_procs t !! key) as [p|]; [|done]. destruct (tk_alerted p); [done|].
  destruct (String.eqb_spec (transitionKind (tk_state p) c) "") as [|Hn]; [done|]. intros [= <- <-].
  split; [done|]. eexists. cbn. rewrite lookup_insert_eq. split; [done|]. done.
Qed.

(** A process instance is reported at most once while it is remembered: when
    a later sequence of observations, exits and sweeps reports it again, then
    at some point in between the tracker had forgotten it.  (Pruning a full
    table forgets reported instances too.) *)
Theorem realert_needs_forgetting now t key curr t1 tr ops tr2 :
  Observe range now t key curr = (t1, Some tr) → tr2 ∈ t_alerts t1 ops → tr_Key tr2 = key →
  ∃ ops1 ops2, ops = ops1 ++ ops2 ∧ tk_procs (t_run t1 ops1) !! key = None.
Proof.
  intros [_ Ha]%Observe_alerts. clear now curr tr t. revert t1 Ha.
  induction ops as [|op ops IH]; intros t Ha Hin Hk; cbn [t_alerts] in Hin; [by apply elem_of_nil in Hin|].
  destruct (tk_procs (t_step t op).1 !! key) as [v|] eqn:Hv.
  - destruct (step_alerted t op key Ha ltac:(right; eauto)) as [Hno Ha'].
    apply elem_of_app in Hin as [Hin|Hin].
    + exfalso. apply Hno. exists tr2. split; [|done]. destruct (t_step t op).2; [by apply list_elem_of_singleton in Hin as ->|by apply elem_of_nil in Hin].
    + destruct (IH _ Ha' Hin Hk) as (ops1 & ops2 & -> & Hn). by exists (op :: ops1), ops2.
  - exists [op], ops. done.
Qed.

(** * The table is bounded *)

Hypothesis range_all : ∀ m k, is_Some (m !! k) → k ∈ range m.

Lemma delete_until_size limit order m :
  (∀ k, is_Some (m !! k) → k ∈ order) →
  Z.of_nat (size (delete_until limit order m)) < Z.max 1 limit.
Proof.
  revert m. induction order as [|x order IH]; intros m Hall; cbn.
  - assert (m = ∅) as ->; [|rewrite map_size_empty; lia]. apply map_eq. intros k. rewrite lookup_empty.
    destruct (m !! k) eqn:E; [|done]. exfalso. by apply (elem_of_nil k), Hall; rewrite E.
  - destruct (Z.ltb_spec (Z.of_nat (size m)) limit); [lia|]. apply IH. intros k [v [Hne Hv]%lookup_delete_Some].
    assert (k ∈ x :: order) as [->|?]%elem_of_cons by (apply Hall; eauto); done.
Qed.

Lemma size_filter_le (P : ProcessKey * tracked → Prop) `{∀ x, Decision (P x)} (m : gmap ProcessKey tracked) :
  (size (filter P m) ≤ size m)%nat.
Proof. apply map_subseteq_size, map_filter_subseteq. Qed.

Definition bounded (t : Tracker) : Prop := 1 ≤ tk_maxSize t ∧ Z.of_nat (size (tk_procs t)) ≤ tk_maxSize t.

Lemma size_insert_present (m : gmap ProcessKey tracked) k v w : m !! k = Some v → size (<[k := w]> m) = size m.
Proof. intros H. by rewrite map_size_insert_Some. Qed.

Lemma step_bounded t op : bounded t → bounded (t_step t op).1 ∧ tk_maxSize (t_step t op).1 = tk_maxSize t.
Proof using range_all.
  intros [H1 H2]. unfold bounded. destruct op as [now key curr|key|live]; cbn [t_step].
  - unfold Observe. case_match; [done|]. destruct (tk_procs t !! key) as [p|] eqn:Hp.
    + destruct (tk_alerted p); cbn; (split; [|done]); (split; [done|]); by erewrite size_insert_present.
    + cbn. split; [|done]. split; [done|].
      assert (Hins : ∀ m : gmap ProcessKey tracked, ∀ v, Z.of_nat (size (<[key := v]> m)) ≤ Z.of_nat (size m) + 1).
      { intros m v. destruct (m !! key) eqn:E.
        - erewrite size_insert_present by done. lia.
        - rewrite map_size_insert_None by done. lia. }
      match goal with |- Z.of_nat (size (<[_ := ?v]> ?m)) ≤ _ => specialize (Hins m v); set (m' := m) in * end.
      assert (Z.of_nat (size m') < tk_maxSize t); [|lia]. unfold m'.
      destruct (Z.leb_spec (tk_maxSize t) (Z.of_nat (size (tk_procs t)))); [|lia]. unfold pruneLocked.
      match goal with |- Z.of_nat (size (delete_until ?l (range ?x) ?x)) < _ =>
        pose proof (delete_until_size l (range x) x (range_all x)) end.
      assert (Z.quot (tk_maxSize t * 3) 4 ≤ tk_maxSize t)
        by (rewrite Z.quot_div_nonneg by lia; apply Z.div_le_upper_bound; lia).
      lia.
  - cbn. split; [|done]. split; [done|]. pose proof (map_subseteq_size _ _ (delete_subseteq (tk_procs t) key)). lia.
  - cbn. split; [|done]. split; [done|]. pose proof (size_filter_le (λ '(k, _), k ∈ live) (tk_procs t)). lia.
Qed.

(** The tracker's memory is bounded: whatever is observed, in whatever order
    Go visits the map while pruning, the table never holds more entries than
    its maximum. *)
Theorem Tracker_bounded maxSize ops :
  Len (t_run (NewTracker maxSize) ops) ≤ tk_maxSize (NewTracker maxSize).
Proof using range_all.
  assert (Hgen : ∀ t, bounded t → bounded (t_run t ops) ∧ tk_maxSize (t_run t ops) = tk_maxSize t).
  { induction ops as [|op ops IH]; intros t Hb; [done|]. cbn. destruct (step_bounded t op Hb) as [Hb' He].
    destruct (IH _ Hb') as [? ?]. split; [done|congruence]. }
  destruct (Hgen (NewTracker maxSize)) as [[_ Hs] He].
  - unfold bounded, NewTracker. cbn. rewrite map_size_empty. case_match; lia.
  - unfold Len. by rewrite <-He.
Qed.

End facts.

Definition demo_cred (uid euid : Z) : CredState := mkCredState uid euid "0" "bash" "/bin/bash" 1 [] "" 7.

Definition key_order (m : gmap ProcessKey tracked) : list ProcessKey := (map_to_list m).*1.

Lemma key_order_all m k : is_Some (m !! k) → k ∈ key_order m.
Proof.
  intros [v Hv]. unfold key_order. apply list_elem_of_fmap. exists (k, v). split; [done|]. by apply elem_of_map_to_list.
Qed.

Lemma Tracker_bounded_witness :
  Len (t_run key_order (NewTracker 2) (map (λ p, OpObserve 7 (p, 1) (demo_cred 1000 1000)) [5; 6; 7; 8])) ≤ 2.
Proof. apply (Tracker_bounded key_order key_order_all 2). Defined.

Lemma realert_needs_forgetting_witness :
  let t0 := mkTracker {[ (5, 1) := mkTracked (demo_cred 1000 1000) false ]} 10 in
  let t1 := (Observe key_order 7 t0 (5, 1) (demo_cred 1000 0)).1 in
  let ops := [OpForget (5, 1); OpObserve 8 (5, 1) (demo_cred 1000 1000); OpObserve 9 (5, 1) (demo_cred 1000 0)] in
  ∃ ops1 ops2, ops = ops1 ++ ops2 ∧ tk_procs (t_run key_order t1 ops1) !! (5, 1) = None.
Proof.
  intros t0 t1 ops.
  apply (realert_needs_forgetting key_order 7 t0 (5, 1) (demo_cred 1000 0) t1
    (mkTransition (5, 1) (demo_cred 1000 1000) (demo_cred 1000 0) "euid_root" 7) ops
    (mkTransition (5, 1) (demo_cred 1000 1000) (demo_cred 1000 0) "euid_root" 7));
    [vm_compute; reflexivity|vm_compute; left|reflexivity].
Defined.
