(* ===== verification/Live.v ===== *)
(** The live routes: from one sensor event to at most one detection.

    [internal/detect/sensorlive], [credential], [containeresc], [defense], the
    docroot route of [web], and [copyfail].  The [massCounter] of [credential],
    a package variable, is threaded through.  [now] is the clock. *)
From S2P Require Export Container Sensor Detect.

Definition event_time (ev : SEvent) (now : Time) : Time := if time_is_zero (sn_When ev) then now else sn_When ev.

(** [ev.Path], or the [path] of the audit record. *)
Definition event_path (ev : SEvent) : string :=
  let path := trim_space (sn_Path ev) in
  if path =s? "" then trim_space (get (sn_Extra ev) "path") else path.

(** * sensorlive *)

Definition RulePtrace : string := "PROC_PTRACE_INJECT".
Definition RuleMemfdCreate : string := "PROC_MEMFD_EXEC".
Definition RuleInitModule : string := "KERNEL_MODULE_LOAD".

Definition FastKinds : list string :=
  [KindPtrace; KindInitModule; KindMemfdCreate; KindSocket; KindExec; KindOpenat; KindConnect; KindListen].

Definition live_rule (kind : string) : option (string * string * list string * string) :=
  if kind =s? KindPtrace then Some (RulePtrace, "ptrace_attach", ["T1055"], "defense-evasion")
  else if kind =s? KindMemfdCreate then Some (RuleMemfdCreate, "memfd_create", ["T1055.001"], "execution")
  else if kind =s? KindInitModule then Some (RuleInitModule, "init_module", ["T1547.006"], "persistence")
  else None.

Definition RouteSensorEvent_live (cfg : Config) (pack : Pack) (agentVer : string) (now : Time) (ev : SEvent) : option Event :=
  match live_rule (sn_Kind ev) with
  | None => None
  | Some (ruleID, sig, techniques, tactic) =>
      let sigs := [sig; "comm:" +:+ sn_Comm ev] in
      let conf := match Score pack ruleID sigs with (c, true) => c | (_, false) => 75 end in
      Some ((route_event pack agentVer (event_time ev now) ruleID conf (cfg_LearningMode cfg)
              (mkEntity EntityProcess (itoa (sn_PID ev)) "" "") sigs ("live_sensor:" +:+ sn_Kind ev))
            <| ev_TechniqueIDs := techniques |> <| ev_Tactic := tactic |>
            <| ev_Process := Some (mkProcessContext (sn_PID ev) (sn_PPID ev) (sn_Comm ev) (sn_Argv ev) ""
                 (sn_UID ev) 0 "" [] "" "") |>
            <| ev_LearningOnly := cfg_LearningMode cfg |>)
  end.

(** * credential *)

Definition RuleShadowRead : string := "SHADOW_READ_ANOMALY".
Definition RuleSSHPrivKey : string := "SSH_PRIVKEY_ACCESS".
Definition RuleSSHAgentAbuse : string := "SSH_AGENT_SOCKET_ABUSE".
Definition RuleCloudCred : string := "CLOUD_CRED_FILE_ACCESS".
Definition RuleAppSecret : string := "APP_SECRET_HARVEST".
Definition RuleMemReadCross : string := "PROC_MEM_READ_CROSS_UID".
Definition RuleCredMassAccess : string := "CRED_MASS_FILE_ACCESS".

Definition expectedShadowReaders : list string :=
  ["unix_chkpwd"; "passwd"; "chage"; "login"; "sshd"; "sudo"; "su"; "pam"].

Definition classifyCredPath (path : string) : option (string * string) :=
  let base := path_base path in
  if (path =s? "/etc/shadow") || (path =s? "/etc/gshadow") then Some (RuleShadowRead, "shadow_read")
  else if contains path "/.ssh/id_" || (has_prefix path "/etc/ssh/ssh_host_" && has_suffix path "_key")
  then Some (RuleSSHPrivKey, "ssh_privkey_access")
  else if contains path "/.aws/credentials" || contains path "/.config/gcloud/" || contains path "/.azure/" ||
          has_suffix path "/.kube/config" || contains path "/var/lib/kubelet/"
  then Some (RuleCloudCred, "cloud_cred_file_access")
  else if mem_str base [".env"; "wp-config.php"; "settings.py"; "application.properties"] ||
          (path =s? "/etc/mysql/debian.cnf")
  then Some (RuleAppSecret, "app_secret_harvest")
  else if contains path "/tmp/ssh-" && contains path "agent." then Some (RuleSSHAgentAbuse, "ssh_agent_socket_abuse")
  else if has_prefix path "/proc/" && has_suffix path "/mem" then Some (RuleMemReadCross, "proc_mem_read")
  else None.

(** [massCounter]: the sensitive opens of each pid. *)
Abbreviation massCounter := (gmap Z (list Time)).

Definition trackMass (mass : massCounter) (pid : Z) (now : Time) : massCounter * bool :=
  let cut := time_add now (- (60 * second)) in
  let kept := List.filter (λ t, time_after t cut) (default [] (mass !! pid)) ++ [now] in
  (<[pid := kept]> mass, (8 <? length kept)%nat).

Section routes.
Context `{FileReader}.

(** The event of one sensitive open, before the mass counter is asked. *)
Definition cred_event (cfg : Config) (pack : Pack) (agentVer : string) (now : Time) (ev : SEvent)
  (path ruleID sig : string) (ai : AInfo) : Event :=
  let sigs := [sig; "path:" +:+ path; "comm:" +:+ sn_Comm ev] ++
              (if negb (ai_SystemdUnit ai =s? "") then ["unit:" +:+ ai_SystemdUnit ai] else []) in
  NormalizeDedup (with_labels SrcAudit TypeEvent (ai_Anchor ai) ConfHigh
    (route_event pack agentVer (event_time ev now) ruleID (score_floor pack ruleID sigs 70) (cfg_LearningMode cfg)
       (mkEntity EntityFile path path "") sigs (path +:+ " opened by " +:+ sn_Comm ev))
    <| ev_Process := Some (mkProcessContext (sn_PID ev) 0 (sn_Comm ev) [] "" (sn_UID ev) 0 "" []
         (ai_CgroupPath ai) (ai_SystemdUnit ai)) |>).

Definition RouteOpenat (cfg : Config) (pack : Pack) (agentVer : string) (now : Time) (mass : massCounter)
  (ev : SEvent) : massCounter * option Event :=
  let path := event_path ev in
  if path =s? "" then (mass, None)
  else match classifyCredPath path with
  | None => (mass, None)
  | Some (ruleID, sig) =>
      let ai := FromPID (sn_PID ev) in
      if IsWatchedUnit (ai_SystemdUnit ai) (cfg_FPAllowlistUnits cfg) then (mass, None)
      else if (ruleID =s? RuleShadowRead) && mem_str (to_lower (sn_Comm ev)) expectedShadowReaders then (mass, None)
      else
        let out := cred_event cfg pack agentVer now ev path ruleID sig ai in
        let '(mass, many) := trackMass mass (sn_PID ev) (event_time ev now) in
        (mass,
         Some (if many then
                 NormalizeDedup (out <| ev_RuleID := RuleCredMassAccess |>
                   <| ev_Signals := "cred_mass_file_access" :: ev_Signals out |> <| ev_ConfBand := ConfMedium |>)
               else out))
  end.

Definition RoutePtraceMem (cfg : Config) (pack : Pack) (agentVer : string) (now : Time) (ev : SEvent) : option Event :=
  if negb (sn_Kind ev =s? KindPtrace) then None
  else
    let request := get (sn_Extra ev) "request" in
    if negb (request =s? "") && negb (contains (to_lower request) "peek") && negb (contains (to_lower request) "read")
    then None
    else
      let ai := FromPID (sn_PID ev) in
      let sigs := ["proc_mem_read_cross_uid"; "comm:" +:+ sn_Comm ev] in
      Some (NormalizeDedup (with_labels SrcAudit TypeEvent (ai_Anchor ai) ConfHigh
        (route_event pack agentVer now RuleMemReadCross (score_floor pack RuleMemReadCross sigs 75)
           (cfg_LearningMode cfg) (mkEntity EntityProcess (itoa (sn_PID ev)) "" "") sigs
           ("ptrace/mem read by " +:+ sn_Comm ev)))).

(** * containeresc *)

Definition RuleSocketAccess : string := "CONTAINER_SOCKET_ACCESS".
Definition RuleHostMount : string := "CONTAINER_HOST_MOUNT".
Definition RuleRuncSelfExe : string := "RUNC_SELF_EXE_WRITE".
Definition RuleCgroupRelease : string := "CGROUP_RELEASE_AGENT_WRITE".
Definition RulePrivilegedStart : string := "CONTAINER_PRIVILEGED_START".
Definition RuleLXDHostDisk : string := "LXD_HOST_DISK_ATTACH".
Definition RuleNSEscapeSetns : string := "NS_ESCAPE_SETNS".

Definition containerSockets : list string :=
  ["/var/run/docker.sock"; "/run/docker.sock"; "/run/containerd/containerd.sock";
   "/var/snap/lxd/common/lxd/unix.socket"].

Definition isContainerSocket (path : string) : bool :=
  existsb (λ s, (path =s? s) || (path_clean path =s? s)) containerSockets.

(** The event of a process that trips rule [ruleID]. *)
Definition proc_event (cfg : Config) (pack : Pack) (agentVer : string) (now : Time) (ev : SEvent) (anchor : string)
  (ruleID sig : string) (floor : Z) (evidence band : string) : Event :=
  let sigs := [sig; "comm:" +:+ sn_Comm ev] in
  NormalizeDedup (with_labels SrcAudit TypeEvent anchor band
    (route_event pack agentVer (event_time ev now) ruleID (score_floor pack ruleID sigs floor) (cfg_LearningMode cfg)
       (mkEntity EntityProcess (itoa (sn_PID ev)) (sn_Path ev) "") sigs evidence)).

Definition build (cfg : Config) (pack : Pack) (agentVer : string) (now : Time) (ev : SEvent)
  (ruleID sig evidence : string) : Event :=
  proc_event cfg pack agentVer now ev (ai_Anchor (FromPID (sn_PID ev))) ruleID sig 70 evidence ConfHigh.

Definition file_rule (path : string) : option (string * string) :=
  if isContainerSocket path then Some (RuleSocketAccess, "container_socket_access")
  else if contains path "release_agent" || contains path "notify_on_release"
  then Some (RuleCgroupRelease, "cgroup_release_agent_write")
  else if (path =s? "/proc/self/exe") || has_suffix path "/exe" then Some (RuleRuncSelfExe, "runc_self_exe_write")
  else None.

Definition RouteFile (cfg : Config) (pack : Pack) (agentVer : string) (now : Time) (ev : SEvent) : option Event :=
  let path := event_path ev in
  if path =s? "" then None
  else match file_rule path with
       | Some (ruleID, sig) => Some (build cfg pack agentVer now ev ruleID sig path)
       | None => None
       end.

Definition container_rule (low : string) : option (string * string) :=
  if existsb (contains low) ["--privileged"; "--pid=host"; "--net=host"; "-v /:/"; "--cap-add=sys_admin"]
  then Some (RulePrivilegedStart, "container_privileged_start")
  else if contains low "lxc config device add" && contains low "source=/"
  then Some (RuleLXDHostDisk, "lxd_host_disk_attach")
  else if contains low "nsenter" && (contains low "--target 1" || contains low "-t 1")
  then Some (RuleHostMount, "container_host_mount")
  else if contains low "mount" && (contains low " / " || contains low "source=/")
  then Some (RuleHostMount, "container_host_mount")
  else None.

Definition RouteExec_container (cfg : Config) (pack : Pack) (agentVer : string) (now : Time) (ev : SEvent) : option Event :=
  let line := sjoin " " (sn_Argv ev) in
  let line := if line =s? "" then get (sn_Extra ev) "exe" +:+ " " +:+ sn_Comm ev else line in
  match container_rule (to_lower line) with
  | Some (ruleID, sig) => Some (build cfg pack agentVer now ev ruleID sig line)
  | None => None
  end.

Definition RouteSetns (cfg : Config) (pack : Pack) (agentVer : string) (now : Time) (ev : SEvent) : option Event :=
  let sc := get (sn_Extra ev) "syscall" in
  if negb (contains (to_lower sc) "setns") && negb (sn_Kind ev =s? KindExec) then None
  else if (sc =s? "") && negb (contains (to_lower (sjoin " " (sn_Argv ev))) "setns") then None
  else Some (build cfg pack agentVer now ev RuleNSEscapeSetns "ns_escape_setns" (sn_Comm ev)).

(** * defense *)

Definition RuleApparmorComplain : string := "APPARMOR_COMPLAIN_MODE".
Definition RuleApparmorUsns : string := "APPARMOR_USERNS_RESTRICT_OFF".
Definition RuleSysctlHardening : string := "SYSCTL_HARDENING_OFF".
Definition RuleAuditdTamper : string := "AUDITD_TAMPER".
Definition RuleFirewallFlush : string := "FIREWALL_FLUSH".
Definition RuleSecurityStop : string := "SECURITY_SERVICE_STOP".
Definition RuleGTFOBin : string := "GTFOBIN_EXEC".
Definition RuleUserNS : string := "USERNS_UNPRIV_CREATE".
Definition RuleExecFromTmpfs : string := "EXEC_FROM_TMPFS".
Definition RuleSnapDangerous : string := "SNAP_DANGEROUS_INSTALL".
Definition RuleJournalVacuum : string := "JOURNAL_VACUUM".
Definition RuleShellHistTamper : string := "SHELL_HISTORY_TAMPER".

Definition isGTFOBin (line : string) : bool :=
  (contains line "find" && contains line "-exec") ||
  (contains line "vim" && contains line ":!") ||
  (contains line "awk" && contains line "system(") ||
  (contains line "tar" && contains line "--checkpoint-action=exec") ||
  (has_prefix line "env sh" || has_prefix line "env bash").

Definition isTmpfsExec (path line : string) : bool :=
  let p := if path =s? "" then match fields line with f :: _ => f | [] => path end else path in
  existsb (has_prefix (path_clean p)) ["/tmp/"; "/var/tmp/"; "/dev/shm/"; "/run/user/"].

Definition defense_rule (path line : string) : option (string * string) :=
  let has := existsb (contains line) in
  if has ["aa-complain"; "aa-disable"; "apparmor_parser -r"; "apparmor_parser -R"]
  then Some (RuleApparmorComplain, "apparmor_complain")
  else if has ["auditctl -e 0"; "auditctl -d"; "systemctl stop auditd"; "systemctl disable auditd"]
  then Some (RuleAuditdTamper, "auditd_tamper")
  else if has ["ufw disable"; "iptables -f"; "nft flush ruleset"] then Some (RuleFirewallFlush, "firewall_flush")
  else if has ["systemctl stop apparmor"; "systemctl mask apparmor"; "systemctl stop ufw";
               "systemctl stop fail2ban"; "systemctl stop snapd.apparmor"]
  then Some (RuleSecurityStop, "security_service_stop")
  else if contains line "snap install" && has ["--dangerous"; "--devmode"; "--classic"]
  then Some (RuleSnapDangerous, "snap_dangerous_install")
  else if contains line "journalctl" && has ["--vacuum"; "--rotate"] then Some (RuleJournalVacuum, "journal_vacuum")
  else if has ["history -c"; "unset histfile"; "histfile="] then Some (RuleShellHistTamper, "shell_history_tamper")
  else if isGTFOBin line then Some (RuleGTFOBin, "gtfobin_exec")
  else if isTmpfsExec path line then Some (RuleExecFromTmpfs, "exec_from_tmpfs")
  else if contains line "unshare" && contains line "--user" then Some (RuleUserNS, "userns_unpriv_create")
  else None.

Definition RouteExec_defense (cfg : Config) (pack : Pack) (agentVer : string) (now : Time) (ev : SEvent) : option Event :=
  let line := to_lower (sjoin " " (sn_Argv ev)) in
  let line := if line =s? "" then to_lower (sn_Comm ev +:+ " " +:+ sn_Path ev) else line in
  match defense_rule (sn_Path ev) line with
  | None => None
  | Some (ruleID, sig) =>
      let band := if mem_str ruleID [RuleExecFromTmpfs; RuleGTFOBin; RuleUserNS] then ConfMedium else ConfHigh in
      Some (proc_event cfg pack agentVer now ev (ai_Anchor (FromPID (sn_PID ev))) ruleID sig 65
              (sjoin " " (sn_Argv ev)) band)
  end.

(** The settings [ScanState] looks at: file, weak value, rule and signal. *)
Definition hardening_checks : list (string * string * string * string) :=
  [("/proc/sys/kernel/apparmor_restrict_unprivileged_userns", "0", RuleApparmorUsns, "apparmor_userns_off");
   ("/proc/sys/kernel/yama/ptrace_scope", "0", RuleSysctlHardening, "yama_ptrace_scope_0");
   ("/proc/sys/kernel/dmesg_restrict", "0", RuleSysctlHardening, "dmesg_restrict_0");
   ("/proc/sys/kernel/kptr_restrict", "0", RuleSysctlHardening, "kptr_restrict_0");
   ("/proc/sys/kernel/unprivileged_bpf_disabled", "0", RuleSysctlHardening, "unpriv_bpf_0");
   ("/proc/sys/fs/protected_hardlinks", "0", RuleSysctlHardening, "protected_hardlinks_0")].

Definition hardening_event (cfg : Config) (snap : Snapshot) (pack : Pack) (agentVer : string) (now : Time)
  (c : string * string * string * string) : option Event :=
  let '(path, bad, ruleID, sig) := c in
  let learning := cfg_LearningMode cfg || negb (IsCommitted snap) in
  match ReadFile path with
  | Err _ => None
  | Ok b =>
      if negb (trim_space b =s? bad) then None
      else
        let sigs := [sig; "path:" +:+ path] in
        let conf := score_floor pack ruleID sigs 80 in
        Some (NormalizeDedup (with_labels SrcAudit TypeDelta "" ConfHigh
          (route_event pack agentVer now ruleID conf learning (mkEntity EntityFile path path "") sigs (path +:+ "=" +:+ bad))
          <| ev_LearningOnly := learning || (conf <? cfg_MinConfidenceAlert cfg) |>))
  end.

Definition ScanState (cfg : Config) (snap : Snapshot) (pack : Pack) (agentVer : string) (now : Time) : list Event :=
  omap (hardening_event cfg snap pack agentVer now) hardening_checks.

(** * web: writes below a document root *)

Definition RuleDocrootExecWrite : string := "WEB_DOCROOT_EXEC_WRITE".
Definition RuleUploadDirExec : string := "WEB_UPLOAD_DIR_EXEC".

Definition interpretableExt : list string :=
  [".php"; ".jsp"; ".jspx"; ".phar"; ".aspx"; ".py"; ".cgi"; ".phtml"].

Definition uploadDirHints : list string := ["uploads"; "tmp"; "cache"; "temp"; "upload"].

Definition underDocroot (path : string) (roots : list string) : bool :=
  let clean := path_clean path in
  existsb (λ r, let r := path_clean r in
                negb (r =s? "") && ((clean =s? r) || has_prefix clean (r +:+ "/"))) roots.

Definition inUploadDir (path : string) : bool :=
  existsb (λ p, mem_str p uploadDirHints) (split slash (to_lower path)).

Definition RouteDocrootWrite (cfg : Config) (pack : Pack) (agentVer : string) (now : Time) (ev : SEvent) : option Event :=
  let path := event_path ev in
  if path =s? "" then None
  else if negb (mem_str (to_lower (path_ext path)) interpretableExt) then None
  else if negb (underDocroot path (cfg_DocumentRoots cfg)) then None
  else
    let ai := FromPID (sn_PID ev) in
    if negb (IsWatchedUnit (ai_SystemdUnit ai) (cfg_WatchedUnits cfg)) && (ai_SystemdUnit ai =s? "") then None
    else
      let '(ruleID, sig) := if inUploadDir path then (RuleUploadDirExec, "web_upload_dir_exec")
                            else (RuleDocrootExecWrite, "web_docroot_exec_write") in
      let sigs := [sig; "path:" +:+ path; "comm:" +:+ sn_Comm ev] in
      Some (NormalizeDedup (with_labels SrcAudit TypeEvent (ai_Anchor ai) ConfHigh
        (route_event pack agentVer (event_time ev now) ruleID (score_floor pack ruleID sigs 80) (cfg_LearningMode cfg)
           (mkEntity EntityFile path path "") sigs path))).

(** * copyfail *)

Context `{LinkReader}.

Definition RuleAFAlgAEAD : string := "CVE_2026_31431_AF_ALG_AEAD".
Definition AFAlg : Z := 38.
Definition SockSeqpacket : Z := 5.
Definition sockTypeFlagMask : Z := Z.lor 0x80000 0x800.

Definition DefaultAllowedComms : list string :=
  ["cryptsetup"; "systemd-cryptse"; "systemd-cryptsetup"; "veritysetup"; "integritysetup"; "cryptsetup-resh";
   "kcapi-enc"; "kcapi-dgst"; "kcapi-rng"; "kcapi-sym"; "kcapi-hasher"; "kcapi-hasher-sha2"; "kcapi-hasher-sha512"].

Definition allowedCommSet (extra : list string) : list string :=
  map to_lower DefaultAllowedComms ++ List.filter (λ b, negb (b =s? "")) (map (to_lower ∘ trim_space) extra).

Definition parseHexInt (s : string) : option Z :=
  let s := trim_space (trim_prefix (to_lower s) "0x") in
  if s =s? "" then None
  else match parse_int 16 64 s with (v, true) => Some v | (_, false) => None end.

Definition syscallSucceeded (extra : gmap string string) : bool :=
  match extra !! "success" with
  | Some v => equal_fold v "yes"
  | None =>
      match extra !! "exit" with
      | Some v => match parse_int 10 64 v with (n, true) => 0 <=? n | (_, false) => true end
      | None => true
      end
  end.

(** The command that is looked up in the allowlist. *)
Definition socket_comm (ev : SEvent) : string :=
  let comm := to_lower (trim_space (sn_Comm ev)) in
  if (comm =s? "") && (0 <? sn_PID ev) then
    match Procfs.Comm (sn_PID ev) with (c, true) => to_lower (trim_space c) | (_, false) => comm end
  else comm.

Definition RouteSensorEvent_copyfail (cfg : Config) (pack : Pack) (agentVer : string) (now : Time) (ev : SEvent)
  : option Event :=
  if negb (sn_Kind ev =s? KindSocket) then None
  else match parseHexInt (get (sn_Extra ev) "a0") with
  | None => None
  | Some domain =>
      if negb (domain =? AFAlg) then None
      else match parseHexInt (get (sn_Extra ev) "a1") with
      | None => None
      | Some rawType =>
          if negb (Z.ldiff rawType sockTypeFlagMask =? SockSeqpacket) then None
          else if negb (syscallSucceeded (sn_Extra ev)) then None
          else
            let comm := socket_comm ev in
            if mem_str comm (allowedCommSet (cf_AllowedCommExtras (cfg_CopyFail cfg))) then None
            else
              let sigs := ["af_alg_aead_socket"; "sock_seqpacket"; "comm_outside_crypto_allowlist"] ++
                (if 0 <? sn_PID ev then
                   match ReadStatus (sn_PID ev) with
                   | (st, true) => if negb (st_RealUID st =? 0) then ["uid_unprivileged"] else []
                   | (_, false) => []
                   end
                 else []) in
              let learning := cfg_LearningMode cfg in
              Some (NormalizeDedup ((route_event pack agentVer now RuleAFAlgAEAD (score_floor pack RuleAFAlgAEAD sigs 90)
                learning (mkEntity EntityProcess (itoa (sn_PID ev)) (ResolveExe (sn_PID ev)) "") sigs
                ("AF_ALG SOCK_SEQPACKET socket() opened by comm=" +:+ comm +:+ " pid=" +:+ itoa (sn_PID ev) +:+
                 " type=0x" +:+ get (sn_Extra ev) "a1" +:+
                 " — mandatory first step of CVE-2026-31431 (Copy Fail)"))
                <| ev_TechniqueIDs := ["T1068"] |> <| ev_Tactic := "privilege-escalation" |>
                <| ev_LearningOnly := learning |>))
      end
  end.

End routes.
