(* ===== verification/Persistence.v ===== *)
(** [internal/detect/persistence]: what an intruder leaves behind to come back.

    Ten scanners compare the host with the committed baseline: authorized keys,
    cron, systemd units, shell start-up files, PAM, sudoers, sshd, accounts,
    kernel modules and the loader's configuration; each has the function that
    records its part of the baseline.  [golang.org/x/crypto/ssh] is a parameter:
    the fingerprint of an [authorized_keys] line, if it parses. *)
From S2P Require Export GoRegexp Detect.

(** The lines of a text that are neither blank nor comments, trimmed, with
    their numbers. *)
Definition numbered (lines : list string) : list (Z * string) :=
  imap (λ i l, (Z.of_nat (S i), trim_space l)) lines.

Definition is_comment (line : string) : bool := (line =s? "") || has_prefix line "#".

Definition content_lines (max : Z) (data : string) : list (Z * string) :=
  List.filter (λ '(_, line), negb (is_comment line)) (numbered (fst (scan_lines max data))).

(** * Accounts *)

Record passwdEntry := mkPasswdEntry { pw_name : string; pw_dir : string; pw_shell : string; pw_uid : string }.

Definition passwd_line (line : string) : option passwdEntry :=
  match split ":" line with
  | name :: _ :: uid :: _ :: _ :: dir :: shell :: _ => Some (mkPasswdEntry name dir shell uid)
  | _ => None
  end.

Definition is_interactive (u : passwdEntry) : bool :=
  negb ((pw_dir u =s? "") || (pw_shell u =s? "/usr/sbin/nologin") || (pw_shell u =s? "/bin/false")).

Section host.
Context `{FileReader} `{DirReader} `{Stater} `{TreeWalker} `{Commander} `{CurrentUser}.
Variable ssh_fingerprint : string → option string.

Definition passwdUsers : list passwdEntry :=
  match Output ["getent"; "passwd"] with
  | Err _ => match UserCurrent with Ok (name, home, uid) => [mkPasswdEntry name home "" uid] | Err _ => [] end
  | Ok out => omap passwd_line (split nl out)
  end.

Definition inSudoGroup (username : string) : bool :=
  match Output ["id"; "-nG"; username] with
  | Err _ => false
  | Ok out => existsb (λ g, mem_str g ["sudo"; "wheel"; "admin"]) (fields out)
  end.

(** * Authorized keys *)

Definition RuleAuthKeyNew : string := "SSH_AUTHKEY_NEW".
Definition RuleAuthKeyAnomaly : string := "SSH_AUTHKEY_INVALID_LINE".

Definition authorized_keys_path (u : passwdEntry) : string := path_join [pw_dir u; ".ssh"; "authorized_keys"].

Definition invalid_key_event (cfg : Config) (pack : Pack) (agentVer : string) (now : Time) (learning : bool)
  (u : passwdEntry) (line : string) : Event :=
  let sigs := ["invalid_openssh_line"] in
  let conf := fst (Score pack RuleAuthKeyAnomaly sigs) in
  NormalizeDedup (scan_event pack agentVer now RuleAuthKeyAnomaly ["T1098.004"] "persistence" conf learning
    (mkEntity EntityUser (pw_name u) (authorized_keys_path u) (pw_name u)) sigs (truncate line 120)
    (held_back cfg learning conf)).

Definition new_key_event (cfg : Config) (pack : Pack) (agentVer : string) (now : Time) (learning : bool)
  (u : passwdEntry) (fp : string) (lineNo : Z) : Event :=
  let sigs := "new_authorized_key_fingerprint" ::
    (if (pw_name u =s? "root") || inSudoGroup (pw_name u) then ["privileged_user"] else []) in
  let conf := fst (Score pack RuleAuthKeyNew sigs) in
  NormalizeDedup (scan_event pack agentVer now RuleAuthKeyNew ["T1098.004"] "persistence" conf learning
    (mkEntity EntityUser (pw_name u +:+ ":" +:+ fp) (authorized_keys_path u) (pw_name u)) sigs
    ("fingerprint:" +:+ fp +:+ " line:" +:+ itoa lineNo) (held_back cfg learning conf)).

Definition key_line (cfg : Config) (snap : Snapshot) (pack : Pack) (agentVer : string) (now : Time)
  (u : passwdEntry) (nl_ : Z * string) : option Event :=
  let '(lineNo, line) := nl_ in
  let learning := learning_of cfg snap in
  match ssh_fingerprint line with
  | None => Some (invalid_key_event cfg pack agentVer now learning u line)
  | Some fp =>
      if mem_str fp (default [] (glookup (bs_AuthKeys snap) (authorized_keys_path u))) then None
      else Some (new_key_event cfg pack agentVer now learning u fp lineNo)
  end.

Definition scan_user_keys (cfg : Config) (snap : Snapshot) (pack : Pack) (agentVer : string) (now : Time)
  (u : passwdEntry) : list Event :=
  let p := authorized_keys_path u in
  if is_interactive u && exists_ p then
    match ReadFile p with
    | Err _ => []
    | Ok data => omap (key_line cfg snap pack agentVer now u) (content_lines MaxScanTokenSize data)
    end
  else [].

Definition scanAuthorizedKeys (cfg : Config) (snap : Snapshot) (pack : Pack) (agentVer : string) (now : Time) : list Event :=
  concat (map (scan_user_keys cfg snap pack agentVer now) passwdUsers).

Definition BuildBaselineAuthKeys (snap : Snapshot) : Snapshot :=
  fold_left (λ snap u,
    if pw_dir u =s? "" then snap
    else match ReadFile (authorized_keys_path u) with
         | Err _ => snap
         | Ok data =>
             match omap (λ '(_, line), ssh_fingerprint line) (content_lines MaxScanTokenSize data) with
             | [] => snap
             | fps => snap <| bs_AuthKeys := ginsert (authorized_keys_path u) fps (bs_AuthKeys snap) |>
             end
         end) passwdUsers snap.

Definition AuthorizedKeysPaths : list string :=
  map authorized_keys_path (List.filter is_interactive passwdUsers).

(** * Cron *)

Definition RuleCronHighRisk : string := "CRON_HIGH_RISK".

Definition standaloneCronFiles : list string := ["/etc/crontab"; "/etc/anacrontab"].

Definition cronDirs : list string :=
  ["/etc/cron.d"; "/etc/cron.hourly"; "/etc/cron.daily"; "/etc/cron.weekly"; "/etc/cron.monthly";
   "/var/spool/cron/crontabs"; "/var/spool/cron"; "/var/spool/anacron"; "/var/spool/atjobs"; "/var/spool/at";
   "/var/spool/cron/atjobs"].

Definition cronRiskTokens : list string :=
  ["curl "; " wget "; "curl -s"; "wget -q"; "| bash"; "|sh "; "| sh"; "| /bin/"; "| dash";
   "bash -c"; "/bin/bash -c"; "/bin/sh -c"; "dash -c"; "zsh -c";
   "base64 -d"; "base64 --decode"; "openssl enc -"; "xxd -r";
   "python -c"; "python3 -c"; "perl -e"; "ruby -e"; "php -r";
   "/dev/tcp/"; "socat "; " nc -"; " ncat "; " netcat ";
   "chmod +x"; "chattr +i"; "iptables -I"; "eval ";
   "http://"; "https://"].

(** [argLikeRE] matches one quote; all of them are deleted. *)
Definition drop_quotes (s : string) : string :=
  sfilter (λ c, negb (Ascii.eqb c squote || Ascii.eqb c dquote)) s.

Definition base64BlobRE : re := must_compile "[A-Za-z0-9+/]{16,}={0,2}".

(** [printable/len > 0.8] in floating point; the quotient is exact to a rounding
    far below 1/(5 len). *)
Definition looksPrintable (s : string) : bool :=
  if s =s? "" then false
  else 4 * slen s <? 5 * scount (λ c, Ascii.eqb c nl || Ascii.eqb c tab || in_range 32 126 c) s.

Fixpoint recursiveBase64Decode (depth : nat) (s : string) : string :=
  match depth with
  | O => s
  | S depth =>
      fold_left (λ out m,
        if slen m <? 16 then out
        else match Base64.decode m with
             | None => out
             | Some ds => if looksPrintable ds then out +:+ " " +:+ recursiveBase64Decode depth (to_lower ds) else out
             end) (find_all_strings base64BlobRE s) s
  end.

Definition normalizeCronLine (line : string) : string :=
  let low := drop_quotes (to_lower line) in
  let low := replace_str (String backslash (str nl)) " " low in
  " " +:+ recursiveBase64Decode 3 low +:+ " ".

Definition cronRisk (normalized : string) : bool * string :=
  match List.find (contains normalized) cronRiskTokens with
  | Some tok => (true, trim_space tok)
  | None => (false, "")
  end.

Definition EvalCronLine (line : string) : bool := fst (cronRisk (normalizeCronLine line)).

Definition collectCronTargets : list string :=
  List.filter (λ f, match Stat f with FOk fi => negb (fi_IsDir fi) | _ => false end) standaloneCronFiles ++
  concat (map (λ d, match ReadDir d with
                    | Err _ => []
                    | Ok ents => map (λ e, path_join [d; de_Name e]) (List.filter (λ e, negb (de_IsDir e)) ents)
                    end) cronDirs).

Definition cronLineFingerprint (path line : string) : string := sha256_hex (path +:+ String "000" line).

Definition minInt_cron (a b : Z) : Z := if a <? b then a else b.

Definition cron_event (cfg : Config) (snap : Snapshot) (pack : Pack) (agentVer : string) (now : Time)
  (fpath fp line : string) : Event :=
  let learning := learning_of cfg snap in
  let normalized := normalizeCronLine line in
  let '(risk, tok) := cronRisk normalized in
  let sigs := "new_cron_line" :: (if risk then ["high_risk_token:" +:+ tok] else []) ++
    (if contains normalized "base64" && contains normalized "-d" then ["inline_base64_decoded"] else []) in
  let conf := fst (Score pack RuleCronHighRisk sigs) in
  let conf := if risk then conf else minInt_cron conf 40 in
  let ev := scan_event pack agentVer now RuleCronHighRisk ["T1053.003"] "persistence" conf learning
              (mkEntity EntityCron fp fpath "") sigs (truncate line 200)
              (if risk then held_back cfg learning conf else true) in
  NormalizeDedup (if risk then ev else ev <| ev_Severity := SeverityInfo |>).

Definition cron_line (cfg : Config) (snap : Snapshot) (pack : Pack) (agentVer : string) (now : Time)
  (fpath : string) (nl_ : Z * string) : option Event :=
  let fp := cronLineFingerprint fpath (snd nl_) in
  if mem_str fp (default [] (glookup (bs_CronLines snap) fpath)) then None
  else Some (cron_event cfg snap pack agentVer now fpath fp (snd nl_)).

Definition scanCron (cfg : Config) (snap : Snapshot) (pack : Pack) (agentVer : string) (now : Time) : list Event :=
  concat (map (λ fpath, match ReadFile fpath with
                        | Err _ => []
                        | Ok data => omap (cron_line cfg snap pack agentVer now fpath) (content_lines (1024 * 1024) data)
                        end) collectCronTargets).

Definition BuildBaselineCron (snap : Snapshot) : Snapshot :=
  fold_left (λ snap fpath,
    match ReadFile fpath with
    | Err _ => snap
    | Ok data =>
        match map (λ l, cronLineFingerprint fpath (snd l)) (content_lines (1024 * 1024) data) with
        | [] => snap
        | fps => snap <| bs_CronLines := ginsert fpath fps (bs_CronLines snap) |>
        end
    end) collectCronTargets snap.

(** * Files compared with the baseline

    The event of most of the scanners below. *)
Definition file_event (cfg : Config) (snap : Snapshot) (pack : Pack) (agentVer : string) (now : Time)
  (ruleID : string) (tech : list string) (tactic path hash : string) (sigs : list string) (evidence : string) : Event :=
  let learning := learning_of cfg snap in
  let conf := fst (Score pack ruleID sigs) in
  NormalizeDedup (scan_event pack agentVer now ruleID tech tactic conf learning
    (mkEntity EntityFile hash path "") sigs evidence (held_back cfg learning conf)).

(** Trimmed content lines of a file scanned with the default buffer. *)
Definition scanned_lines (data : string) : list string := map snd (content_lines MaxScanTokenSize data).

(** ** systemd *)

Definition RuleSystemdPersistence : string := "SYSTEMD_PERSISTENCE".

Definition systemdUnitDirs : list string :=
  ["/etc/systemd/system"; "/etc/systemd/system/multi-user.target.wants";
   "/etc/systemd/system/default.target.wants"; "/lib/systemd/system"; "/usr/lib/systemd/system";
   "/run/systemd/system"; "/run/systemd/generator"; "/run/systemd/generator.late"].

Definition systemdExtensions : list string := [".service"; ".timer"; ".socket"; ".path"].

Definition highRiskSystemdDirectives : list string :=
  ["ExecStart="; "ExecStartPre="; "ExecStartPost="; "ExecReload="; "ExecStop="; "ExecStopPost="].

Definition containsAnyDirective (content : string) (directives : list string) : bool :=
  existsb (contains content) directives.

Definition firstMatchingLine (content : string) (needles : list string) : string :=
  match List.find (λ line, existsb (contains line) needles) (split nl content) with
  | Some line => trim_space line
  | None => ""
  end.

Definition containsSuspiciousPayload (sigs : list string) : bool :=
  existsb (λ s, (s =s? "exec_directive_suspicious_payload") || (s =s? "root_execution_from_world_writable")) sigs.

Definition systemd_signals (path content : string) (newOrChanged : bool) : list string :=
  let low := to_lower content in
  (if newOrChanged then ["systemd_unit_new_or_changed"] else []) ++
  (if containsAnyDirective content highRiskSystemdDirectives &&
      existsb (contains low) ["curl "; "wget "; "bash -c"; "/tmp/"; "/dev/shm/"; "base64 -d"; "/dev/tcp/"]
   then ["exec_directive_suspicious_payload"] else []) ++
  (if contains low "user=root" && (contains low "/tmp/" || contains low "/dev/shm/")
   then ["root_execution_from_world_writable"] else []) ++
  (if (path_ext (to_lower path) =s? ".timer") && newOrChanged then ["new_systemd_timer"] else []).

Definition evaluateSystemdUnit (cfg : Config) (snap : Snapshot) (pack : Pack) (agentVer : string) (now : Time)
  (path data hash : string) (newOrChanged : bool) : option Event :=
  let sigs := systemd_signals path data newOrChanged in
  if bool_decide (sigs = []) || (negb newOrChanged && negb (containsSuspiciousPayload sigs)) then None
  else Some (file_event cfg snap pack agentVer now RuleSystemdPersistence ["T1053.006"; "T1543.002"] "persistence"
               path hash sigs (truncate (firstMatchingLine data highRiskSystemdDirectives) 300)).

Definition systemd_targets : list string :=
  concat (map (λ dir, walkFiles dir systemdExtensions) systemdUnitDirs).

Definition scanSystemdUnits (cfg : Config) (snap : Snapshot) (pack : Pack) (agentVer : string) (now : Time) : list Event :=
  per_file (bs_PersistenceFiles snap) systemd_targets (evaluateSystemdUnit cfg snap pack agentVer now).

(** ** Shell start-up files *)

Definition RuleShellRCPersistence : string := "PROFILE_HOOK".

Definition globalShellRC : list string :=
  ["/etc/profile"; "/etc/bash.bashrc"; "/etc/zshrc"; "/etc/zsh/zshrc"; "/etc/fish/config.fish"].
Definition globalShellRCDirs : list string := ["/etc/profile.d"; "/etc/zsh/zshrc.d"; "/etc/fish/conf.d"].
Definition userShellRCNames : list string :=
  [".bashrc"; ".bash_profile"; ".profile"; ".zshrc"; ".zprofile"; ".kshrc"; ".cshrc"; ".tcshrc"].
Definition sshRCNames : list string := [".ssh/rc"; ".ssh/environment"].

Definition suspiciousShellRCTokens : list string :=
  ["curl "; "wget "; "base64 -d"; "base64 --decode"; "bash -i"; "/dev/tcp/"; "nohup "; "disown"; "eval $(";
   "HISTFILE=/dev/null"; "unset HISTFILE"; "export HISTFILE=/dev/null"; "alias sudo="; "alias ssh="].

Definition collectShellRCTargets : list string :=
  List.filter exists_ globalShellRC ++ concat (map (λ d, walkFiles d []) globalShellRCDirs) ++
  concat (map (λ u, if pw_dir u =s? "" then []
                    else List.filter exists_ (map (λ name, path_join [pw_dir u; name]) (userShellRCNames ++ sshRCNames)))
              passwdUsers).

Definition shellrc_file (cfg : Config) (snap : Snapshot) (pack : Pack) (agentVer : string) (now : Time)
  (path data hash : string) (changed : bool) : option Event :=
  let suspicious := existsb (λ tok, contains (to_lower data) (to_lower tok)) suspiciousShellRCTokens in
  if negb changed && negb suspicious then None
  else Some (file_event cfg snap pack agentVer now RuleShellRCPersistence ["T1546.004"] "persistence" path hash
    ((if changed then ["shell_rc_changed"] else []) ++ (if suspicious then ["shell_rc_suspicious_token"] else []))
    (truncate (trim_space data) 300)).

Definition scanShellRC (cfg : Config) (snap : Snapshot) (pack : Pack) (agentVer : string) (now : Time) : list Event :=
  per_file (bs_PersistenceFiles snap) collectShellRCTargets (shellrc_file cfg snap pack agentVer now).

(** ** PAM *)

Definition RulePAMPersistence : string := "PAM_PERSISTENCE".
Definition pamConfigDir : string := "/etc/pam.d".
Definition pamModuleDirs : list string :=
  ["/lib/x86_64-linux-gnu/security"; "/lib64/security"; "/lib/security"; "/usr/lib/security";
   "/usr/lib64/security"; "/usr/lib/x86_64-linux-gnu/security"].
Definition suspiciousPAMTokens : list string :=
  ["pam_exec.so"; "pam_python.so"; "pam_succeed_if.so"; "/tmp/"; "/dev/shm/"; "/home/"].

Definition collectPAMTargets : list string :=
  walkFiles pamConfigDir [] ++ concat (map (λ d, walkFiles d [".so"]) pamModuleDirs).

Definition pam_signals (path data : string) (changed : bool) : list string :=
  let isConfig := has_prefix path (pamConfigDir +:+ "/") in
  (if changed then [if isConfig then "pam_config_changed" else "pam_module_new_or_changed"] else []) ++
  (if isConfig then
     match List.find (λ tok, contains (to_lower data) tok && changed) suspiciousPAMTokens with
     | Some tok => ["pam_suspicious_reference:" +:+ tok]
     | None => []
     end
   else []).

(** An event for a file with signals. *)
Definition when_signalled (sigs : list string) (ev : Event) : option Event :=
  match sigs with [] => None | _ => Some ev end.

Definition pam_file (cfg : Config) (snap : Snapshot) (pack : Pack) (agentVer : string) (now : Time)
  (path data hash : string) (changed : bool) : option Event :=
  let sigs := pam_signals path data changed in
  when_signalled sigs (file_event cfg snap pack agentVer now RulePAMPersistence ["T1556.003"] "credential-access"
    path hash sigs (truncate (trim_space data) 300)).

Definition scanPAM (cfg : Config) (snap : Snapshot) (pack : Pack) (agentVer : string) (now : Time) : list Event :=
  per_file (bs_PersistenceFiles snap) collectPAMTargets (pam_file cfg snap pack agentVer now).

(** ** sudoers *)

Definition RuleSudoersPersistence : string := "SUDOERS_PERSISTENCE".
Definition sudoersTargets : list string := ["/etc/sudoers"].
Definition sudoersDir : string := "/etc/sudoers.d".
Definition dangerousSudoersDirectives : list string :=
  ["NOPASSWD:"; "!authenticate"; " ALL=(ALL:ALL) "; " ALL=(ALL) ALL"; " ALL=(root) ALL"; " ALL=(ALL) NOPASSWD:"].

Definition collectSudoersTargets : list string :=
  List.filter exists_ sudoersTargets ++ walkFiles sudoersDir [].

Definition sudoers_flagged (data : string) : list string :=
  map (λ l, truncate l 180)
    (List.filter (λ l, negb (has_prefix l "Defaults") && existsb (contains l) dangerousSudoersDirectives)
       (scanned_lines data)).

(** The signals of a file with a delta and lines of its own that are flagged. *)
Definition delta_signals (changed : bool) (on_change : string) (flagged : bool) (on_flag : string) : list string :=
  (if changed then [on_change] else []) ++ (if flagged then [on_flag] else []).

Definition sudoers_file (cfg : Config) (snap : Snapshot) (pack : Pack) (agentVer : string) (now : Time)
  (path data hash : string) (changed : bool) : option Event :=
  let flagged := sudoers_flagged data in
  let sigs := delta_signals changed "sudoers_changed" (nonempty_list flagged) "sudoers_nopasswd_or_unrestricted" in
  when_signalled sigs (file_event cfg snap pack agentVer now RuleSudoersPersistence ["T1548.003"]
    "privilege-escalation" path hash sigs (truncate (sjoin " | " flagged) 400)).

Definition scanSudoers (cfg : Config) (snap : Snapshot) (pack : Pack) (agentVer : string) (now : Time) : list Event :=
  per_file (bs_PersistenceFiles snap) collectSudoersTargets (sudoers_file cfg snap pack agentVer now).

(** ** sshd *)

Definition RuleSSHDConfig : string := "SSHD_CONFIG_ANOMALY".
Definition sshdFiles : list string := ["/etc/ssh/sshd_config"].
Definition sshdDropinDir : string := "/etc/ssh/sshd_config.d".
Definition riskySSHDDirectives : list string :=
  ["PermitRootLogin"; "PasswordAuthentication"; "ChallengeResponseAuthentication"; "AuthorizedKeysCommand";
   "AuthorizedKeysCommandUser"; "ForceCommand"; "GatewayPorts"; "AllowTcpForwarding"; "PermitTunnel";
   "PermitUserEnvironment"; "Match User"].

Definition collectSSHDTargets : list string :=
  List.filter exists_ sshdFiles ++ walkFiles sshdDropinDir [".conf"].

Definition sshd_flagged (data : string) : list string :=
  map (λ l, truncate l 200)
    (List.filter (λ l, existsb (λ d, has_prefix l d || has_prefix l (to_lower d)) riskySSHDDirectives)
       (scanned_lines data)).

Definition high_risk_directive (l : string) : bool :=
  existsb (contains (to_lower l))
    ["authorizedkeyscommand"; "forcecommand"; "permitrootlogin yes"; "passwordauthentication yes"].

Definition sshd_file (cfg : Config) (snap : Snapshot) (pack : Pack) (agentVer : string) (now : Time)
  (path data hash : string) (changed : bool) : option Event :=
  let flagged := sshd_flagged data in
  let sigs := delta_signals changed "sshd_config_changed" (existsb high_risk_directive flagged) "sshd_high_risk_directive" in
  when_signalled sigs (file_event cfg snap pack agentVer now RuleSSHDConfig ["T1098.004"; "T1556"] "persistence"
    path hash sigs (truncate (sjoin " | " flagged) 400)).

Definition scanSSHD (cfg : Config) (snap : Snapshot) (pack : Pack) (agentVer : string) (now : Time) : list Event :=
  per_file (bs_PersistenceFiles snap) collectSSHDTargets (sshd_file cfg snap pack agentVer now).

(** ** Accounts *)

Definition RuleUserPersistence : string := "USER_ACCOUNT_ANOMALY".
Definition RuleUserShellEnabled : string := "USER_SHELL_ENABLED".
Definition RuleUserPasswdHash : string := "USER_PASSWD_HASH_CHANGE".

Definition userFiles : list string := ["/etc/passwd"; "/etc/shadow"].

Definition uid_zero_event (pack : Pack) (agentVer : string) (now : Time) (u : passwdEntry) : Event :=
  let sigs := ["non_root_uid_zero_account:" +:+ pw_name u] in
  let conf := score_floor pack RuleUserPersistence sigs 95 in
  NormalizeDedup (scan_event pack agentVer now RuleUserPersistence ["T1136.001"; "T1078.003"] "persistence" conf false
    (mkEntity EntityUser (pw_name u) "" (pw_name u)) sigs ("duplicate UID 0 account: " +:+ pw_name u) false).

Definition detectUIDZero (pack : Pack) (agentVer : string) (now : Time) : list Event :=
  map (uid_zero_event pack agentVer now)
    (List.filter (λ u, (pw_uid u =s? "0") && negb (pw_name u =s? "root")) passwdUsers).

Definition has_empty_hash (line : string) : bool :=
  match split ":" line with _ :: h :: _ => h =s? "" | _ => false end.

Definition findEmptyShadowHash (path : string) : string :=
  match ReadFile path with
  | Err _ => ""
  | Ok data => default "" (List.find has_empty_hash (fst (scan_lines MaxScanTokenSize data)))
  end.

(** A service-like account whose shell is not switched off. *)
Definition service_shell (line : string) : option string :=
  match split ":" line with
  | name :: _ :: uid :: _ :: _ :: _ :: shell :: _ =>
      if mem_str name ["root"; "sync"; "shutdown"; "halt"] then None
      else if uid =s? "0" then None
      else if mem_str shell ["/usr/sbin/nologin"; "/bin/false"; "/sbin/nologin"; ""] then None
      else if String.ltb uid "1000" || has_suffix name "d" || contains name "www" || contains name "nginx" ||
              contains name "mysql"
      then Some (name +:+ ":" +:+ shell) else None
  | _ => None
  end.

Definition findEnabledServiceShells (path : string) : list string :=
  match ReadFile path with
  | Err _ => []
  | Ok data => omap service_shell (fst (scan_lines MaxScanTokenSize data))
  end.

(** The rule and the signals of a changed account file. *)
Definition user_file_rule (path : string) : string * list string :=
  let sigs := ["user_db_changed:" +:+ path] in
  if path =s? "/etc/shadow" then
    (RuleUserPasswdHash,
     sigs ++ (if negb (findEmptyShadowHash path =s? "") then ["empty_password_hash"] else []) ++ ["user_passwd_hash_change"])
  else if path =s? "/etc/passwd" then
    match findEnabledServiceShells path with
    | [] => (RuleUserPersistence, sigs)
    | shells => (RuleUserShellEnabled, sigs ++ ["user_shell_enabled:" +:+ sjoin "," shells])
    end
  else (RuleUserPersistence, sigs).

Definition user_file (cfg : Config) (snap : Snapshot) (pack : Pack) (agentVer : string) (now : Time)
  (path hash : string) : option Event :=
  if negb (changed_since (bs_PersistenceFiles snap) path hash) then None
  else
    let '(ruleID, sigs) := user_file_rule path in
    let learning := learning_of cfg snap in
    let conf := fst (Score pack ruleID sigs) in
    Some (NormalizeDedup ((scan_event pack agentVer now ruleID ["T1136.001"] "persistence" conf learning
      (mkEntity EntityFile hash path "") sigs "file hash changed since baseline" (held_back cfg learning conf))
      <| ev_Src := SrcFIM |> <| ev_Type := TypeDelta |>)).

Definition scanUsers (cfg : Config) (snap : Snapshot) (pack : Pack) (agentVer : string) (now : Time) : list Event :=
  detectUIDZero pack agentVer now ++
  omap (λ path, if negb (exists_ path) then None
                else let hash := fileSHA path in
                     if hash =s? "" then None else user_file cfg snap pack agentVer now path hash) userFiles.

(** ** Kernel modules *)

Definition RuleKmodNew : string := "KERNEL_MODULE_NEW".
Definition RuleModLoadPathMod : string := "KERNEL_MODLOAD_PATH_CHANGED".
Definition kernelModulesFile : string := "/proc/modules".
Definition moduleConfigDirs : list string :=
  ["/etc/modules-load.d"; "/etc/modprobe.d"; "/usr/lib/modules-load.d"; "/usr/lib/modprobe.d"; "/run/modules-load.d"].
Definition moduleConfigFiles : list string := ["/etc/modules"].

Definition readLoadedModules : list string :=
  match ReadFile kernelModulesFile with
  | Err _ => []
  | Ok data => omap (λ l, head (fields l)) (fst (scan_lines MaxScanTokenSize data))
  end.

Definition collectModuleConfigTargets : list string :=
  List.filter exists_ moduleConfigFiles ++ concat (map (λ d, walkFiles d []) moduleConfigDirs).

Definition new_modules_event (cfg : Config) (snap : Snapshot) (pack : Pack) (agentVer : string) (now : Time)
  (newMods : list string) : Event :=
  let sigs := ["loaded_modules_delta"; "new_modules:" +:+ sjoin "," newMods] in
  let conf := score_floor pack RuleKmodNew sigs 80 in
  NormalizeDedup (scan_event pack agentVer now RuleKmodNew ["T1014"] "defense-evasion" conf false
    (mkEntity EntityFile "proc_modules" kernelModulesFile "") sigs ("new kernel modules: " +:+ sjoin "," newMods)
    (held_back cfg (learning_of cfg snap) conf)).

Definition module_config (cfg : Config) (snap : Snapshot) (pack : Pack) (agentVer : string) (now : Time)
  (path hash : string) : option Event :=
  if changed_since (bs_PersistenceFiles snap) path hash
  then Some (file_event cfg snap pack agentVer now RuleModLoadPathMod ["T1547.006"] "persistence" path hash
               ["modload_config_changed"] "module config changed since baseline")
  else None.

Definition scanKernelModules (cfg : Config) (snap : Snapshot) (pack : Pack) (agentVer : string) (now : Time) : list Event :=
  let newMods := List.filter (λ m, negb (mem_str m (bs_LoadedKernelModules snap))) readLoadedModules in
  (if IsCommitted snap && nonempty_list newMods then [new_modules_event cfg snap pack agentVer now newMods] else []) ++
  omap (λ path, let hash := fileSHA path in
                if hash =s? "" then None else module_config cfg snap pack agentVer now path hash)
    collectModuleConfigTargets.

(** ** The loader's configuration *)

Definition RuleLDConfPersistence : string := "LD_SO_CONF_CHANGED".
Definition ldConfFiles : list string := ["/etc/ld.so.conf"].
Definition ldConfDir : string := "/etc/ld.so.conf.d".
Definition suspiciousLoaderPaths : list string := ["/tmp/"; "/dev/shm/"; "/var/tmp/"; "/home/"].

Definition collectLDConfTargets : list string :=
  List.filter exists_ ldConfFiles ++ walkFiles ldConfDir [".conf"].

Definition ldconf_flagged (data : string) : list string :=
  List.filter (λ l, negb (has_prefix l "include ") && path_is_abs l && existsb (has_prefix l) suspiciousLoaderPaths)
    (scanned_lines data).

Definition ldconf_file (cfg : Config) (snap : Snapshot) (pack : Pack) (agentVer : string) (now : Time)
  (path data hash : string) (changed : bool) : option Event :=
  let flagged := ldconf_flagged data in
  let sigs := delta_signals changed "ld_so_conf_changed" (nonempty_list flagged) "ld_so_conf_world_writable_entry" in
  when_signalled sigs (file_event cfg snap pack agentVer now RuleLDConfPersistence ["T1574.006"] "defense-evasion"
    path hash sigs (truncate (sjoin " | " flagged) 300)).

Definition scanLDConf (cfg : Config) (snap : Snapshot) (pack : Pack) (agentVer : string) (now : Time) : list Event :=
  per_file (bs_PersistenceFiles snap) collectLDConfTargets (ldconf_file cfg snap pack agentVer now).

(** * All of them *)

Definition Scan_persistence (cfg : Config) (snap : Snapshot) (pack : Pack) (agentVer : string) (now : Time)
  : result (list Event) :=
  Ok (scanAuthorizedKeys cfg snap pack agentVer now ++ scanCron cfg snap pack agentVer now ++
      scanSystemdUnits cfg snap pack agentVer now ++ scanShellRC cfg snap pack agentVer now ++
      scanPAM cfg snap pack agentVer now ++ scanSudoers cfg snap pack agentVer now ++
      scanSSHD cfg snap pack agentVer now ++ scanUsers cfg snap pack agentVer now ++
      scanKernelModules cfg snap pack agentVer now ++ scanLDConf cfg snap pack agentVer now).

(** * The baseline *)

Definition record_files (targets : list string) (snap : Snapshot) : Snapshot :=
  snap <| bs_PersistenceFiles := recordPersistenceBaseline (bs_PersistenceFiles snap) targets |>.

Definition BuildBaselineSystemd : Snapshot → Snapshot := record_files systemd_targets.
Definition BuildBaselinePAM : Snapshot → Snapshot := record_files collectPAMTargets.
Definition BuildBaselineShellRC : Snapshot → Snapshot := record_files collectShellRCTargets.
Definition BuildBaselineSudoers : Snapshot → Snapshot := record_files collectSudoersTargets.
Definition BuildBaselineSSHD : Snapshot → Snapshot := record_files collectSSHDTargets.
Definition BuildBaselineUsers : Snapshot → Snapshot := record_files userFiles.
Definition BuildBaselineKernelModules (snap : Snapshot) : Snapshot :=
  record_files collectModuleConfigTargets (snap <| bs_LoadedKernelModules := readLoadedModules |>).
Definition BuildBaselineLDConf : Snapshot → Snapshot := record_files collectLDConfTargets.

(** The part of [baseline commit] that belongs to this package, in its order;
    the web and preload parts in between write other fields. *)
Definition commit_persistence (snap : Snapshot) : Snapshot :=
  BuildBaselineLDConf (BuildBaselineKernelModules (BuildBaselineUsers (BuildBaselineSSHD (BuildBaselineSudoers
    (BuildBaselineShellRC (BuildBaselinePAM (BuildBaselineSystemd (BuildBaselineCron (BuildBaselineAuthKeys snap))))))))).

End host.

