(* ===== verification/Fimextra.v ===== *)
(** [internal/detect/fimextra]: more places where persistence and weakened
    defences show, as a table of rules over files and directories one level
    deep. *)
From S2P Require Export Persistence.

Section host.
Context `{FileReader} `{DirReader} `{Stater} `{Globber}.

Record pathRule := mkPathRule {
  pr_ruleID : string;
  pr_paths : list string;
  pr_signal : string;
  pr_match : string → string → bool
}.

Definition any_name : string → string → bool := λ _ _, true.
Definition name_suffix (suf : string) : string → string → bool := λ name _, has_suffix name suf.

(** The text of a file holds one of the words. *)
Definition text_has (words : list string) : string → string → bool := λ _ full,
  match ReadFile full with Ok s => existsb (contains s) words | Err _ => false end.

Definition executable (full : string) : bool :=
  match Stat full with FOk fi => negb (Z.land (fi_Mode fi) 73 =? 0) | _ => false end.

Definition empty_file (full : string) : bool :=
  match Stat full with FOk fi => fi_Size fi =? 0 | _ => false end.

Definition ruleset : list pathRule :=
  [mkPathRule "SSHD_DROPIN_NEW" ["/etc/ssh/sshd_config.d"] "sshd_dropin" (name_suffix ".conf");
   mkPathRule "SSH_RC_HOOK" ["/etc/ssh/sshrc"] "ssh_rc_hook" any_name;
   mkPathRule "SSH_SOCKET_OVERRIDE" ["/etc/systemd/system/ssh.socket.d"; "/etc/systemd/system/ssh.service.d"]
     "ssh_socket_override" (name_suffix ".conf");
   mkPathRule "SSH_HOSTKEY_CHANGE" ["/etc/ssh"] "ssh_hostkey_change"
     (λ name _, has_prefix name "ssh_host_" && negb (has_suffix name ".pub"));
   mkPathRule "CRON_DROPIN_NEW"
     ["/etc/cron.d"; "/etc/cron.hourly"; "/etc/cron.daily"; "/etc/cron.weekly"; "/etc/cron.monthly"; "/etc/crontab"]
     "cron_dropin" any_name;
   mkPathRule "CRON_SPOOL_CHANGE" ["/var/spool/cron/crontabs"] "cron_spool" any_name;
   mkPathRule "AT_JOB_NEW" ["/var/spool/cron/atjobs"] "at_job" any_name;
   mkPathRule "SYSTEMD_GENERATOR_NEW" ["/etc/systemd/system-generators"; "/usr/lib/systemd/system-generators"]
     "systemd_generator" any_name;
   mkPathRule "SYSTEMD_DROPIN_OVERRIDE" ["/etc/systemd/system"] "systemd_dropin"
     (λ name full, contains full ".d/" && has_suffix name ".conf");
   mkPathRule "SYSTEMD_USER_PERSISTENCE" [] "systemd_user" any_name;
   mkPathRule "PAM_CONFIG_PROFILE_NEW" ["/usr/share/pam-configs"] "pam_config_profile" any_name;
   mkPathRule "NSS_CONFIG_CHANGE" ["/etc/nsswitch.conf"] "nsswitch_change" any_name;
   mkPathRule "APT_HOOK_PERSISTENCE" ["/etc/apt/apt.conf.d"] "apt_hook" (text_has ["Pre-Invoke"; "Post-Invoke"]);
   mkPathRule "MOTD_SCRIPT_NEW" ["/etc/update-motd.d"] "motd_script" any_name;
   mkPathRule "ENVIRONMENT_FILE_CHANGE" ["/etc/environment"; "/etc/default"] "environment_file" any_name;
   mkPathRule "NETWORK_DISPATCHER_HOOK"
     ["/etc/networkd-dispatcher"; "/etc/NetworkManager/dispatcher.d"; "/etc/network/if-up.d"] "network_dispatcher" any_name;
   mkPathRule "UDEV_RUN_RULE" ["/etc/udev/rules.d"] "udev_run" (text_has ["RUN+="]);
   mkPathRule "POLKIT_RULE_NEW" ["/etc/polkit-1/rules.d"] "polkit_rule" (name_suffix ".rules");
   mkPathRule "NEEDRESTART_HOOK" ["/etc/needrestart/conf.d"] "needrestart_hook" any_name;
   mkPathRule "RC_LOCAL_REVIVED" ["/etc/rc.local"] "rc_local" (λ _ full, executable full);
   mkPathRule "INITRAMFS_HOOK" ["/etc/initramfs-tools/hooks"; "/etc/initramfs-tools/scripts"] "initramfs_hook" any_name;
   mkPathRule "GRUB_CMDLINE_CHANGE" ["/etc/default/grub"] "grub_cmdline" (text_has ["init="; "apparmor=0"; "selinux=0"]);
   mkPathRule "XDG_AUTOSTART_NEW" ["/etc/xdg/autostart"] "xdg_autostart" (name_suffix ".desktop");
   mkPathRule "APPARMOR_PROFILE_DISABLED" ["/etc/apparmor.d/disable"] "apparmor_disabled" any_name;
   mkPathRule "RSYSLOG_CONFIG_TAMPER" ["/etc/rsyslog.conf"; "/etc/rsyslog.d"] "rsyslog_tamper" any_name;
   mkPathRule "LOG_TRUNCATE"
     ["/var/log/auth.log"; "/var/log/syslog"; "/var/log/wtmp"; "/var/log/btmp"; "/var/log/lastlog"; "/var/log/dpkg.log"]
     "log_truncate" (λ _ full, empty_file full)].

(** The content that counts: of a file that is there but cannot be read, as of
    a directory, the empty one. *)
Definition fim_content (path : string) : option string :=
  match ReadFile path with
  | Ok data => Some data
  | Err _ => if exists_ path then Some "" else None
  end.

Definition fim_event (cfg : Config) (snap : Snapshot) (pack : Pack) (agentVer : string) (now : Time)
  (path ruleID signal sum : string) : Event :=
  let learning := learning_of cfg snap in
  let sigs := [signal; "path:" +:+ path] in
  let conf := score_floor pack ruleID sigs 60 in
  NormalizeDedup ((scan_event pack agentVer now ruleID [] "" conf learning (mkEntity EntityFile sum path "") sigs path
    (held_back cfg learning conf)) <| ev_Src := SrcFIM |> <| ev_Type := TypeDelta |>).

Definition emitIfNew (cfg : Config) (snap : Snapshot) (pack : Pack) (agentVer : string) (now : Time)
  (ruleID signal path : string) : option Event :=
  match fim_content path with
  | None => None
  | Some data =>
      let sum := sha256_hex data in
      if changed_since (bs_PersistenceFiles snap) path sum
      then Some (fim_event cfg snap pack agentVer now path ruleID signal sum) else None
  end.

(** The names a directory holds, joined to it; none when it cannot be read. *)
Definition dir_entries (d : string) : list (string * string) :=
  match ReadDir d with
  | Err _ => []
  | Ok ents => map (λ e, (de_Name e, path_join [d; de_Name e])) ents
  end.

(** The files a rule looks at below one of its paths. *)
Definition rule_files (pr : pathRule) (p : string) : list string :=
  match Stat p with
  | FOk fi =>
      if fi_IsDir fi then map snd (List.filter (λ '(name, full), pr_match pr name full) (dir_entries p))
      else if pr_match pr (path_base p) p then [p] else []
  | _ => []
  end.

Definition user_unit_dirs : list string :=
  ok_or [] (Glob "/home/*/.config/systemd/user") ++ ["/root/.config/systemd/user"].

Definition user_unit_files : list string :=
  concat (map (λ d, map snd (List.filter (λ '(name, _), has_suffix name ".service" || has_suffix name ".timer")
                               (dir_entries d))) user_unit_dirs).

Definition run_parts_dirs : list string := ["/etc/cron.hourly"; "/etc/cron.daily"; "/etc/cron.weekly"; "/etc/cron.monthly"].

(** Executable files whose names [run-parts] passes over. *)
Definition run_parts_files : list string :=
  concat (map (λ d, map snd (List.filter (λ '(name, full), (contains name "." || has_suffix name "~") && executable full)
                               (dir_entries d))) run_parts_dirs).

Definition forced_command_files : list string :=
  List.filter (λ f, text_has ["ForceCommand"; "AuthorizedKeysCommand"] "" f)
    ("/etc/ssh/sshd_config" :: ok_or [] (Glob "/etc/ssh/sshd_config.d/*.conf")).

(** What a rule of the table looks at; the user units have their own walk. *)
Definition rule_targets (pr : pathRule) : list string :=
  if pr_ruleID pr =s? "SYSTEMD_USER_PERSISTENCE" then user_unit_files else concat (map (rule_files pr) (pr_paths pr)).

Definition privileged_groups : list string := ["sudo"; "admin"; "lxd"; "docker"; "microk8s"; "adm"; "disk"; "shadow"].

(** A privileged group with members. *)
Definition group_hit (line : string) : option string :=
  match split ":" line with
  | name :: _ :: _ :: members :: _ =>
      if mem_str name privileged_groups && negb (trim_space members =s? "") then Some (name +:+ "=" +:+ members) else None
  | _ => None
  end.

Definition group_file : string := "/etc/group".

Definition group_event (cfg : Config) (snap : Snapshot) (pack : Pack) (agentVer : string) (now : Time)
  (sum : string) (hits : list string) : Event :=
  let learning := learning_of cfg snap in
  let sigs := ["user_priv_group"; "groups:" +:+ sjoin "," hits] in
  let conf := score_floor pack "USER_PRIV_GROUP_ADD" sigs 70 in
  NormalizeDedup ((scan_event pack agentVer now "USER_PRIV_GROUP_ADD" [] "" conf learning
    (mkEntity EntityFile sum group_file "") sigs (sjoin "; " hits) (held_back cfg learning conf))
    <| ev_Src := SrcFIM |> <| ev_Type := TypeDelta |>).

Definition scanUserPrivGroups (cfg : Config) (snap : Snapshot) (pack : Pack) (agentVer : string) (now : Time) : list Event :=
  match ReadFile group_file with
  | Err _ => []
  | Ok b =>
      let sum := sha256_hex b in
      if negb (changed_since (bs_PersistenceFiles snap) group_file sum) then []
      else match omap group_hit (split nl b) with
           | [] => []
           | hits => [group_event cfg snap pack agentVer now sum hits]
           end
  end.

(** Every file that is looked at, with its rule and its signal, in order. *)
Definition fimextra_targets : list (string * string * string) :=
  concat (map (λ pr, map (λ p, (pr_ruleID pr, pr_signal pr, p)) (rule_targets pr)) ruleset) ++
  map (λ p, ("CRON_RUNPARTS_EVASION", "cron_runparts_evasion", p)) run_parts_files ++
  map (λ p, ("SSHD_FORCED_COMMAND", "sshd_forced_command", p)) forced_command_files.

Definition Scan_fimextra (cfg : Config) (snap : Snapshot) (pack : Pack) (agentVer : string) (now : Time)
  : result (list Event) :=
  Ok (omap (λ '(ruleID, signal, p), emitIfNew cfg snap pack agentVer now ruleID signal p) fimextra_targets ++
      scanUserPrivGroups cfg snap pack agentVer now).

End host.
