(* ===== verification/FimextraFacts.v ===== *)
(** Theorems on the extra file-integrity rules: what is reported, what a commit
    leaves out, and a rule that cannot fire. *)
From S2P Require Export Fimextra PersistenceFacts.

Lemma fim_event_fields `{FileReader} `{Stater} cfg snap pack v now path r sig sum :
  ev_RuleID (fim_event cfg snap pack v now path r sig sum) = r ∧
  en_Path (ev_Entity (fim_event cfg snap pack v now path r sig sum)) = path.
Proof. unfold fim_event. cbv zeta. by rewrite NormalizeDedup_rule, NormalizeDedup_entity. Qed.

Lemma group_event_rule cfg snap pack v now sum hits :
  ev_RuleID (group_event cfg snap pack v now sum hits) = "USER_PRIV_GROUP_ADD".
Proof. unfold group_event. cbv zeta. by rewrite NormalizeDedup_rule. Qed.

#[local] Opaque fim_event group_event.

Section host.
Context `{FileReader} `{DirReader} `{Stater} `{Globber}.

(** A file whose content is not the one the baseline holds. *)
Definition off_baseline (snap : Snapshot) (p : string) : Prop :=
  ∃ data, fim_content p = Some data ∧ glookup (bs_PersistenceFiles snap) p ≠ Some (sha256_hex data).

Lemma emitIfNew_some cfg snap pack v now r sig p ev :
  emitIfNew cfg snap pack v now r sig p = Some ev → ev_RuleID ev = r ∧ en_Path (ev_Entity ev) = p ∧ off_baseline snap p.
Proof.
  unfold emitIfNew, off_baseline. destruct (fim_content p) as [data|]; [|done].
  destruct (changed_since _ _ _) eqn:Hc; [|done]. intros Hev. injection Hev as <-.
  destruct (fim_event_fields cfg snap pack v now p r sig (sha256_hex data)) as [-> ->].
  split; [done|]. split; [done|]. exists data. split; [done|]. by apply changed_since_iff.
Qed.

Lemma emitIfNew_is_some cfg snap pack v now r sig p :
  off_baseline snap p → is_Some (emitIfNew cfg snap pack v now r sig p).
Proof.
  intros (data & Hd & Hc%changed_since_iff). unfold emitIfNew. rewrite Hd, Hc. by eexists.
Qed.

Lemma scanUserPrivGroups_rule cfg snap pack v now ev :
  ev ∈ scanUserPrivGroups cfg snap pack v now → ev_RuleID ev = "USER_PRIV_GROUP_ADD".
Proof.
  unfold scanUserPrivGroups. destruct (ReadFile _); [|intros Hin; by apply elem_of_nil in Hin].
  destruct (negb _); [intros Hin; by apply elem_of_nil in Hin|].
  destruct (omap _ _) as [|h l]; [intros Hin; by apply elem_of_nil in Hin|].
  intros ->%list_elem_of_singleton. apply group_event_rule.
Qed.

Definition fim_reported (cfg : Config) (snap : Snapshot) (pack : Pack) (ver : string) (now : Time) (r p : string) : Prop :=
  ∃ evs ev, Scan_fimextra cfg snap pack ver now = Ok evs ∧ ev ∈ evs ∧ ev_RuleID ev = r ∧ en_Path (ev_Entity ev) = p.

Lemma fim_reported_iff cfg snap pack ver now r p :
  r ≠ "USER_PRIV_GROUP_ADD" →
  fim_reported cfg snap pack ver now r p ↔ (∃ sig, (r, sig, p) ∈ fimextra_targets) ∧ off_baseline snap p.
Proof.
  intros Hr. unfold fim_reported, Scan_fimextra. split.
  - intros (evs & ev & Hs & Hin & Hrule & Hpath). injection Hs as <-. apply elem_of_app in Hin as [Hin|Hin].
    + apply list_elem_of_omap in Hin as ([[r' sig] p'] & Ht & (Hr' & Hp' & Ho)%emitIfNew_some).
      assert (r' = r) as -> by congruence. assert (p' = p) as -> by congruence. split; [by exists sig|done].
    + apply scanUserPrivGroups_rule in Hin. congruence.
  - intros [[sig Ht] Ho]. destruct (emitIfNew_is_some cfg snap pack ver now r sig p Ho) as [ev Hev].
    eexists _, ev. split; [reflexivity|]. split; [|by apply emitIfNew_some in Hev as (? & ? & _)].
    apply elem_of_app. left. apply list_elem_of_omap. by exists (r, sig, p).
Qed.

(** C37: The extra rules are exact: apart from the group rule, a scan reports a
    rule for a path if and only if the rule looks at the path and its content
    is not the one the baseline holds; a path that is there but cannot be read
    as a file counts with empty content. *)
Theorem fimextra_iff cfg snap pack ver now r p :
  r ≠ "USER_PRIV_GROUP_ADD" →
  fim_reported cfg snap pack ver now r p ↔ (∃ sig, (r, sig, p) ∈ fimextra_targets) ∧ off_baseline snap p.
Proof. apply fim_reported_iff. Qed.

(** * What a commit leaves out *)

Section commit.
Context `{TreeWalker} `{Commander} `{CurrentUser}.
Variable ssh_fingerprint : string → option string.

(** A commit does not touch the entry of a path no persistence scanner looks at. *)
Lemma commit_untouched snap p :
  p ∉ committed_files →
  glookup (bs_PersistenceFiles (commit_persistence ssh_fingerprint snap)) p = glookup (bs_PersistenceFiles snap) p.
Proof. intros Hp. rewrite commit_files. apply (writes_other id sha_of). by rewrite map_id. Qed.

(** A path that only these rules look at is reported by every scan, however
    often the baseline is committed. *)
Theorem unbaselined_reported_forever cfg snap pack ver now r sig p n :
  r ≠ "USER_PRIV_GROUP_ADD" → (r, sig, p) ∈ fimextra_targets → is_Some (fim_content p) → p ∉ committed_files →
  glookup (bs_PersistenceFiles snap) p = None →
  fim_reported cfg (Nat.iter n (commit_persistence ssh_fingerprint) snap) pack ver now r p.
Proof.
  intros Hr Ht [data Hd] Hp Hn. apply fim_reported_iff; [done|]. split; [by exists sig|]. exists data. split; [done|].
  assert (Hi : glookup (bs_PersistenceFiles (Nat.iter n (commit_persistence ssh_fingerprint) snap)) p = None).
  { induction n as [|n IH]; [done|]. cbn [Nat.iter nat_rect]. by rewrite commit_untouched. }
  by rewrite Hi.
Qed.

End commit.

(** * A rule that cannot fire *)

(** Names of directory entries have no slash and are not "." or "..". *)
Definition names_plain : Prop := ∀ d ents, ReadDir d = Ok ents → Forall (λ e, plain_elem (de_Name e)) ents.

Lemma sexists_app q a b : sexists q (a +:+ b) = sexists q a || sexists q b.
Proof. induction a as [|c a IH]; [done|]. change (String c a +:+ b) with (String c (a +:+ b)). cbn [sexists]. by rewrite IH, orb_assoc. Qed.

Lemma contains_char s p (q : ascii → bool) :
  sexists q p = true → contains s p = true → sexists q s = true.
Proof.
  intros Hp (a & b & ->)%contains_iff. rewrite !sexists_app, Hp. by destruct (sexists q a).
Qed.

Lemma join_plain_child name :
  plain_elem name → path_join ["/etc/systemd/system"; name] = "/etc/systemd/system/" +:+ name.
Proof.
  intros Hn. pose proof Hn as (Hs & Hne & _). unfold path_join. cbn [List.filter].
  change ("/etc/systemd/system" =s? "") with false. apply String.eqb_neq in Hne. rewrite Hne. cbn [negb].
  change (sjoin "/" ["/etc/systemd/system"; name]) with ("/etc/systemd/system" +:+ String slash name).
  unfold path_clean. rewrite split_app_sep, (split_plain name Hs), clean_go_snoc by done. reflexivity.
Qed.

(** The drop-in directories lie one level too deep: the rule for overridden
    units never reports anything. *)
Theorem dropin_override_dead cfg snap pack ver now p :
  names_plain → ¬ fim_reported cfg snap pack ver now "SYSTEMD_DROPIN_OVERRIDE" p.
Proof.
  intros Hplain (sig & Ht) % fim_reported_iff % proj1; [|done]. unfold fimextra_targets in Ht.
  rewrite !elem_of_app, !elem_of_map' in Ht. destruct Ht as [Ht|[(q & [=] & _)|(q & [=] & _)]].
  apply elem_of_concat in Ht as (l & (pr & -> & Hpr)%elem_of_map' & (q & [= Hid _ ->] & Hq)%elem_of_map').
  unfold ruleset in Hpr. repeat (apply elem_of_cons in Hpr as [->|Hpr]; [try discriminate Hid|]); [|by apply elem_of_nil in Hpr].
  clear Hid. unfold rule_targets in Hq. cbn [pr_ruleID pr_paths] in Hq. change (_ =s? _) with false in Hq. cbv iota in Hq.
  cbn [map concat] in Hq. rewrite app_nil_r in Hq. unfold rule_files in Hq. destruct (Stat _) as [fi| |]; try by apply elem_of_nil in Hq.
  destruct (fi_IsDir fi); [|by apply elem_of_nil in Hq].
  apply elem_of_map' in Hq as ([name full] & _ & (Hin & Hm)%list_elem_of_In%filter_In).
  cbn [pr_match] in Hm. apply andb_true_iff in Hm as [Hm _].
  unfold dir_entries in Hin. destruct (ReadDir _) as [ents|] eqn:Hents; [|done].
  apply list_elem_of_In, elem_of_map' in Hin as (e & [= -> ->] & He).
  specialize (Hplain _ _ Hents). rewrite List.Forall_forall in Hplain. apply list_elem_of_In in He. specialize (Hplain e He).
  rewrite join_plain_child in Hm by done. destruct Hplain as (Hs & _).
  assert (Hc : contains (de_Name e) ".d/" = true) by (cbn in Hm; exact Hm).
  apply (contains_char _ _ (λ a, Ascii.eqb a slash)) in Hc; [|done].
  clear -Hs Hc. induction (de_Name e) as [|c s IH]; [done|]. cbn in *. destruct (Ascii.eqb c slash); [done|]. by apply IH.
Qed.

End host.

(** * A host with one file *)

Module FimDemo.

Definition nsswitch : string := "/etc/nsswitch.conf".
#[export] Instance demo_files : FileReader := λ p, if p =s? nsswitch then Ok "passwd: files" else Err ErrNotExist.
#[export] Instance demo_stat : Stater := λ p, if p =s? nsswitch then FOk (mkFileInfo false 13 0 420 0) else FNotExist.
#[export] Instance demo_dirs : DirReader := λ _, Err ErrNotExist.
#[export] Instance demo_glob : Globber := λ _, Ok [].
#[export] Instance demo_walk : TreeWalker := λ _, [].
#[export] Instance demo_output : Commander := λ _, Err "exit status 2".
#[export] Instance demo_user : CurrentUser := Err "no user".

End FimDemo.

Section demo.
Import FimDemo.

Lemma nsswitch_target : ("NSS_CONFIG_CHANGE", "nsswitch_change", nsswitch) ∈ fimextra_targets.
Proof.
  assert (Ht : fimextra_targets = [("NSS_CONFIG_CHANGE", "nsswitch_change", nsswitch)]) by (vm_compute; reflexivity).
  rewrite Ht. left.
Qed.

Lemma fimextra_iff_witness :
  "NSS_CONFIG_CHANGE" ≠ "USER_PRIV_GROUP_ADD" ∧
  fim_reported Default EmptySnapshot (mkPack "1" []) "1" 0 "NSS_CONFIG_CHANGE" nsswitch.
Proof.
  split; [discriminate|]. apply (fimextra_iff Default EmptySnapshot (mkPack "1" []) "1" 0); [discriminate|].
  split; [eexists; apply nsswitch_target|]. exists "passwd: files". split; [reflexivity|]. intros Hl. discriminate Hl.
Defined.

(** A change of the name service is reported after a hundred commits. *)
Lemma unbaselined_reported_forever_witness :
  fim_reported Default (Nat.iter 100 (commit_persistence (λ _, None)) EmptySnapshot) (mkPack "1" []) "1" 0
    "NSS_CONFIG_CHANGE" nsswitch.
Proof.
  apply (unbaselined_reported_forever (λ _, None) Default EmptySnapshot (mkPack "1" []) "1" 0 "NSS_CONFIG_CHANGE" "nsswitch_change").
  - discriminate.
  - apply nsswitch_target.
  - eexists. reflexivity.
  - assert (Hc : committed_files = ["/etc/passwd"; "/etc/shadow"]) by (vm_compute; reflexivity). rewrite Hc.
    unfold nsswitch. intros [[=]|[[=]|[]%elem_of_nil]%elem_of_cons]%elem_of_cons.
  - reflexivity.
Defined.

Lemma dropin_override_dead_witness :
  names_plain ∧ ¬ fim_reported Default EmptySnapshot (mkPack "1" []) "1" 0 "SYSTEMD_DROPIN_OVERRIDE" nsswitch.
Proof.
  assert (Hp : names_plain) by (intros d ents Hd; discriminate Hd).
  split; [exact Hp|]. apply (dropin_override_dead Default EmptySnapshot (mkPack "1" []) "1" 0 nsswitch Hp).
Defined.

End demo.
