(* ===== verification/GoMd5.v ===== *)
(** Go's [crypto/md5] as the agent uses it: [md5.New], [io.Copy] of a file and
    [hex.EncodeToString] of the sum. *)
From S2P Require Export GoCrypto.

Module Md5.

Definition w32 (z : Z) : Z := z mod 2 ^ 32.
Definition rotl (n x : Z) : Z := Z.lor (w32 (Z.shiftl x n)) (Z.shiftr x (32 - n)).

(** The integer parts of [2^32 * |sin (i + 1)|]. *)
Definition k : list Z :=
  [0xd76aa478; 0xe8c7b756; 0x242070db; 0xc1bdceee; 0xf57c0faf; 0x4787c62a; 0xa8304613; 0xfd469501;
   0x698098d8; 0x8b44f7af; 0xffff5bb1; 0x895cd7be; 0x6b901122; 0xfd987193; 0xa679438e; 0x49b40821;
   0xf61e2562; 0xc040b340; 0x265e5a51; 0xe9b6c7aa; 0xd62f105d; 0x02441453; 0xd8a1e681; 0xe7d3fbc8;
   0x21e1cde6; 0xc33707d6; 0xf4d50d87; 0x455a14ed; 0xa9e3e905; 0xfcefa3f8; 0x676f02d9; 0x8d2a4c8a;
   0xfffa3942; 0x8771f681; 0x6d9d6122; 0xfde5380c; 0xa4beea44; 0x4bdecfa9; 0xf6bb4b60; 0xbebfbc70;
   0x289b7ec6; 0xeaa127fa; 0xd4ef3085; 0x04881d05; 0xd9d4d039; 0xe6db99e5; 0x1fa27cf8; 0xc4ac5665;
   0xf4292244; 0x432aff97; 0xab9423a7; 0xfc93a039; 0x655b59c3; 0x8f0ccc92; 0xffeff47d; 0x85845dd1;
   0x6fa87e4f; 0xfe2ce6e0; 0xa3014314; 0x4e0811a1; 0xf7537e82; 0xbd3af235; 0x2ad7d2bb; 0xeb86d391].

Definition h0 : list Z := [0x67452301; 0xefcdab89; 0x98badcfe; 0x10325476].

(** The amounts of rotation, four per group of sixteen steps. *)
Definition shifts : list (list Z) := [[7; 12; 17; 22]; [5; 9; 14; 20]; [4; 11; 16; 23]; [6; 10; 15; 21]].

Fixpoint le_bytes (n : nat) (z : Z) : list Z :=
  match n with O => [] | S m => z mod 256 :: le_bytes m (z / 256) end.

(** The message, a 1 bit, zeros, and the bit length in 8 bytes. *)
Definition pad (m : list Z) : list Z :=
  let n := Z.of_nat (length m) in
  m ++ 0x80 :: replicate (Z.to_nat ((55 - n) mod 64)) 0 ++ le_bytes 8 (8 * n).

Fixpoint words (l : list Z) : list Z :=
  match l with
  | a :: b :: c :: d :: r => (a + 256 * (b + 256 * (c + 256 * d))) :: words r
  | _ => []
  end.

Definition mixing (i : Z) (b c d : Z) : Z * Z :=
  let not x := Z.lxor x 0xffffffff in
  if i <? 16 then (Z.lor (Z.land b c) (Z.land (not b) d), i)
  else if i <? 32 then (Z.lor (Z.land d b) (Z.land (not d) c), (5 * i + 1) mod 16)
  else if i <? 48 then (Z.lxor b (Z.lxor c d), (3 * i + 5) mod 16)
  else (Z.lxor c (Z.lor b (not d)), (7 * i) mod 16).

Definition step (chunk : list Z) (st : list Z) (i : nat) : list Z :=
  match st with
  | [a; b; c; d] =>
      let '(f, g) := mixing (Z.of_nat i) b c d in
      let x := w32 (f + a + nth i k 0 + nth (Z.to_nat g) chunk 0) in
      [d; w32 (b + rotl (nth (i mod 4) (nth (i / 16) shifts []) 0) x); b; c]
  | _ => st
  end.

Definition compress (h : list Z) (chunk : list Z) : list Z :=
  zip_with (λ x y, w32 (x + y)) h (foldl (step chunk) h (seq 0 64)).

Definition sum (s : string) : string :=
  let ws := words (pad (Sha256.bytes s)) in
  Sha256.to_string (concat (map (le_bytes 4) (foldl compress h0 (Sha256.chunks (length ws) ws)))).

End Md5.

(** [hex.EncodeToString(h.Sum(nil))] after writing [s] to [md5.New()]. *)
Definition md5_hex (s : string) : string := hex_encode (Md5.sum s).

Example md5_empty : md5_hex "" = "d41d8cd98f00b204e9800998ecf8427e".
Proof. vm_compute. reflexivity. Qed.

Example md5_abc : md5_hex "abc" = "900150983cd24fb0d6963f7d28e17f72".
Proof. vm_compute. reflexivity. Qed.

(** More than one block. *)
Example md5_digits :
  md5_hex "12345678901234567890123456789012345678901234567890123456789012345678901234567890"
  = "57edf4a22be3c955ac49da2e2107b67a".
Proof. vm_compute. reflexivity. Qed.
