(* ===== verification/Integrity.v ===== *)
(** [internal/detect/integrity]: verification of binaries against the package
    manager, and the inventory of set-id binaries and file capabilities against
    the baseline.

    [order_map] is the order in which Go ranges over a map; [EvalSymlinks] is
    [filepath.EvalSymlinks], [CombinedOutput] both output streams of a program,
    whatever its exit status, and [Getxattr] the system call with a buffer of
    the size that a first call reported. *)
From S2P Require Export Detect GoMd5.

Definition RuleBinaryMD5Mismatch : string := "LIB_HASH_MISMATCH".
Definition RuleSUIDAnomaly : string := "SUID_INVENTORY_DELTA".
Definition RuleSUIDUnpackaged : string := "SUID_UNPACKAGED".
Definition RuleSUIDWritablePath : string := "SUID_IN_WRITABLE_PATH".
Definition RuleCapabilityAnomaly : string := "FILE_CAPABILITY_DELTA".

Inductive distro := distroUnknown | distroDpkg | distroRpm.

Section host.
Context `{FileReader} `{Stater} `{TreeWalker} `{Commander}.
Variable EvalSymlinks : string → result string.
Variable CombinedOutput : list string → string.
Variable Getxattr : string → string → result string.
Variable order_map : list (string * string) → list (string * string).

(** * Which package manager *)

Definition os_release_distro (line : string) : option distro :=
  if has_prefix line "ID=" || has_prefix line "ID_LIKE=" then
    let rest := match index_byte line "=" with Some i => sdrop (S i) line | None => "" end in
    let v := to_lower (trim (Ascii.eqb dquote) rest) in
    if existsb (contains v) ["debian"; "ubuntu"] then Some distroDpkg
    else if existsb (contains v) ["rhel"; "centos"; "fedora"; "rocky"; "suse"; "amzn"] then Some distroRpm
    else None
  else None.

Definition detectDistro : distro :=
  if exists_ "/var/lib/dpkg/status" then distroDpkg
  else if exists_ "/var/lib/rpm/Packages" then distroRpm
  else if exists_ "/var/lib/rpm/rpmdb.sqlite" then distroRpm
  else match ReadFile "/etc/os-release" with
       | Err _ => distroUnknown
       | Ok s => default distroUnknown (head (omap os_release_distro (fst (scan_lines MaxScanTokenSize s))))
       end.

(** * dpkg *)

(** The package of a line of [dpkg-query -S]: what precedes the first colon. *)
Definition line_package (l : string) : option string :=
  let l := trim_space l in
  match index_byte l ":" with
  | Some (S _ as i) => Some (trim_space (stake i l))
  | _ => None
  end.

Definition dpkgOwningPackage (absPath : string) : result string :=
  let? out := Output ["dpkg-query"; "-S"; absPath] in
  match head (omap line_package (split nl (trim_space out))) with
  | Some pkg => Ok pkg
  | None => Err "no package"
  end.

(** The sum a line of the md5sums file gives for the path. *)
Definition md5_line (absPath : string) (line : string) : option string :=
  match fields (trim_space line) with
  | [sum; p] =>
      let rel := trim_prefix (trim_prefix p "./") "/" in
      let tgt := trim_prefix (path_clean absPath) "/" in
      if (rel =s? tgt) || (rel =s? trim_prefix tgt "/") ||
         ("/" +:+ rel =s? absPath) || (rel =s? trim_prefix absPath "/")
      then Some sum else None
  | _ => None
  end.

Definition md5FromDpkgInfo (pkg absPath : string) : result string :=
  let? s := ReadFile (path_join ["/var/lib/dpkg/info"; pkg +:+ ".md5sums"]) in
  match head (omap (md5_line absPath) (fst (scan_lines MaxScanTokenSize s))) with
  | Some sum => Ok sum
  | None => Err "path not in md5sums"
  end.

Definition resolved (abs : string) : string :=
  let abs := path_clean abs in
  match EvalSymlinks abs with Ok r => path_clean r | Err _ => abs end.

(** What dpkg recorded for the file that is there: its package, the recorded
    sum and the sum of the content. *)
Definition dpkg_verdict (abs : string) : option (string * string * string) :=
  match ReadFile abs with
  | Err _ => None
  | Ok data =>
      if match Stat abs with FOk fi => fi_IsDir fi | _ => true end then None
      else match dpkgOwningPackage abs with
           | Err _ => None
           | Ok pkg =>
               if pkg =s? "" then None
               else match md5FromDpkgInfo pkg abs with
                    | Err _ => None
                    | Ok expected => if expected =s? "" then None else Some (pkg, expected, md5_hex data)
                    end
           end
  end.

Definition mismatch_event (pack : Pack) (agentVer : string) (now : Time) (sigs : list string) (id path evidence : string) : Event :=
  let conf := score_floor pack RuleBinaryMD5Mismatch sigs 85 in
  NormalizeDedup (scan_event pack agentVer now RuleBinaryMD5Mismatch ["T1036"; "T1574.006"] "defense-evasion" conf false
    (mkEntity EntityFile id path "") sigs evidence false).

Definition dpkg_file (pack : Pack) (agentVer : string) (now : Time) (abs : string) : option Event :=
  match dpkg_verdict abs with
  | None => None
  | Some (pkg, expected, sum) =>
      if equal_fold sum expected then None
      else Some (mismatch_event pack agentVer now ["md5_mismatch_vs_dpkg"; "package:" +:+ pkg] sum abs
             ("path=" +:+ abs +:+ " expected_md5=" +:+ expected +:+ " actual_md5=" +:+ sum +:+ " pkg=" +:+ pkg))
  end.

Definition scanDpkg (cfg : Config) (pack : Pack) (agentVer : string) (now : Time) : list Event :=
  omap (λ p, dpkg_file pack agentVer now (resolved p)) (cfg_IntegrityPaths cfg).

(** * rpm *)

(** The flags and the path of a line of [rpm -Va] that is reported. *)
Definition rpm_line (cfg : Config) (line : string) : option (string * string) :=
  if slen line <? 12 then None
  else match fields line with
       | flags :: ((_ :: _) as rest) =>
           let path := List.last rest "" in
           if negb (contains_any flags "5MUGT P") then None
           else if nonempty_list (cfg_IntegrityPaths cfg) && negb (mem_str path (cfg_IntegrityPaths cfg)) then None
           else Some (flags, path)
       | _ => None
       end.

Definition rpm_event (pack : Pack) (agentVer : string) (now : Time) (line flags path : string) : Event :=
  mismatch_event pack agentVer now
    (["rpm_va_mismatch"; "flags:" +:+ flags] ++ if contains flags "5" then ["digest_mismatch"] else []) path path line.

Definition rpm_output : list string := fst (scan_lines MaxScanTokenSize (CombinedOutput ["rpm"; "--nosignature"; "-Va"])).

Definition scanRPM (cfg : Config) (pack : Pack) (agentVer : string) (now : Time) : list Event :=
  omap (λ line, (λ '(flags, path), rpm_event pack agentVer now line flags path) <$> rpm_line cfg line) rpm_output.

(** * Set-id binaries *)

Definition suidScanDirs : list string :=
  ["/bin"; "/sbin"; "/usr/bin"; "/usr/sbin"; "/usr/local/bin"; "/usr/local/sbin";
   "/lib"; "/usr/lib"; "/lib64"; "/usr/lib64"; "/usr/libexec"; "/opt"].

(** [os.ModeSetuid | os.ModeSetgid]. *)
Definition setid_bits : Z := Z.lor (Z.shiftl 1 23) (Z.shiftl 1 22).

(** The entries of the walks of the directories that exist. *)
Definition walked (dirs : list string) : list walk_entry :=
  concat (map (λ dir, match Stat dir with
                      | FOk fi => if fi_IsDir fi then List.filter (λ e, negb (we_Err e || we_IsDir e)) (WalkDir dir) else []
                      | _ => []
                      end) dirs).

(** A Go map filled in the order of the entries. *)
Definition inventory (f : walk_entry → option string) (es : list walk_entry) : gmap string string :=
  fold_left (λ m e, match f e with Some v => <[we_Path e := v]> m | None => m end) es ∅.

Definition hashFilePinned (path : string) : result string := let? data := ReadFile path in Ok (sha256_hex data).

Definition suid_hash (e : walk_entry) : option string :=
  match we_Info e with
  | None => None
  | Some info =>
      if Z.land (fi_Mode info) setid_bits =? 0 then None
      else match hashFilePinned (we_Path e) with Ok h => Some h | Err _ => None end
  end.

Definition enumerateSUIDBinaries : gmap string string := inventory suid_hash (walked suidScanDirs).

Definition looksLikePackagedBinary (path : string) : bool :=
  existsb (has_prefix path) ["/bin/"; "/sbin/"; "/usr/bin/"; "/usr/sbin/"; "/usr/libexec/"; "/usr/lib/"; "/lib/"].

Definition isWritablePathSUID (path : string) : bool :=
  existsb (has_prefix path) ["/tmp/"; "/var/tmp/"; "/dev/shm/"; "/home/"].

Definition dpkgOwned (path : string) : bool := is_ok (dpkgOwningPackage path).

Definition suid_unpackaged (path : string) : bool := negb (looksLikePackagedBinary path) || negb (dpkgOwned path).

Definition suid_signals (known : bool) (path : string) : list string :=
  ["suid_binary_present"] ++
  [if known then "suid_binary_hash_changed" else "new_suid_binary"] ++
  (if isWritablePathSUID path then ["suid_in_world_writable_path"] else []) ++
  (if suid_unpackaged path then ["suid_unpackaged"] else []).

Definition suid_rule (path : string) : string :=
  if isWritablePathSUID path then RuleSUIDWritablePath
  else if suid_unpackaged path then RuleSUIDUnpackaged else RuleSUIDAnomaly.

(** The score, at least [floor] for what the baseline does not know. *)
Definition delta_conf (pack : Pack) (ruleID : string) (sigs : list string) (known : bool) (floor : Z) : Z :=
  if known then fst (Score pack ruleID sigs) else score_floor pack ruleID sigs floor.

Definition suid_event (cfg : Config) (snap : Snapshot) (pack : Pack) (agentVer : string) (now : Time)
  (known : bool) (path hash : string) : Event :=
  let learning := learning_of cfg snap in
  let sigs := suid_signals known path in
  let conf := delta_conf pack (suid_rule path) sigs known 90 in
  NormalizeDedup (with_labels SrcInventory TypeDelta "" ""
    (scan_event pack agentVer now (suid_rule path) ["T1548.001"] "privilege-escalation" conf learning
       (mkEntity EntityFile hash path "") sigs ("path=" +:+ path +:+ " sha256=" +:+ hash) (held_back cfg learning conf))).

(** A set-id file that is gone: for the record only. *)
Definition suid_removed (pack : Pack) (agentVer : string) (now : Time) (path : string) : Event :=
  NormalizeDedup ((scan_event pack agentVer now RuleSUIDAnomaly ["T1548.001"] "privilege-escalation" 40 true
    (mkEntity EntityFile ("removed:" +:+ path) path "") ["suid_binary_removed"] "SUID binary no longer present" true)
    <| ev_Severity := SeverityInfo |>).

(** What differs from the base: the entries of the current map that the base
    does not hold with the same value. *)
Definition map_delta (base current : gmap string string) (mk : bool → string → string → Event) : list Event :=
  omap (λ '(path, v), match base !! path with
                      | Some prev => if prev =s? v then None else Some (mk true path v)
                      | None => Some (mk false path v)
                      end) (order_map (map_to_list current)).

Definition scanSUID (cfg : Config) (snap : Snapshot) (pack : Pack) (agentVer : string) (now : Time) : list Event :=
  let current := enumerateSUIDBinaries in
  let base := default ∅ (bs_SUIDInventory snap) in
  map_delta base current (suid_event cfg snap pack agentVer now) ++
  (if IsCommitted snap
   then omap (λ '(path, _), match current !! path with
                            | Some _ => None
                            | None => Some (suid_removed pack agentVer now path)
                            end) (order_map (map_to_list base))
   else []).

Definition BuildBaselineSUID (snap : Snapshot) : Snapshot := snap <| bs_SUIDInventory := Some enumerateSUIDBinaries |>.

(** * File capabilities *)

Definition capsScanDirs : list string := ["/bin"; "/sbin"; "/usr/bin"; "/usr/sbin"; "/usr/local/bin"; "/usr/local/sbin"].

Definition readFileCapability (path : string) : string :=
  match Getxattr path "security.capability" with Ok b => hex_encode b | Err _ => "" end.

Definition file_capability (e : walk_entry) : option string :=
  let cap := readFileCapability (we_Path e) in if negb (cap =s? "") then Some cap else None.

Definition enumerateCapabilities : gmap string string := inventory file_capability (walked capsScanDirs).

Definition caps_event (cfg : Config) (snap : Snapshot) (pack : Pack) (agentVer : string) (now : Time)
  (known : bool) (path cap : string) : Event :=
  let learning := learning_of cfg snap in
  let sigs := ["file_capability_present"; if known then "file_capability_changed" else "new_file_capability"] in
  let conf := delta_conf pack RuleCapabilityAnomaly sigs known 85 in
  NormalizeDedup (scan_event pack agentVer now RuleCapabilityAnomaly ["T1548.001"] "privilege-escalation" conf learning
    (mkEntity EntityFile cap path "") sigs ("path=" +:+ path +:+ " cap=" +:+ cap) (held_back cfg learning conf)).

Definition scanCapabilities (cfg : Config) (snap : Snapshot) (pack : Pack) (agentVer : string) (now : Time) : list Event :=
  map_delta (default ∅ (bs_FileCapabilities snap)) enumerateCapabilities (caps_event cfg snap pack agentVer now).

Definition BuildBaselineCapabilities (snap : Snapshot) : Snapshot :=
  snap <| bs_FileCapabilities := Some enumerateCapabilities |>.

(** * The scan and the commit *)

Definition Scan_integrity (cfg : Config) (snap : Snapshot) (pack : Pack) (agentVer : string) (now : Time)
  : result (list Event) :=
  if negb (cfg_IntegrityVerifyEnabled cfg) then Ok []
  else Ok (match detectDistro with
           | distroDpkg => scanDpkg cfg pack agentVer now
           | distroRpm => scanRPM cfg pack agentVer now
           | distroUnknown => []
           end ++ scanSUID cfg snap pack agentVer now ++ scanCapabilities cfg snap pack agentVer now).

Definition BuildBaselineIntegrity (snap : Snapshot) : Snapshot := BuildBaselineCapabilities (BuildBaselineSUID snap).

End host.
