(* ===== verification/IntegrityFacts.v ===== *)
(** Theorems on package integrity: the set-id inventory is compared exactly,
    a commit silences it, what dpkg's record of sums says, which lines of rpm
    are reported, and the rules that cannot fire or always do. *)
From S2P Require Export Integrity.
#[local] Set Default Proof Using "Type*".

(** The fields of the events. *)
Section fields_of.
Context `{Commander}.

Lemma suid_event_fields cfg snap pack v now known path hash :
  ev_Signals (suid_event cfg snap pack v now known path hash) = suid_signals known path ∧
  ev_Entity (suid_event cfg snap pack v now known path hash) = mkEntity EntityFile hash path "" ∧
  ev_RuleID (suid_event cfg snap pack v now known path hash) = suid_rule path.
Proof. unfold suid_event. cbv zeta. by rewrite NormalizeDedup_signals, NormalizeDedup_entity, NormalizeDedup_rule. Qed.

Lemma suid_removed_fields pack v now path :
  ev_Signals (suid_removed pack v now path) = ["suid_binary_removed"] ∧
  ev_Entity (suid_removed pack v now path) = mkEntity EntityFile ("removed:" +:+ path) path "" ∧
  ev_RuleID (suid_removed pack v now path) = RuleSUIDAnomaly.
Proof. unfold suid_removed. by rewrite NormalizeDedup_signals, NormalizeDedup_entity, NormalizeDedup_rule. Qed.

Lemma mismatch_event_fields pack v now sigs id path evd :
  en_Path (ev_Entity (mismatch_event pack v now sigs id path evd)) = path ∧
  ev_Evidence (mismatch_event pack v now sigs id path evd) = evd.
Proof.
  unfold mismatch_event. cbv zeta. rewrite NormalizeDedup_entity. split; [done|].
  unfold NormalizeDedup. by destruct (ev_DedupKey _ =s? "").
Qed.

End fields_of.

#[local] Opaque suid_event suid_removed mismatch_event.

(** * Differences of two maps *)

Section delta.
Variable order_map : list (string * string) → list (string * string).
Hypothesis order_perm : ∀ l, order_map l ≡ₚ l.

Lemma elem_of_order (m : gmap string string) k v : (k, v) ∈ order_map (map_to_list m) ↔ m !! k = Some v.
Proof. rewrite (order_perm (map_to_list m)). apply elem_of_map_to_list. Qed.

Lemma map_delta_iff base current mk ev :
  ev ∈ map_delta order_map base current mk ↔
  ∃ path v, current !! path = Some v ∧ base !! path ≠ Some v ∧ ev = mk (bool_decide (is_Some (base !! path))) path v.
Proof.
  unfold map_delta. rewrite list_elem_of_omap. split.
  - intros ([path v] & Hin%elem_of_order & Hm). exists path, v. split; [done|].
    destruct (base !! path) as [prev|]; [|by injection Hm as <-].
    destruct (String.eqb_spec prev v) as [|Hne]; [done|]. injection Hm as <-. split; [congruence|done].
  - intros (path & v & Hc & Hb & ->). exists (path, v). split; [by apply elem_of_order|].
    destruct (base !! path) as [prev|]; [|done]. destruct (String.eqb_spec prev v) as [->|Hne]; done.
Qed.

Lemma map_delta_same m mk : map_delta order_map m m mk = [].
Proof.
  destruct (map_delta order_map m m mk) as [|e l] eqn:Hd; [done|].
  assert (Hin : e ∈ map_delta order_map m m mk) by (rewrite Hd; left).
  apply map_delta_iff in Hin as (? & ? & ? & ? & _). congruence.
Qed.

End delta.

(** * Inventories *)

Lemma inventory_go f es (m : gmap string string) path v :
  fold_left (λ m e, match f e with Some v => <[we_Path e := v]> m | None => m end) es m !! path = Some v →
  m !! path = Some v ∨ ∃ e, e ∈ es ∧ we_Path e = path ∧ f e = Some v.
Proof.
  revert m. induction es as [|e es IH]; intros m Hl; cbn [fold_left] in Hl; [by left|].
  apply IH in Hl as [Hl|(e' & He' & Hp)]; [|right; exists e'; split; [by right|done]].
  destruct (f e) as [w|] eqn:Hf; [|by left]. apply lookup_insert_Some in Hl as [[<- <-]|[_ Hl]]; [|by left].
  right. exists e. split; [left|done].
Qed.

(** What an inventory holds comes from an entry of the walk. *)
Lemma inventory_some f es path v :
  inventory f es !! path = Some v → ∃ e, e ∈ es ∧ we_Path e = path ∧ f e = Some v.
Proof. unfold inventory. intros [Hl|Hl]%inventory_go; [by rewrite lookup_empty in Hl|done]. Qed.

Section host.
Context `{FileReader} `{Stater} `{TreeWalker} `{Commander}.
Variable EvalSymlinks : string → result string.
Variable CombinedOutput : list string → string.
Variable Getxattr : string → string → result string.
Variable order_map : list (string * string) → list (string * string).
Hypothesis order_perm : ∀ l, order_map l ≡ₚ l.

#[local] Abbreviation scan_suid := (scanSUID order_map).

(** * The set-id inventory *)

(** The reference: what became of a path since the baseline. *)
Definition suid_change (snap : Snapshot) (path : string) : option string :=
  match enumerateSUIDBinaries !! path, glookup (bs_SUIDInventory snap) path with
  | Some _, None => Some "new_suid_binary"
  | Some h, Some h' => if h' =s? h then None else Some "suid_binary_hash_changed"
  | None, Some _ => if IsCommitted snap then Some "suid_binary_removed" else None
  | None, None => None
  end.

Definition suid_changes : list string := ["new_suid_binary"; "suid_binary_hash_changed"; "suid_binary_removed"].

Definition suid_reported (evs : list Event) (path change : string) : Prop :=
  ∃ ev, ev ∈ evs ∧ en_Path (ev_Entity ev) = path ∧ change ∈ ev_Signals ev.

Lemma glookup_default {V} (m : gomap V) (k : string) : default ∅ m !! k = glookup m k.
Proof. destruct m; [done|]. apply lookup_empty. Qed.

Lemma suid_signals_change known path c :
  c ∈ suid_changes → c ∈ suid_signals known path ↔ c = if known then "suid_binary_hash_changed" else "new_suid_binary".
Proof.
  intros Hc. unfold suid_signals. rewrite !elem_of_app, !list_elem_of_singleton. split; [|by auto].
  unfold suid_changes in Hc. rewrite !elem_of_cons in Hc.
  intros [->|[->|[Hx|Hx]]]; [by destruct Hc as [?|[?|[?|?%elem_of_nil]]]|done| |].
  - destruct (isWritablePathSUID _); [|by apply elem_of_nil in Hx].
    apply list_elem_of_singleton in Hx as ->. by destruct Hc as [?|[?|[?|?%elem_of_nil]]].
  - destruct (suid_unpackaged _); [|by apply elem_of_nil in Hx].
    apply list_elem_of_singleton in Hx as ->. by destruct Hc as [?|[?|[?|?%elem_of_nil]]].
Qed.

Lemma suid_removals_iff snap pack v now ev :
  ev ∈ (if IsCommitted snap
        then omap (λ '(path, _), match enumerateSUIDBinaries !! path with
                                 | Some _ => None
                                 | None => Some (suid_removed pack v now path)
                                 end) (order_map (map_to_list (default ∅ (bs_SUIDInventory snap))))
        else []) ↔
  IsCommitted snap = true ∧ ∃ path, is_Some (glookup (bs_SUIDInventory snap) path) ∧
    enumerateSUIDBinaries !! path = None ∧ ev = suid_removed pack v now path.
Proof.
  destruct (IsCommitted snap); [|split; [by intros ?%elem_of_nil|by intros [? _]]].
  rewrite list_elem_of_omap. split.
  - intros ([path h] & Hin & Hm). split; [done|]. exists path. apply (elem_of_order _ order_perm) in Hin.
    rewrite glookup_default in Hin. rewrite Hin.
    destruct (enumerateSUIDBinaries !! path); [done|]. by injection Hm as <-.
  - intros (_ & path & [h Hb] & Hc & ->). exists (path, h). split; [|by rewrite Hc].
    apply (elem_of_order _ order_perm). by rewrite glookup_default.
Qed.

(** C24: The inventory of set-id binaries is compared exactly with the baseline: a
    scan reports a path as new, changed or removed if and only if it became so;
    removals are reported only after a commit. *)
Theorem suid_delta_iff cfg snap pack ver now path c :
  c ∈ suid_changes → suid_reported (scan_suid cfg snap pack ver now) path c ↔ suid_change snap path = Some c.
Proof.
  intros Hc. unfold suid_reported, scanSUID, suid_change. setoid_rewrite elem_of_app. split.
  - intros (ev & [Hin|Hin] & Hp & Hs).
    + apply (map_delta_iff _ order_perm) in Hin as (q & h & Hcur & Hb & ->).
      destruct (suid_event_fields cfg snap pack ver now (bool_decide (is_Some (default ∅ (bs_SUIDInventory snap) !! q))) q h)
        as (Hsig & Hent & _).
      rewrite Hent in Hp. rewrite Hsig in Hs. change (en_Path _) with q in Hp. subst q.
      apply suid_signals_change in Hs; [|done]. rewrite Hcur, Hs. rewrite glookup_default in Hb |- *.
      destruct (glookup _ path) as [h'|]; [|done]. cbn. destruct (String.eqb_spec h' h) as [->|]; done.
    + apply suid_removals_iff in Hin as (Hk & q & [h Hb] & Hcur & ->).
      destruct (suid_removed_fields pack ver now q) as (Hsig & Hent & _). rewrite Hent in Hp. rewrite Hsig in Hs.
      change (en_Path _) with q in Hp. subst q. apply list_elem_of_singleton in Hs as ->. by rewrite Hcur, Hb, Hk.
  - intros Hch. destruct (enumerateSUIDBinaries !! path) as [h|] eqn:Hcur.
    + exists (suid_event cfg snap pack ver now (bool_decide (is_Some (glookup (bs_SUIDInventory snap) path))) path h).
      destruct (suid_event_fields cfg snap pack ver now (bool_decide (is_Some (glookup (bs_SUIDInventory snap) path))) path h)
        as (Hsig & Hent & _).
      rewrite Hsig, Hent. split; [left; apply (map_delta_iff _ order_perm); exists path, h; rewrite glookup_default|split; [done|]].
      * split; [done|]. split; [|done]. destruct (glookup _ path) as [h'|]; [|done].
        destruct (String.eqb_spec h' h); [done|congruence].
      * apply suid_signals_change; [done|]. destruct (glookup _ path) as [h'|]; [|by injection Hch as <-].
        destruct (String.eqb_spec h' h); [done|by injection Hch as <-].
    + destruct (glookup _ path) as [h|] eqn:Hb; [|done].
      assert (Hk : IsCommitted snap = true) by (by destruct (IsCommitted snap)). rewrite Hk in Hch. injection Hch as <-.
      exists (suid_removed pack ver now path). destruct (suid_removed_fields pack ver now path) as (Hsig & Hent & _).
      rewrite Hsig, Hent. split; [right; apply suid_removals_iff; eauto|split; [done|left]].
Qed.

(** * After a commit *)

(** On a host that did not change since the commit, the set-id and capability
    scans report nothing. *)
Lemma integrity_quiet cfg snap pack ver now :
  bs_SUIDInventory snap = Some enumerateSUIDBinaries → bs_FileCapabilities snap = Some (enumerateCapabilities Getxattr) →
  scan_suid cfg snap pack ver now = [] ∧ scanCapabilities Getxattr order_map cfg snap pack ver now = [].
Proof.
  intros Hs Hc. unfold scanSUID, scanCapabilities. rewrite Hs, Hc.
  change (default ∅ (Some enumerateSUIDBinaries)) with enumerateSUIDBinaries.
  change (default ∅ (Some (enumerateCapabilities Getxattr))) with (enumerateCapabilities Getxattr).
  rewrite !(map_delta_same _ order_perm). split; [|done]. cbn [app]. destruct (IsCommitted snap); [|done].
  apply omap_nil. intros [path h] Hin%(elem_of_order _ order_perm). by rewrite Hin.
Qed.

(** * Rules that cannot fire, and one that always does *)

(** A walk visits its root and what lies below it. *)
Definition walk_below : Prop := ∀ root e, e ∈ WalkDir root → has_prefix (we_Path e) root = true.

Lemma prefix_total a b s : String.prefix a s = true → String.prefix b s = true → String.prefix a b = true ∨ String.prefix b a = true.
Proof.
  revert b s. induction a as [|x a IH]; intros b s Ha Hb; [left; by destruct b|].
  destruct b as [|y b]; [by right|]. destruct s as [|z s]; [done|]. cbn in Ha, Hb |- *.
  destruct (ascii_dec x z) as [->|]; [|done]. destruct (ascii_dec y z) as [->|]; [|done].
  destruct (ascii_dec z z); [by apply (IH b s)|done].
Qed.

Lemma walked_below dirs e : walk_below → e ∈ walked dirs → ∃ d, d ∈ dirs ∧ has_prefix (we_Path e) d = true.
Proof.
  intros Hw Hin. unfold walked in Hin. apply elem_of_concat in Hin as (l & (d & -> & Hd)%elem_of_map' & He).
  exists d. split; [done|]. destruct (Stat d) as [fi| |]; try by apply elem_of_nil in He.
  destruct (fi_IsDir fi); [|by apply elem_of_nil in He].
  apply list_elem_of_In, filter_In in He as [He%list_elem_of_In _]. by apply Hw.
Qed.

(** None of the directories that are searched is world-writable by the code's
    own list, so the rule for set-id files in world-writable places never
    fires. *)
Theorem suid_writable_dead cfg snap pack ver now ev :
  walk_below → ev ∈ scan_suid cfg snap pack ver now → ev_RuleID ev ≠ RuleSUIDWritablePath.
Proof.
  intros Hw. unfold scanSUID. rewrite elem_of_app, (map_delta_iff _ order_perm), suid_removals_iff.
  intros [(path & h & Hcur & _ & ->)|(_ & path & _ & _ & ->)];
    [|by destruct (suid_removed_fields pack ver now path) as (_ & _ & ->)].
  match goal with |- ev_RuleID (suid_event _ _ _ _ _ ?k _ _) ≠ _ =>
    destruct (suid_event_fields cfg snap pack ver now k path h) as (_ & _ & ->) end.
  apply inventory_some in Hcur as (e & (d & Hd & Hp)%walked_below & <- & _); [|done].
  assert (Hn : isWritablePathSUID (we_Path e) = false).
  { unfold isWritablePathSUID. apply not_true_iff_false. intros (q & Hq & Hqp)%existsb_exists.
    unfold has_prefix in *. pose proof (prefix_total _ _ _ Hp Hqp) as Ht. apply list_elem_of_In in Hd.
    assert (Hall : forallb (λ d, forallb (λ q, negb (String.prefix d q || String.prefix q d)) ["/tmp/"; "/var/tmp/"; "/dev/shm/"; "/home/"])
                     suidScanDirs = true) by (vm_compute; reflexivity).
    rewrite forallb_forall in Hall. specialize (Hall d Hd). rewrite forallb_forall in Hall. specialize (Hall q Hq).
    apply negb_true_iff, orb_false_iff in Hall as [? ?]. destruct Ht; congruence. }
  unfold suid_rule. rewrite Hn. by destruct (suid_unpackaged _).
Qed.

(** Where [dpkg-query] does not answer, as on a host with rpm, every new or
    changed set-id binary is called unpackaged. *)
Theorem rpm_host_unpackaged cfg snap pack ver now path c :
  (∀ p, is_ok (Output ["dpkg-query"; "-S"; p]) = false) →
  suid_change snap path = Some c → c ≠ "suid_binary_removed" →
  suid_reported (scan_suid cfg snap pack ver now) path "suid_unpackaged".
Proof.
  intros Hno Hch Hc. unfold suid_change in Hch. destruct (enumerateSUIDBinaries !! path) as [h|] eqn:Hcur.
  2:{ destruct (glookup _ path); [|done]. destruct (IsCommitted snap); [|done]. congruence. }
  exists (suid_event cfg snap pack ver now (bool_decide (is_Some (glookup (bs_SUIDInventory snap) path))) path h).
  destruct (suid_event_fields cfg snap pack ver now (bool_decide (is_Some (glookup (bs_SUIDInventory snap) path))) path h)
    as (-> & -> & _).
  split; [|split; [done|]].
  - unfold scanSUID. apply elem_of_app. left. apply (map_delta_iff _ order_perm). exists path, h.
    rewrite glookup_default. split; [done|]. split; [|done].
    destruct (glookup _ path) as [h'|]; [|done]. destruct (String.eqb_spec h' h); [done|congruence].
  - assert (Hu : suid_unpackaged path = true).
    { unfold suid_unpackaged, dpkgOwned, dpkgOwningPackage. specialize (Hno path).
      destruct (Output _); [done|]. apply orb_true_r. }
    unfold suid_signals. rewrite Hu, !elem_of_app. do 3 right. left.
Qed.

(** * rpm *)

Definition rpm_flag (c : string) (flags : string) : Prop := contains_any flags c = true.

(** The lines of [rpm -Va] that are reported, exactly: long enough, two fields
    or more, a flag among those the code looks for, and a path that is listed
    if any is. *)
Theorem rpm_reported_iff cfg pack ver now line path :
  (∃ ev, ev ∈ scanRPM CombinedOutput cfg pack ver now ∧ ev_Evidence ev = line ∧ en_Path (ev_Entity ev) = path) ↔
  line ∈ rpm_output CombinedOutput ∧ 12 ≤ slen line ∧
  ∃ flags rest, fields line = flags :: rest ∧ rest ≠ [] ∧ List.last rest "" = path ∧
    contains_any flags "5MUGT P" = true ∧ (cfg_IntegrityPaths cfg = [] ∨ path ∈ cfg_IntegrityPaths cfg).
Proof.
  assert (Hsome : ∀ l fl p, rpm_line cfg l = Some (fl, p) ↔
    12 ≤ slen l ∧ ∃ rest, fields l = fl :: rest ∧ rest ≠ [] ∧ List.last rest "" = p ∧
      contains_any fl "5MUGT P" = true ∧ (cfg_IntegrityPaths cfg = [] ∨ p ∈ cfg_IntegrityPaths cfg)).
  { intros l fl p. unfold rpm_line. destruct (Z.ltb_spec (slen l) 12) as [Hlt|Hge]; [split; [done|lia]|].
    destruct (fields l) as [|f0 [|f1 rest]]; [split; [done|by intros (_ & ? & [=] & _)]|split; [done|by intros (_ & ? & [= _ <-] & ? & _)]|].
    assert (Hpaths : ∀ q, nonempty_list (cfg_IntegrityPaths cfg) && negb (mem_str q (cfg_IntegrityPaths cfg)) = false ↔
                     cfg_IntegrityPaths cfg = [] ∨ q ∈ cfg_IntegrityPaths cfg).
    { intros q. clear. rewrite andb_false_iff, negb_false_iff, <-mem_str_spec. destruct (cfg_IntegrityPaths cfg); cbn [nonempty_list]; naive_solver. }
    destruct (contains_any f0 "5MUGT P") eqn:Hca; cbn [negb].
    - destruct (nonempty_list _ && _) eqn:Hp.
      + split; [done|]. intros (_ & r & [= <- <-] & _ & <- & _ & Hor). apply Hpaths in Hor. congruence.
      + apply Hpaths in Hp. split; [intros [= <- <-]; split; [done|]; by exists (f1 :: rest)|].
        intros (_ & r & [= <- <-] & _ & <- & _). done.
    - split; [done|]. intros (_ & r & [= <- <-] & _ & _ & Hx & _). congruence. }
  unfold scanRPM. setoid_rewrite list_elem_of_omap. split.
  - intros (ev & (l & Hin & Hm) & Hev & Hp). destruct (rpm_line cfg l) as [[fl p]|] eqn:Hr; [|done].
    change (Some (rpm_event pack ver now l fl p) = Some ev) in Hm. injection Hm as <-. unfold rpm_event in Hev, Hp.
    match goal with Hx : ev_Evidence (mismatch_event _ _ _ ?s ?i ?q ?e) = _ |- _ =>
      destruct (mismatch_event_fields pack ver now s i q e) as [Hfp Hfe] end.
    rewrite Hfp in Hp. rewrite Hfe in Hev. subst p l. apply Hsome in Hr as (? & r & Hr). split; [done|]. split; [done|]. by exists fl, r.
  - intros (Hin & Hlen & fl & r & Hr).
    assert (Hl : rpm_line cfg line = Some (fl, path)) by (apply Hsome; split; [done|]; by exists r).
    exists (rpm_event pack ver now line fl path). split; [exists line; by rewrite Hl|].
    unfold rpm_event. match goal with |- ev_Evidence (mismatch_event _ _ _ ?s ?i ?q ?e) = _ ∧ _ =>
      by destruct (mismatch_event_fields pack ver now s i q e) as [-> ->] end.
Qed.

End host.

(** * dpkg *)

Lemma word_ends a m b : word a → word b → trim_space (a +:+ m +:+ b) = a +:+ m +:+ b.
Proof.
  intros [Ha Hsa] [(x & d & ->)%string_snoc Hsb]. rewrite <-!append_assoc. apply trim_id.
  - destruct a as [|c a]; [done|]. cbn in Hsa |- *. by apply andb_true_iff in Hsa as [?%negb_true_iff _].
  - rewrite sforall_app in Hsb. apply andb_true_iff in Hsb as [_ Hd]. cbn in Hd. rewrite andb_true_r in Hd.
    by apply negb_true_iff.
Qed.

Lemma fields_two a b : word a → word b → fields (a +:+ "  " +:+ b) = [a; b].
Proof.
  intros [Ha Hsa] [Hb Hsb]. unfold fields. rewrite fields_go_word by done. change ("  " +:+ b) with (String " " (String " " b)).
  cbn [fields_go]. change (is_space " ") with true. cbv iota. change ("" +:+ a) with a.
  rewrite (proj2 (String.eqb_neq a "") Ha). cbn [fields_go]. change (is_space " ") with true. cbv iota.
  change ("" =s? "") with true. cbv iota.
  rewrite <-(append_nil_r b) at 1. rewrite fields_go_word by done. cbn [fields_go].
  change ("" +:+ b) with b. by rewrite (proj2 (String.eqb_neq b "") Hb).
Qed.

(** A line of a md5sums file: the sum, two spaces, and the path without its
    leading slash. *)
Definition md5_entry (e : string * string) : string := e.1 +:+ "  " +:+ e.2.

Definition relative (p : string) : Prop := word p ∧ has_prefix p "/" = false ∧ has_prefix p "./" = false.

Definition md5_entries_ok (es : list (string * string)) : Prop :=
  Forall (λ e, word e.1 ∧ relative e.2 ∧ slen (md5_entry e) < MaxScanTokenSize) es.

Lemma trim_prefix_none s p : has_prefix s p = false → trim_prefix s p = s.
Proof. unfold trim_prefix. by intros ->. Qed.

Lemma md5_line_entry rel e :
  relative rel → path_clean ("/" +:+ rel) = "/" +:+ rel → word e.1 → relative e.2 →
  md5_line ("/" +:+ rel) (md5_entry e) = if e.2 =s? rel then Some e.1 else None.
Proof.
  intros (_ & Hr & _) Hclean Hs (Hw & Hp & Hdot). unfold md5_line, md5_entry.
  rewrite word_ends, fields_two, Hclean by done. rewrite (trim_prefix_none e.2 "./") by done. cbv zeta.
  rewrite (trim_prefix_none e.2 "/") by done.
  assert (Ht : trim_prefix ("/" +:+ rel) "/" = rel) by (unfold trim_prefix; rewrite has_prefix_app; apply sdrop_app).
  rewrite Ht, (trim_prefix_none rel "/") by done.
  assert (Hc : ("/" +:+ e.2 =s? "/" +:+ rel) = (e.2 =s? rel)) by reflexivity. rewrite Hc. by destruct (e.2 =s? rel).
Qed.

Lemma space_not_break c : negb (is_space c) = true → negb (Ascii.eqb c nl) && negb (Ascii.eqb c "013") = true.
Proof.
  intros Hc%negb_true_iff. apply andb_true_iff. rewrite !negb_true_iff, !Ascii.eqb_neq.
  split; intros ->; discriminate Hc.
Qed.

Lemma md5_entries_scannable es : md5_entries_ok es → Forall (scannable MaxScanTokenSize) (map md5_entry es).
Proof.
  induction 1 as [|e es ([_ Hs] & ([_ Hp] & _) & Hlen) _ IH]; constructor; [|done].
  split; [|done]. unfold md5_entry. rewrite !sforall_app.
  rewrite (sforall_impl _ _ e.1 space_not_break Hs), (sforall_impl _ _ e.2 space_not_break Hp). done.
Qed.

Lemma head_omap_entries rel es :
  relative rel → path_clean ("/" +:+ rel) = "/" +:+ rel → md5_entries_ok es →
  head (omap (md5_line ("/" +:+ rel)) (map md5_entry es)) = fst <$> find (λ e, e.2 =s? rel) es.
Proof.
  intros Hr Hc. induction 1 as [|e es (Hs & Hp & _) _ IH]; [done|]. cbn [map find].
  change (omap (md5_line ("/" +:+ rel)) (md5_entry e :: map md5_entry es)) with
    (match md5_line ("/" +:+ rel) (md5_entry e) with
     | Some y => y :: omap (md5_line ("/" +:+ rel)) (map md5_entry es)
     | None => omap (md5_line ("/" +:+ rel)) (map md5_entry es) end).
  rewrite md5_line_entry by done. by destruct (e.2 =s? rel).
Qed.

Section dpkg.
Context `{FileReader} `{Stater} `{Commander}.
Variable EvalSymlinks : string → result string.

(** A package database on disk: the sums of a package are written one entry
    per line. *)
Definition sums_written (pkg : string) (es : list (string * string)) : Prop :=
  ReadFile (path_join ["/var/lib/dpkg/info"; pkg +:+ ".md5sums"]) = Ok (text_of (map md5_entry es)).

(** Reading back what dpkg wrote: the sum of the first entry for the path, and
    an error when there is none. *)
Theorem md5sums_roundtrip pkg es rel :
  md5_entries_ok es → sums_written pkg es → relative rel → path_clean ("/" +:+ rel) = "/" +:+ rel →
  md5FromDpkgInfo pkg ("/" +:+ rel) =
    match find (λ e, e.2 =s? rel) es with Some e => Ok e.1 | None => Err "path not in md5sums" end.
Proof.
  intros Hes Hw Hr Hc. unfold md5FromDpkgInfo. rewrite Hw. cbn [rbind].
  rewrite scan_lines_text by (by apply md5_entries_scannable). cbn [fst].
  rewrite head_omap_entries by done. by destruct (find _ es).
Qed.

(** [dpkg-query -S] answers with the package, a colon and the path; the
    architecture of a multi-arch package comes after a first colon. *)
Definition query_answer (pkg path : string) : string := pkg +:+ ": " +:+ path +:+ str nl.

Lemma index_byte_word pkg r :
  sforall (λ c, negb (Ascii.eqb c ":")) pkg = true →
  index_byte (pkg +:+ String ":" r) ":" = Some (String.length pkg).
Proof.
  induction pkg as [|c pkg IH]; intros Hp; [done|]. cbn [sforall] in Hp.
  apply andb_true_iff in Hp as [Hc%negb_true_iff Hp]. change (String c pkg +:+ ?x) with (String c (pkg +:+ x)).
  cbn [index_byte String.length]. by rewrite Hc, IH.
Qed.

Lemma line_package_word pkg m b :
  word pkg → sforall (λ c, negb (Ascii.eqb c ":")) pkg = true → word b →
  line_package (pkg +:+ (String ":" m) +:+ b) = Some pkg.
Proof.
  intros Hp Hc Hb. unfold line_package. rewrite word_ends by done.
  change ((String ":" m) +:+ b) with (String ":" (m +:+ b)). rewrite index_byte_word by done. cbv zeta.
  destruct Hp as [Hne Hs]. rewrite stake_app. destruct (String.length pkg) eqn:Hl; [by destruct pkg|].
  f_equal. by apply trim_none.
Qed.

Lemma split_no_sep sep s : sforall (λ c, negb (Ascii.eqb c sep)) s = true → split sep s = [s].
Proof.
  induction s as [|c s IH]; [done|]. cbn. intros [Hc%negb_true_iff Hs]%andb_true_iff. by rewrite Hc, IH.
Qed.

Lemma trim_space_line a m b : word a → word b → trim_space (a +:+ m +:+ b +:+ str nl) = a +:+ m +:+ b.
Proof.
  intros Ha Hb. rewrite <-(word_ends a m b Ha Hb). rewrite <-!append_assoc. unfold trim_space, trim.
  destruct Ha as [Hne Hs]. destruct a as [|c a]; [done|]. cbn in Hs. apply andb_true_iff in Hs as [Hc%negb_true_iff _].
  rewrite !trim_left_id by done. generalize (((String c a) +:+ m) +:+ b). intros s.
  induction s as [|d s IH]; [done|].
  change (String d s +:+ str nl) with (String d (s +:+ str nl)). cbn [trim_right]. by rewrite IH.
Qed.

(** The owner of a path, whatever the architecture [arch] of its package: the
    name up to the first colon. *)
Lemma owner_drops_architecture pkg arch path :
  word pkg → sforall (λ c, negb (Ascii.eqb c ":")) pkg = true → word arch → word path →
  Output ["dpkg-query"; "-S"; path] = Ok (query_answer (pkg +:+ ":" +:+ arch) path) →
  dpkgOwningPackage path = Ok pkg.
Proof.
  intros Hp Hc Ha Hw Hq. unfold dpkgOwningPackage. rewrite Hq. cbn [rbind]. unfold query_answer.
  replace ((pkg +:+ ":" +:+ arch) +:+ ": " +:+ path +:+ str nl) with (pkg +:+ (String ":" (arch +:+ ": ")) +:+ path +:+ str nl)
    by (rewrite !append_assoc; f_equal; change (String ":" ?x) with (":" +:+ x); by rewrite !append_assoc).
  rewrite trim_space_line by done.
  rewrite split_no_sep.
  - change (omap line_package [?x]) with (match line_package x with Some y => [y] | None => [] end).
    by rewrite line_package_word.
  - assert (Hn : ∀ s, sforall (λ c, negb (is_space c)) s = true → sforall (λ c, negb (Ascii.eqb c nl)) s = true).
    { intros s. apply sforall_impl. intros c [? _]%space_not_break%andb_true_iff. done. }
    destruct Hp as [_ Hp], Ha as [_ Ha], Hw as [_ Hw]. apply Hn in Hp, Ha, Hw.
    change (String ":" (arch +:+ ": ")) with (":" +:+ arch +:+ ": "). by rewrite !sforall_app, Hp, Ha, Hw.
Qed.

(** The sums of a multi-arch package are stored under its name and architecture,
    but looked for under the name alone: whatever its content, a file of such a
    package is not reported. *)
Theorem multiarch_unverified pack ver now pkg arch path msg :
  word pkg → sforall (λ c, negb (Ascii.eqb c ":")) pkg = true → word arch → word path →
  Output ["dpkg-query"; "-S"; path] = Ok (query_answer (pkg +:+ ":" +:+ arch) path) →
  ReadFile (path_join ["/var/lib/dpkg/info"; pkg +:+ ".md5sums"]) = Err msg →
  dpkg_file pack ver now path = None.
Proof.
  intros Hp Hc Ha Hw Hq Hno. unfold dpkg_file, dpkg_verdict, md5FromDpkgInfo.
  rewrite (owner_drops_architecture pkg arch path) by done. rewrite Hno.
  destruct (ReadFile path); [|done]. destruct (Stat path) as [fi| |]; try done. destruct (fi_IsDir fi); [done|].
  by destruct (pkg =s? "").
Qed.


End dpkg.

(** * A host with three files *)

Module IntegrityDemo.

Definition libc : string := "/usr/lib/x86_64-linux-gnu/libc.so.6".
Definition sums : list (string * string) :=
  [("d41d8cd98f00b204e9800998ecf8427e", "usr/share/empty"); ("900150983cd24fb0d6963f7d28e17f72", "bin/su")].

Definition files : list (string * string) :=
  [("/bin/su", "changed"); (libc, "anything");
   ("/var/lib/dpkg/info/login.md5sums", text_of (map md5_entry sums));
   ("/var/lib/dpkg/info/libc6:amd64.md5sums", "00000000000000000000000000000000  usr/lib/x86_64-linux-gnu/libc.so.6")].

Definition setuid : FileInfo := mkFileInfo false 7 0 (Z.lor (Z.shiftl 1 23) 493) 0.
Definition directory : FileInfo := mkFileInfo true 4096 0 493 0.

#[export] Instance demo_files : FileReader := λ p,
  match find (λ f, f.1 =s? p) files with Some (_, s) => Ok s | None => Err ErrNotExist end.
#[export] Instance demo_stat : Stater := λ p,
  if p =s? "/bin" then FOk directory
  else match find (λ f, f.1 =s? p) files with Some _ => FOk setuid | None => FNotExist end.
#[export] Instance demo_walk : TreeWalker := λ p,
  if p =s? "/bin" then [mkWalkEntry "/bin" true false (Some directory); mkWalkEntry "/bin/su" false false (Some setuid)] else [].

Definition dpkg_answers : Commander := λ args,
  match args with
  | [_; _; "/bin/su"] => Ok (query_answer "login" "/bin/su")
  | [_; _; p] => if p =s? libc then Ok (query_answer ("libc6" +:+ ":" +:+ "amd64") p) else Err "exit status 1"
  | _ => Err "exit status 1"
  end.
Definition no_dpkg : Commander := λ _, Err "executable file not found".

Definition rpm_text : string := "S.5....T.  c /etc/ssh/sshd_config" +:+ str nl +:+ "missing     /usr/bin/passwd" +:+ str nl.

End IntegrityDemo.

Section demo.
Import IntegrityDemo.

Lemma suid_delta_iff_witness :
  @suid_reported (@scanSUID demo_files demo_stat demo_walk no_dpkg id Default EmptySnapshot (mkPack "1" []) "1" 0) "/bin/su" "new_suid_binary".
Proof.
  apply (@suid_delta_iff demo_files demo_stat demo_walk no_dpkg id (λ l, Permutation_refl l) Default EmptySnapshot (mkPack "1" []) "1" 0).
  - left.
  - vm_compute. reflexivity.
Defined.

Lemma demo_walk_below : @walk_below demo_walk.
Proof.
  intros root e. unfold WalkDir, demo_walk. destruct (String.eqb_spec root "/bin") as [->|_]; [|by intros ?%elem_of_nil].
  rewrite !elem_of_cons. intros [->|[->|?%elem_of_nil]]; done.
Qed.

Lemma suid_writable_dead_witness :
  ∃ ev, ev ∈ @scanSUID demo_files demo_stat demo_walk no_dpkg id Default EmptySnapshot (mkPack "1" []) "1" 0 ∧
        ev_RuleID ev ≠ RuleSUIDWritablePath.
Proof.
  eexists. split.
  - unfold scanSUID. apply elem_of_app. left. apply (map_delta_iff id (λ l, Permutation_refl l)).
    exists "/bin/su", (sha256_hex "changed"). split; [vm_compute; reflexivity|]. split; [vm_compute; discriminate|reflexivity].
  - apply (@suid_writable_dead demo_files demo_stat demo_walk no_dpkg id (λ l, Permutation_refl l)
             Default EmptySnapshot (mkPack "1" []) "1" 0); [apply demo_walk_below|].
    unfold scanSUID. apply elem_of_app. left. apply (map_delta_iff id (λ l, Permutation_refl l)).
    exists "/bin/su", (sha256_hex "changed"). split; [vm_compute; reflexivity|]. split; [vm_compute; discriminate|reflexivity].
Defined.

Lemma rpm_host_unpackaged_witness :
  @suid_reported (@scanSUID demo_files demo_stat demo_walk no_dpkg id Default EmptySnapshot (mkPack "1" []) "1" 0) "/bin/su" "suid_unpackaged".
Proof.
  apply (@rpm_host_unpackaged demo_files demo_stat demo_walk no_dpkg id (λ l, Permutation_refl l) Default EmptySnapshot
           (mkPack "1" []) "1" 0 "/bin/su" "new_suid_binary").
  - reflexivity.
  - vm_compute. reflexivity.
  - discriminate.
Defined.

Lemma demo_sums_ok : md5_entries_ok sums.
Proof.
  unfold md5_entries_ok, sums, relative, word.
  repeat constructor; try discriminate; vm_compute; reflexivity.
Qed.

Lemma md5sums_roundtrip_witness : @md5FromDpkgInfo demo_files "login" "/bin/su" = Ok "900150983cd24fb0d6963f7d28e17f72".
Proof.
  apply (@md5sums_roundtrip demo_files "login" sums "bin/su"); [apply demo_sums_ok|vm_compute; reflexivity| |reflexivity].
  unfold relative, word. repeat split; discriminate.
Defined.

Lemma multiarch_unverified_witness : @dpkg_file demo_files demo_stat dpkg_answers (mkPack "1" []) "1" 0 libc = None.
Proof.
  apply (@multiarch_unverified demo_files demo_stat dpkg_answers (mkPack "1" []) "1" 0 "libc6" "amd64" libc ErrNotExist);
    unfold word; try (split; [discriminate|]); vm_compute; reflexivity.
Defined.

Definition demo_cfg : Config := Default <| cfg_IntegrityPaths := ["/bin/su"] |>.


Definition any_path : Config := Default <| cfg_IntegrityPaths := [] |>.

(** A deleted file and a size that differs are not reported. *)
Example rpm_missing_ignored :
  map (rpm_line any_path) (fst (scan_lines MaxScanTokenSize rpm_text)) = [Some ("S.5....T.", "/etc/ssh/sshd_config"); None].
Proof. vm_compute. reflexivity. Qed.

Example rpm_size_ignored : rpm_line any_path "S........    /usr/bin/passwd" = None.
Proof. vm_compute. reflexivity. Qed.

End demo.
