(* ===== verification/Network.v ===== *)
(** [internal/detect/network]: which sockets are open, whose they are, and what
    is new or out of place among them.

    The package keeps two things between scans: the listening sockets it has
    seen, and for 30 seconds the owner of every socket inode. *)
From S2P Require Export GoNet Detect.

Definition RuleSocketStdio : string := "PROC_SOCKET_STDIO".
Definition RuleListenNew : string := "NETWORK_LISTEN_NEW".
Definition RuleWebWorkerEgress : string := "NETWORK_WEB_WORKER_EGRESS".
Definition RuleIMDSAccess : string := "NETWORK_IMDS_ACCESS".

Definition suspiciousShellComms : list string :=
  ["bash"; "sh"; "zsh"; "ksh"; "dash"; "python"; "python2"; "python3"; "perl"; "ruby"; "nc"; "ncat"; "netcat"; "socat"].

Definition inodeCacheTTL : Duration := 30 * second.

(** The package's variables. *)
Record NetState := mkNetState {
  ns_knownListens : gset string;
  ns_listenPrimed : bool;
  ns_inodeOwners : option (gmap Z Z);
  ns_inodeCacheAt : Time
}.

#[export] Instance eta_NetState : Eta NetState := λ s,
  mkNetState (ns_knownListens s) (ns_listenPrimed s) (ns_inodeOwners s) (ns_inodeCacheAt s).

Definition zero_NetState : NetState := mkNetState ∅ false None 0.

(** * Addresses *)

Definition IsLoopback (ip : IP) : bool :=
  match To4 ip with
  | Some (a :: _) => a =? 127
  | _ => bool_decide (ip = replicate 15 0 ++ [1])
  end.

Definition IsUnspecified (ip : IP) : bool :=
  match To4 ip with
  | Some ip4 => bool_decide (ip4 = [0; 0; 0; 0])
  | None => bool_decide (ip = replicate 16 0)
  end.

(** The text of the error is shortened to the entry. *)
Definition parse_cidr_entry (c : string) : result (option IPNet) :=
  let c := trim_space c in
  if c =s? "" then Ok None
  else match ParseCIDR c with
       | None => Err ("bad cidr " +:+ c)
       | Some (_, n) => Ok (Some n)
       end.

Fixpoint parseCIDRs (s : list string) : result (list IPNet) :=
  match s with
  | [] => Ok []
  | c :: s =>
      let? n := parse_cidr_entry c in
      let? ns := parseCIDRs s in
      Ok (match n with Some n => n :: ns | None => ns end)
  end.

Definition ipInAny (ip : IP) (nets : list IPNet) : bool := existsb (λ n, net_Contains n ip) nets.

Definition listenKey (row : SocketRow) : string :=
  so_Proto row +:+ "|" +:+ (match so_Local row with [] => "" | ip => ip_String ip end) +:+ "|" +:+ itoa (so_LocalP row).

(** * Listening sockets *)

Record listenCand := mkListenCand { lc_row : SocketRow; lc_pid : Z; lc_comm : string; lc_sigs : list string }.

Definition is_listener (row : SocketRow) : bool :=
  ((so_Proto row =s? "tcp") || (so_Proto row =s? "tcp6")) && (so_State row =? TCPListen).

(** A listener that others can reach. *)
Definition is_exposed (row : SocketRow) : bool :=
  is_listener row && match so_Local row with [] => false | ip => negb (IsLoopback ip) end.

(** The keys of this scan. *)
Definition current_listens (rows : list SocketRow) : gset string :=
  list_to_set (map listenKey (List.filter is_exposed rows)).

(** The candidates whose key is not known; a key counts once. *)
Fixpoint new_listens (known : gset string) (cands : list listenCand) : list listenCand * gset string :=
  match cands with
  | [] => ([], known)
  | c :: cands =>
      let key := listenKey (lc_row c) in
      if bool_decide (key ∈ known) then new_listens known cands
      else let '(out, known) := new_listens ({[key]} ∪ known) cands in (c :: out, known)
  end.

(** The delta: on the first scan the present listeners are learnt and nothing
    is reported; later, keys that are gone are forgotten. *)
Definition listen_delta (s : NetState) (current : gset string) (cands : list listenCand) : NetState * list listenCand :=
  if negb (ns_listenPrimed s) then (s <| ns_knownListens := current |> <| ns_listenPrimed := true |>, [])
  else
    let '(out, known) := new_listens (ns_knownListens s) cands in
    (s <| ns_knownListens := filter (λ k, k ∈ current) known |>, out).

Section host.
Context `{FileReader} `{DirReader} `{LinkReader}.

(** * Owners *)

Definition add_owner (pid : Z) (owners : gmap Z Z) (inode : Z) : gmap Z Z :=
  match owners !! inode with Some _ => owners | None => <[inode := pid]> owners end.

Definition pid_owners (owners : gmap Z Z) (pid : Z) : gmap Z Z :=
  match SocketInodes pid with
  | (_, false) => owners
  | (inodes, true) => fold_left (add_owner pid) (elements inodes) owners
  end.

(** [t] is the reading for the age of the cache, [t'] the one it is stored with. *)
Definition socketOwners (s : NetState) (t t' : Time) (pids : list Z) : NetState * gmap Z Z :=
  match ns_inodeOwners s with
  | Some owners =>
      if time_sub t (ns_inodeCacheAt s) <? inodeCacheTTL then (s, owners)
      else let owners := fold_left pid_owners pids ∅ in
           (s <| ns_inodeOwners := Some owners |> <| ns_inodeCacheAt := t' |>, owners)
  | None =>
      let owners := fold_left pid_owners pids ∅ in
      (s <| ns_inodeOwners := Some owners |> <| ns_inodeCacheAt := t' |>, owners)
  end.

Definition ownerInfo (inode : Z) (owners : gmap Z Z) : Z * string :=
  match owners !! inode with
  | None => (0, "")
  | Some pid => (pid, fst (Procfs.Comm pid))
  end.

Definition web_workers (names : list string) (pids : list Z) : list Z :=
  List.filter (λ pid, match Procfs.Comm pid with
                      | (c, true) => mem_str (to_lower c) (name_set names)
                      | _ => false
                      end) pids.

(** * Events *)

Definition net_event (cfg : Config) (pack : Pack) (agentVer : string) (now : Time) (rule : string) (pid : Z)
  (comm : string) (row : SocketRow) (sigs tech : list string) (learning : bool) : Event :=
  let conf := score_floor pack rule sigs 60 in
  NormalizeDedup (scan_event pack agentVer now rule tech "command-and-control" conf learning
    (mkEntity EntityProcess (itoa pid) (ResolveExe pid) "") sigs
    ("pid=" +:+ itoa pid +:+ " comm=" +:+ comm +:+ " proto=" +:+ so_Proto row +:+
     " local=" +:+ ip_String (so_Local row) +:+ ":" +:+ itoa (so_LocalP row) +:+
     " remote=" +:+ ip_String (so_Remote row) +:+ ":" +:+ itoa (so_RemoteP row))
    (held_back cfg learning conf)).

Definition imds_addresses : list string := ["169.254.169.254"; "fd00:ec2::254"].

(** A connection that is looked at: under way, to a known address outside the
    allowed blocks. *)
Definition is_outbound (allowNets : list IPNet) (row : SocketRow) : bool :=
  negb (is_listener row) &&
  ((so_State row =? TCPEstablished) || (so_State row =? TCPSynSent)) &&
  negb (match so_Remote row with [] => true | ip => IsUnspecified ip end) &&
  negb (ipInAny (so_Remote row) allowNets).

(** What an outbound connection is reported as: the rule, its techniques and
    its signals. *)
Definition classify (workers : list Z) (pid : Z) (comm : string) (row : SocketRow)
  : option (string * list string * list string) :=
  let remote := ip_String (so_Remote row) in
  let full := "remote:" +:+ remote +:+ ":" +:+ itoa (so_RemoteP row) in
  if mem_str comm suspiciousShellComms then
    Some (RuleSocketStdio, ["T1059.004"; "T1571"], ["shell_outbound_connection"; "comm:" +:+ comm; full])
  else if bool_decide (pid ∈ workers) then
    if mem_str remote imds_addresses then
      Some (RuleIMDSAccess, ["T1552.005"], ["network_imds_access"; "comm:" +:+ comm; "remote:" +:+ remote])
    else Some (RuleWebWorkerEgress, ["T1041"; "T1071.001"], ["web_worker_egress"; "comm:" +:+ comm; full])
  else None.

Definition outbound_event (cfg : Config) (pack : Pack) (agentVer : string) (now : Time) (owners : gmap Z Z)
  (allowNets : list IPNet) (workers : list Z) (row : SocketRow) : option Event :=
  if negb (is_outbound allowNets row) then None
  else
    let '(pid, comm) := ownerInfo (so_Inode row) owners in
    if pid =? 0 then None
    else
      let comm := to_lower comm in
      match classify workers pid comm row with
      | Some (rule, tech, sigs) => Some (net_event cfg pack agentVer now rule pid comm row sigs tech false)
      | None => None
      end.

Definition listen_cand (owners : gmap Z Z) (row : SocketRow) : option listenCand :=
  if negb (is_exposed row) then None
  else
    let '(pid, comm) := ownerInfo (so_Inode row) owners in
    Some (mkListenCand row pid comm
      ("new_listening_socket" :: (if IsUnspecified (so_Local row) then ["bind_all_interfaces"] else []) ++
       (if negb (pid =? 0) then ["comm:" +:+ comm] else []))).

Definition listen_event (cfg : Config) (pack : Pack) (agentVer : string) (now : Time) (c : listenCand) : Event :=
  net_event cfg pack agentVer now RuleListenNew (lc_pid c) (lc_comm c) (lc_row c) (lc_sigs c) ["T1571"] true.

(** * The scan *)

Definition Scan_network (cfg : Config) (pack : Pack) (agentVer : string) (t t' now : Time) (s : NetState)
  : NetState * result (list Event) :=
  if negb (cfg_NetworkScanEnabled cfg) then (s, Ok [])
  else
    match ReadNetSockets, Processes with
    | (rows, true), (pids, true) =>
        let '(s, owners) := socketOwners s t t' pids in
        match parseCIDRs (cfg_NetworkAllowlist cfg) with
        | Err e => (s, Err ("parse allowlist: " +:+ e))
        | Ok allowNets =>
            let workers := web_workers (cfg_TargetProcessNames cfg) pids in
            let outbound := omap (outbound_event cfg pack agentVer now owners allowNets workers) rows in
            let '(s, fresh) := listen_delta s (current_listens rows) (omap (listen_cand owners) rows) in
            (s, Ok (outbound ++ map (listen_event cfg pack agentVer now) fresh))
        end
    | _, _ => (s, Ok [])
    end.

End host.

(** * The listening delta is exact *)

Definition keys (cands : list listenCand) : list string := map (λ c, listenKey (lc_row c)) cands.

Lemma keys_elem cands k : k ∈ keys cands ↔ ∃ c, c ∈ cands ∧ k = listenKey (lc_row c).
Proof. unfold keys. rewrite list_elem_of_fmap. naive_solver. Qed.

Lemma keys_cons c cands : keys (c :: cands) = listenKey (lc_row c) :: keys cands.
Proof. reflexivity. Qed.

Lemma new_listens_spec known cands :
  let '(out, known') := new_listens known cands in
  NoDup (keys out) ∧ (∀ k, k ∈ keys out ↔ k ∈ keys cands ∧ k ∉ known) ∧ ∀ k, k ∈ known' ↔ k ∈ known ∨ k ∈ keys cands.
Proof.
  revert known. induction cands as [|c cands IH]; intros known; cbn [new_listens].
  - split_and!; [constructor| |]; intros k; change (keys []) with (@nil string); rewrite elem_of_nil; tauto.
  - rewrite keys_cons. case_bool_decide as Hk.
    + specialize (IH known). destruct (new_listens known cands) as [out known']. destruct IH as (Hn & Ho & Hk').
      split_and!; [done| |]; intros k; rewrite ?Ho, ?Hk', elem_of_cons; destruct (decide (k = listenKey (lc_row c))) as [->|]; tauto.
    + specialize (IH ({[listenKey (lc_row c)]} ∪ known)).
      destruct (new_listens _ cands) as [out known']. destruct IH as (Hn & Ho & Hk'). rewrite keys_cons.
      setoid_rewrite elem_of_union in Ho. setoid_rewrite elem_of_union in Hk'.
      setoid_rewrite elem_of_singleton in Ho. setoid_rewrite elem_of_singleton in Hk'. split_and!.
      * constructor; [|done]. rewrite Ho. tauto.
      * intros k. rewrite !elem_of_cons, Ho. destruct (decide (k = listenKey (lc_row c))) as [->|]; tauto.
      * intros k. rewrite elem_of_cons, Hk'. tauto.
Qed.

Lemma listen_delta_spec s current cands :
  (∀ k, k ∈ keys cands ↔ k ∈ current) →
  let '(s', out) := listen_delta s current cands in
  ns_knownListens s' = current ∧ ns_listenPrimed s' = true ∧
  (ns_listenPrimed s = false → out = []) ∧
  (ns_listenPrimed s = true → NoDup (keys out) ∧ ∀ k, k ∈ keys out ↔ k ∈ current ∧ k ∉ ns_knownListens s).
Proof.
  intros Hc. unfold listen_delta. destruct (ns_listenPrimed s) eqn:Hp; cbn [negb].
  - pose proof (new_listens_spec (ns_knownListens s) cands) as Hn.
    destruct (new_listens _ cands) as [out known']. destruct Hn as (Hnd & Ho & Hk). cbn [ns_knownListens ns_listenPrimed].
    split_and!; [|done|done|].
    { apply leibniz_equiv. intros k. change (k ∈ filter (λ k, k ∈ current) known' ↔ k ∈ current).
      rewrite elem_of_filter, Hk, Hc. tauto. } intros _. split; [done|]. intros k. by rewrite Ho, Hc.
  - cbn. by split_and!.
Qed.

Section scan.
Context `{FileReader} `{DirReader} `{LinkReader}.

Lemma listen_cand_row owners row c : listen_cand owners row = Some c → is_exposed row = true ∧ lc_row c = row.
Proof.
  unfold listen_cand. destruct (is_exposed row); [|done]. cbn [negb]. destruct (ownerInfo _ _). by intros [= <-].
Qed.

Lemma listen_cand_some owners row : is_exposed row = true → is_Some (listen_cand owners row).
Proof. intros Hx. unfold listen_cand. rewrite Hx. cbn [negb]. destruct (ownerInfo _ _). by eexists. Qed.

Lemma cands_current owners rows k :
  k ∈ keys (omap (listen_cand owners) rows) ↔ k ∈ current_listens rows.
Proof.
  unfold current_listens. rewrite keys_elem, elem_of_list_to_set, list_elem_of_fmap. split.
  - intros (c & (row & Hr & Hc)%list_elem_of_omap & ->). apply listen_cand_row in Hc as [Hx <-].
    exists (lc_row c). split; [done|]. apply list_elem_of_In, filter_In. split; [by apply list_elem_of_In|done].
  - intros (row & -> & Hr). apply list_elem_of_In, filter_In in Hr as [Hr Hx].
    destruct (listen_cand_some owners row Hx) as [c Hc]. exists c.
    split; [apply list_elem_of_omap; exists row; split; [by apply list_elem_of_In|done]|].
    by apply listen_cand_row in Hc as [_ ->].
Qed.

(** The fields of a network event. *)
Lemma net_event_rule cfg pack v now rule pid comm row sigs tech l :
  ev_RuleID (net_event cfg pack v now rule pid comm row sigs tech l) = rule.
Proof. unfold net_event. by rewrite NormalizeDedup_rule. Qed.

Lemma net_event_entity cfg pack v now rule pid comm row sigs tech l :
  ev_Entity (net_event cfg pack v now rule pid comm row sigs tech l) = mkEntity EntityProcess (itoa pid) (ResolveExe pid) "".
Proof. unfold net_event. by rewrite NormalizeDedup_entity. Qed.

Lemma net_event_learning cfg pack v now rule pid comm row sigs tech l :
  ev_LearningOnly (net_event cfg pack v now rule pid comm row sigs tech l) = held_back cfg l (score_floor pack rule sigs 60).
Proof. unfold net_event. by rewrite NormalizeDedup_learning. Qed.

#[local] Opaque net_event.

Lemma outbound_event_some cfg pack v now owners nets workers row ev :
  outbound_event cfg pack v now owners nets workers row = Some ev ↔
  is_outbound nets row = true ∧ ∃ pid rule tech sigs,
    owners !! so_Inode row = Some pid ∧ pid ≠ 0 ∧
    classify workers pid (to_lower (fst (Procfs.Comm pid))) row = Some (rule, tech, sigs) ∧
    ev = net_event cfg pack v now rule pid (to_lower (fst (Procfs.Comm pid))) row sigs tech false.
Proof.
  unfold outbound_event, ownerInfo. destruct (is_outbound nets row); cbn [negb]; [|naive_solver].
  destruct (owners !! so_Inode row) as [pid|]; cbn [fst snd]; [|cbn; naive_solver].
  destruct (pid =? 0) eqn:H0'; [apply Z.eqb_eq in H0'; naive_solver|apply Z.eqb_neq in H0'].
  destruct (classify _ _ _ _) as [[[rule tech] sigs]|] eqn:Hc; [|naive_solver].
  split.
  - intros Hev. injection Hev as <-. split; [done|]. by exists pid, rule, tech, sigs.
  - intros (_ & pid' & rule' & tech' & sigs' & [= <-] & _ & Hc' & ->). rewrite Hc in Hc'. by injection Hc' as -> -> ->.
Qed.

Lemma classify_rule workers pid comm row rule tech sigs :
  classify workers pid comm row = Some (rule, tech, sigs) →
  (rule = RuleSocketStdio ↔ comm ∈ suspiciousShellComms) ∧ rule ≠ RuleListenNew.
Proof.
  unfold classify. destruct (mem_str comm suspiciousShellComms) eqn:Hm; [apply mem_str_spec in Hm|apply not_true_iff_false in Hm].
  - intros [= <- _ _]. split; [done|by intros [=]].
  - rewrite mem_str_spec in Hm. case_bool_decide; [|done]. destruct (mem_str _ _); intros [= <- _ _]; split; done.
Qed.

Lemma classify_shell workers pid comm row :
  comm ∈ suspiciousShellComms → ∃ tech sigs, classify workers pid comm row = Some (RuleSocketStdio, tech, sigs).
Proof. intros Hm. unfold classify. apply mem_str_spec in Hm. rewrite Hm. by do 2 eexists. Qed.

(** What a scan needs in order to look at the sockets at all. *)
Definition completes (cfg : Config) (rows : list SocketRow) (pids : list Z) (nets : list IPNet) : Prop :=
  cfg_NetworkScanEnabled cfg = true ∧ ReadNetSockets = (rows, true) ∧ Processes = (pids, true) ∧
  parseCIDRs (cfg_NetworkAllowlist cfg) = Ok nets.

Lemma socketOwners_listens s t t' pids :
  ns_knownListens (fst (socketOwners s t t' pids)) = ns_knownListens s ∧
  ns_listenPrimed (fst (socketOwners s t t' pids)) = ns_listenPrimed s.
Proof. unfold socketOwners. destruct (ns_inodeOwners s); [|done]. by destruct (_ <? _). Qed.

Lemma Scan_network_spec cfg pack v t t' now s rows pids nets :
  completes cfg rows pids nets →
  ∃ s' out, Scan_network cfg pack v t t' now s =
    (s', Ok (omap (outbound_event cfg pack v now (snd (socketOwners s t t' pids)) nets
                     (web_workers (cfg_TargetProcessNames cfg) pids)) rows ++
             map (listen_event cfg pack v now) out)) ∧
  ns_knownListens s' = current_listens rows ∧ ns_listenPrimed s' = true ∧
  (ns_listenPrimed s = false → out = []) ∧
  (ns_listenPrimed s = true → NoDup (keys out) ∧ ∀ k, k ∈ keys out ↔ k ∈ current_listens rows ∧ k ∉ ns_knownListens s).
Proof.
  intros (He & Hr & Hp & Hn). unfold Scan_network. rewrite He, Hr, Hp. cbn [negb].
  destruct (socketOwners_listens s t t' pids) as [Hk Hpr].
  destruct (socketOwners s t t' pids) as [s1 owners]. cbn [fst snd] in *. rewrite Hn.
  pose proof (listen_delta_spec s1 (current_listens rows) (omap (listen_cand owners) rows) (cands_current owners rows)) as Hd.
  destruct (listen_delta _ _ _) as [s' out]. rewrite Hk, Hpr in Hd. destruct Hd as (H1' & H2' & H3' & H4').
  exists s', out. by split_and!.
Qed.

End scan.

(** * A history of scans *)

(** The host as one scan sees it, with the clock readings of that scan. *)
Record Moment := mkMoment {
  mo_files : FileReader;
  mo_dirs : DirReader;
  mo_links : LinkReader;
  mo_t : Time;
  mo_t' : Time;
  mo_now : Time
}.

Definition scan_at (cfg : Config) (pack : Pack) (ver : string) (m : Moment) : NetState → NetState * result (list Event) :=
  @Scan_network (mo_files m) (mo_dirs m) (mo_links m) cfg pack ver (mo_t m) (mo_t' m) (mo_now m).

(** The results of the scans of a process, one after the other. *)
Fixpoint scans (cfg : Config) (pack : Pack) (ver : string) (s : NetState) (ms : list Moment) : list (result (list Event)) :=
  match ms with
  | [] => []
  | m :: ms => let '(s', r) := scan_at cfg pack ver m s in r :: scans cfg pack ver s' ms
  end.

(** The scan at [m] gets to the sockets, and these keys are listening then. *)
Definition listening (cfg : Config) (m : Moment) (ks : gset string) : Prop :=
  ∃ rows pids nets, @completes (mo_files m) (mo_dirs m) cfg rows pids nets ∧ ks = current_listens rows.

(** The listening events of a result, and what the others are. *)
Definition reports_listens (cfg : Config) (pack : Pack) (ver : string) (m : Moment) (r : result (list Event))
  (out : list listenCand) : Prop :=
  ∃ evs, r = Ok (evs ++ map (@listen_event (mo_links m) cfg pack ver (mo_now m)) out) ∧
         ∀ ev, ev ∈ evs → ev_RuleID ev ≠ RuleListenNew.

Lemma scan_at_listens cfg pack ver m s ks :
  listening cfg m ks →
  ∃ s' r out, scan_at cfg pack ver m s = (s', r) ∧ reports_listens cfg pack ver m r out ∧
    ns_knownListens s' = ks ∧ ns_listenPrimed s' = true ∧
    (ns_listenPrimed s = false → out = []) ∧
    (ns_listenPrimed s = true → NoDup (keys out) ∧ ∀ k, k ∈ keys out ↔ k ∈ ks ∧ k ∉ ns_knownListens s).
Proof.
  intros (rows & pids & nets & Hc & ->). unfold scan_at, reports_listens.
  destruct (@Scan_network_spec (mo_files m) (mo_dirs m) (mo_links m) cfg pack ver (mo_t m) (mo_t' m) (mo_now m) s
    rows pids nets Hc) as (s' & out & Hs & Hrest).
  eexists s', _, out. split; [exact Hs|]. split; [|done]. eexists. split; [reflexivity|].
  intros ev (row & _ & Ho)%list_elem_of_omap. apply outbound_event_some in Ho as (_ & pid & rule & tech & sigs & _ & _ & Hcl & ->).
  rewrite net_event_rule. by apply classify_rule in Hcl as [_ Hne].
Qed.

Lemma scans_listens cfg pack ver ms s i m m' ks ks' :
  Forall (λ m, ∃ ks, listening cfg m ks) ms → ms !! i = Some m → ms !! S i = Some m' →
  listening cfg m ks → listening cfg m' ks' →
  ∃ r out, scans cfg pack ver s ms !! S i = Some r ∧ reports_listens cfg pack ver m' r out ∧
    NoDup (keys out) ∧ ∀ k, k ∈ keys out ↔ k ∈ ks' ∧ k ∉ ks.
Proof.
  intros Hall Hm Hm' Hk Hk'. revert s i Hm Hm'. induction ms as [|n ms IH]; intros s i Hm Hm'; [done|].
  apply Forall_cons_1 in Hall as [[kn Hn] Hall]. cbn [scans].
  destruct (scan_at_listens cfg pack ver n s kn Hn) as (s1 & r1 & out1 & -> & _ & Hkn & Hpr & _).
  destruct i as [|i]; cbn in Hm, Hm' |- *; [|by apply IH].
  injection Hm as ->. destruct ms as [|n' ms]; [done|]. injection Hm' as ->. cbn [scans].
  destruct (scan_at_listens cfg pack ver m s ks Hk) as (sk & rk & outk & _ & _ & Hkk & _).
  destruct (scan_at_listens cfg pack ver m' s1 ks' Hk') as (s2 & r2 & out2 & -> & Hr2 & _ & _ & _ & Hd).
  exists r2, out2. split; [done|]. split; [done|]. specialize (Hd Hpr) as [Hnd Hd]. split; [done|].
  intros k. rewrite Hd. enough (ns_knownListens s1 = ks) as -> by done.
  rewrite Hkn. destruct Hn as (rows & pids & nets & (_ & Hr & _) & ->).
  destruct Hk as (rows' & pids' & nets' & (_ & Hr' & _) & ->). congruence.
Qed.


(** * Reverse shells *)

Section shells.
Context `{FileReader} `{DirReader} `{LinkReader}.

Definition shell_report (cfg : Config) (pack : Pack) (ver : string) (now : Time) (owners : gmap Z Z)
  (nets : list IPNet) (workers : list Z) (row : SocketRow) (ev : Event) : Prop :=
  ∃ pid comm tech sigs, owners !! so_Inode row = Some pid ∧ pid ≠ 0 ∧ comm = to_lower (fst (Procfs.Comm pid)) ∧
    comm ∈ suspiciousShellComms ∧ classify workers pid comm row = Some (RuleSocketStdio, tech, sigs) ∧
    ev = net_event cfg pack ver now RuleSocketStdio pid comm row sigs tech false.

Lemma outbound_shell cfg pack ver now owners nets workers row ev :
  (outbound_event cfg pack ver now owners nets workers row = Some ev ∧ ev_RuleID ev = RuleSocketStdio) ↔
  is_outbound nets row = true ∧ shell_report cfg pack ver now owners nets workers row ev.
Proof.
  unfold shell_report. split.
  - intros [Ho Hrule]. apply outbound_event_some in Ho as (Hob & pid & rule & tech & sigs & How & Hne & Hcl & Hev).
    split; [done|]. rewrite Hev, net_event_rule in Hrule. subst rule.
    exists pid, (to_lower (fst (Procfs.Comm pid))), tech, sigs.
    repeat (split; [done|]). split; [by apply (proj1 (classify_rule _ _ _ _ _ _ _ Hcl))|by split].
  - intros (Hob & pid & comm & tech & sigs & How & Hne & -> & _ & Hcl & ->). split; [|apply net_event_rule].
    apply outbound_event_some. split; [done|]. exists pid, RuleSocketStdio, tech, sigs. by repeat (split; [done|]).
Qed.

Lemma listen_event_rule cfg pack v now c : ev_RuleID (listen_event cfg pack v now c) = RuleListenNew.
Proof. unfold listen_event. apply net_event_rule. Qed.

(** Every report of a new listener is marked as learning only. *)
Theorem listen_event_learning cfg pack ver now c : ev_LearningOnly (listen_event cfg pack ver now c) = true.
Proof. unfold listen_event. rewrite net_event_learning. reflexivity. Qed.

#[local] Opaque listen_event.



End shells.

(** * A host *)

Module NetDemo.

(** A table of the kernel with these lines below its heading. *)
Definition table (lines : list string) : string := sjoin (str nl) ("  sl  local_address rem_address   st" :: lines) +:+ str nl.

Definition listen_22 : string := "   0: 00000000:0016 00000000:0000 0A 00000000:00000000 00:00000000 00000000     0        0 100 1".
Definition listen_4444 : string := "   1: 00000000:115C 00000000:0000 0A 00000000:00000000 00:00000000 00000000     0        0 101 1".
Definition shell_out : string := "   2: 0A00000A:D431 08080808:01BB 01 00000000:00000000 00:00000000 00000000     0        0 102 1".

Definition files (lines : list string) : FileReader := λ p,
  if p =s? "/proc/net/tcp" then Ok (table lines)
  else if p =s? "/proc/77/comm" then Ok ("bash" +:+ str nl)
  else Err "no such file".
Definition dirs : DirReader := λ p,
  if p =s? "/proc" then Ok [mkDirEntry "77" true]
  else if p =s? "/proc/77/fd" then Ok [mkDirEntry "3" false]
  else Err "no such file".
Definition links : LinkReader := λ p, if p =s? "/proc/77/fd/3" then Ok "socket:[102]" else Err "no such file".

Definition at_time (lines : list string) (t : Time) : Moment := mkMoment (files lines) dirs links t t t.
Definition cfg : Config := Default <| cfg_NetworkScanEnabled := true |>.
Definition pack : Pack := mkPack "1" [].
Definition before : Moment := at_time [listen_22] 0.
Definition after : Moment := at_time [listen_22; listen_4444; shell_out] (60 * second).

End NetDemo.

Lemma listening_intro cfg m rows pids nets :
  @completes (mo_files m) (mo_dirs m) cfg rows pids nets → listening cfg m (current_listens rows).
Proof. intros Hc. by exists rows, pids, nets. Qed.

Section demo.
Import NetDemo.

(** What the readers return on a moment of the example. *)
Ltac completed := repeat split; vm_compute; reflexivity.



End demo.
