(* ===== verification/ProcScans.v ===== *)
(** The scanners of running processes: [internal/detect/memorymaps],
    [internal/detect/ancestry], [internal/detect/ldpreload] and the page-cache
    comparison of [internal/detect/copyfail].

    [order_set] is the order in which Go ranges over a map used as a set; the
    theorems hold for every order. *)
From stdpp Require Import sorting.
From S2P Require Export Procfs Detect.

Definition string_le (a b : string) : Prop := String.leb a b = true.
#[export] Instance string_le_dec : RelDecision string_le := λ a b, bool_eq_dec (String.leb a b) true.

Section host.
Context `{FileReader} `{DirReader} `{LinkReader}.
Variable order_set : gset string → list string.

(** * Memory maps *)

Definition RuleProcRWX : string := "PROC_RWX_MEMORY_SEGMENT".
Definition RuleProcDeletedExec : string := "PROC_DELETED_EXEC_SEGMENT".
Definition RuleProcWorldWritable : string := "PROC_WRITABLE_PATH_MAP".
Definition RuleProcTracer : string := "PROC_UNEXPECTED_TRACER".
Definition RuleProcSuspectLib : string := "PROC_MAPPED_UNPACKAGED_LIB".
Definition RuleProcCapEscalation : string := "PROC_CAP_ESCALATION".
Definition RuleProcMasquerade : string := "PROC_MASQUERADE_NAME".

Definition masqueradeName (comm exe : string) : bool :=
  if (comm =s? "") || (exe =s? "") then false
  else if has_prefix comm "[" && has_suffix comm "]" && negb (contains exe "(deleted)") then true
  else
    let base := path_base exe in
    if base =s? "" then false
    else let base := trim_suffix base " (deleted)" in negb (equal_fold comm base) && negb (has_prefix base comm).

Definition capLooksEscalated (s : Status) : bool :=
  if st_EffUID s =? 0 then false else 10 <=? slen (trim_left (Ascii.eqb "0") (to_lower (st_CapEff s))).

Definition emitMapEvent (cfg : Config) (pack : Pack) (agentVer : string) (now : Time) (rule : string) (pid : Z)
  (comm pathHint : string) (sigs tech : list string) (learning : bool) : Event :=
  NormalizeDedup (scan_event pack agentVer now rule tech "defense-evasion" (score_floor pack rule sigs 70) learning
    (mkEntity EntityProcess (itoa pid) (ResolveExe pid) "") sigs
    ("pid=" +:+ itoa pid +:+ " comm=" +:+ comm +:+ " map=" +:+ truncate pathHint 120) learning).

Definition mappingDetail (path : string) : string :=
  if path =s? "" then "anonymous_rwx_mapping" else "mapping_path:" +:+ truncate path 80.

Definition pathAllowlisted (path : string) (prefixes : list string) : bool :=
  if path =s? "" then false
  else existsb (λ p, negb (p =s? "") && has_prefix (to_lower path) (to_lower p)) prefixes.

(** One finding: the rule, the hint, the signals, the techniques, and whether
    the learning mode applies. *)
Record finding := mkFinding {
  fd_rule : string; fd_hint : string; fd_sigs : list string; fd_tech : list string; fd_learns : bool
}.

Definition when (b : bool) (f : finding) : list finding := if b then [f] else [].

(** The libraries of a process that the baseline does not list for its name. *)
Definition new_libraries (snap : Snapshot) (comm : string) (entries : list MapEntry) : list string :=
  match glookup (bs_LoadedLibraries snap) comm with
  | None => []
  | Some allowed => List.filter (λ lib, negb (mem_str lib allowed)) (order_set (LoadedSharedObjects entries))
  end.

Definition map_findings (cfg : Config) (snap : Snapshot) (comm : string) (entries : list MapEntry) : list finding :=
  let '(rwx, rwx_hint) := HasRWXSegment entries in
  let '(del, del_hint) := HasDeletedExecSegment entries in
  let '(ww, ww_hint) := WorldWritableSegmentPathHints entries in
  when (rwx && negb (pathAllowlisted rwx_hint (cfg_MapsPathAllowlist cfg)))
    (mkFinding RuleProcRWX rwx_hint ["rwx_memory_mapping"; "comm:" +:+ comm; mappingDetail rwx_hint] ["T1055"] false) ++
  when del (mkFinding RuleProcDeletedExec del_hint
    ["deleted_backed_exec_segment"; "comm:" +:+ comm; "mapping_path:" +:+ truncate del_hint 80] ["T1055"; "T1620"] false) ++
  when ww (mkFinding RuleProcWorldWritable ww_hint
    ["world_writable_mapping"; "comm:" +:+ comm; "mapping_path:" +:+ truncate ww_hint 80] ["T1055"] true) ++
  map (λ lib, mkFinding RuleProcSuspectLib lib
    ["unknown_shared_object"; "comm:" +:+ comm; "lib:" +:+ truncate lib 120] ["T1574.006"] true)
    (new_libraries snap comm entries).

Definition status_findings (comm exe : string) (st : Status) : list finding :=
  when (negb (st_TracerPid st =? 0)) (mkFinding RuleProcTracer ""
    ["ptrace_attached"; "tracer_pid:" +:+ itoa (st_TracerPid st); "comm:" +:+ comm] ["T1055.001"] false) ++
  when (capLooksEscalated st) (mkFinding RuleProcCapEscalation ""
    ["effective_caps_all_bits"; "comm:" +:+ comm; "cap_eff:" +:+ st_CapEff st] ["T1548"; "T1055"] true) ++
  when (masqueradeName comm exe) (mkFinding RuleProcMasquerade exe
    ["proc_masquerade_name"; "comm:" +:+ comm; "exe:" +:+ exe] ["T1036.005"] false).

(** A watched process whose maps can be read: its name and its maps. *)
Definition watched_maps (names : list string) (pid : Z) : option (string * list MapEntry) :=
  match Procfs.Comm pid with
  | (comm, true) =>
      if mem_str (to_lower (trim_space comm)) (name_set names) then
        match ReadMaps pid with (entries, true) => Some (comm, entries) | _ => None end
      else None
  | _ => None
  end.

Definition pid_findings (cfg : Config) (snap : Snapshot) (pid : Z) : option (string * list finding) :=
  match watched_maps (cfg_MapsWatchProcesses cfg) pid with
  | None => None
  | Some (comm, entries) =>
      Some (comm, map_findings cfg snap comm entries ++
                  match ReadStatus pid with
                  | (st, true) => status_findings comm (ResolveExe pid) st
                  | _ => []
                  end)
  end.

Definition Scan_memorymaps (cfg : Config) (snap : Snapshot) (pack : Pack) (agentVer : string) (now : Time)
  : result (list Event) :=
  if negb (cfg_MapsScanEnabled cfg) then Ok []
  else
    match Processes with
    | (_, false) => Err "processes"
    | (pids, true) =>
        let learning := learning_of cfg snap in
        Ok (concat (map (λ pid, match pid_findings cfg snap pid with
          | None => []
          | Some (comm, fs) => map (λ f, emitMapEvent cfg pack agentVer now (fd_rule f) pid comm (fd_hint f) (fd_sigs f)
                                           (fd_tech f) (fd_learns f && learning)) fs
          end) pids))
    end.

(** The set of libraries of each watched name grows. *)
Definition BuildBaselineLibraries (cfg : Config) (snap : Snapshot) : Snapshot :=
  let snap := snap <| bs_LoadedLibraries := make (bs_LoadedLibraries snap) |> in
  match Processes with
  | (_, false) => snap
  | (pids, true) =>
      fold_left (λ snap pid,
        match watched_maps (cfg_MapsWatchProcesses cfg) pid with
        | None => snap
        | Some (comm, entries) =>
            let existing := default [] (glookup (bs_LoadedLibraries snap) comm) in
            snap <| bs_LoadedLibraries :=
              ginsert comm (order_set (list_to_set existing ∪ LoadedSharedObjects entries)) (bs_LoadedLibraries snap) |>
        end) pids snap
  end.

(** * Ancestry *)

Definition RuleRareAncestry : string := "PROC_RARE_ANCESTRY".

Definition juicyParents : list string :=
  ["nginx"; "apache2"; "httpd"; "php-fpm"; "php"; "tomcat"; "java"; "node"; "mysqld"; "postgres"; "sshd"; "cron";
   "crond"; "systemd"; "containerd"; "dockerd"; "runc"].

Definition suspiciousChildren : list string :=
  ["sh"; "bash"; "dash"; "zsh"; "ksh"; "nc"; "ncat"; "socat"; "curl"; "wget"; "python"; "python3"; "perl"; "ruby";
   "nmap"; "whoami"; "id"; "base64"; "xxd"; "awk"; "sed"].

Definition ancestry_pair (pcomm comm : string) : string := pcomm +:+ String "000" comm.

(** The parent of a process and its name, when both can be read. *)
Definition parent_comm (pid : Z) : option (Z * string) :=
  match PPid pid with
  | (ppid, true) =>
      if ppid <=? 0 then None
      else match Procfs.Comm ppid with (pcomm, true) => Some (ppid, pcomm) | _ => None end
  | _ => None
  end.

(** The lineage that is looked at: the name, the parent, its name. *)
Definition audited (pid : Z) : option (string * Z * string) :=
  match Procfs.Comm pid with
  | (comm, true) =>
      if negb (mem_str comm suspiciousChildren) then None
      else match parent_comm pid with
           | Some (ppid, pcomm) => if mem_str pcomm juicyParents then Some (comm, ppid, pcomm) else None
           | None => None
           end
  | _ => None
  end.

Definition ancestry_event (cfg : Config) (pack : Pack) (agentVer : string) (now : Time) (pid : Z) (comm : string)
  (ppid : Z) (pcomm : string) : Event :=
  let signals := ["rare_ancestry"; "juicy_parent:" +:+ pcomm; "suspicious_child:" +:+ comm] in
  let conf := fst (Score pack RuleRareAncestry signals) in
  let conf := if conf =? 0 then 70 else conf in
  scan_event pack agentVer now RuleRareAncestry ["T1059"] "execution" conf (cfg_LearningMode cfg)
    (mkEntity EntityProcess (itoa pid) (sjoin " " (fst (Cmdline pid))) "") signals
    (comm +:+ "(pid=" +:+ itoa pid +:+ ") -> " +:+ pcomm +:+ "(ppid=" +:+ itoa ppid +:+ ") unseen in baseline")
    (cfg_LearningMode cfg).

Definition Scan_ancestry (cfg : Config) (snap : Snapshot) (pack : Pack) (agentVer : string) (now : Time)
  : result (list Event) :=
  match Processes with
  | (_, false) => Ok []
  | (pids, true) =>
      Ok (omap (λ pid,
        match audited pid with
        | Some (comm, ppid, pcomm) =>
            if mem_str (ancestry_pair pcomm comm) (bs_ProcessAncestry snap) then None
            else Some (ancestry_event cfg pack agentVer now pid comm ppid pcomm)
        | None => None
        end) pids)
  end.

(** [sort.Strings] of a set. *)
Definition sorted_strings (s : gset string) : list string := merge_sort string_le (elements s).

Definition BuildBaselineAncestry : result (list string) :=
  match Processes with
  | (_, false) => Err "processes"
  | (pids, true) =>
      Ok (sorted_strings (list_to_set (omap (λ pid,
        match Procfs.Comm pid with
        | (comm, true) => (λ '(_, pcomm), ancestry_pair pcomm comm) <$> parent_comm pid
        | _ => None
        end) pids)))
  end.

(** * Preloaded libraries *)

Definition RuleLdSoPreload : string := "LD_SO_PRELOAD_FILE".
Definition RuleProcLDPreload : string := "PROC_LD_PRELOAD_ENV".

Definition isAllowlistedValue (v : string) (allow : list string) : bool :=
  existsb (λ a, negb (a =s? "") && contains v a) allow.

Definition allLinesAllowlisted (content : string) (allow : list string) : bool :=
  forallb (λ line, (line =s? "") || has_prefix line "#" || isAllowlistedValue line allow) (map trim_space (split nl content)).

Definition suspiciousPath (v : string) : bool :=
  existsb (contains (to_lower v)) ["/tmp/"; "/dev/shm/"; "/var/tmp/"; "/.cache/"] || has_prefix (to_lower v) ".".

Definition preload_file : string := "/etc/ld.so.preload".

Definition preload_file_event (pack : Pack) (agentVer : string) (now : Time) (content : string) : Event :=
  let sigs := ["ld_so_preload_non_empty"; "not_in_allowlist"] in
  NormalizeDedup (scan_event pack agentVer now RuleLdSoPreload ["T1574.006"; "T1014"] "defense-evasion"
    (score_floor pack RuleLdSoPreload sigs 95) false (mkEntity EntityFile preload_file preload_file "") sigs
    (truncate content 300) false).

Definition scan_preload_file (cfg : Config) (pack : Pack) (agentVer : string) (now : Time) : list Event :=
  match ReadFile preload_file with
  | Err _ => []
  | Ok b =>
      let content := trim_space b in
      if negb (content =s? "") && negb (allLinesAllowlisted content (cfg_LDPreloadAllowlist cfg))
      then [preload_file_event pack agentVer now content] else []
  end.

(** The preload of a target process: its name and the value, unless blank. *)
Definition target_preload (cfg : Config) (pid : Z) : option (string * string) :=
  match Procfs.Comm pid with
  | (comm, true) =>
      if negb (mem_str (to_lower (trim_space comm)) (map to_lower (cfg_TargetProcessNames cfg))) then None
      else match Environ pid with
           | (env, true) =>
               match env !! "LD_PRELOAD" with
               | Some v => if trim_space v =s? "" then None else Some (comm, v)
               | None => None
               end
           | _ => None
           end
  | _ => None
  end.

Definition preload_env_event (cfg : Config) (snap : Snapshot) (pack : Pack) (agentVer : string) (now : Time) (pid : Z)
  (comm v : string) : Event :=
  let sigs := ["ld_preload_in_process_env"; "target_process:" +:+ comm] ++
    (if suspiciousPath v then ["preload_path_suspicious"] else []) ++
    (if negb (path_is_abs v) || contains v "./" then ["non_absolute_preload"] else []) in
  let learning := learning_of cfg snap in
  let conf := fst (Score pack RuleProcLDPreload sigs) in
  NormalizeDedup (scan_event pack agentVer now RuleProcLDPreload ["T1574.006"; "T1014"] "defense-evasion" conf learning
    (mkEntity EntityProcess (itoa pid) (ResolveExe pid) "") sigs ("LD_PRELOAD=" +:+ truncate v 200)
    (held_back cfg learning conf)).

(** A preload that is neither allowed by the configuration nor known to a
    committed baseline. *)
Definition unexpected_preload (cfg : Config) (snap : Snapshot) (v : string) : bool :=
  negb (isAllowlistedValue v (cfg_LDPreloadAllowlist cfg)) && negb (IsCommitted snap && mem_str v (bs_LDPreload snap)).

Definition Scan_ldpreload (cfg : Config) (snap : Snapshot) (pack : Pack) (agentVer : string) (now : Time)
  : result (list Event) :=
  Ok (scan_preload_file cfg pack agentVer now ++
      match Processes with
      | (_, false) => []
      | (pids, true) =>
          omap (λ pid, match target_preload cfg pid with
                       | Some (comm, v) => if unexpected_preload cfg snap v
                                           then Some (preload_env_event cfg snap pack agentVer now pid comm v) else None
                       | None => None
                       end) pids
      end).

Definition BuildBaselineLDPreload (cfg : Config) (snap : Snapshot) : result Snapshot :=
  match Processes with
  | (_, false) => Err "processes"
  | (pids, true) => Ok (snap <| bs_LDPreload := order_set (list_to_set (omap (λ pid, snd <$> target_preload cfg pid) pids)) |>)
  end.

(** * The page cache

    [disk] reads a file after its cached pages were dropped; the other reader
    goes through the cache. *)
Definition RulePageCachePois : string := "CVE_2026_31431_PAGE_CACHE_POISONING".

Definition DefaultTargetSUIDBinaries : list string :=
  ["/usr/bin/su"; "/bin/su"; "/usr/bin/sudo"; "/usr/bin/passwd"; "/usr/bin/chsh"; "/usr/bin/chfn"; "/usr/bin/newgrp";
   "/usr/bin/gpasswd"; "/usr/bin/mount"; "/usr/bin/umount"; "/bin/mount"; "/bin/umount"; "/usr/bin/pkexec";
   "/usr/lib/openssh/ssh-keysign"].

Definition pageCacheVsDiskHash (disk : string → result string) (path : string) : option (string * string) :=
  match ReadFile path, disk path with
  | Ok c, Ok d => Some (sha256_hex c, sha256_hex d)
  | _, _ => None
  end.

Definition drift_event (cfg : Config) (pack : Pack) (agentVer : string) (now : Time) (path cacheHash diskHash : string) : Event :=
  let sigs := ["page_cache_disk_drift"; "target_suid_binary"] in
  NormalizeDedup (scan_event pack agentVer now RulePageCachePois ["T1068"; "T1014"] "privilege-escalation"
    (score_floor pack RulePageCachePois sigs 95) (cfg_LearningMode cfg) (mkEntity EntityFile diskHash path "") sigs
    ("page_cache_sha256=" +:+ cacheHash +:+ " on_disk_sha256=" +:+ diskHash +:+
     " — SUID binary diverges in memory only (CVE-2026-31431 page-cache poisoning)") (cfg_LearningMode cfg)).

Definition drift_targets (cfg : Config) : list string :=
  match cf_TargetSUIDBinaries (cfg_CopyFail cfg) with [] => DefaultTargetSUIDBinaries | l => l end.

Definition Scan_copyfail (disk : string → result string) (cfg : Config) (pack : Pack) (agentVer : string) (now : Time)
  : result (list Event) :=
  if negb (cf_Enabled (cfg_CopyFail cfg)) || negb (cf_PageCacheCheckEnabled (cfg_CopyFail cfg)) then Ok []
  else Ok (omap (λ path,
    match pageCacheVsDiskHash disk path with
    | Some (c, d) => if c =s? d then None else Some (drift_event cfg pack agentVer now path c d)
    | None => None
    end) (drift_targets cfg)).

End host.
