(* ===== verification/ProcScansFacts.v ===== *)
(** Theorems on the scanners of running processes. *)
From stdpp Require Import sorting.
From S2P Require Export ProcScans.

(** * Capabilities *)

Lemma digits_val_lower s base acc v :
  base ≤ 36 → digits_val base s acc = Some v → digits_val base (to_lower s) acc = Some v.
Proof.
  intros Hb. revert acc. induction s as [|c s IH]; intros acc; [done|]. cbn [to_lower smap digits_val].
  assert (Hc : digit_val (lower_char c) = digit_val c) by (by destruct c as [[] [] [] [] [] [] [] []]).
  rewrite Hc. destruct (digit_val c); [|done]. destruct (_ <? base); [|done]. apply IH.
Qed.

Lemma digit_val_bound c d : digit_val c = Some d → 0 ≤ d ∧ (Ascii.eqb "0" c = false → 1 ≤ d).
Proof.
  destruct c as [[] [] [] [] [] [] [] []]; vm_compute; intros Hd; try discriminate Hd;
    injection Hd as <-; split; first [discriminate | intros Hc; discriminate].
Qed.

Lemma digits_val_bounds base s acc v :
  1 < base → digits_val base s acc = Some v →
  acc * base ^ slen s ≤ v < (acc + 1) * base ^ slen s.
Proof.
  intros Hb. revert acc. induction s as [|c s IH]; intros acc; cbn [digits_val].
  - intros [= <-]. change (slen "") with 0. lia.
  - destruct (digit_val c) as [d|] eqn:Hd; [|done]. destruct (d <? base) eqn:Hlt; [|done]. intros Hv%IH.
    destruct (digit_val_bound c d Hd) as [Hd0 _].
    apply Z.ltb_lt in Hlt.
    replace (slen (String c s)) with (slen s + 1) by (unfold slen; cbn [String.length]; lia).
    rewrite Z.pow_add_r by (unfold slen; lia). pose proof (Z.pow_pos_nonneg base (slen s) ltac:(lia) ltac:(unfold slen; lia)).
    nia.
Qed.

Lemma digits_val_trim base s v :
  digits_val base s 0 = Some v → digits_val base (trim_left (Ascii.eqb "0") s) 0 = Some v.
Proof.
  induction s as [|c s IH]; [done|]. cbn [trim_left]. destruct (Ascii.eqb "0" c) eqn:Hc; [|done].
  apply Ascii.eqb_eq in Hc as <-. cbn [digits_val]. change (digit_val "0") with (Some 0). cbv iota.
  destruct (0 <? base); [|done]. intros Hv. apply IH. exact Hv.
Qed.

(** A number without leading zeros is at least the power of its length. *)
Lemma trimmed_bounds s v :
  digits_val 16 (trim_left (Ascii.eqb "0") s) 0 = Some v →
  ∀ n, 0 ≤ n → (n <? slen (trim_left (Ascii.eqb "0") s)) = (16 ^ n <=? v).
Proof.
  intros Hv n Hn. set (t := trim_left _ s) in *.
  assert (Ht : t = "" ∨ ∃ c r, t = String c r ∧ Ascii.eqb "0" c = false).
  { subst t. clear. induction s as [|c s IH]; [by left|]. cbn [trim_left].
    destruct (Ascii.eqb "0" c) eqn:Hc; [done|]. right. by exists c, s. }
  pose proof (digits_val_bounds 16 t 0 v ltac:(lia) Hv) as Hb.
  destruct Ht as [Ht|(c & r & Ht & Hc)].
  - rewrite Ht in *. cbn in Hv. injection Hv as <-. change (slen "") with 0.
    pose proof (Z.pow_pos_nonneg 16 n ltac:(lia) Hn). rewrite (proj2 (Z.ltb_ge n 0)), (proj2 (Z.leb_gt (16 ^ n) 0)) by lia. done.
  - assert (Hlow : 16 ^ (slen t - 1) ≤ v).
    { rewrite Ht in Hv. cbn [digits_val] in Hv. destruct (digit_val c) as [d|] eqn:Hd; [|done].
      destruct (d <? 16); [|done]. apply digits_val_bounds in Hv; [|lia].
      destruct (digit_val_bound c d Hd) as [_ Hd1]. specialize (Hd1 Hc).
      rewrite Ht. replace (slen (String c r) - 1) with (slen r) by (unfold slen; cbn [String.length]; lia).
      pose proof (Z.pow_pos_nonneg 16 (slen r) ltac:(lia) ltac:(unfold slen; lia)). nia. }
    apply Bool.eq_iff_eq_true. rewrite Z.ltb_lt, Z.leb_le. split.
    + intros Hlt. etrans; [|exact Hlow]. apply Z.pow_le_mono_r; lia.
    + intros Hle. destruct (Z.lt_ge_cases n (slen t)) as [|Hge]; [done|].
      pose proof (Z.pow_le_mono_r 16 (slen t) n ltac:(lia) Hge). lia.
Qed.

(** The capability test is a threshold on the number the kernel prints:
    a process that is not root counts as escalated if and only if its effective
    set is at least 16^9, whatever the case of the digits and the padding. *)
Theorem capLooksEscalated_iff st v :
  digits_val 16 (st_CapEff st) 0 = Some v →
  capLooksEscalated st = true ↔ st_EffUID st ≠ 0 ∧ 16 ^ 9 ≤ v.
Proof.
  intros Hv. unfold capLooksEscalated. destruct (st_EffUID st =? 0) eqn:Hu.
  - apply Z.eqb_eq in Hu. split; [done|]. by intros [? _].
  - apply Z.eqb_neq in Hu. apply digits_val_lower, digits_val_trim in Hv; [|lia].
    pose proof (trimmed_bounds _ _ Hv 9 ltac:(lia)) as Hb.
    set (l := slen _) in *. rewrite <-Z.leb_le, <-Hb, Z.ltb_lt, Z.leb_le. naive_solver lia.
Qed.

Lemma capLooksEscalated_iff_witness :
  let st := zero_Status <| st_EffUID := 1000 |> <| st_CapEff := "0000001000000000" |> in
  digits_val 16 (st_CapEff st) 0 = Some (2 ^ 36) ∧ capLooksEscalated st = true.
Proof.
  cbv zeta. split; [vm_compute; reflexivity|]. apply (capLooksEscalated_iff _ (2 ^ 36)); [vm_compute; reflexivity|].
  split; [done|]. vm_compute. discriminate.
Defined.

Section host.
Context `{FileReader} `{DirReader} `{LinkReader}.
Variable order_set : gset string → list string.
(** Go ranges over every key of a map once. *)
Hypothesis order_perm : ∀ s, order_set s ≡ₚ elements s.

Lemma order_elem s x : x ∈ order_set s ↔ x ∈ s.
Proof using order_perm. by rewrite order_perm, elem_of_elements. Qed.

(** * Ancestry *)

Lemma sorted_elem s x : x ∈ sorted_strings s ↔ x ∈ s.
Proof. unfold sorted_strings. by rewrite merge_sort_Permutation, elem_of_elements. Qed.

Lemma audited_pair pid comm ppid pcomm :
  audited pid = Some (comm, ppid, pcomm) → Procfs.Comm pid = (comm, true) ∧ parent_comm pid = Some (ppid, pcomm).
Proof.
  unfold audited. destruct (Procfs.Comm pid) as [c []]; [|done]. destruct (negb _); [done|].
  destruct (parent_comm pid) as [[pp pc]|]; [|done]. destruct (mem_str pc _); [|done]. by intros [= <- <- <-].
Qed.

Lemma ancestry_quiet cfg snap pack ver now pairs :
  BuildBaselineAncestry = Ok pairs → bs_ProcessAncestry snap = pairs → Scan_ancestry cfg snap pack ver now = Ok [].
Proof.
  unfold BuildBaselineAncestry, Scan_ancestry. destruct Processes as [pids []]; [|done]. intros [= <-] Hs.
  f_equal. apply omap_nil. intros pid Hpid. destruct (audited pid) as [[[comm ppid] pcomm]|] eqn:Ha; [|done].
  apply audited_pair in Ha as [Hc Hp].
  enough (Hin : ancestry_pair pcomm comm ∈ bs_ProcessAncestry snap) by (apply mem_str_spec in Hin; by rewrite Hin).
  rewrite Hs, sorted_elem, elem_of_list_to_set. apply list_elem_of_omap. exists pid. split; [done|]. by rewrite Hc, Hp.
Qed.

(** * Preloaded libraries *)

Definition env_events (cfg : Config) (snap : Snapshot) (pack : Pack) (ver : string) (now : Time) : list Event :=
  match Scan_ldpreload cfg snap pack ver now with
  | Ok evs => drop (length (scan_preload_file cfg pack ver now)) evs
  | Err _ => []
  end.

Lemma Scan_ldpreload_app cfg snap pack ver now :
  Scan_ldpreload cfg snap pack ver now = Ok (scan_preload_file cfg pack ver now ++ env_events cfg snap pack ver now).
Proof. unfold env_events, Scan_ldpreload. by rewrite drop_app_length. Qed.

Lemma ldpreload_quiet cfg snap snap' pack ver now :
  BuildBaselineLDPreload order_set cfg snap = Ok snap' →
  ∀ s, bs_LDPreload s = bs_LDPreload snap' → IsCommitted s = true →
  Scan_ldpreload cfg s pack ver now = Ok (scan_preload_file cfg pack ver now).
Proof using order_perm.
  unfold BuildBaselineLDPreload, Scan_ldpreload. destruct Processes as [pids []]; [|done].
  intros [= <-] s Hs Hc. f_equal. rewrite omap_nil; [by rewrite app_nil_r|]. intros pid Hpid.
  destruct (target_preload cfg pid) as [[comm v]|] eqn:Ht; [|done].
  unfold unexpected_preload. rewrite Hc. enough (Hin : v ∈ bs_LDPreload s).
  { apply mem_str_spec in Hin. by rewrite Hin, andb_false_r. }
  rewrite Hs. apply order_elem, elem_of_list_to_set, list_elem_of_omap.
  exists pid. by rewrite Ht.
Qed.

(** * Libraries *)

(** No library is unknown when the baseline has no entry for the process: the
    rule needs [BuildBaselineLibraries]. *)
Lemma new_libraries_no_entry snap comm entries :
  glookup (bs_LoadedLibraries snap) comm = None → new_libraries order_set snap comm entries = [].
Proof. unfold new_libraries. by intros ->. Qed.

Definition covers (snap : Snapshot) (comm : string) (entries : list MapEntry) : Prop :=
  ∃ allowed, glookup (bs_LoadedLibraries snap) comm = Some allowed ∧ ∀ l, l ∈ LoadedSharedObjects entries → l ∈ allowed.

Lemma covers_quiet snap comm entries : covers snap comm entries → new_libraries order_set snap comm entries = [].
Proof using order_perm.
  intros (allowed & Hl & Hin). unfold new_libraries. rewrite Hl. apply filter_none. intros l Hl'%order_elem%Hin.
  apply mem_str_spec in Hl'. by rewrite Hl'.
Qed.

Definition add_libraries (cfg : Config) (snap : Snapshot) (pid : Z) : Snapshot :=
  match watched_maps (cfg_MapsWatchProcesses cfg) pid with
  | None => snap
  | Some (comm, entries) =>
      snap <| bs_LoadedLibraries :=
        ginsert comm (order_set (list_to_set (default [] (glookup (bs_LoadedLibraries snap) comm)) ∪
                                 LoadedSharedObjects entries)) (bs_LoadedLibraries snap) |>
  end.

Lemma add_libraries_keeps cfg snap pid comm entries :
  covers snap comm entries → covers (add_libraries cfg snap pid) comm entries.
Proof using order_perm.
  unfold add_libraries. intros (allowed & Hl & Hin). destruct (watched_maps _ pid) as [[c es]|]; [|by exists allowed].
  unfold covers. cbn [bs_LoadedLibraries]. destruct (bs_LoadedLibraries snap) as [m|] eqn:Hm; [|done].
  cbn in Hl |- *. destruct (decide (c = comm)) as [->|Hne].
  - eexists. rewrite lookup_insert_eq. split; [reflexivity|]. intros l Hl'. apply order_elem, elem_of_union_l.
    rewrite Hl. apply elem_of_list_to_set. by apply Hin.
  - exists allowed. by rewrite lookup_insert_ne.
Qed.

Lemma add_libraries_adds cfg snap pid comm entries :
  is_Some (bs_LoadedLibraries snap) → watched_maps (cfg_MapsWatchProcesses cfg) pid = Some (comm, entries) →
  covers (add_libraries cfg snap pid) comm entries.
Proof using order_perm.
  intros [m Hm] Hw. unfold add_libraries, covers. rewrite Hw. cbn [bs_LoadedLibraries]. rewrite Hm. cbn.
  eexists. rewrite lookup_insert_eq. split; [reflexivity|]. intros l Hl. apply order_elem. by apply elem_of_union_r.
Qed.

Lemma add_libraries_some cfg snap pid :
  is_Some (bs_LoadedLibraries snap) → is_Some (bs_LoadedLibraries (add_libraries cfg snap pid)).
Proof. intros [m Hm]. unfold add_libraries. destruct (watched_maps _ _) as [[]|]; [|by rewrite Hm]. cbn. by rewrite Hm. Qed.

Lemma fold_libraries cfg pids snap pid comm entries :
  is_Some (bs_LoadedLibraries snap) → watched_maps (cfg_MapsWatchProcesses cfg) pid = Some (comm, entries) →
  (pid ∈ pids ∨ covers snap comm entries) → covers (fold_left (add_libraries cfg) pids snap) comm entries.
Proof using order_perm.
  intros Hs Hw. revert snap Hs. induction pids as [|q pids IH]; intros snap Hs Hor; cbn [fold_left].
  - destruct Hor as [Hin|]; [by apply elem_of_nil in Hin|done].
  - apply IH; [by apply add_libraries_some|]. rewrite elem_of_cons in Hor.
    destruct Hor as [[<-|Hin]|Hc]; [right; by apply add_libraries_adds|by left|right; by apply add_libraries_keeps].
Qed.

(** What the process baselines record is what the scans accept.  On a host
    that has not changed since its baseline was built, no lineage, no preload
    variable and no library of a watched process is reported as new. *)
Theorem process_baselines_quiet cfg snap pack ver now pids :
  Processes = (pids, true) →
  (∀ pairs, BuildBaselineAncestry = Ok pairs →
     Scan_ancestry cfg (snap <| bs_ProcessAncestry := pairs |>) pack ver now = Ok []) ∧
  (∀ snap', BuildBaselineLDPreload order_set cfg snap = Ok snap' → IsCommitted snap' = true →
     Scan_ldpreload cfg snap' pack ver now = Ok (scan_preload_file cfg pack ver now)) ∧
  (∀ pid comm entries, pid ∈ pids → watched_maps (cfg_MapsWatchProcesses cfg) pid = Some (comm, entries) →
     new_libraries order_set (BuildBaselineLibraries order_set cfg snap) comm entries = []).
Proof using order_perm.
  intros Hp. split_and!.
  - intros pairs Hb. by apply (ancestry_quiet _ _ _ _ _ pairs).
  - intros snap' Hb Hc. by eapply ldpreload_quiet.
  - intros pid comm entries Hpid Hw. apply covers_quiet. unfold BuildBaselineLibraries. rewrite Hp.
    eapply (fold_libraries cfg pids); [by eexists|exact Hw|by left].
Qed.

(** * The page cache *)

(** The page-cache comparison reports exactly the watched binaries that can
    be read both ways and whose SHA-256 through the cache and from the disk
    differ; a file whose contents agree is never reported. *)
Theorem drift_iff (disk : string → result string) cfg pack ver now ev :
  cf_Enabled (cfg_CopyFail cfg) = true → cf_PageCacheCheckEnabled (cfg_CopyFail cfg) = true →
  ∃ evs, Scan_copyfail disk cfg pack ver now = Ok evs ∧
  (ev ∈ evs ↔ ∃ p c d, p ∈ drift_targets cfg ∧ ReadFile p = Ok c ∧ disk p = Ok d ∧
     sha256_hex c ≠ sha256_hex d ∧ c ≠ d ∧ ev = drift_event cfg pack ver now p (sha256_hex c) (sha256_hex d)).
Proof.
  intros He Hc. unfold Scan_copyfail. rewrite He, Hc. cbn [negb orb]. eexists. split; [reflexivity|].
  rewrite list_elem_of_omap. unfold pageCacheVsDiskHash. split.
  - intros (p & Hp & Hev). exists p. destruct (ReadFile p) as [c|]; [|done]. destruct (disk p) as [d|]; [|done].
    destruct (sha256_hex c =s? sha256_hex d) eqn:Hh; [done|]. injection Hev as <-. apply String.eqb_neq in Hh.
    exists c, d. repeat (split; [done|]). split; [by intros ->|reflexivity].
  - intros (p & c & d & Hp & Hc' & Hd' & Hh & _ & ->). exists p. split; [exact Hp|]. apply String.eqb_neq in Hh.
    by rewrite Hc', Hd', Hh.
Qed.

End host.

(** * A host *)

Module ProcDemo.

#[export] Instance demo_files : FileReader := λ p,
  match List.find (λ e, e.1 =s? p)
    [("/proc/10/comm", "nginx"); ("/proc/10/status", "PPid:" +:+ str tab +:+ "1" +:+ str nl);
     ("/proc/10/environ", "LD_PRELOAD=/tmp/x.so"); ("/proc/10/maps", "7f00-7f10 r-xp 0 08:01 42 /opt/libevil.so" +:+ str nl);
     ("/proc/11/comm", "bash"); ("/proc/11/status", "PPid:" +:+ str tab +:+ "10" +:+ str nl);
     ("/usr/bin/su", "poisoned")] with
  | Some e => Ok e.2
  | None => Err "no such file"
  end.
#[export] Instance demo_dirs : DirReader := λ p,
  if p =s? "/proc" then Ok [mkDirEntry "10" true; mkDirEntry "11" true] else Err "no such file".
#[export] Instance demo_links : LinkReader := λ _, Err "no such file".

Definition cfg : Config :=
  Default <| cfg_TargetProcessNames := ["nginx"] |> <| cfg_MapsWatchProcesses := ["nginx"] |>
    <| cfg_LDPreloadAllowlist := [] |>
    <| cfg_CopyFail := mkCopyFailConfig true true [] [] |>.
Definition pack : Pack := mkPack "1" [].
Definition committed : Snapshot := EmptySnapshot <| bs_CommittedAt := 1 |>.
Definition on_disk (p : string) : result string := if p =s? "/usr/bin/su" then Ok "pristine" else Err "no such file".
Definition count (r : result (list Event)) : nat := length (ok_or [] r).

End ProcDemo.

Section demo.
Import ProcDemo.

(** Before the baselines are built each scan reports something; with them,
    nothing. *)
Lemma process_baselines_quiet_witness :
  let pids := [10; 11] in
  Processes = (pids, true) ∧
  (count (Scan_ancestry cfg committed pack "1" 0) = 1 ∧ count (Scan_ldpreload cfg committed pack "1" 0) = 1)%nat ∧
  (∃ pairs, BuildBaselineAncestry = Ok pairs ∧
     Scan_ancestry cfg (committed <| bs_ProcessAncestry := pairs |>) pack "1" 0 = Ok []) ∧
  (∃ snap', BuildBaselineLDPreload elements cfg committed = Ok snap' ∧
     Scan_ldpreload cfg snap' pack "1" 0 = Ok (scan_preload_file cfg pack "1" 0)).
Proof.
  cbv zeta. assert (Hp : Processes = ([10; 11], true)) by (vm_compute; reflexivity).
  destruct (process_baselines_quiet elements (λ _, reflexivity _) cfg committed pack "1" 0 [10; 11] Hp) as (Ha & Hl & _).
  split; [exact Hp|]. split; [split; vm_compute; reflexivity|]. split.
  - eexists. split; [vm_compute; reflexivity|]. apply Ha. vm_compute. reflexivity.
  - eexists. split; [unfold BuildBaselineLDPreload; rewrite Hp; reflexivity|]. apply Hl; [|reflexivity].
    unfold BuildBaselineLDPreload. by rewrite Hp.
Defined.

Lemma drift_iff_witness :
  cf_Enabled (cfg_CopyFail cfg) = true ∧ cf_PageCacheCheckEnabled (cfg_CopyFail cfg) = true ∧
  ∃ ev evs, Scan_copyfail on_disk cfg pack "1" 0 = Ok evs ∧ ev ∈ evs.
Proof.
  split; [reflexivity|]. split; [reflexivity|].
  set (ev := drift_event cfg pack "1" 0 "/usr/bin/su" (sha256_hex "poisoned") (sha256_hex "pristine")).
  destruct (drift_iff on_disk cfg pack "1" 0 ev eq_refl eq_refl) as (evs & Hs & Hev).
  exists ev, evs. split; [exact Hs|]. apply Hev. exists "/usr/bin/su", "poisoned", "pristine".
  split; [by left|]. split; [reflexivity|]. split; [reflexivity|].
  split; [vm_compute; discriminate|]. split; [discriminate|reflexivity].
Defined.

(** A substring is enough for the allow list: the malicious library is loaded
    next to an allowed one. *)
Theorem preload_allow_substring :
  isAllowlistedValue "/tmp/evil.so:/usr/lib/libjemalloc.so.2" ["libjemalloc"] = true.
Proof. reflexivity. Qed.

(** One capability (36) already counts as escalated; the comment above the
    function speaks of the full set. *)
Theorem one_capability_escalates :
  capLooksEscalated (zero_Status <| st_EffUID := 1000 |> <| st_CapEff := "0000001000000000" |>) = true.
Proof. vm_compute. reflexivity. Qed.

End demo.
