(* ===== verification/Web.v ===== *)
(** [internal/detect/web]: the scan of the document roots (web.go), the children
    of the web workers (recon.go), upload directories and changed files
    (docroot.go), and the baseline (baseline.go, meta.go).

    [order_pids] and [order_files] are the orders in which Go ranges over a set
    of pids and over a map of files; [looked t] is the clock when the file is
    judged. *)
From S2P Require Export WebAnalysis Container Detect Live.

Definition RuleWebShell : string := "WEB_SHELL_PATTERN".
Definition smallWebshellBytes : Z := 512.

(** * Metadata *)

(** [t.Truncate(time.Second)]. *)
Definition truncate_second (t : Time) : Time := t - t mod second.

Definition baselineMetaMatches (fi : FileInfo) (rec : WebFileRecord) : bool :=
  if wf_SHA256 rec =s? "" then false
  else if negb (truncate_second (fi_ModTime fi) =? truncate_second (wf_Mtime rec)) then false
  else negb ((0 <? wf_Size rec) && negb (fi_Size fi =? wf_Size rec)).

Definition web_pathAllowlisted (path : string) (prefixes : list string) : bool :=
  existsb (λ p, negb (p =s? "") && has_prefix path (path_clean p)) prefixes.

Definition ownerLooksLikeWebUser (uid : Z) : bool := (uid =? 33) || (uid =? 48) || (uid =? 99).

(** [os.ModeSetuid] and [os.ModeSetgid]. *)
Definition ModeSetuid : Z := 2 ^ 23.
Definition ModeSetgid : Z := 2 ^ 22.
Definition has_mode (fi : FileInfo) (m : Z) : bool := negb (Z.land (fi_Mode fi) m =? 0).

(** * A file of a document root *)

(** What the content says: the patterns, the categories, the taint. *)
Record WebContent := mkWebContent {
  wc_matched : list string;
  wc_hasExec : bool;
  wc_hasInput : bool;
  wc_hasObfusc : bool;
  wc_taint : bool * string
}.

Definition php_file (path : string) : bool := existsb (has_suffix (to_lower path)) [".php"; ".phar"; ".phtml"].

Definition web_content (path data : string) : WebContent :=
  let matched := matchingPatterns data in
  let '(hasExec, hasInput, hasObfusc) := classifyPatternCategories matched in
  let taint := if php_file path then scanPHPTaintFlow data else (false, "") in
  mkWebContent matched (hasExec || fst taint) (hasInput || fst taint) hasObfusc taint.

Definition web_signals (wc : WebContent) (data : string) (fi : FileInfo) (polyglot childSig newOrChanged recent : bool)
  : list string :=
  (if nonempty_list (wc_matched wc) then ["suspicious_web_pattern:" +:+ sjoin "," (wc_matched wc)] else []) ++
  (if wc_hasExec wc then ["exec_primitive"] else []) ++
  (if wc_hasInput wc then ["input_channel"] else []) ++
  (if wc_hasObfusc wc then ["obfuscation_booster"] else []) ++
  (if fst (wc_taint wc) then ["php_taint_flow:" +:+ snd (wc_taint wc)] else []) ++
  (if high_entropy data then ["high_entropy_content"] else []) ++
  (if polyglot then ["polyglot_magic_mismatch"] else []) ++
  (if has_mode fi ModeSetuid then ["setuid_script_file"] else []) ++
  (if has_mode fi ModeSetgid then ["setgid_script_file"] else []) ++
  (if negb (fi_Uid fi =? 0) && ownerLooksLikeWebUser (fi_Uid fi) then ["owned_by_web_user"] else []) ++
  (if (fi_Size fi <=? smallWebshellBytes) && nonempty_list (wc_matched wc) then ["tiny_high_signal_file"] else []) ++
  (if childSig then ["web_worker_shell_child"] else []) ++
  (if newOrChanged then ["file_new_or_changed_vs_baseline"] else []) ++
  (if recent then ["mtime_within_recent_window"] else []).

(** An execution primitive together with an input channel. *)
Definition bhvCombo (wc : WebContent) : bool := (wc_hasExec wc && wc_hasInput wc) || fst (wc_taint wc).

(** The two tests after which nothing is reported. *)
Definition web_silent (wc : WebContent) (data : string) (polyglot : bool) : bool :=
  (negb (bhvCombo wc) && negb polyglot && (negb (wc_hasExec wc) || negb (wc_hasInput wc)) &&
   (wc_hasObfusc wc || high_entropy data)) ||
  (negb (nonempty_list (wc_matched wc)) && negb polyglot && negb (high_entropy data) && negb (fst (wc_taint wc))).

Definition first_pattern_line (lines : list string) : option (nat * string) :=
  List.find (λ '(_, line), existsb (λ p, match_re (np_re p) line) webPatterns) (imap (λ i l, (i, l)) lines).

Definition evidenceSnippet (content : string) (matched : list string) : string :=
  match first_pattern_line (split nl content) with
  | Some (i, line) =>
      "line:" +:+ itoa (Z.of_nat (S i)) +:+ " " +:+ truncate (trim_space line) 200 +:+
      " rules:" +:+ sjoin "," matched +:+ " entropy:" +:+ entropy_text content
  | None =>
      if nonempty_list matched then "matched:" +:+ sjoin "," matched +:+ " entropy:" +:+ entropy_text content
      else "entropy:" +:+ entropy_text content
  end.

Definition recent_window (cfg : Config) : Duration := wrap64 (wrap64 (cfg_WebRecentDays cfg * 24) * hour).

(** The event: when the finding is not high, an informational one. *)
Definition web_event (cfg : Config) (pack : Pack) (agentVer : string) (now : Time) (learning high : bool)
  (tech : list string) (entity : Entity) (sigs : list string) (evidence : string) : Event :=
  let conf := fst (Score pack RuleWebShell sigs) in
  if negb high then
    (scan_event pack agentVer now RuleWebShell tech "persistence" (if conf <? 50 then conf else 50) learning entity
       sigs evidence true) <| ev_Severity := SeverityInfo |>
  else scan_event pack agentVer now RuleWebShell tech "persistence" conf learning entity sigs evidence
         (held_back cfg learning conf).

Definition evaluateWebFile (cfg : Config) (snap : Snapshot) (pack : Pack) (agentVer : string) (now looked : Time)
  (childSig : bool) (path data : string) (fi : FileInfo) (polyglot : bool) : option Event :=
  let learning := learning_of cfg snap in
  let hash := sha256_hex data in
  let recent := time_sub looked (fi_ModTime fi) <=? recent_window cfg in
  let newOrChanged := match glookup (bs_WebFiles snap) path with
                      | Some rec => negb (wf_SHA256 rec =s? hash) | None => true end in
  let wc := web_content path data in
  let sigs := web_signals wc data fi polyglot childSig newOrChanged recent in
  if negb (nonempty_list sigs) || web_silent wc data polyglot then None
  else
    let high := bhvCombo wc && (childSig || newOrChanged || polyglot || (negb (IsCommitted snap) && recent)) in
    let tech := "T1505.003" :: (if childSig then ["T1059.004"] else []) in
    let sigs := sigs ++ (if childSig then ["correlated_T1059"] else []) in
    Some (web_event cfg pack agentVer now learning high tech (mkEntity EntityFile hash path "") sigs
            (evidenceSnippet data (wc_matched wc))).

Section host.
Context `{FileReader} `{DirReader} `{LinkReader} `{Globber} `{Stater} `{TreeWalker}.
Variables (order_pids : list Z → list Z) (order_files : list (string * WebFileRecord) → list (string * WebFileRecord)).

(** * The web workers *)

Definition is_web_worker (cfg : Config) (pid : Z) : bool :=
  IsWatchedUnit (ai_SystemdUnit (FromPID pid)) (cfg_WatchedUnits cfg) ||
  match Procfs.Comm pid with
  | (comm, true) => mem_str (to_lower (trim_space comm)) (map to_lower (cfg_TargetProcessNames cfg))
  | _ => false
  end.

Definition findWebWorkerPIDs (cfg : Config) : list Z :=
  match Processes with (pids, true) => List.filter (is_web_worker cfg) pids | _ => [] end.

Definition shellChildPattern : re := must_compile "(?i)/(ba)?sh$|perl|python[0-9.]*$|php$".

(** A child whose program looks like a shell or an interpreter. *)
Definition is_shell_child (c : Z) : bool :=
  (negb (ResolveExe c =s? "") && match_re shellChildPattern (ResolveExe c)) ||
  match fst (Cmdline c) with a :: _ => match_re shellChildPattern a | [] => false end.

(** [levels] levels of children are looked at. *)
Fixpoint walkChildrenForShell (levels : nat) (pid : Z) : bool :=
  match levels with
  | O => false
  | S n =>
      match Children pid with
      | (_, false) => false
      | (kids, true) => existsb (λ c, is_shell_child c || walkChildrenForShell n c) kids
      end
  end.

Definition treeHasShellChild : Z → bool := walkChildrenForShell 5.

Definition any_shell_child (cfg : Config) : bool := existsb treeHasShellChild (findWebWorkerPIDs cfg).

(** * The scan of the document roots *)

(** A file of the walk that is read: script-like by name, or small, and not
    known to the baseline by its time and size. *)
Definition worth_reading (cfg : Config) (snap : Snapshot) (path : string) (fi : FileInfo) : bool :=
  negb (negb (hasSuspiciousExtension path) && (1048576 <? fi_Size fi)) &&
  negb (match glookup (bs_WebFiles snap) path with Some rec => baselineMetaMatches fi rec | None => false end).

(** The files of a walk with their metadata, less the allowed paths. *)
Definition walked_files (cfg : Config) (root : string) : list (string * FileInfo) :=
  omap (λ e, if we_Err e || we_IsDir e || web_pathAllowlisted (we_Path e) (cfg_PathAllowlist cfg) then None
             else (λ fi, (we_Path e, fi)) <$> we_Info e) (WalkDir (path_clean root)).

Definition scan_web_file (cfg : Config) (snap : Snapshot) (pack : Pack) (agentVer : string) (now : Time)
  (looked : string → Time) (childSig : bool) (path : string) (fi : FileInfo) : option Event :=
  if negb (worth_reading cfg snap path fi) then None
  else match ReadFile path with
       | Err _ => None
       | Ok data =>
           let polyglot := magicByteMismatch path data in
           if negb (hasSuspiciousExtension path) && negb polyglot then None
           else evaluateWebFile cfg snap pack agentVer now (looked path) childSig path data fi polyglot
       end.

Definition Scan_web (cfg : Config) (snap : Snapshot) (pack : Pack) (agentVer : string) (now : Time) (looked : string → Time)
  : result (list Event) :=
  Ok (omap (λ '(path, fi), scan_web_file cfg snap pack agentVer now looked (any_shell_child cfg) path fi)
        (concat (map (walked_files cfg) (cfg_DocumentRoots cfg)))).

(** * The baseline *)

Definition web_record (path : string) (fi : FileInfo) : option WebFileRecord :=
  match ReadFile path with
  | Ok data => Some (mkWebFileRecord (sha256_hex data) (fi_ModTime fi) (fi_Size fi))
  | Err _ => None
  end.

Definition record_web_file (snap : Snapshot) (pf : string * FileInfo) : Snapshot :=
  let '(path, fi) := pf in
  if negb (hasSuspiciousExtension path) then snap
  else match web_record path fi with
       | Some rec => snap <| bs_WebFiles := ginsert path rec (bs_WebFiles snap) |>
       | None => snap
       end.

Definition BuildBaselineWebFiles (cfg : Config) (snap : Snapshot) : Snapshot :=
  fold_left record_web_file (concat (map (walked_files cfg) (cfg_DocumentRoots cfg)))
    (snap <| bs_WebFiles := make (bs_WebFiles snap) |>).

(** * Upload directories *)

Definition RuleAppFileTamper : string := "WEB_APP_FILE_TAMPER".

(** Whether the baseline vouches for the file: by its metadata or its hash. *)
Definition vouched (snap : Snapshot) (path : string) (fi : FileInfo) : bool :=
  match glookup (bs_WebFiles snap) path with
  | None => false
  | Some rec =>
      baselineMetaMatches fi rec ||
      (let sum := fileSHA path in negb (sum =s? "") && (wf_SHA256 rec =s? sum))
  end.

Definition upload_event (cfg : Config) (snap : Snapshot) (pack : Pack) (agentVer : string) (now : Time) (path : string) : Event :=
  let learning := learning_of cfg snap in
  let sigs := ["web_upload_dir_exec"; "path:" +:+ path] in
  let conf := score_floor pack RuleUploadDirExec sigs 80 in
  NormalizeDedup (with_labels SrcFIM TypeDelta "" ConfHigh
    (scan_event pack agentVer now RuleUploadDirExec [] "" conf learning (mkEntity EntityFile path path "") sigs path
       (held_back cfg learning conf))).

(** The files of a plain walk of the root. *)
Definition plain_files (root : string) : list (string * FileInfo) :=
  omap (λ e, if we_Err e || we_IsDir e then None else (λ fi, (we_Path e, fi)) <$> we_Info e) (WalkDir root).

Definition upload_suspect (path : string) : bool := mem_str (to_lower (path_ext path)) interpretableExt && inUploadDir path.

Definition ScanUploadDirs (cfg : Config) (snap : Snapshot) (pack : Pack) (agentVer : string) (now : Time)
  : result (list Event) :=
  Ok (omap (λ '(path, fi), if upload_suspect path && negb (vouched snap path fi)
                           then Some (upload_event cfg snap pack agentVer now path) else None)
        (concat (map plain_files (cfg_DocumentRoots cfg)))).

(** * Changed files *)

Definition tamper_web_event (cfg : Config) (pack : Pack) (agentVer : string) (now : Time) (path sum : string) : Event :=
  let learning := cfg_LearningMode cfg in
  let sigs := ["web_app_file_tamper"; "path:" +:+ path] in
  let conf := score_floor pack RuleAppFileTamper sigs 60 in
  NormalizeDedup (with_labels SrcInventory TypeDelta "" ConfMedium
    (scan_event pack agentVer now RuleAppFileTamper [] "" conf learning (mkEntity EntityFile sum path "") sigs
       "hash changed vs baseline" (held_back cfg learning conf))).

Definition tampered (path : string) (rec : WebFileRecord) : option string :=
  match Stat path with
  | FOk fi =>
      if baselineMetaMatches fi rec then None
      else let sum := fileSHA path in if (sum =s? "") || (sum =s? wf_SHA256 rec) then None else Some sum
  | _ => None
  end.

Definition ScanAppTamper (cfg : Config) (snap : Snapshot) (pack : Pack) (agentVer : string) (now : Time)
  : result (list Event) :=
  if negb (IsCommitted snap) then Ok []
  else Ok (omap (λ '(path, rec), tamper_web_event cfg pack agentVer now path <$> tampered path rec)
             (order_files (map_to_list (default ∅ (bs_WebFiles snap))))).

(** * Children of the web workers *)

Definition RuleWebReconChild : string := "WEB_WORKER_RECON_CHILD".
Definition RuleWebShellChild : string := "WEB_WORKER_SHELL_CHILD".
Definition RuleWebInterpChild : string := "WEB_WORKER_INTERP_CHILD".
Definition RuleWebDownloaderChild : string := "WEB_WORKER_DOWNLOADER_CHILD".
Definition RuleProcPtySpawn : string := "PROC_PTY_SPAWN".

Definition reconArgvPatterns : list re :=
  map must_compile
    ["(?i)\bwhoami\b"; "(?i)\bifconfig\b"; "(?i)\buname(\s+|$)"; "(?i)\bid(\s+|$)"; "(?i)\bhostname(\s+|$)";
     "(?i)\bnetstat\b"; "(?i)\biptables\b"; "(?i)\bip\s+addr\b"; "(?i)\bss(\s+|$)"; "(?i)\bps(\s+|$)";
     "(?i)\bfind(\s+|$)"; "(?i)\bcat\s+/etc/passwd"].

Definition shellBasenames : list string := ["sh"; "bash"; "dash"; "zsh"; "ksh"].
Definition downloaderBasenames : list string :=
  ["curl"; "wget"; "nc"; "ncat"; "netcat"; "socat"; "ftp"; "tftp"; "busybox"].
Definition interpFlag : re := must_compile "(?i)\b(python[0-9.]*|perl|php|ruby|node|nodejs)\b.*\s(-c|-e|-r)\b".
Definition ptySpawn : re := must_compile "(?i)(pty\.spawn|openpty|script\s+-qc|python.*pty)".

(** The lower-cased base name; [filepath.Base] is never empty, so that the
    first word of the line is not used. *)
Definition child_base (exe line : string) : string :=
  let base := to_lower (path_base exe) in
  if base =s? "" then match fields line with f :: _ => to_lower (path_base f) | [] => base end else base.

Definition classifyWebChild (exe line : string) : option (string * string) :=
  let base := child_base exe line in
  if match_re ptySpawn line then Some (RuleProcPtySpawn, "web_worker_pty_spawn")
  else if mem_str base shellBasenames then Some (RuleWebShellChild, "web_worker_shell_child")
  else if match_re interpFlag line then Some (RuleWebInterpChild, "web_worker_interp_child")
  else if mem_str base downloaderBasenames && negb ((base =s? "busybox") && negb (contains (to_lower line) "wget"))
  then Some (RuleWebDownloaderChild, "web_worker_downloader_child")
  else if existsb (λ r, match_re r line) reconArgvPatterns then Some (RuleWebReconChild, "web_worker_recon_child")
  else None.

(** The descendants on [levels] levels, each before its own children. *)
Fixpoint walkWorkerChildren (levels : nat) (pid : Z) : list Z :=
  match levels with
  | O => []
  | S n =>
      match Children pid with
      | (_, false) => []
      | (kids, true) => concat (map (λ c, c :: walkWorkerChildren n c) kids)
      end
  end.

Definition child_event (cfg : Config) (snap : Snapshot) (pack : Pack) (agentVer : string) (now : Time) (wpid child : Z)
  (ruleID sig exe line : string) : Event :=
  let ainfo := FromPID wpid in
  let learning := learning_of cfg snap in
  let sigs := [sig; "parent_worker_pid:" +:+ itoa wpid] ++
    (if negb (ai_SystemdUnit ainfo =s? "") then ["parent_unit:" +:+ ai_SystemdUnit ainfo] else []) ++
    (if negb (exe =s? "") then ["child_exe:" +:+ exe] else []) in
  let conf := score_floor pack ruleID sigs 70 in
  NormalizeDedup (with_labels SrcProcScan TypeEvent (ai_Anchor ainfo) ConfHigh
    (scan_event pack agentVer now ruleID ["T1059.004"; "T1505.003"] "execution" conf learning
       (mkEntity EntityProcess (itoa child) exe "") sigs (truncate line 400) (held_back cfg learning conf))).

(** One visit; a rule reports a child once per scan. *)
Definition visit_child (cfg : Config) (snap : Snapshot) (pack : Pack) (agentVer : string) (now : Time)
  (acc : list string * list Event) (visit : Z * Z) : list string * list Event :=
  let '(seen, events) := acc in
  let '(wpid, child) := visit in
  let line := sjoin " " (fst (Cmdline child)) in
  let exe := ResolveExe child in
  match classifyWebChild exe line with
  | None => acc
  | Some (ruleID, sig) =>
      let key := ruleID +:+ ":" +:+ itoa child in
      if mem_str key seen then acc
      else (key :: seen, events ++ [child_event cfg snap pack agentVer now wpid child ruleID sig exe line])
  end.

Definition child_visits (cfg : Config) : list (Z * Z) :=
  concat (map (λ w, map (λ c, (w, c)) (walkWorkerChildren 6 w)) (order_pids (findWebWorkerPIDs cfg))).

Definition ScanReconChildren (cfg : Config) (snap : Snapshot) (pack : Pack) (agentVer : string) (now : Time)
  : result (list Event) :=
  if negb (cfg_WebReconChildScanEnabled cfg) then Ok []
  else Ok (snd (fold_left (visit_child cfg snap pack agentVer now) (child_visits cfg) ([], []))).

End host.
