(* ===== verification/Watch.v ===== *)
(** [internal/watch]: file-change notifications that start a scan before its
    turn ([sensitive.go], [sshkeys.go]).

    A watcher is a state machine over the notifications of fsnotify, each with
    the time it is read.  Its timer is the deadline of [time.AfterFunc]: it
    goes off when a later notification finds the deadline reached, or after the
    last one.  (A notification read at the very instant of the deadline counts
    as later.)  The theorems are in the second half. *)
From S2P Require Export WebAnalysis Persistence.

(** * Specifications of what is watched *)

Record SensitivePathSpec := mkSpec {
  sps_Path : string;
  sps_Recursive : bool;
  sps_FilenameFilter : option (string → bool)
}.

Definition script_suffixes : list string :=
  [".php"; ".phtml"; ".phar"; ".inc"; ".jsp"; ".jspx"; ".asp"; ".aspx"; ".ashx"; ".cfm"; ".pl"; ".cgi"; ".py"].

(** The comparison of the last [len(ext)] bytes. *)
Definition docroot_filter (name : string) : bool := existsb (has_suffix name) script_suffixes.

Definition plain (p : string) : SensitivePathSpec := mkSpec p false None.
Definition tree (p : string) : SensitivePathSpec := mkSpec p true None.

Definition static_specs : list SensitivePathSpec :=
  [plain "/etc/ld.so.preload"; plain "/etc/ld.so.conf"; tree "/etc/ld.so.conf.d";
   plain "/etc/crontab"; plain "/etc/anacrontab"; tree "/etc/cron.d"; tree "/etc/cron.hourly";
   tree "/etc/cron.daily"; tree "/etc/cron.weekly"; tree "/etc/cron.monthly"; tree "/var/spool/cron";
   tree "/var/spool/at"; tree "/var/spool/atjobs";
   tree "/etc/systemd/system"; tree "/lib/systemd/system"; tree "/usr/lib/systemd/system";
   tree "/run/systemd/system";
   plain "/etc/sudoers"; tree "/etc/sudoers.d"; tree "/etc/pam.d"; plain "/etc/ssh/sshd_config";
   tree "/etc/ssh/sshd_config.d";
   plain "/etc/passwd"; plain "/etc/shadow"; plain "/etc/group"; plain "/etc/nsswitch.conf";
   plain "/etc/modules"; tree "/etc/modules-load.d"; tree "/etc/modprobe.d";
   tree "/etc/apt/apt.conf.d"; tree "/etc/update-motd.d"; plain "/etc/profile"; tree "/etc/profile.d";
   plain "/etc/bash.bashrc"; plain "/etc/environment"; tree "/etc/default"; tree "/etc/networkd-dispatcher";
   tree "/etc/NetworkManager/dispatcher.d"; tree "/etc/network/if-up.d"; tree "/etc/udev/rules.d";
   tree "/etc/polkit-1/rules.d"; tree "/etc/needrestart/conf.d"; plain "/etc/rc.local";
   tree "/etc/initramfs-tools"; plain "/etc/default/grub"; tree "/etc/xdg/autostart";
   tree "/etc/apparmor.d/disable"; tree "/usr/share/pam-configs"; plain "/etc/ssh"; plain "/etc/rsyslog.conf";
   tree "/etc/rsyslog.d"].

Definition DefaultSensitivePaths (documentRoots : list string) : list SensitivePathSpec :=
  static_specs ++ map (λ root, mkSpec root true (Some docroot_filter)) documentRoots.

Definition pathUnder (root path : string) : bool :=
  if (root =s? "") || (path =s? "") then false
  else
    let cleanRoot := path_clean root in
    let cleanPath := path_clean path in
    (cleanPath =s? cleanRoot) || has_prefix cleanPath (cleanRoot +:+ "/").

(** * The state machine *)

Definition OpCreate : Z := 1.
Definition OpWrite : Z := 2.
Definition OpRemove : Z := 4.
Definition OpRename : Z := 8.
Definition OpChmod : Z := 16.

Record FsEvent := mkFsEvent { fe_Op : Z; fe_Name : string }.

(** What the loop selects, with the time. *)
Inductive input :=
| IEvent (ev : FsEvent)
| IError
| IClosed    (* the channel of notifications is closed *)
| IStop.

(** The directories added to fsnotify, and the deadline of the timer. *)
Record Watcher := mkWatcher { wt_dirs : list string; wt_timer : option Time }.

#[export] Instance eta_Watcher : Eta Watcher := λ w, mkWatcher (wt_dirs w) (wt_timer w).

Definition schedule (debounce : Duration) (now : Time) (w : Watcher) : Watcher :=
  w <| wt_timer := Some (time_add now debounce) |>.

Section Machine.
(** How a notification changes the watcher; the scan it may start is the
    timer's. *)
Variable handle : Time → FsEvent → Watcher → Watcher.

(** The timer goes off before a notification read at [now]. *)
Definition due (now : Time) (w : Watcher) : list Time * Watcher :=
  match wt_timer w with
  | Some d => if d <=? now then ([d], w <| wt_timer := None |>) else ([], w)
  | None => ([], w)
  end.

(** The scans of a run, in order.  A timer that is pending when the loop ends
    is not stopped. *)
Fixpoint run_watch (ins : list (Time * input)) (w : Watcher) : list Time :=
  match ins with
  | [] => option_list (wt_timer w)
  | (now, i) :: ins =>
      let '(fired, w) := due now w in
      fired ++ match i with
               | IEvent ev => run_watch ins (handle now ev w)
               | IError => run_watch ins w
               | IClosed | IStop => option_list (wt_timer w)
               end
  end.

End Machine.

Section Host.
Context `{Stater} `{TreeWalker} `{FileReader} `{Commander} `{CurrentUser}.

(** [w.Add] of a path that is a directory. *)
Definition register (dir : string) : list string :=
  match Stat dir with FOk fi => if fi_IsDir fi then [dir] else [] | _ => [] end.

Definition spec_watches (s : SensitivePathSpec) : list string :=
  match Stat (sps_Path s) with
  | FOk fi =>
      if negb (fi_IsDir fi) then register (path_dir (sps_Path s))
      else if sps_Recursive s
           then concat (map (λ e, if negb (we_Err e) && we_IsDir e then register (we_Path e) else [])
                            (WalkDir (sps_Path s)))
           else register (sps_Path s)
  | _ => register (path_dir (sps_Path s))
  end.

Definition initial_watches (specs : list SensitivePathSpec) : list string := concat (map spec_watches specs).

Definition interesting : Z := Z.lor OpWrite (Z.lor OpCreate (Z.lor OpRemove (Z.lor OpRename OpChmod))).

(** The first filter whose root holds the path decides. *)
Fixpoint keep (specs : list SensitivePathSpec) (path : string) : bool :=
  match specs with
  | [] => true
  | s :: specs =>
      match sps_FilenameFilter s with
      | Some f => if pathUnder (sps_Path s) path then f (path_base path) else keep specs path
      | None => keep specs path
      end
  end.

Definition sensitive_triggers (specs : list SensitivePathSpec) (ev : FsEvent) : bool :=
  negb (Z.land (fe_Op ev) interesting =? 0) && keep specs (fe_Name ev).

Definition sensitive_handle (specs : list SensitivePathSpec) (debounce : Duration) (now : Time) (ev : FsEvent)
  (w : Watcher) : Watcher :=
  if Z.land (fe_Op ev) interesting =? 0 then w
  else
    let w := if negb (Z.land (fe_Op ev) OpCreate =? 0)
             then w <| wt_dirs := wt_dirs w ++ register (fe_Name ev) |> else w in
    if negb (keep specs (fe_Name ev)) then w else schedule debounce now w.

(** [RunSensitive]: the directories watched from the start, and the times at
    which [onScan] is called. *)
Definition RunSensitive (new_watcher_fails : bool) (specs : list SensitivePathSpec) (debounce : Duration)
  (ins : list (Time * input)) : list Time :=
  if new_watcher_fails then []
  else run_watch (sensitive_handle specs debounce) ins (mkWatcher (initial_watches specs) None).

(** ** [sshkeys.go] *)

Definition keys_ops : Z := Z.lor OpWrite (Z.lor OpCreate (Z.lor OpRemove OpRename)).

Definition keys_triggers (ev : FsEvent) : bool :=
  negb (Z.land (fe_Op ev) keys_ops =? 0) &&
  ((path_base (fe_Name ev) =s? "authorized_keys") || (path_base (fe_Name ev) =s? ".ssh")).

Definition keys_handle (debounce : Duration) (now : Time) (ev : FsEvent) (w : Watcher) : Watcher :=
  if Z.land (fe_Op ev) keys_ops =? 0 then w
  else if negb (path_base (fe_Name ev) =s? "authorized_keys") && negb (path_base (fe_Name ev) =s? ".ssh") then w
  else schedule debounce now w.

(** The directories of the key files and their parents; the order of the map
    is that of [order_set]. *)
Definition keys_dirs : gset string := list_to_set (map path_dir AuthorizedKeysPaths).

Definition keys_watches (order_set : gset string → list string) : list string :=
  concat (map register (order_set keys_dirs)) ++
  concat (map (λ d, register (path_dir d)) (order_set keys_dirs)).

Definition RunAuthorizedKeys (order_set : gset string → list string) (new_watcher_fails : bool) (debounce : Duration)
  (ins : list (Time * input)) : list Time :=
  if new_watcher_fails then []
  else run_watch (keys_handle debounce) ins (mkWatcher (keys_watches order_set) None).

End Host.
