(* ===== verification/WatchFacts.v ===== *)
(** Theorems about the file watchers ([Watch.v]): when they scan, what they
    let through, and what they miss. *)
From S2P Require Export Watch.

(** * Trailing-edge debouncing *)

(** The times of the notifications that count, up to the end of the loop. *)
Fixpoint accepted (triggers : FsEvent → bool) (ins : list (Time * input)) : list Time :=
  match ins with
  | [] => []
  | (now, IEvent ev) :: ins => if triggers ev then now :: accepted triggers ins else accepted triggers ins
  | (_, IError) :: ins => accepted triggers ins
  | (_, IClosed) :: _ | (_, IStop) :: _ => []
  end.

(** The clock does not go backwards. *)
Fixpoint clock_ok (now : Time) (ins : list (Time * input)) : Prop :=
  match ins with
  | [] => True
  | (t, _) :: ins => now ≤ t ∧ clock_ok t ins
  end.

(** A quiet period of length [d] ends at [s]: it starts at an accepted time
    and no other lies inside it. *)
Definition quiet_end (d : Duration) (acc : list Time) (s : Time) : Prop :=
  s - d ∈ acc ∧ ∀ t, t ∈ acc → ¬ (s - d < t < s).

Lemma accepted_after triggers ins now t : clock_ok now ins → t ∈ accepted triggers ins → now ≤ t.
Proof.
  revert now. induction ins as [|[u i] ins IH]; intros now; [by intros _ ?%elem_of_nil|].
  intros [Hu Hc]. specialize (IH u Hc).
  destruct i as [ev| | |]; cbn; try by intros ?%elem_of_nil.
  - destruct (triggers ev); [intros [->|Hin]%elem_of_cons; [done|]|intros Hin]; specialize (IH Hin); lia.
  - intros Hin. specialize (IH Hin). lia.
Qed.

Section Debounce.
Variable d : Duration.
Hypothesis Hd : 0 < d.

Lemma quiet_end_due t0 acc s :
  (∀ t, t ∈ acc → t0 + d ≤ t) → quiet_end d (t0 :: acc) s ↔ s = t0 + d ∨ quiet_end d acc s.
Proof using Hd.
  intros Hlate. unfold quiet_end. setoid_rewrite elem_of_cons. split.
  - intros [[Hs|Hs] Hq]; [left; lia|right]. split; [done|]. intros t Ht. apply Hq. by right.
  - intros [->|[Hs Hq]].
    + split; [left; lia|]. intros t [->|Ht]; [lia|]. specialize (Hlate t Ht). lia.
    + split; [by right|]. intros t [->|Ht]; [|by apply Hq]. specialize (Hlate _ Hs). lia.
Qed.

Lemma quiet_end_restart t0 now acc s :
  t0 ≤ now < t0 + d → (∀ t, t ∈ acc → now ≤ t) →
  quiet_end d (t0 :: now :: acc) s ↔ quiet_end d (now :: acc) s.
Proof using Hd.
  intros Hn Hlate. unfold quiet_end. setoid_rewrite elem_of_cons. setoid_rewrite elem_of_cons. split.
  - intros [Hs Hq]. split; [|intros t Ht; apply Hq; by right].
    destruct Hs as [Hs|Hs]; [|done]. left. destruct (decide (t0 = now)); [lia|].
    exfalso. apply (Hq now); [by right; left|lia].
  - intros [Hs Hq]. split; [by right|]. intros t [->|Ht]; [|by apply Hq].
    destruct Hs as [Hs|Hs]; [lia|]. specialize (Hlate _ Hs). lia.
Qed.

Variable handle : Time → FsEvent → Watcher → Watcher.
Variable triggers : FsEvent → bool.
Hypothesis handle_timer : ∀ now ev w,
  wt_timer (handle now ev w) = if triggers ev then Some (now + d) else wt_timer w.

(** The timer remembers the last accepted time. *)
Definition pending (w : Watcher) (t0 : option Time) : Prop := wt_timer w = (λ t, t + d) <$> t0.

Lemma run_end w t0 s : pending w t0 → s ∈ option_list (wt_timer w) ↔ quiet_end d (option_list t0) s.
Proof using Hd.
  intros ->. destruct t0 as [t|]; cbn; unfold quiet_end.
  - rewrite !list_elem_of_singleton. setoid_rewrite list_elem_of_singleton.
    split; [intros ->; split; [lia|intros ? ->; lia]|lia].
  - setoid_rewrite elem_of_nil. naive_solver.
Qed.

(** One notification, when the timer has not gone off before it. *)
Lemma run_step u i ins w t0 s :
  (∀ w t0, pending w t0 → (∀ t, t0 = Some t → t ≤ u) →
    s ∈ run_watch handle ins w ↔ quiet_end d (option_list t0 ++ accepted triggers ins) s) →
  pending w t0 → (∀ t, t0 = Some t → t ≤ u < t + d) → clock_ok u ins →
  s ∈ match i with
      | IEvent ev => run_watch handle ins (handle u ev w)
      | IError => run_watch handle ins w
      | _ => option_list (wt_timer w)
      end ↔ quiet_end d (option_list t0 ++ accepted triggers ((u, i) :: ins)) s.
Proof using Hd handle_timer.
  intros IH Hp Hle Hc. assert (∀ t, t0 = Some t → t ≤ u) as Hle' by (intros t Ht; by apply Hle).
  destruct i as [ev| | |]; cbn [accepted]; [|by apply IH|rewrite app_nil_r; by apply run_end..].
  destruct (triggers ev) eqn:Ht.
  - rewrite (IH _ (Some u)); [|unfold pending; by rewrite handle_timer, Ht|by intros ? [= ->]].
    destruct t0 as [t|]; [|done]. cbn. symmetry. apply quiet_end_restart; [by apply Hle|].
    intros x Hx. by eapply (accepted_after triggers ins).
  - apply IH; [unfold pending; by rewrite handle_timer, Ht|done].
Qed.

Lemma run_watch_quiet s ins : ∀ now w t0,
  pending w t0 → (∀ t, t0 = Some t → t ≤ now) → clock_ok now ins →
  s ∈ run_watch handle ins w ↔ quiet_end d (option_list t0 ++ accepted triggers ins) s.
Proof using Hd handle_timer.
  induction ins as [|[u i] ins IH]; intros now w t0 Hp Hle Hc; [cbn; rewrite app_nil_r; by apply run_end|].
  pose proof Hc as Hc0. destruct Hc as [Hu Hc]. cbn [run_watch]. unfold due. rewrite Hp.
  assert (∀ w t0, pending w t0 → (∀ t, t0 = Some t → t ≤ u) →
    s ∈ run_watch handle ins w ↔ quiet_end d (option_list t0 ++ accepted triggers ins) s) as IH'
    by (intros; by apply (IH u)).
  destruct t0 as [t|]; cbn [fmap option_fmap option_map].
  - specialize (Hle t eq_refl). destruct (Z.leb_spec (t + d) u).
    + rewrite elem_of_app, list_elem_of_singleton, (run_step _ _ _ _ None) by done. cbn [option_list app].
      symmetry. apply quiet_end_due. intros x Hx.
      pose proof (accepted_after triggers ((u, i) :: ins) u x (conj (Z.le_refl u) Hc) Hx). lia.
    + apply run_step; [done|done| |done]. intros ? [= ->]. lia.
  - apply run_step; done.
Qed.

Lemma quiet_end_spaced acc s s' : quiet_end d acc s → quiet_end d acc s' → s < s' → s + d ≤ s'.
Proof using Hd. intros [_ Hq] [Hs' _] Hlt. specialize (Hq _ Hs'). lia. Qed.

Lemma max_elem (l : list Z) : l ≠ [] → ∃ m, m ∈ l ∧ ∀ x, x ∈ l → x ≤ m.
Proof.
  induction l as [|a l IH]; [done|]. intros _. destruct l as [|b l].
  - exists a. split; [by left|]. intros x ->%list_elem_of_singleton. lia.
  - destruct IH as (m & Hm & Hmax); [done|]. exists (Z.max a m). split.
    + destruct (Z.max_spec a m) as [[_ ->]|[_ ->]]; [by right|by left].
    + intros x [->|Hx]%elem_of_cons; [lia|]. specialize (Hmax x Hx). lia.
Qed.

Lemma quiet_end_eventually acc t : t ∈ acc → ∃ s, quiet_end d acc s ∧ t + d ≤ s.
Proof using Hd.
  intros Ht. destruct (max_elem acc) as (m & Hm & Hmax); [by destruct acc; [apply elem_of_nil in Ht|]|].
  exists (m + d). split; [|specialize (Hmax t Ht); lia].
  split; [by replace (m + d - d) with m by lia|]. intros x Hx. specialize (Hmax x Hx). lia.
Qed.

(** Notifications that keep coming put the scan off until they stop. *)
Lemma quiet_end_starved acc m s :
  m ∈ acc → (∀ x, x ∈ acc → x ≤ m) → (∀ t, t ∈ acc → t = m ∨ ∃ t', t' ∈ acc ∧ t < t' < t + d) →
  quiet_end d acc s → s = m + d.
Proof using Hd.
  intros Hm Hmax Hbusy [Hs Hq]. destruct (Hbusy _ Hs) as [?|(t' & Ht' & ?)]; [lia|].
  exfalso. apply (Hq t' Ht'). lia.
Qed.

End Debounce.

(** * The watchers *)

Section Watchers.
Context `{Stater} `{TreeWalker} `{FileReader} `{Commander} `{CurrentUser}.

Lemma sensitive_timer specs d now ev w :
  wt_timer (sensitive_handle specs d now ev w) = if sensitive_triggers specs ev then Some (now + d) else wt_timer w.
Proof.
  unfold sensitive_handle, sensitive_triggers. destruct (Z.land (fe_Op ev) interesting =? 0); [done|]. cbn [negb andb].
  destruct (negb (Z.land (fe_Op ev) OpCreate =? 0)), (keep specs (fe_Name ev)); done.
Qed.

Lemma keys_timer d now ev w :
  wt_timer (keys_handle d now ev w) = if keys_triggers ev then Some (now + d) else wt_timer w.
Proof.
  unfold keys_handle, keys_triggers. destruct (Z.land (fe_Op ev) keys_ops =? 0); [done|]. cbn [negb andb].
  by destruct (path_base (fe_Name ev) =s? "authorized_keys"), (path_base (fe_Name ev) =s? ".ssh").
Qed.

(** C22: The watcher of sensitive paths calls the scan exactly at the end of
    each quiet period: one debounce interval after a change that counts, when
    no other change that counts was read in between.  So two scans are at least
    the interval apart and every change is followed by a scan; and changes that
    keep coming faster than the interval put the scan off until the last of
    them, however long that takes. *)
Theorem sensitive_scan_iff specs d ins start :
  0 < d → clock_ok start ins →
  let acc := accepted (sensitive_triggers specs) ins in
  let scans := RunSensitive false specs d ins in
  (∀ s, s ∈ scans ↔ quiet_end d acc s) ∧
  (∀ s s', s ∈ scans → s' ∈ scans → s < s' → s + d ≤ s') ∧
  (∀ t, t ∈ acc → ∃ s, s ∈ scans ∧ t + d ≤ s) ∧
  (∀ m, m ∈ acc → (∀ x, x ∈ acc → x ≤ m) → (∀ t, t ∈ acc → t = m ∨ ∃ t', t' ∈ acc ∧ t < t' < t + d) →
     ∀ s, s ∈ scans → s = m + d).
Proof.
  intros Hd Hc acc scans.
  assert (∀ s, s ∈ scans ↔ quiet_end d acc s) as Hiff.
  { intros s. apply (run_watch_quiet d Hd _ _ (sensitive_timer specs d) s ins start _ None); done. }
  split; [done|]. split; [|split].
  - intros s s' Hs Hs'. apply (quiet_end_spaced d Hd acc); by apply Hiff.
  - intros t Ht. destruct (quiet_end_eventually d Hd acc t Ht) as (s & Hs & ?). exists s. by rewrite Hiff.
  - intros m Hm Hmax Hbusy s Hs%Hiff. by apply (quiet_end_starved d Hd acc).
Qed.

(** The watcher of key files debounces in the same way. *)
Lemma keys_scan_iff order_set d ins start s :
  0 < d → clock_ok start ins →
  s ∈ RunAuthorizedKeys order_set false d ins ↔ quiet_end d (accepted keys_triggers ins) s.
Proof.
  intros Hd Hc. apply (run_watch_quiet d Hd _ _ (keys_timer d) s ins start _ None); done.
Qed.

(** It never watches another directory than those of its start: when [.ssh]
    is created later, the creation starts a scan, but what is written below it
    is not seen. *)
Lemma keys_watch_never_grows d now ev w : wt_dirs (keys_handle d now ev w) = wt_dirs w.
Proof. unfold keys_handle. repeat case_match; done. Qed.

(** [RunSensitive] adds every directory that is created where it watches, also
    where no specification is recursive. *)
Lemma created_directory_added specs d now ev w fi :
  Z.land (fe_Op ev) OpCreate ≠ 0 → Stat (fe_Name ev) = FOk fi → fi_IsDir fi = true →
  fe_Name ev ∈ wt_dirs (sensitive_handle specs d now ev w).
Proof.
  intros Hop Hst Hdir. unfold sensitive_handle.
  destruct (Z.eqb_spec (Z.land (fe_Op ev) interesting) 0) as [Hz|_].
  { exfalso. apply Hop. assert (OpCreate = Z.land interesting OpCreate) as -> by done.
    by rewrite Z.land_assoc, Hz. }
  destruct (Z.eqb_spec (Z.land (fe_Op ev) OpCreate) 0); [done|]. cbn [negb]. unfold register. rewrite Hst, Hdir.
  destruct (negb (keep specs (fe_Name ev))); cbn; apply elem_of_app; right; by left.
Qed.

End Watchers.

(** * What counts *)

Lemma keep_skip l l' path :
  Forall (λ s, sps_FilenameFilter s = None) l → keep (l ++ l') path = keep l' path.
Proof. induction 1 as [|s l Hs _ IH]; [done|]. cbn. by rewrite Hs, IH. Qed.

(** A change outside the document roots always counts: the watch of [/etc] for
    [/etc/passwd] lets through a write to any file of [/etc]. *)
Lemma outside_roots_kept roots path :
  Forall (λ r, pathUnder r path = false) roots → keep (DefaultSensitivePaths roots) path = true.
Proof.
  intros Hr. unfold DefaultSensitivePaths. rewrite keep_skip by (repeat constructor). induction Hr as [|r roots Hr _ IH]; [done|]. cbn. by rewrite Hr.
Qed.

(** Inside, exactly the names with a listed ending. *)
Lemma inside_root_kept roots path :
  Exists (λ r, pathUnder r path = true) roots →
  keep (DefaultSensitivePaths roots) path = docroot_filter (path_base path).
Proof.
  intros Hr. unfold DefaultSensitivePaths. rewrite keep_skip by (repeat constructor).
  induction Hr as [r roots Hr|r roots Hr IH]; cbn; [by rewrite Hr|]. destruct (pathUnder r path); done.
Qed.

(** Names the web scan would look into that do not start it. *)
Example unwatched_scripts :
  List.filter (λ p, hasSuspiciousExtension p && negb (docroot_filter p))
    ["a.php"; "a.PHP"; "a.php5"; "a.jhtml"; "a.asmx"; "a.cfml"; "a.Jsp"; "a.py"] =
  ["a.PHP"; "a.php5"; "a.jhtml"; "a.asmx"; "a.cfml"; "a.Jsp"].
Proof. vm_compute. reflexivity. Qed.

Lemma pathUnder_iff root path :
  root ≠ "" → path ≠ "" →
  pathUnder root path = true ↔
    path_clean path = path_clean root ∨ ∃ rest, path_clean path = path_clean root +:+ "/" +:+ rest.
Proof.
  intros Hr Hp. unfold pathUnder. rewrite (proj2 (String.eqb_neq _ _) Hr), (proj2 (String.eqb_neq _ _) Hp).
  cbn [orb]. rewrite orb_true_iff, String.eqb_eq, has_prefix_iff. setoid_rewrite append_assoc. done.
Qed.

(** The root directory is not above anything else. *)
Example pathUnder_slash : pathUnder "/" "/etc/passwd" = false. Proof. reflexivity. Qed.

Example pathUnder_tests :
  map (λ '(r, p), pathUnder r p)
    [("/var/www", "/var/www"); ("/var/www", "/var/www/html/a.php"); ("/var/www", "/var/www2/html");
     ("/var/www", "/tmp/x"); ("", "/var/www")] = [true; true; false; false; false].
Proof. vm_compute. reflexivity. Qed.

(** * A run *)
Module WatchSamples.

Definition no_stat : Stater := λ _, FNotExist.
Definition no_walk : TreeWalker := λ _, [].
Definition touch (t : Z) (name : string) : Time * input := (t * millisecond, IEvent (mkFsEvent OpWrite name)).
Definition busy : list (Time * input) :=
  [touch 0 "/etc/passwd"; touch 700 "/etc/mtab"; touch 900 "/var/www/readme.txt"; touch 1400 "/etc/mtab";
   touch 3000 "/var/www/x.php"; (4000 * millisecond, IStop)].
Definition busy_specs : list SensitivePathSpec := DefaultSensitivePaths ["/var/www"].

Example busy_scans :
  map (λ s, s / millisecond) (RunSensitive (H:=no_stat) (H0:=no_walk) false busy_specs (800 * millisecond) busy) = [2200; 3800].
Proof. vm_compute. reflexivity. Qed.

Lemma sensitive_scan_iff_witness :
  let d := 800 * millisecond in
  let acc := accepted (sensitive_triggers busy_specs) busy in
  let scans := RunSensitive (H:=no_stat) (H0:=no_walk) false busy_specs d busy in
  (∀ s, s ∈ scans ↔ quiet_end d acc s) ∧
  (∀ s s', s ∈ scans → s' ∈ scans → s < s' → s + d ≤ s') ∧
  (∀ t, t ∈ acc → ∃ s, s ∈ scans ∧ t + d ≤ s) ∧
  (∀ m, m ∈ acc → (∀ x, x ∈ acc → x ≤ m) → (∀ t, t ∈ acc → t = m ∨ ∃ t', t' ∈ acc ∧ t < t' < t + d) →
     ∀ s, s ∈ scans → s = m + d).
Proof.
  apply (sensitive_scan_iff (H:=no_stat) (H0:=no_walk) busy_specs (800 * millisecond) busy 0).
  - reflexivity.
  - cbn. unfold millisecond. lia.
Defined.

End WatchSamples.
