(* ===== verification/Reports.v ===== *)
(** What the agent's other commands report: [internal/attack] (the coverage of
    the ATT&CK techniques by a rule pack), [internal/eval] (the counts of a
    labelled corpus) and [internal/budget] (counters of the agent's own cost).

    The scores of [eval.Result], which are floating point, are in [Scores]. *)
From stdpp Require Import sorting.
From S2P Require Export ProcScans Web Persistence GoJson.

(** * [internal/attack/catalog.go] *)

Record TechniqueMeta := mkTechnique { tm_ID : string; tm_Tactic : string; tm_Name : string }.

Definition BaselineTechniques : list TechniqueMeta :=
  [mkTechnique "T1059.004" "execution" "Unix Shell";
   mkTechnique "T1059.006" "execution" "Python";
   mkTechnique "T1053.003" "persistence" "Cron";
   mkTechnique "T1053.006" "persistence" "Systemd Timers";
   mkTechnique "T1098.004" "persistence" "SSH Authorized Keys";
   mkTechnique "T1574.006" "defense-evasion" "LD_PRELOAD";
   mkTechnique "T1014" "defense-evasion" "Rootkit";
   mkTechnique "T1055" "defense-evasion" "Process Injection";
   mkTechnique "T1055.001" "defense-evasion" "Dynamic-link Library Injection";
   mkTechnique "T1068" "privilege-escalation" "Exploitation for Privilege Escalation";
   mkTechnique "T1036" "defense-evasion" "Masquerading";
   mkTechnique "T1036.005" "defense-evasion" "Match Legitimate Name or Location";
   mkTechnique "T1505.003" "persistence" "Web Shell";
   mkTechnique "T1071.001" "command-and-control" "Web Protocols";
   mkTechnique "T1048" "exfiltration" "Exfiltration Over Alternative Protocol";
   mkTechnique "T1003" "credential-access" "OS Credential Dumping";
   mkTechnique "T1003.008" "credential-access" "/etc/passwd and /etc/shadow";
   mkTechnique "T1552.001" "credential-access" "Credentials In Files";
   mkTechnique "T1552.004" "credential-access" "Private Keys";
   mkTechnique "T1552.005" "credential-access" "Cloud Instance Metadata API";
   mkTechnique "T1021.004" "lateral-movement" "SSH";
   mkTechnique "T1547.006" "persistence" "Kernel Modules and Extensions";
   mkTechnique "T1562.001" "defense-evasion" "Disable or Modify Tools";
   mkTechnique "T1548.001" "privilege-escalation" "Setuid and Setgid";
   mkTechnique "T1543.003" "persistence" "Systemd Service";
   mkTechnique "T1611" "privilege-escalation" "Escape to Host";
   mkTechnique "T1620" "defense-evasion" "Reflective Code Loading";
   mkTechnique "T1070.002" "defense-evasion" "Clear Linux or Mac System Logs"].

Record Coverage := mkCoverage {
  cov_ByTactic : gmap string (list string);
  cov_Covered : gset string;
  cov_Uncovered : list string;
  cov_RuleCount : Z;
  cov_TechCount : Z
}.

(** The tables that the loop over the rules fills; [seenTech] is kept apart
    from [Covered], as in the code. *)
Record tables := mkTables {
  tb_ByTactic : gmap string (list string);
  tb_Covered : gset string;
  tb_seenTech : gset string
}.

Definition rule_tactic (r : Rule) : string := if ru_Tactic r =s? "" then "unknown" else ru_Tactic r.

(** One technique of a rule. *)
Definition count_technique (tac : string) (t : tables) (tid : string) : tables :=
  if tid =s? "" then t
  else
    let covered := {[tid]} ∪ tb_Covered t in
    if bool_decide (tid ∈ tb_seenTech t) then mkTables (tb_ByTactic t) covered (tb_seenTech t)
    else mkTables (<[tac := default [] (tb_ByTactic t !! tac) ++ [tid]]> (tb_ByTactic t)) covered
           ({[tid]} ∪ tb_seenTech t).

Definition count_rule (t : tables) (r : Rule) : tables :=
  fold_left (count_technique (rule_tactic r)) (ru_Techniques r) t.

Definition sort_strings : list string → list string := merge_sort string_le.

Definition Analyze (pack : Pack) : Coverage :=
  let t := fold_left count_rule (pk_Rules pack) (mkTables ∅ ∅ ∅) in
  let base : gset string := list_to_set (map tm_ID BaselineTechniques) in
  mkCoverage (sort_strings <$> tb_ByTactic t) (tb_Covered t) (sorted_strings (base ∖ tb_Covered t))
    (Z.of_nat (length (pk_Rules pack))) (Z.of_nat (size (tb_Covered t))).

(** The tactics in order, each with its techniques. *)
Definition SummaryText (pack : Pack) : string :=
  let cov := Analyze pack in
  "Rule pack " +:+ pk_Version pack +:+ ": " +:+ itoa (cov_RuleCount cov) +:+ " rules, " +:+
  itoa (cov_TechCount cov) +:+ " unique techniques" +:+ str nl +:+
  sjoin "" (map (λ tac, "  " +:+ tac +:+ ": " +:+ sjoin ", " (default [] (cov_ByTactic cov !! tac)) +:+ str nl)
             (sorted_strings (dom (cov_ByTactic cov)))) +:+
  match cov_Uncovered cov with
  | [] => "Gaps vs baseline: none" +:+ str nl
  | gaps => "Gaps vs baseline (" +:+ itoa (Z.of_nat (length gaps)) +:+ "): " +:+ sjoin ", " gaps +:+ str nl
  end.

Record NavigatorTechnique := mkNavTech { nt_TechniqueID : string; nt_Score : Z; nt_Comment : string }.

Record NavigatorLayer := mkLayer {
  nl_Name : string;
  nl_Versions : gmap string string;
  nl_Techniques : list NavigatorTechnique;
  nl_Colors : list string;     (* the members of the gradient *)
  nl_minValue : Z;
  nl_maxValue : Z
}.

Definition BuildNavigatorLayer (pack : Pack) : NavigatorLayer :=
  let cov := Analyze pack in
  mkLayer ("GhostCatcher " +:+ pk_Version pack)
    (list_to_map [("attack", "15"); ("navigator", "5"); ("layer", "4.5")])
    (map (λ id, mkNavTech id 1 "ghostcatcher rule pack") (sorted_strings (cov_Covered cov)))
    ["#ff6666"; "#ffe766"; "#8ec843"] 0 1.

(** * [internal/budget/budget.go] *)
Module Budget.

(** Unsigned counters wrap at 64 bits. *)
Record counters := mkCounters {
  scanCount : Z;
  lastScanMs : Z;
  procReads : Z;
  hashBytes : Z;
  scansLogged : Z
}.

#[export] Instance eta_counters : Eta counters := λ c,
  mkCounters (scanCount c) (lastScanMs c) (procReads c) (hashBytes c) (scansLogged c).

Definition zero_counters : counters := mkCounters 0 0 0 0 0.

(** The counters after a scan, and whether the line is logged. *)
Definition ObserveScan (d : Duration) (c : counters) : counters * bool :=
  let ms := dur_milliseconds d in
  let n := wrapu 64 (scansLogged c + 1) in
  (c <| scanCount := wrapu 64 (scanCount c + 1) |> <| lastScanMs := ms |> <| scansLogged := n |>,
   (n =? 1) || (n mod 10 =? 0) || (500 <=? ms)).

Definition AddProcRead (n : Z) (c : counters) : counters :=
  if 0 <? n then c <| procReads := wrapu 64 (procReads c + n) |> else c.

Definition AddHashBytes (n : Z) (c : counters) : counters :=
  if 0 <? n then c <| hashBytes := wrapu 64 (hashBytes c + n) |> else c.

(** [Get]: the scans, the last duration, the reads and the bytes. *)
Definition Get (c : counters) : Z * Z * Z * Z := (scanCount c, lastScanMs c, procReads c, hashBytes c).

End Budget.

(** * [internal/eval/eval.go] *)
Module Eval.

Record Result := mkResult {
  TruePositives : Z;
  FalsePositives : Z;
  TrueNegatives : Z;
  FalseNegatives : Z
}.

#[export] Instance eta_Result : Eta Result := λ r,
  mkResult (TruePositives r) (FalsePositives r) (TrueNegatives r) (FalseNegatives r).

Definition labels : list string := ["malicious"; "benign"].

(** One sample of a corpus. *)
Definition score (label : string) (res : Result) (hit : bool) : Result :=
  if label =s? "malicious" then
    if hit then res <| TruePositives := TruePositives res + 1 |>
    else res <| FalseNegatives := FalseNegatives res + 1 |>
  else if label =s? "benign" then
    if hit then res <| FalsePositives := FalsePositives res + 1 |>
    else res <| TrueNegatives := TrueNegatives res + 1 |>
  else res.

Definition eval_cfg (cfg : Config) (subdir : string) : Config :=
  cfg <| cfg_LearningMode := false |> <| cfg_FirstRunAllowAlerts := true |> <| cfg_MinConfidenceAlert := 60 |>
      <| cfg_DocumentRoots := [subdir] |> <| cfg_PathAllowlist := [] |>.

Definition eval_pack (pack : option Pack) : Pack := default (mkPack "eval" []) pack.

Section Host.
Context `{FileReader} `{DirReader} `{LinkReader} `{Globber} `{Stater} `{TreeWalker}.
Variables (now : Time) (looked : string → Time).

(** The files of a corpus directory. *)
Definition samples (subdir : string) : list string :=
  map we_Path (List.filter (λ e, negb (we_Err e || we_IsDir e)) (WalkDir subdir)).

(** The paths that the web scan reports something about. *)
Definition web_hits (cfg : Config) (pack : Pack) (subdir : string) : result (list string) :=
  let? evs := Scan_web (eval_cfg cfg subdir) EmptySnapshot pack "eval" now looked in
  Ok (map (λ e, en_Path (ev_Entity e)) evs).

Definition stat_ok (path : string) : bool := match Stat path with FOk _ => true | _ => false end.

Definition run_label (root : string) (cfg : Config) (pack : Pack) (res : Result) (label : string) : Result :=
  let subdir := path_join [root; label] in
  if negb (stat_ok subdir) then res
  else match web_hits cfg pack subdir with
       | Err _ => res
       | Ok hits => fold_left (score label) (map (λ p, mem_str p hits) (samples subdir)) res
       end.

(** The lines of a cron corpus. *)
Definition cron_lines (data : string) : list string :=
  List.filter (λ l, negb (l =s? "")) (map trim_space (fst (scan_lines MaxScanTokenSize data))).

Definition cron_label (dir : string) (res : Result) (label : string) : Result :=
  match ReadFile (path_join [dir; label +:+ ".txt"]) with
  | Err _ => res
  | Ok data => fold_left (score label) (map EvalCronLine (cron_lines data)) res
  end.

Definition runCronLines (dir : string) (res : Result) : Result := fold_left (cron_label dir) labels res.

Definition Run (root : string) (cfg : Config) (pack : option Pack) : Result :=
  let res := fold_left (run_label root cfg (eval_pack pack)) labels (mkResult 0 0 0 0) in
  let cronDir := path_join [root; "cron"] in
  if stat_ok cronDir then runCronLines cronDir res else res.

End Host.
End Eval.
