(* ===== verification/ReportsFacts.v ===== *)
(** Theorems about the reports ([Reports.v]). *)
From stdpp Require Import sorting.
From S2P Require Export Reports.

(** * Coverage of the techniques *)

(** The (tactic, technique) pairs of a pack, in order. *)
Definition mentions (rules : list Rule) : list (string * string) :=
  concat (map (λ r, map (pair (rule_tactic r)) (List.filter (λ t, negb (t =s? "")) (ru_Techniques r))) rules).

Definition count_mention (t : tables) (m : string * string) : tables := count_technique (fst m) t (snd m).

(** The tactic under which a technique is listed: that of its first mention. *)
Definition home (ms : list (string * string)) (tid : string) : option string :=
  fst <$> List.find (λ m, snd m =s? tid) ms.

Lemma count_rule_mentions r t :
  count_rule t r = fold_left count_mention (map (pair (rule_tactic r)) (List.filter (λ t, negb (t =s? "")) (ru_Techniques r))) t.
Proof.
  unfold count_rule. generalize (rule_tactic r). intros tac. revert t.
  induction (ru_Techniques r) as [|x l IH]; intros t; [done|]. cbn [fold_left List.filter].
  destruct (x =s? "") eqn:Hx; cbn [negb map fold_left]; [|apply IH].
  unfold count_technique at 2. rewrite Hx. apply IH.
Qed.

Lemma count_rules_mentions rules t : fold_left count_rule rules t = fold_left count_mention (mentions rules) t.
Proof.
  revert t. induction rules as [|r rules IH]; intros t; [done|]. unfold mentions. cbn [fold_left map concat].
  by rewrite fold_left_app, <-count_rule_mentions, IH.
Qed.

(** The tables after some mentions. *)
Definition tables_ok (ms : list (string * string)) (t : tables) : Prop :=
  (∀ tid, tid ∈ tb_Covered t ↔ tid ∈ map snd ms) ∧
  (∀ tid, tid ∈ tb_seenTech t ↔ tid ∈ map snd ms) ∧
  (∀ tac tid, tid ∈ default [] (tb_ByTactic t !! tac) ↔ home ms tid = Some tac) ∧
  (∀ tac, NoDup (default [] (tb_ByTactic t !! tac))).

Lemma home_some ms tid tac : home ms tid = Some tac → tid ∈ map snd ms.
Proof.
  unfold home. destruct (List.find _ ms) as [[a b]|] eqn:Hf; [|done]. intros _.
  apply List.find_some in Hf as [Hin Hb]. apply String.eqb_eq in Hb. cbn in Hb. subst.
  apply elem_of_map'. exists (a, tid). split; [done|]. by apply list_elem_of_In.
Qed.

Lemma home_snoc ms tac tid x :
  home (ms ++ [(tac, tid)]) x =
    match home ms x with Some t => Some t | None => if tid =s? x then Some tac else None end.
Proof.
  unfold home. induction ms as [|[a b] ms IH]; cbn; [by destruct (tid =s? x)|].
  destruct (b =s? x); [done|]. exact IH.
Qed.

Lemma home_none ms tid : tid ∉ map snd ms → home ms tid = None.
Proof.
  intros Hn. destruct (home ms tid) as [tac|] eqn:Hh; [|done]. exfalso. by apply Hn, (home_some ms tid tac).
Qed.

Lemma home_seen ms tid : tid ∈ map snd ms → is_Some (home ms tid).
Proof.
  induction ms as [|[a b] ms IH]; cbn; [by intros ?%elem_of_nil|]. intros Hin. unfold home. cbn.
  destruct (String.eqb_spec b tid) as [->|Hne]; [by eexists|]. apply IH. apply elem_of_cons in Hin as [->|?]; done.
Qed.

Lemma tables_step ms t tac tid :
  tid ≠ "" → tables_ok ms t → tables_ok (ms ++ [(tac, tid)]) (count_mention t (tac, tid)).
Proof.
  intros Hne (Hc & Hs & Hb & Hd). unfold count_mention, count_technique. cbn [fst snd].
  rewrite (proj2 (String.eqb_neq _ _) Hne). unfold tables_ok. rewrite map_app. cbn [map snd].
  assert (∀ (X : gset string), (∀ x, x ∈ X ↔ x ∈ map snd ms) → ∀ x, x ∈ {[tid]} ∪ X ↔ x ∈ map snd ms ++ [tid]) as Hset.
  { intros X HX x. rewrite elem_of_union, elem_of_singleton, HX, elem_of_app, list_elem_of_singleton. tauto. }
  destruct (bool_decide_reflect (tid ∈ tb_seenTech t)) as [Hin|Hin]; cbn [tb_ByTactic tb_Covered tb_seenTech].
  - apply Hs in Hin. split; [by apply Hset|]. split; [|split; [|done]].
    + intros x. rewrite Hs, elem_of_app, list_elem_of_singleton. split; [by left|]. intros [?| ->]; done.
    + intros tac' x. rewrite Hb, home_snoc. destruct (home ms x) eqn:Hh; [done|].
      destruct (String.eqb_spec tid x) as [->|]; [|done]. apply home_seen in Hin as [? ?]. congruence.
  - assert (tid ∉ map snd ms) as Hn by (by rewrite <-Hs). split; [by apply Hset|]. split; [by apply Hset|].
    assert (∀ tac', default [] (<[tac:=default [] (tb_ByTactic t !! tac) ++ [tid]]> (tb_ByTactic t) !! tac') =
                    default [] (tb_ByTactic t !! tac') ++ (if decide (tac = tac') then [tid] else [])) as Hl.
    { intros tac'. case_decide as Heq; [subst; by rewrite lookup_insert_eq|]. by rewrite lookup_insert_ne, app_nil_r. }
    split.
    + intros tac' x. rewrite Hl, elem_of_app, Hb, home_snoc.
      assert (x ∈ (if decide (tac = tac') then [tid] else []) ↔ tac = tac' ∧ x = tid) as ->.
      { case_decide; [rewrite list_elem_of_singleton|rewrite elem_of_nil]; naive_solver. }
      destruct (String.eqb_spec tid x) as [->|Hx].
      * rewrite (home_none ms x) by done. split; [intros [|[-> _]]; done|]. intros [= ->]. by right.
      * destruct (home ms x); naive_solver.
    + intros tac'. rewrite Hl. case_decide; [|by rewrite app_nil_r]. apply list.NoDup_app. split; [done|].
      split; [|apply NoDup_singleton]. intros x Hx ->%list_elem_of_singleton. apply Hb, home_some in Hx. done.
Qed.

Lemma tables_fold ms' : ∀ ms t,
  Forall (λ m, snd m ≠ "") ms' → tables_ok ms t → tables_ok (ms ++ ms') (fold_left count_mention ms' t).
Proof.
  induction ms' as [|[tac tid] ms' IH]; intros ms t Hf Ht; cbn [fold_left]; [by rewrite app_nil_r|].
  inversion_clear Hf as [|? ? Hm Hf']. replace (ms ++ (tac, tid) :: ms') with ((ms ++ [(tac, tid)]) ++ ms') by (by rewrite <-app_assoc).
  apply IH; [done|]. by apply tables_step.
Qed.

Lemma mentions_nonempty rules : Forall (λ m, snd m ≠ "") (mentions rules).
Proof.
  apply list.Forall_forall. intros [tac tid] Hin. unfold mentions in Hin. apply elem_of_concat in Hin as (l & Hl & Hin).
  apply elem_of_map' in Hl as (r & -> & _). apply elem_of_map' in Hin as (x & [= -> ->] & Hx).
  apply list_elem_of_In, List.filter_In in Hx as [_ Hx]. by destruct (String.eqb_spec x "").
Qed.

Lemma sort_strings_elem l x : x ∈ sort_strings l ↔ x ∈ l.
Proof. unfold sort_strings. by rewrite merge_sort_Permutation. Qed.

(** The coverage report of a rule pack is exact: a technique is covered
    exactly when a rule of the pack lists it, the gaps are the techniques of
    the curated baseline that no rule lists, each once, and every covered
    technique is listed once, under the tactic of the first rule that names
    it. *)
Theorem Analyze_exact pack :
  let cov := Analyze pack in
  (∀ tid, tid ∈ cov_Covered cov ↔ tid ≠ "" ∧ ∃ r, r ∈ pk_Rules pack ∧ tid ∈ ru_Techniques r) ∧
  (∀ tid, tid ∈ cov_Uncovered cov ↔ tid ∈ map tm_ID BaselineTechniques ∧ tid ∉ cov_Covered cov) ∧
  NoDup (cov_Uncovered cov) ∧
  (∀ tac tid, tid ∈ default [] (cov_ByTactic cov !! tac) ↔ home (mentions (pk_Rules pack)) tid = Some tac) ∧
  (∀ tac, NoDup (default [] (cov_ByTactic cov !! tac))).
Proof.
  unfold Analyze. cbn [cov_Covered cov_Uncovered cov_ByTactic]. rewrite count_rules_mentions.
  destruct (tables_fold (mentions (pk_Rules pack)) [] (mkTables ∅ ∅ ∅) (mentions_nonempty _)) as (Hc & _ & Hb & Hd).
  { unfold tables_ok. cbn. repeat split; intros *; rewrite ?lookup_empty; cbn; try set_solver. constructor. }
  cbn [app] in *. set (t := fold_left count_mention _ _) in *.
  split.
  { intros tid. rewrite Hc, elem_of_map'. unfold mentions. setoid_rewrite elem_of_concat. setoid_rewrite elem_of_map'.
    split.
    - intros ([tac x] & -> & l & (r & -> & Hr) & Hin). apply elem_of_map' in Hin as (y & [= -> ->] & Hy).
      apply list_elem_of_In, List.filter_In in Hy as [Hy Hn]. apply list_elem_of_In in Hy. cbn.
      split; [by destruct (String.eqb_spec y "")|by exists r].
    - intros (Hn & r & Hr & Hin). exists (rule_tactic r, tid). split; [done|]. eexists. split; [by exists r|].
      apply elem_of_map'. exists tid. split; [done|]. apply list_elem_of_In, List.filter_In. split; [by apply list_elem_of_In|].
      by destruct (String.eqb_spec tid ""). }
  split.
  { intros tid. unfold sorted_strings. rewrite merge_sort_Permutation, elem_of_elements, elem_of_difference, elem_of_list_to_set. done. }
  split; [unfold sorted_strings; rewrite merge_sort_Permutation; apply NoDup_elements|].
  assert (∀ tac, default [] ((sort_strings <$> tb_ByTactic t) !! tac) = sort_strings (default [] (tb_ByTactic t !! tac))) as Hs.
  { intros tac. rewrite lookup_fmap. by destruct (tb_ByTactic t !! tac). }
  split; [intros tac tid; by rewrite Hs, sort_strings_elem|].
  intros tac. rewrite Hs. unfold sort_strings. by rewrite merge_sort_Permutation.
Qed.

(** A technique that several tactics use is listed under one of them only. *)
Example one_tactic_only :
  let r t := zero_Rule <| ru_Techniques := ["T1078"] |> <| ru_Tactic := t |> in
  let cov := Analyze (mkPack "1" [r "persistence"; r "initial-access"]) in
  cov_ByTactic cov !! "persistence" = Some ["T1078"] ∧ cov_ByTactic cov !! "initial-access" = None.
Proof. vm_compute. done. Qed.

(** * Evaluation *)
Module EvalFacts.
Import Eval.

Definition total (r : Result) : Z := TruePositives r + FalsePositives r + TrueNegatives r + FalseNegatives r.

Definition hits (l : list bool) : Z := Z.of_nat (length (List.filter id l)).
Definition misses (l : list bool) : Z := Z.of_nat (length (List.filter negb l)).

Lemma score_fold_malicious l : ∀ res,
  fold_left (score "malicious") l res =
    mkResult (TruePositives res + hits l) (FalsePositives res) (TrueNegatives res) (FalseNegatives res + misses l).
Proof.
  unfold hits, misses. induction l as [|b l IH]; intros res; cbn [fold_left List.filter length id].
  - destruct res. cbn. f_equal; lia.
  - rewrite IH. unfold score. cbn. destruct b; cbn; f_equal; lia.
Qed.

Lemma score_fold_benign l : ∀ res,
  fold_left (score "benign") l res =
    mkResult (TruePositives res) (FalsePositives res + hits l) (TrueNegatives res + misses l) (FalseNegatives res).
Proof.
  unfold hits, misses. induction l as [|b l IH]; intros res; cbn [fold_left List.filter length id].
  - destruct res. cbn. f_equal; lia.
  - rewrite IH. unfold score. cbn. destruct b; cbn; f_equal; lia.
Qed.

Lemma hits_misses l : hits l + misses l = Z.of_nat (length l).
Proof. unfold hits, misses. induction l as [|[] l IH]; cbn in *; lia. Qed.

Section Host.
Context `{FileReader} `{DirReader} `{LinkReader} `{Globber} `{Stater} `{TreeWalker}.
Variables (now : Time) (looked : string → Time).

(** The verdicts of the two corpora, in order. *)
Definition verdicts (root : string) (cfg : Config) (pack : Pack) (label : string) : list bool :=
  let subdir := path_join [root; label] in
  if stat_ok subdir
  then match web_hits now looked cfg pack subdir with Ok hs => map (λ p, mem_str p hs) (samples subdir) | Err _ => [] end
  else [].

Definition cron_verdicts (root label : string) : list bool :=
  let dir := path_join [root; "cron"] in
  if stat_ok dir
  then match ReadFile (path_join [dir; label +:+ ".txt"]) with Ok data => map EvalCronLine (cron_lines data) | Err _ => [] end
  else [].

Lemma run_label_fold root cfg pack res label :
  run_label now looked root cfg pack res label = fold_left (score label) (verdicts root cfg pack label) res.
Proof. unfold run_label, verdicts. destruct (stat_ok _); [|done]. cbn [negb]. by destruct (web_hits _ _ _ _ _). Qed.

(** Every sample is counted once: the four counts are the hits and misses of
    the malicious and of the benign samples, files and cron lines together. *)
Lemma Run_counts root cfg pack :
  let r := Run now looked root cfg pack in
  let mal := verdicts root cfg (eval_pack pack) "malicious" ++ cron_verdicts root "malicious" in
  let ben := verdicts root cfg (eval_pack pack) "benign" ++ cron_verdicts root "benign" in
  TruePositives r = hits mal ∧ FalseNegatives r = misses mal ∧ FalsePositives r = hits ben ∧ TrueNegatives r = misses ben ∧
  total r = Z.of_nat (length mal + length ben).
Proof.
  assert (∀ a b, hits (a ++ b) = hits a + hits b ∧ misses (a ++ b) = misses a + misses b) as Happ.
  { intros a b. unfold hits, misses. rewrite !List.filter_app, !length_app. lia. }
  assert (hits [] = 0 ∧ misses [] = 0) as [Hh Hm] by done.
  intros r mal ben.
  assert (r = mkResult (hits mal) (hits ben) (misses ben) (misses mal)) as ->.
  { unfold r, Run, labels. cbn [fold_left]. rewrite !run_label_fold, score_fold_malicious, score_fold_benign.
    cbn [TruePositives FalsePositives TrueNegatives FalseNegatives]. unfold mal, ben.
    rewrite !(proj1 (Happ _ _)), !(proj2 (Happ _ _)). unfold cron_verdicts. destruct (stat_ok (path_join [root; "cron"])).
    - unfold runCronLines, labels, cron_label. cbn [fold_left].
      destruct (ReadFile (path_join [path_join [root; "cron"]; "malicious" +:+ ".txt"])), (ReadFile (path_join [path_join [root; "cron"]; "benign" +:+ ".txt"]));
        rewrite ?score_fold_malicious, ?score_fold_benign; cbn [TruePositives FalsePositives TrueNegatives FalseNegatives];
        f_equal; lia.
    - f_equal; lia. }
  unfold total. cbn. repeat split. pose proof (hits_misses mal). pose proof (hits_misses ben). lia.
Qed.

End Host.
End EvalFacts.

(** * The counters of the budget *)
Module BudgetFacts.
Import Budget.

(** The first scan of a process is logged, every tenth one, and every slow
    one; the count of scans is exact until it wraps. *)
Lemma ObserveScan_logged k ds d :
  (k + 1 < 2 ^ 64)%Z → Z.of_nat (length ds) = k →
  let c := fold_left (λ c d, fst (ObserveScan d c)) ds zero_counters in
  scanCount c = k ∧
  (snd (ObserveScan d c) = true ↔ k + 1 = 1 ∨ (10 | k + 1) ∨ 500 <= dur_milliseconds d).
Proof.
  intros Hk Hlen c.
  assert (scanCount c = k ∧ scansLogged c = k) as [Hs Hl].
  { unfold c. clear c. subst k. revert Hk. induction ds as [|x ds IH] using rev_ind; [done|].
    rewrite length_app. cbn [length]. intros Hk. rewrite fold_left_app. cbn [fold_left].
    destruct IH as [IH1 IH2]; [lia|]. set (c := fold_left _ _ _) in *. clearbody c. cbn. rewrite IH1, IH2. unfold wrapu. rewrite Z.mod_small by lia. lia. }
  split; [done|]. cbn. rewrite Hl. unfold wrapu. rewrite Z.mod_small by lia.
  rewrite !orb_true_iff, !Z.eqb_eq, Z.leb_le, Z.mod_divide by done. tauto.
Qed.

End BudgetFacts.
