(* ===== verification/Scores.v ===== *)
(** [internal/eval/eval.go], the scores of an evaluation: precision, recall and
    F1 in binary64, and the line that reports them.

    The arithmetic is that of [SpecFloat] (IEEE 754, rounding to nearest even)
    at the precision of [float64]; [fmt]'s [%.3f] rounds the exact value of the
    float. *)
From Stdlib Require Import SpecFloat.
From S2P Require Export GoTime Reports.

Abbreviation float64 := spec_float.

Definition f64_prec : Z := 53.
Definition f64_emax : Z := 1024.

(** [float64(z)]. *)
Definition f64 (z : Z) : float64 := binary_normalize f64_prec f64_emax z 0 false.

Definition f64_add : float64 → float64 → float64 := SFadd f64_prec f64_emax.
Definition f64_mul : float64 → float64 → float64 := SFmul f64_prec f64_emax.
Definition f64_div : float64 → float64 → float64 := SFdiv f64_prec f64_emax.
Definition f64_ltb (a b : float64) : bool := SFltb a b.
Definition f64_is_zero (a : float64) : bool := SFeqb a (S754_zero false).

(** * [%.3f] *)

(** The nearest integer to [m 2^e], to even when halfway. *)
Definition round_even (m e : Z) : Z :=
  if 0 <=? e then m * 2 ^ e
  else
    let d := 2 ^ (- e) in
    let q := m / d in
    match Z.compare (2 * (m mod d)) d with
    | Lt => q
    | Gt => q + 1
    | Eq => if Z.even q then q else q + 1
    end.

Definition thousandths (k : Z) : string := itoa (k / 1000) +:+ "." +:+ GoTime.append_int 3 (k mod 1000).

Definition fixed3 (x : float64) : string :=
  let sign (s : bool) := if s then "-" else "" in
  match x with
  | S754_zero s => sign s +:+ "0.000"
  | S754_infinity s => if s then "-Inf" else "+Inf"
  | S754_nan => "NaN"
  | S754_finite s m e => sign s +:+ thousandths (round_even (Z.pos m * 1000) e)
  end.

(** * The scores *)

Import Eval.

Definition ratio (a b : Z) : float64 := if b =? 0 then S754_zero false else f64_div (f64 a) (f64 b).

Definition Precision (r : Result) : float64 := ratio (TruePositives r) (wrap64 (TruePositives r + FalsePositives r)).
Definition Recall (r : Result) : float64 := ratio (TruePositives r) (wrap64 (TruePositives r + FalseNegatives r)).

(** [2 * p * rec / (p + rec)]. *)
Definition F1 (r : Result) : float64 :=
  let p := Precision r in
  let rec := Recall r in
  if f64_is_zero (f64_add p rec) then S754_zero false
  else f64_div (f64_mul (f64_mul (f64 2) p) rec) (f64_add p rec).

Definition Report (r : Result) : string :=
  "tp=" +:+ itoa (TruePositives r) +:+ " fp=" +:+ itoa (FalsePositives r) +:+ " fn=" +:+ itoa (FalseNegatives r) +:+
  " tn=" +:+ itoa (TrueNegatives r) +:+ " | precision=" +:+ fixed3 (Precision r) +:+ " recall=" +:+ fixed3 (Recall r) +:+
  " f1=" +:+ fixed3 (F1 r).

(** The status of [evalCmd] for a lower bound on F1; zero asks for nothing. *)
Definition regressed (minF1 : float64) (r : Result) : bool :=
  f64_ltb (S754_zero false) minF1 && f64_ltb (F1 r) minF1.

(** * Properties *)

Example Report_sample :
  Report (mkResult 3 1 4 2) = "tp=3 fp=1 fn=2 tn=4 | precision=0.750 recall=0.600 f1=0.667".
Proof. vm_compute. reflexivity. Qed.

(** Nothing found and nothing to find: every division by zero is avoided, and
    all scores are zero. *)
Lemma empty_corpus tn :
  Report (mkResult 0 0 tn 0) = "tp=0 fp=0 fn=0 tn=" +:+ itoa tn +:+ " | precision=0.000 recall=0.000 f1=0.000".
Proof. reflexivity. Qed.

(** A bound of zero asks for nothing. *)
Lemma no_bound r : regressed (S754_zero false) r = false.
Proof. reflexivity. Qed.

(** The rounding of [%.3f] is to the nearest thousandth. *)
Lemma round_even_nearest m e : 0 ≤ m → e < 0 → 2 * Z.abs (round_even m e * 2 ^ (- e) - m) ≤ 2 ^ (- e).
Proof.
  intros Hm He. unfold round_even. rewrite (proj2 (Z.leb_gt _ _)) by done.
  assert (Hd : 0 < 2 ^ (- e)) by (apply Z.pow_pos_nonneg; lia). set (d := 2 ^ (- e)) in *. clearbody d.
  pose proof (Z.div_mod m d ltac:(lia)) as Hdm. pose proof (Z.mod_pos_bound m d Hd) as Hb.
  destruct (Z.compare_spec (2 * (m mod d)) d); [destruct (Z.even (m / d))| |]; nia.
Qed.

(** On corpora of a few samples, every score is a number between zero and one. *)
Definition in_unit (x : float64) : bool := negb (SFltb x (S754_zero false)) && SFleb x (f64 1).

Lemma scores_in_unit :
  forallb (λ tp, forallb (λ fp, forallb (λ fn,
    let r := mkResult (Z.of_nat tp) (Z.of_nat fp) 0 (Z.of_nat fn) in
    in_unit (Precision r) && in_unit (Recall r) && in_unit (F1 r)) (seq 0 12)) (seq 0 12)) (seq 0 12) = true.
Proof. vm_compute. reflexivity. Qed.
