(* ===== verification/Quarantine.v ===== *)
(** [internal/quarantine] and [internal/selfguard]: the evidence vault, and the
    hash check of the agent's own binary.

    The file system is a map from paths to contents; each system call of
    [Store] can fail. *)
From S2P Require Export Event.

Abbreviation files := (gmap string string).

Record Vault := mkVault { va_dir : string }.

Definition NewVault (mkdir_fails : bool) (dir : string) : result Vault :=
  if dir =s? "" then Err "quarantine: dir required"
  else if mkdir_fails then Err "mkdir" else Ok (mkVault dir).

(** Failures of one [Store]; a failed copy has written some bytes to the
    partial file before it is removed. *)
Record StoreFaults := mkStoreFaults {
  sf_stat : bool;
  sf_mkdir : bool;
  sf_copy : bool;
  sf_rename : bool;
  sf_sidecar : bool
}.

Definition partial_path (v : Vault) (day : string) : string :=
  path_join [va_dir v; day; "partial.tmp"].
Definition final_path (v : Vault) (day sum : string) : string :=
  path_join [va_dir v; day; sum +:+ ".bin"].
Definition sidecar_path (v : Vault) (day sum : string) : string :=
  path_join [va_dir v; day; sum +:+ ".json"].

(** [json_side] renders the sidecar document; [day] is the current UTC day. *)
Definition Store (ft : StoreFaults) (json_side : string → string → Event → string)
  (v : Vault) (day : string) (fs : files) (path : string) (e : Event) : files * result string :=
  match fs !! path with
  | None => (fs, Err "open: no such file")
  | Some content =>
      if sf_stat ft then (fs, Err "stat")
      else if sf_mkdir ft then (fs, Err "mkdir")
      else
        let tmp := partial_path v day in
        match fs !! tmp with
        | Some _ => (fs, Err "open: file exists")
        | None =>
            if sf_copy ft then (delete tmp fs, Err "copy")
            else
              let sum := sha256_hex content in
              let final := final_path v day sum in
              if sf_rename ft then (delete tmp fs, Err "rename")
              else
                let fs := <[final := content]> fs in
                let fs := if sf_sidecar ft then fs
                          else <[sidecar_path v day sum := json_side path sum e]> fs in
                (fs, Ok final)
        end
  end.

(** * Self-guard *)

Inductive guard_result := GuardOK | GuardErr (msg : string) | GuardMismatch (path got want : string).

Definition BinaryMatches (read : string → result string) (path expected : string) : guard_result :=
  if (path =s? "") || (expected =s? "") then GuardErr "selfguard: path/expected required"
  else
    match read path with
    | Err e => GuardErr e
    | Ok content =>
        let got := sha256_hex content in
        if negb (equal_fold got expected) then GuardMismatch path got expected else GuardOK
    end.

(** [WatchdogInterval], from the environment variable. *)
Definition WatchdogInterval (usec : string) : Duration :=
  if usec =s? "" then 0
  else
    let '(us, ok) := parse_int 10 64 usec in
    if negb ok || (us <=? 0) then 0 else wrap64 (Z.quot us 2 * 1000).

(** * Properties *)

Lemma evidence_name_plain s ext :
  sforall (λ a, negb (Ascii.eqb a slash)) ext = true → (2 < String.length ext)%nat →
  plain_elem (sha256_hex s +:+ ext).
Proof.
  intros Hext Hlen. split.
  - rewrite sforall_app, Hext. unfold sha256_hex. by rewrite hex_encode_plain.
  - split_and!; intros He; apply (f_equal String.length) in He;
      rewrite length_append in He; cbn in He; lia.
Qed.

(** The copy and its sidecar are different files. *)
Lemma final_not_sidecar v day s :
  final_path v day (sha256_hex s) ≠ sidecar_path v day (sha256_hex s).
Proof.
  unfold final_path, sidecar_path.
  destruct (path_join_last [va_dir v; day] (sha256_hex s +:+ ".bin")) as [p Hp];
    [apply evidence_name_plain; [done|cbn; lia]|].
  destruct (path_join_last [va_dir v; day] (sha256_hex s +:+ ".json")) as [q Hq];
    [apply evidence_name_plain; [done|cbn; lia]|].
  cbn [app] in Hp, Hq. rewrite Hp, Hq.
  change ".bin" with (".b" +:+ "in"). change ".json" with (".js" +:+ "on").
  rewrite <-!append_assoc. intros He. by apply append_tail_eq in He as [_ ?].
Qed.

(** Storing evidence succeeds only by leaving, under the name of its hash,
    a byte-for-byte copy of the file; the original and every other evidence
    file with a different hash are untouched, and on any failure nothing is
    changed, so that no partial file is left behind. *)
Theorem Store_evidence ft json v day fs path e :
  match Store ft json v day fs path e with
  | (fs', Ok final) =>
      ∃ content, fs !! path = Some content ∧
        final = final_path v day (sha256_hex content) ∧
        fs' !! final = Some content ∧
        (∀ q, q ≠ final → q ≠ sidecar_path v day (sha256_hex content) → fs' !! q = fs !! q)
  | (fs', Err _) => fs' = fs
  end.
Proof.
  unfold Store. destruct (fs !! path) as [content|] eqn:Ep; [|done].
  destruct (sf_stat ft); [done|]. destruct (sf_mkdir ft); [done|].
  destruct (fs !! partial_path v day) eqn:Et; [done|].
  destruct (sf_copy ft); [by apply delete_id|]. destruct (sf_rename ft); [by apply delete_id|].
  exists content. split; [done|]. split; [done|]. cbv zeta. split.
  - destruct (sf_sidecar ft); [by rewrite lookup_insert_eq|].
    rewrite lookup_insert_ne; [by rewrite lookup_insert_eq|]. apply not_eq_sym, final_not_sidecar.
  - intros q H1 H2. destruct (sf_sidecar ft); by rewrite ?lookup_insert_ne by congruence.
Qed.

(** A partial file left by a crash blocks every later store of that day. *)
Lemma stale_partial_blocks ft json v day fs path e x :
  fs !! partial_path v day = Some x → ∃ msg, (Store ft json v day fs path e) = (fs, Err msg).
Proof. intros Hx. unfold Store. rewrite Hx. repeat case_match; eauto. Qed.
