(* ===== verification/Respond.v ===== *)
(** [internal/respond]: the decision and the execution of active responses.

    What an action does to the host is a list of effects; whether the system
    accepts each is the [System]'s answer.  The engine's rate-limit table is
    threaded through [Decide] (which prunes it) and [Apply] (which records). *)
From S2P Require Export Config Killchain Quarantine.

Definition ModeAudit : string := "audit".
Definition ModeEnforce : string := "enforce".

Definition ActionAlertOnly : string := "alert_only".
Definition ActionQuarantineFile : string := "quarantine_file".
Definition ActionKillProcess : string := "kill_process".
Definition ActionIsolateHost : string := "isolate_host".

Definition ResultAuditLogged : string := "audit_logged".
Definition ResultApplied : string := "applied".
Definition ResultSkipped : string := "skipped".
Definition ResultDenied : string := "denied".

Record Plan := mkPlan { pl_Action : string; pl_Mode : string; pl_Reason : string; pl_Target : string }.

Record Engine := mkEngine {
  eg_cfg : ResponseConfig;
  eg_vault : bool;  (* whether a vault is configured *)
  eg_limits : gmap string (list Time)
}.

#[export] Instance eta_Engine : Eta Engine := λ g,
  mkEngine (eg_cfg g) (eg_vault g) (eg_limits g).

Definition NewEngine (cfg : option ResponseConfig) (vault : bool) : Engine :=
  mkEngine (default zero_ResponseConfig cfg) vault ∅.

(** * Effects on the host *)

Inductive effect :=
| EKill (pid : Z)                  (* SIGKILL *)
| EIptables (args : list string)   (* one iptables command *)
| EStore (path : string).          (* copy into the evidence vault *)

Record System := mkSystem {
  sy_euid : Z;
  sy_kill : Z → result unit;
  sy_iptables : list string → result unit;
  sy_store : string → Event → result string
}.

(** An action returns its effects in order, and its error. *)
Definition act : Type := list effect * result unit.

Definition parsePIDTarget (target : string) : result Z :=
  let target := trim_prefix (trim_space target) "pid:" in
  let '(pid, ok) := atoi (trim_space target) in
  if negb ok || (pid <=? 0) then Err ("invalid pid target " +:+ target) else Ok pid.

Definition killProcess (sys : System) (target : string) : act :=
  match parsePIDTarget target with
  | Err e => ([], Err e)
  | Ok pid =>
      if pid <=? 1 then ([], Err ("refusing to kill pid " +:+ itoa pid))
      else ([EKill pid], sy_kill sys pid)
  end.

Definition quarantineFile (sys : System) (eng : Engine) (e : Event) (path : string) : act :=
  if negb (eg_vault eng) || (path =s? "") then ([], Err "quarantine vault unavailable")
  else ([EStore path], let? _ := sy_store sys path e in Ok tt).

(** Commands run in order until one fails. *)
Fixpoint run_until_error (sys : System) (cmds : list (list string)) : act :=
  match cmds with
  | [] => ([], Ok tt)
  | c :: cmds =>
      match sy_iptables sys c with
      | Err e => ([EIptables c], Err e)
      | Ok _ => let '(effs, r) := run_until_error sys cmds in (EIptables c :: effs, r)
      end
  end.

(** The rules for one allowed address block; their errors are ignored. *)
Definition allow_rules (cidr : string) : list (list string) :=
  let cidr := trim_space cidr in
  if cidr =s? "" then []
  else map (λ chain, ["-A"; chain; "-d"; cidr; "-j"; "ACCEPT"]) ["INPUT"; "OUTPUT"].

Definition loopback_rules : list (list string) :=
  [["-A"; "INPUT"; "-i"; "lo"; "-j"; "ACCEPT"]; ["-A"; "OUTPUT"; "-o"; "lo"; "-j"; "ACCEPT"]].

Definition drop_rules : list (list string) :=
  [["-A"; "INPUT"; "-j"; "DROP"]; ["-A"; "OUTPUT"; "-j"; "DROP"]].

Definition isolateHost (sys : System) (cfg : ResponseConfig) : act :=
  let allow := ["127.0.0.0/8"; "::1/128"] ++ rp_IsolationAllowlistCIDRs cfg in
  match run_until_error sys loopback_rules with
  | (effs, Err e) => (effs, Err e)
  | (effs, Ok _) =>
      let allowed := map EIptables (concat (map allow_rules allow)) in
      let '(drops, r) := run_until_error sys drop_rules in
      (effs ++ allowed ++ drops, r)
  end.

(** * The decision *)

Definition mode (eng : Engine) : string :=
  if rp_Mode (eg_cfg eng) =s? ModeEnforce then ModeEnforce else ModeAudit.

Definition severity_order (sev : string) : Z :=
  if sev =s? "info" then 0 else if sev =s? "low" then 1 else if sev =s? "medium" then 2
  else if sev =s? "high" then 3 else if sev =s? "critical" then 4 else 0.

Definition severityAtLeast (sev min : string) : bool :=
  if min =s? "" then true else severity_order min <=? severity_order sev.

Definition defaultAction (e : Event) : string :=
  if (en_Type (ev_Entity e) =s? EntityFile) && negb (en_Path (ev_Entity e) =s? "")
  then ActionQuarantineFile
  else if (en_Type (ev_Entity e) =s? EntityProcess) && EarlyPhase (ev_KillChainPhase e)
  then ActionKillProcess
  else if ev_Severity e =s? SeverityCritical then ActionKillProcess
  else ActionAlertOnly.

Definition actionEnabled (eng : Engine) (action : string) : bool :=
  if action =s? ActionAlertOnly then true
  else if action =s? ActionQuarantineFile then rp_AllowQuarantine (eg_cfg eng)
  else if action =s? ActionKillProcess then rp_AllowKillProcess (eg_cfg eng)
  else if action =s? ActionIsolateHost then rp_AllowIsolateHost (eg_cfg eng)
  else false.

Definition pid_target (pid : Z) : string := "pid:" +:+ itoa pid.

Definition targetFor (e : Event) (action : string) : string :=
  if action =s? ActionQuarantineFile then
    if negb (en_Path (ev_Entity e) =s? "") then en_Path (ev_Entity e) else en_ID (ev_Entity e)
  else if action =s? ActionKillProcess then
    match ev_Process e with
    | Some p => if 0 <? pc_PID p then pid_target (pc_PID p)
                else if (en_Type (ev_Entity e) =s? EntityProcess) && negb (en_ID (ev_Entity e) =s? "")
                then "pid:" +:+ en_ID (ev_Entity e) else ""
    | None => if (en_Type (ev_Entity e) =s? EntityProcess) && negb (en_ID (ev_Entity e) =s? "")
              then "pid:" +:+ en_ID (ev_Entity e) else ""
    end
  else if action =s? ActionIsolateHost then "host"
  else "".

Definition commProtected (comm : string) (l : list string) : bool :=
  existsb (λ p, negb (p =s? "") && (comm =s? p)) l.

Definition isProtected (eng : Engine) (e : Event) (target : string) : bool :=
  (match ev_Process e with
   | Some p => existsb (Z.eqb (pc_PID p)) (rp_ProtectedPIDs (eg_cfg eng)) ||
               commProtected (pc_Comm p) (rp_ProtectedComms (eg_cfg eng))
   | None => false
   end) ||
  existsb (λ p, target =s? pid_target p) (rp_ProtectedPIDs (eg_cfg eng)) ||
  (match ev_Process e with
   | Some p => commProtected (pc_Comm p) (rp_ProtectedComms (eg_cfg eng))
   | None => false
   end).

Definition rateLimitOK (eng : Engine) (action : string) (now : Time) : Engine * bool :=
  if (rp_RateLimitPerActionPerMin (eg_cfg eng) <=? 0) || (action =s? ActionAlertOnly) then (eng, true)
  else
    let cut := time_add now (- minute) in
    let kept := List.filter (λ t, time_after t cut) (default [] (eg_limits eng !! action)) in
    (eng <| eg_limits := <[action := kept]> (eg_limits eng) |>,
     Z.of_nat (length kept) <? rp_RateLimitPerActionPerMin (eg_cfg eng)).

Definition recordRate (eng : Engine) (action : string) (now : Time) : Engine :=
  if rp_RateLimitPerActionPerMin (eg_cfg eng) <=? 0 then eng
  else eng <| eg_limits := <[action := default [] (eg_limits eng !! action) ++ [now]]> (eg_limits eng) |>.

Definition alert_plan (eng : Engine) (reason target : string) : Plan :=
  mkPlan ActionAlertOnly (mode eng) reason target.

Definition Decide (sys : System) (eng : Engine) (e : Event) (rule : Rule) (now : Time) : Engine * Plan :=
  let cfg := eg_cfg eng in
  if negb (rp_Enabled cfg) || rp_KillSwitch cfg then (eng, alert_plan eng "response_disabled" "")
  else if ev_LearningOnly e then (eng, alert_plan eng "learning_only" "")
  else if ev_Confidence e <? rp_MinConfidence cfg then (eng, alert_plan eng "below_min_confidence" "")
  else if negb (severityAtLeast (ev_Severity e) (rp_MinSeverity cfg))
  then (eng, alert_plan eng "below_min_severity" "")
  else
    let action := rr_Action (ru_Response rule) in
    let action := if action =s? "" then defaultAction e else action in
    if negb (actionEnabled eng action) then (eng, alert_plan eng "action_disabled" "")
    else
      let target := targetFor e action in
      if isProtected eng e target then (eng, alert_plan eng "protected_target" target)
      else if rp_RequireRoot cfg && negb (sy_euid sys =? 0) && negb (action =s? ActionAlertOnly)
      then (eng, alert_plan eng "require_root" target)
      else
        let '(eng, ok) := rateLimitOK eng action now in
        if negb ok then (eng, alert_plan eng "rate_limited" target)
        else (eng, mkPlan action (mode eng) "policy_match" target).

(** * The execution *)

Definition set_response (e : Event) (rc : ResponseContext) : Event := e <| ev_Response := Some rc |>.

(** The effects of an action that is neither alert-only nor audited; [None]
    for an action the switch does not know. *)
Definition perform (sys : System) (eng : Engine) (plan : Plan) (e : Event) : option act :=
  if pl_Action plan =s? ActionQuarantineFile then Some (quarantineFile sys eng e (pl_Target plan))
  else if pl_Action plan =s? ActionKillProcess then Some (killProcess sys (pl_Target plan))
  else if pl_Action plan =s? ActionIsolateHost then Some (isolateHost sys (eg_cfg eng))
  else None.

Definition Apply_plan (sys : System) (eng : Engine) (plan : Plan) (e : Event) (observedAt now : Time)
  : Engine * Event * list effect :=
  let latency := if time_is_zero observedAt then 0 else dur_milliseconds (time_sub now observedAt) in
  let rc := mkResponseContext (pl_Action plan) (pl_Mode plan) "" (pl_Reason plan) (pl_Target plan) latency in
  let e0 := set_response e rc in
  if pl_Action plan =s? ActionAlertOnly then
    (eng, set_response e0 (rc <| rc_Result := ResultSkipped |>), [])
  else if pl_Mode plan =s? ModeAudit then
    (eng, set_response e0 (rc <| rc_Result := ResultAuditLogged |>), [])
  else
    match perform sys eng plan e0 with
    | None => (eng, set_response e0 (rc <| rc_Result := ResultSkipped |>), [])
    | Some (effs, Err msg) =>
        (eng, set_response e0 (rc <| rc_Result := ResultDenied |>
                                  <| rc_Reason := pl_Reason plan +:+ ": " +:+ msg |>), effs)
    | Some (effs, Ok _) =>
        (recordRate eng (pl_Action plan) now,
         set_response e0 (rc <| rc_Result := ResultApplied |>), effs)
    end.
