(* ===== verification/RespondFacts.v ===== *)
(** Safety of active response ([Respond.v]): what must hold before the host is
    touched, what is never touched, and how often. *)
From Stdlib Require Import Sorting.Sorted.
From S2P Require Export Respond Limiter.

(** One event through the Act phase: the decision at [td], the execution at
    [ta]. *)
Definition handle (sys : System) (eng : Engine) (e : Event) (rule : Rule) (observedAt td ta : Time)
  : Engine * Event * list effect :=
  let '(eng, plan) := Decide sys eng e rule td in Apply_plan sys eng plan e observedAt ta.

(** The action a rule asks for, or the default for the event. *)
Definition chosen_action (e : Event) (rule : Rule) : string :=
  if rr_Action (ru_Response rule) =s? "" then defaultAction e else rr_Action (ru_Response rule).

(** Every condition the policy puts before an active response. *)
Definition gates (sys : System) (eng : Engine) (e : Event) (rule : Rule) : Prop :=
  let cfg := eg_cfg eng in
  rp_Enabled cfg = true ∧ rp_KillSwitch cfg = false ∧ rp_Mode cfg = ModeEnforce ∧
  ev_LearningOnly e = false ∧ rp_MinConfidence cfg ≤ ev_Confidence e ∧
  severityAtLeast (ev_Severity e) (rp_MinSeverity cfg) = true ∧
  chosen_action e rule ≠ ActionAlertOnly ∧ actionEnabled eng (chosen_action e rule) = true ∧
  isProtected eng e (targetFor e (chosen_action e rule)) = false ∧
  (rp_RequireRoot cfg = true → sy_euid sys = 0).

Lemma rateLimitOK_cfg eng a now :
  eg_cfg (rateLimitOK eng a now).1 = eg_cfg eng ∧ eg_vault (rateLimitOK eng a now).1 = eg_vault eng.
Proof. unfold rateLimitOK. by destruct (_ || _). Qed.

Ltac alert_only_case := split; [done|]; split; [done|]; split; [done|]; by left.

(** The decision: either alert-only, or the chosen action behind its gates. *)
Lemma Decide_cases sys eng e rule td :
  let '(eng1, plan) := Decide sys eng e rule td in
  eg_cfg eng1 = eg_cfg eng ∧ eg_vault eng1 = eg_vault eng ∧ pl_Mode plan = mode eng ∧
  (pl_Action plan = ActionAlertOnly ∨
   pl_Action plan = chosen_action e rule ∧ pl_Target plan = targetFor e (chosen_action e rule) ∧
   pl_Reason plan = "policy_match" ∧
   eng1 = (rateLimitOK eng (chosen_action e rule) td).1 ∧
   (rateLimitOK eng (chosen_action e rule) td).2 = true ∧
   (chosen_action e rule ≠ ActionAlertOnly → mode eng = ModeEnforce → gates sys eng e rule)).
Proof.
  unfold Decide, gates, chosen_action. cbv zeta.
  destruct (rp_Enabled (eg_cfg eng)), (rp_KillSwitch (eg_cfg eng)); cbn; try alert_only_case.
  destruct (ev_LearningOnly e); [alert_only_case|].
  destruct (Z.ltb_spec (ev_Confidence e) (rp_MinConfidence (eg_cfg eng))); [alert_only_case|].
  destruct (severityAtLeast _ _) eqn:Es; cbn; [|alert_only_case].
  set (a := if _ =s? "" then _ else _). destruct (actionEnabled eng a) eqn:Ea; cbn; [|alert_only_case].
  destruct (isProtected eng e (targetFor e a)) eqn:Ep; [alert_only_case|].
  destruct (rp_RequireRoot (eg_cfg eng)) eqn:Er, (Z.eqb_spec (sy_euid sys) 0);
    cbn; try (destruct (String.eqb_spec a ActionAlertOnly); cbn; [|alert_only_case]).
  all: pose proof (rateLimitOK_cfg eng a td) as [Hc Hv].
  all: destruct (rateLimitOK eng a td) as [eng1 ok] eqn:Erl; cbn in *.
  all: assert (mode eng1 = mode eng) as Hmode by (unfold mode; by rewrite Hc).
  all: destruct ok; cbn; rewrite ?Hmode; [|split_and!; try done; by left].
  all: split_and!; try done; right; split_and!; try done.
  all: intros Ha Hm; unfold mode in Hm; destruct (String.eqb_spec (rp_Mode (eg_cfg eng)) ModeEnforce); [|done].
  all: split_and!; try done; lia.
Qed.

(** Executing a plan: no effects without an enforced, known action. *)
Lemma Apply_plan_cases sys eng plan e obs ta :
  let '(eng', e', effs) := Apply_plan sys eng plan e obs ta in
  ∃ rc, ev_Response e' = Some rc ∧ rc_Action rc = pl_Action plan ∧
    ((effs = [] ∧ eng' = eng ∧ (rc_Result rc = ResultSkipped ∨ rc_Result rc = ResultAuditLogged)) ∨
     (pl_Action plan ≠ ActionAlertOnly ∧ pl_Mode plan ≠ ModeAudit ∧
      ∃ e0 r, perform sys eng plan e0 = Some (effs, r) ∧ ev_Process e0 = ev_Process e ∧
        (is_ok r = true ∧ rc_Result rc = ResultApplied ∧ eng' = recordRate eng (pl_Action plan) ta ∨
         is_ok r = false ∧ rc_Result rc = ResultDenied ∧ eng' = eng))).
Proof.
  unfold Apply_plan. cbv zeta.
  destruct (String.eqb_spec (pl_Action plan) ActionAlertOnly); [eexists; split; [done|]; naive_solver|].
  destruct (String.eqb_spec (pl_Mode plan) ModeAudit); [eexists; split; [done|]; naive_solver|].
  destruct (perform _ _ _ _) as [[effs [u|msg]]|] eqn:Ep; eexists; (split; [done|]); (split; [done|]).
  - right. split; [done|]. split; [done|]. eexists _, (Ok u). split; [exact Ep|]. split; [done|]. by left.
  - right. split; [done|]. split; [done|]. eexists _, (Err msg). split; [exact Ep|]. split; [done|]. by right.
  - left. by auto.
Qed.

Lemma mode_enforce eng : mode eng ≠ ModeAudit → mode eng = ModeEnforce.
Proof. unfold mode. by destruct (_ =s? _). Qed.

(** The effects of one event come from performing the chosen action. *)
Lemma handle_effects sys eng e rule obs td ta eng' e' effs :
  handle sys eng e rule obs td ta = (eng', e', effs) → effs ≠ [] →
  gates sys eng e rule ∧
  (∃ rc, ev_Response e' = Some rc ∧ (rc_Result rc = ResultApplied ∨ rc_Result rc = ResultDenied)) ∧
  ∃ eng1 plan e0 r, perform sys eng1 plan e0 = Some (effs, r) ∧
    pl_Action plan = chosen_action e rule ∧ pl_Target plan = targetFor e (chosen_action e rule) ∧
    eg_cfg eng1 = eg_cfg eng.
Proof.
  unfold handle. intros Hh Hne. pose proof (Decide_cases sys eng e rule td) as Hd.
  destruct (Decide sys eng e rule td) as [eng1 plan]. destruct Hd as (Hc & Hv & Hm & Hact).
  pose proof (Apply_plan_cases sys eng1 plan e obs ta) as Ha. rewrite Hh in Ha.
  destruct Ha as (rc & Hrc & Hrca & [(-> & _)|(Hna & Hnm & e0 & r & Hp & Hpe & Hres)]); [done|].
  destruct Hact as [?|(Hpa & Hpt & _ & _ & _ & Hg)]; [done|].
  rewrite Hm in Hnm. apply mode_enforce in Hnm. rewrite Hpa in Hna.
  split; [by apply Hg|]. split; [|by exists eng1, plan, e0, r].
  exists rc. split; [done|]. naive_solver.
Qed.

(** C2: The host is touched only when every gate of the policy is open: active
    response enabled and not switched off, enforce mode, an event that is not
    learning-only and reaches the confidence and severity thresholds, an action
    the operator allowed, an unprotected target, and root when required.  The
    event then says whether the action was applied or denied. *)
Theorem act_only_through_gates sys eng e rule obs td ta :
  let '(_, e', effs) := handle sys eng e rule obs td ta in
  effs = [] ∨
  gates sys eng e rule ∧
  ∃ rc, ev_Response e' = Some rc ∧ (rc_Result rc = ResultApplied ∨ rc_Result rc = ResultDenied).
Proof.
  destruct (handle sys eng e rule obs td ta) as [[eng' e'] effs] eqn:Hh.
  destruct (decide (effs = [])) as [|Hne]; [by left|right].
  - destruct (handle_effects _ _ _ _ _ _ _ _ _ _ Hh Hne) as (Hg & Hr & _). done.
Qed.

(** * What is killed *)

(** The target of a pid reads back as that pid. *)
Lemma parsePIDTarget_target pid : 0 < pid ≤ int64_max → parsePIDTarget (pid_target pid) = Ok pid.
Proof.
  intros Hp. unfold parsePIDTarget, pid_target.
  assert (Htrim : trim_space ("pid:" +:+ itoa pid) = "pid:" +:+ itoa pid).
  { apply trim_none. rewrite sforall_app. apply andb_true_iff. split; [done|].
    eapply sforall_impl; [|by apply itoa_digits; lia]. intros c Hc. by rewrite digit_not_space. }
  rewrite Htrim. unfold trim_prefix. rewrite has_prefix_app, sdrop_app.
  rewrite trim_space_itoa, atoi_itoa by lia. cbn. by rewrite (proj2 (Z.leb_gt pid 0)) by lia.
Qed.

Lemma perform_kill sys eng plan e effs r pid :
  perform sys eng plan e = Some (effs, r) → EKill pid ∈ effs →
  pl_Action plan = ActionKillProcess ∧ 1 < pid ∧ parsePIDTarget (pl_Target plan) = Ok pid.
Proof.
  assert (Hipt : ∀ cmds k, EKill k ∈ (run_until_error sys cmds).1 → False).
  { intros cmds k. induction cmds as [|c cmds IH]; cbn; [by intros ?%elem_of_nil|].
    destruct (sy_iptables sys c).
    - destruct (run_until_error sys cmds) as [l r']. cbn in *. rewrite elem_of_cons. by intros [|]; auto.
    - cbn. rewrite elem_of_cons. intros [|H]; [done|by apply elem_of_nil in H]. }
  unfold perform. destruct (String.eqb_spec (pl_Action plan) ActionQuarantineFile).
  { unfold quarantineFile. intros [= He]. destruct (_ || _); injection He as <- <-.
    - by intros ?%elem_of_nil.
    - rewrite elem_of_cons. intros [|H]; [done|by apply elem_of_nil in H]. }
  destruct (String.eqb_spec (pl_Action plan) ActionKillProcess) as [Hk|].
  { unfold killProcess. intros [= He]. destruct (parsePIDTarget (pl_Target plan)) as [k|] eqn:Epid.
    - destruct (Z.leb_spec k 1); injection He as <- <-; [by intros ?%elem_of_nil|].
      rewrite elem_of_cons. intros [[= <-]|H']; [done|by apply elem_of_nil in H'].
    - injection He as <- <-. by intros ?%elem_of_nil. }
  destruct (_ =s? _); [|done]. intros [= He] Hin. exfalso. revert He Hin. unfold isolateHost.
  pose proof (Hipt loopback_rules pid) as H1. pose proof (Hipt drop_rules pid) as H2.
  destruct (run_until_error sys loopback_rules) as [l [u|m]].
  - destruct (run_until_error sys drop_rules) as [d rd]. intros He. apply (f_equal fst) in He. cbn [fst] in He.
    rewrite <-He. rewrite !elem_of_app. intros [H|[H|H]]; [auto| |auto].
    apply list_elem_of_In, in_map_iff in H as (? & ? & _). done.
  - intros [= <- <-]. auto.
Qed.


(** An enforcing policy and a system that accepts everything. *)
Definition demo_cfg : ResponseConfig :=
  zero_ResponseConfig <| rp_Enabled := true |> <| rp_Mode := "enforce" |>
    <| rp_AllowKillProcess := true |> <| rp_ProtectedPIDs := [1; 500] |>
    <| rp_ProtectedComms := ["sshd"] |>.

Definition demo_system : System :=
  mkSystem 0 (λ _, Ok tt) (λ _, Ok tt) (λ _ _, Ok "vault").

Definition demo_process (pid : Z) (comm : string) : ProcessContext :=
  mkProcessContext pid 1 comm [] "" 0 0 "" [] "" "".

Definition kill_rule : Rule := zero_Rule <| ru_Response := mkRuleResponse "kill_process" |>.


(** The protected-pid list is compared as text: without a process context,
    an entity identifier that spells a protected pid differently passes the
    check and the protected process is killed. *)
Theorem protected_pid_bypass :
  let e := zero_Event <| ev_Entity := mkEntity EntityProcess "0500" "" "" |> in
  let '(_, _, effs) := handle demo_system (NewEngine (Some demo_cfg) false) e kill_rule 0 5 6 in
  (500 ∈ rp_ProtectedPIDs demo_cfg) ∧ effs = [EKill 500].
Proof. vm_compute. split; [|reflexivity]. right. left. Qed.

(** * Isolation *)

(** Commands issued by [run_until_error]: a prefix, complete when it succeeds. *)
Lemma run_until_error_prefix sys cmds :
  ∃ k, (run_until_error sys cmds).1 = map EIptables (take k cmds) ∧
    ((run_until_error sys cmds).2 = Ok tt → take k cmds = cmds ∧ Forall (λ c, is_ok (sy_iptables sys c) = true) cmds).
Proof.
  induction cmds as [|c cmds (k & H1 & H2)]; [by exists O|]. cbn.
  destruct (sy_iptables sys c) as [[]|msg] eqn:Ec.
  - destruct (run_until_error sys cmds) as [l r]. cbn in *. exists (S k). cbn. rewrite H1. split; [done|].
    intros Hr. destruct (H2 Hr) as [-> Hf]. split; [done|]. constructor; [by rewrite Ec|done].
  - exists 1%nat. cbn. by rewrite take_0.
Qed.

Lemma take_app_all {A} (l k : list A) n : take (length l + n) (l ++ k) = l ++ take n k.
Proof. induction l as [|a l IH]; [done|]. cbn. by rewrite IH. Qed.

(** Isolation never cuts the host off before its exceptions are in place:
    the commands issued are an initial part of the loopback rules, then the
    rules of every allowed block, then the DROP rules; anything after the
    loopback rules requires both of them to have been accepted, and success
    means that the whole sequence was issued. *)
Theorem isolate_order sys cfg :
  let allowed := concat (map allow_rules (["127.0.0.0/8"; "::1/128"] ++ rp_IsolationAllowlistCIDRs cfg)) in
  let commands := loopback_rules ++ allowed ++ drop_rules in
  ∃ k, (isolateHost sys cfg).1 = map EIptables (take k commands) ∧
    ((2 < k)%nat → Forall (λ r, is_ok (sy_iptables sys r) = true) loopback_rules) ∧
    ((isolateHost sys cfg).2 = Ok tt → take k commands = commands).
Proof.
  intros allowed commands. unfold isolateHost. fold allowed.
  destruct (run_until_error_prefix sys loopback_rules) as (k & H1 & H2).
  destruct (run_until_error sys loopback_rules) as [l [[]|msg]]; cbn [fst snd] in *.
  - destruct (H2 eq_refl) as [Hk Hf]. rewrite Hk in H1. subst l.
    destruct (run_until_error_prefix sys drop_rules) as (j & H3 & H4).
    destruct (run_until_error sys drop_rules) as [d r]; cbn [fst snd] in *. subst d.
    exists (length loopback_rules + (length allowed + j))%nat. unfold commands.
    rewrite !take_app_all, !map_app. split; [done|]. split; [done|].
    intros Hr. by destruct (H4 Hr) as [-> _].
  - exists (k `min` 2)%nat. split; [|split; [lia|done]]. subst l. unfold commands.
    f_equal. rewrite take_app_le by (cbn; lia). destruct k as [|[|[|k]]]; done.
Qed.

(** * How often *)

Record step := mkStep {
  s_event : Event; s_rule : Rule; s_observed : Time; s_decided : Time; s_acted : Time
}.

Definition do_step (sys : System) (eng : Engine) (s : step) : Engine * Event * list effect :=
  handle sys eng (s_event s) (s_rule s) (s_observed s) (s_decided s) (s_acted s).

(** When actions of kind [a] were applied along a run. *)
Fixpoint applied (sys : System) (a : string) (eng : Engine) (ss : list step) : Engine * list Time :=
  match ss with
  | [] => (eng, [])
  | s :: ss =>
      let '(eng1, e', _) := do_step sys eng s in
      let '(eng2, ts) := applied sys a eng1 ss in
      let hit := match ev_Response e' with
                 | Some rc => (rc_Action rc =s? a) && (rc_Result rc =s? ResultApplied)
                 | None => false
                 end in
      (eng2, if hit then s_acted s :: ts else ts)
  end.

Definition clock_ok (ss : list step) : Prop :=
  StronglySorted Z.le (concat (map (λ s, [s_decided s; s_acted s]) ss)).

Definition limits_of (eng : Engine) (a : string) : list Time := default [] (eg_limits eng !! a).

(** The stored times are the applied ones, less some that are too old. *)
Definition limits_inv (eng : Engine) (a : string) (acc : list Time) (now : Time) : Prop :=
  ∃ c, c ≤ now - minute ∧ limits_of eng a = List.filter (λ t, c <? t) acc.

Lemma filter_filter_time c c' l :
  c ≤ c' → List.filter (λ t, c' <? t) (List.filter (λ t, c <? t) l) = List.filter (λ t, c' <? t) l.
Proof.
  intros Hc. induction l as [|t l IH]; [done|]. cbn.
  destruct (Z.ltb_spec c t); cbn; rewrite IH; [done|]. by destruct (Z.ltb_spec c' t); [lia|].
Qed.

Lemma limits_inv_later eng a acc now now' :
  now ≤ now' → limits_inv eng a acc now → limits_inv eng a acc now'.
Proof. intros Hle (c & Hc & Hl). exists c. split; [lia|done]. Qed.

Lemma rateLimitOK_spec eng x a acc now :
  0 < rp_RateLimitPerActionPerMin (eg_cfg eng) → limits_inv eng a acc now →
  limits_inv (rateLimitOK eng x now).1 a acc now ∧
  ((rateLimitOK eng x now).2 = true → x = a → a ≠ ActionAlertOnly →
     Z.of_nat (length (List.filter (λ t, now - minute <? t) acc)) < rp_RateLimitPerActionPerMin (eg_cfg eng)).
Proof.
  intros Hlim (c & Hc & Hl). unfold rateLimitOK. rewrite (proj2 (Z.leb_gt _ _) Hlim). cbn [orb].
  destruct (String.eqb_spec x ActionAlertOnly) as [Hx|Hx].
  { cbn. split; [by exists c|]. by intros _ -> ?. }
  cbn [fst snd]. unfold time_add, time_after.
  replace (now + - minute) with (now - minute) by lia.
  change (default [] (eg_limits eng !! x)) with (limits_of eng x). split.
  - destruct (decide (x = a)) as [->|Hne].
    + exists (now - minute). split; [done|]. unfold limits_of at 1. cbn. rewrite lookup_insert_eq. cbn.
      by rewrite Hl, filter_filter_time by lia.
    + exists c. split; [done|]. rewrite <-Hl. unfold limits_of. cbn. by rewrite lookup_insert_ne.
  - intros Hok -> _. rewrite Hl, filter_filter_time in Hok by lia. by apply Z.ltb_lt.
Qed.

Lemma recordRate_spec eng x a acc now :
  0 < rp_RateLimitPerActionPerMin (eg_cfg eng) → limits_inv eng a acc now →
  limits_inv (recordRate eng x now) a (if x =s? a then acc ++ [now] else acc) now.
Proof.
  intros Hlim (c & Hc & Hl). unfold recordRate. rewrite (proj2 (Z.leb_gt _ _) Hlim).
  exists c. split; [done|]. unfold limits_of. cbn. destruct (String.eqb_spec x a) as [->|Hne].
  - rewrite lookup_insert_eq. cbn. fold (limits_of eng a). rewrite Hl, List.filter_app. cbn.
    rewrite (proj2 (Z.ltb_lt c now)); [done|]. unfold minute, second in *. lia.
  - by rewrite lookup_insert_ne.
Qed.

Lemma Decide_engine sys eng e rule now :
  (Decide sys eng e rule now).1 = eng ∨
  (Decide sys eng e rule now).1 = (rateLimitOK eng (chosen_action e rule) now).1.
Proof.
  unfold Decide, chosen_action. cbv zeta.
  repeat match goal with
  | |- context [if ?b then (eng, _) else _] => destruct b; [by left|]
  end.
  right. destruct (rateLimitOK eng _ now) as [e1 []]; done.
Qed.

(** One event: the table stays accurate, and an applied action was under the
    limit when it was decided. *)
Lemma do_step_spec sys eng s a acc now :
  0 < rp_RateLimitPerActionPerMin (eg_cfg eng) → limits_inv eng a acc now →
  now ≤ s_decided s → s_decided s ≤ s_acted s →
  let '(eng', e', _) := do_step sys eng s in
  let hit := match ev_Response e' with
             | Some rc => (rc_Action rc =s? a) && (rc_Result rc =s? ResultApplied)
             | None => false
             end in
  eg_cfg eng' = eg_cfg eng ∧
  limits_inv eng' a (if hit then acc ++ [s_acted s] else acc) (s_acted s) ∧
  (hit = true →
     Z.of_nat (length (List.filter (λ t, s_decided s - minute <? t) acc))
     < rp_RateLimitPerActionPerMin (eg_cfg eng)).
Proof.
  intros Hlim Hinv Hd Ha. unfold do_step, handle.
  pose proof (Decide_cases sys eng (s_event s) (s_rule s) (s_decided s)) as Hdec.
  destruct (Decide sys eng (s_event s) (s_rule s) (s_decided s)) as [eng1 plan] eqn:Ed.
  destruct Hdec as (Hc & _ & Hm & Hcase).
  assert (Hinv1 : limits_inv eng1 a acc (s_decided s) ∧
    (pl_Action plan ≠ ActionAlertOnly → pl_Action plan = a →
      Z.of_nat (length (List.filter (λ t, s_decided s - minute <? t) acc))
      < rp_RateLimitPerActionPerMin (eg_cfg eng))).
  { apply (limits_inv_later _ _ _ _ (s_decided s)) in Hinv; [|done].
    pose proof (rateLimitOK_spec eng (chosen_action (s_event s) (s_rule s)) a acc (s_decided s) Hlim Hinv) as [H1 H2].
    destruct Hcase as [Hal|(Hpa & _ & _ & -> & Hok & _)].
    - split; [|done]. destruct (Decide_engine sys eng (s_event s) (s_rule s) (s_decided s)) as [He|He];
        rewrite Ed in He; cbn [fst] in He; by rewrite He.
    - split; [done|]. rewrite Hpa. intros Hn Heq. rewrite Heq in *. by apply H2. }
  destruct Hinv1 as [Hinv1 Hunder].
  pose proof (Apply_plan_cases sys eng1 plan (s_event s) (s_observed s) (s_acted s)) as Hap.
  destruct (Apply_plan _ _ _ _ _ _) as [[eng2 e'] effs].
  destruct Hap as (rc & -> & -> & [(_ & -> & Hr)|(Hna & _ & e0 & r & _ & _ & [(_ & -> & ->)|(_ & -> & ->)])]).
  - replace ((pl_Action plan =s? a) && (rc_Result rc =s? ResultApplied)) with false;
      [|by destruct Hr as [-> | ->]; rewrite andb_false_r].
    split; [done|]. split; [|done]. eapply limits_inv_later; [|done]. done.
  - change (ResultApplied =s? ResultApplied) with true. rewrite andb_true_r.
    split; [unfold recordRate; by case_match|]. split.
    + apply recordRate_spec; [by rewrite Hc|]. eapply limits_inv_later; [|done]. done.
    + intros Heq%String.eqb_eq. by apply Hunder.
  - change (ResultDenied =s? ResultApplied) with false. rewrite andb_false_r.
    split; [done|]. split; [|done]. eapply limits_inv_later; [|done]. done.
Qed.

Lemma applied_within sys a ss eng acc now :
  0 < rp_RateLimitPerActionPerMin (eg_cfg eng) → limits_inv eng a acc now →
  Forall (λ x, x ≤ now) acc → (∀ t, within minute t acc ≤ rp_RateLimitPerActionPerMin (eg_cfg eng)) →
  Forall (λ s, now ≤ s_decided s ∧ s_decided s ≤ s_acted s) ss → clock_ok ss →
  ∀ t, within minute t (acc ++ (applied sys a eng ss).2) ≤ rp_RateLimitPerActionPerMin (eg_cfg eng).
Proof.
  revert eng acc now. induction ss as [|s ss IH]; intros eng acc now Hlim Hinv Hacc Hw Hss Hclock t.
  { by rewrite app_nil_r. }
  inversion_clear Hss as [|? ? [Hnd Hda] Hss'].
  unfold clock_ok in Hclock. cbn in Hclock.
  inversion_clear Hclock as [|? ? Hc1 Hf1]. inversion_clear Hc1 as [|? ? Hc2 Hf2].
  assert (Hnext : Forall (λ s', s_acted s ≤ s_decided s' ∧ s_decided s' ≤ s_acted s') ss).
  { clear -Hf2 Hss'. induction ss as [|x l IH]; constructor; cbn in Hf2;
      inversion_clear Hss' as [|? ? [Hx1 Hx2] Hl]; inversion_clear Hf2 as [|? ? Hy1 Hf].
    - done.
    - inversion_clear Hf. by apply IH. }
  pose proof (do_step_spec sys eng s a acc now Hlim Hinv Hnd Hda) as Hs. cbn [applied].
  destruct (do_step sys eng s) as [[eng1 e'] effs]. cbv zeta in Hs.
  set (hit := match ev_Response e' with Some _ => _ | None => _ end) in *.
  destruct Hs as (Hcfg & Hinv1 & Hunder).
  assert (Hacc1 : Forall (λ x, x ≤ s_acted s) (if hit then acc ++ [s_acted s] else acc)).
  { assert (Forall (λ x, x ≤ s_acted s) acc) by (eapply List.Forall_impl; [|exact Hacc]; cbn; intros; lia).
    destruct hit; [|done]. apply Forall_app; split; [done|]. by constructor. }
  assert (Hw1 : ∀ u, within minute u (if hit then acc ++ [s_acted s] else acc)
                     ≤ rp_RateLimitPerActionPerMin (eg_cfg eng1)).
  { intros u. rewrite Hcfg. destruct hit; [|apply Hw]. rewrite within_app.
    destruct (_ && _) eqn:Eu; [|specialize (Hw u); lia]. specialize (Hunder eq_refl).
    enough (within minute u acc ≤ Z.of_nat (length (List.filter (λ x, s_decided s - minute <? x) acc))) by lia.
    unfold within. apply Nat2Z.inj_le, filter_le. intros y _ Hy.
    apply andb_true_iff in Hy, Eu. rewrite !Z.ltb_lt, !Z.leb_le in *. lia. }
  specialize (IH eng1 _ _ ltac:(by rewrite Hcfg) Hinv1 Hacc1 Hw1 Hnext Hc2 t).
  destruct (applied sys a eng1 ss) as [eng2 ts]. cbn [snd] in *. rewrite Hcfg in IH.
  destruct hit; [|done]. by rewrite <-app_assoc in IH.
Qed.


