(* ===== verification/Runner.v ===== *)
(** [internal/runner/runner.go]: the agent's main object.

    Every event, from a scan or from a sensor, goes through [processEvent]:
    orient (enrich, taxonomy, kill-chain phase), decide (the rule's expression,
    correlation), act (the response engine), and the gates in front of [emit].

    The state of a [Runner] is threaded; what it does to the outside is a list
    of outputs.  The clock readings of one call, and what the host and the
    spool's disk answer during it, are an [Env].  The encoders of
    [encoding/json] and [gopkg.in/yaml.v3] are parameters.  Logging is left
    out; the counters of [internal/budget] are in [Reports], the loops that call
    these handlers in [Loops]. *)
From S2P Require Export Correlation Limiter Spool Live Privesc Ioc Respond GoRegexp.

Definition AgentVersion : string := "0.2.0".

(** A sink's [Send]: the answer says whether it fails. *)
Abbreviation Sink := (Event → string → bool).

Record Runner := mkRunner {
  rn_cfg : Config;
  rn_pack : Pack;
  rn_syslog : option Sink;
  rn_lastDedup : table;
  rn_dedupOps : Z;
  rn_limiter : Limiter;
  rn_spool : option Spool;
  rn_feed : Feed;
  rn_correlator : correlator;
  rn_sinks : list Sink;
  rn_vault : bool;
  rn_responder : option Engine;
  rn_privesc : Tracker;
  rn_cache : Cache;
  rn_lastNetworkScan : Time;
  rn_mapping : option Mapping   (* the process-wide mapping of [internal/taxonomy] *)
}.

#[export] Instance eta_Runner : Eta Runner := λ r,
  mkRunner (rn_cfg r) (rn_pack r) (rn_syslog r) (rn_lastDedup r) (rn_dedupOps r) (rn_limiter r) (rn_spool r)
    (rn_feed r) (rn_correlator r) (rn_sinks r) (rn_vault r) (rn_responder r) (rn_privesc r) (rn_cache r)
    (rn_lastNetworkScan r) (rn_mapping r).

(** What the runner does to the outside. *)
Inductive output :=
| OLine (line : string)            (* a line on standard output *)
| OSyslog (line : string)          (* the legacy UDP client *)
| OSink (i : nat) (line : string)
| OSpool (line : string)           (* an append to the spool *)
| OHost (eff : effect).            (* an effect on the host *)

Record Env := mkEnv {
  ex_sys : System;
  ex_decide : Time;
  ex_apply : Time;
  ex_check : Time;    (* [shouldDedup]: the window test, the store, the pruning *)
  ex_store : Time;
  ex_prune : Time;
  ex_limit : Time;
  ex_faults : nat → Faults  (* the disk during the n-th append of an emission *)
}.

(** A detector of a scan. *)
Abbreviation Detector := (Config → Snapshot → Pack → result (list Event)).

(** * Orient *)

Definition minInt (a b : Z) : Z := if a <? b then a else b.

Definition netParseIP : string → option IP := ParseIP.

Section host.
Context `{FileReader} `{DirReader} `{LinkReader}.

Definition enrich_process (e : Event) : Event :=
  if negb (en_Type (ev_Entity e) =s? EntityProcess) then e
  else
    let '(pid, ok) := atoi (en_ID (ev_Entity e)) in
    if negb ok || negb (0 <? pid) then e
    else
      let e :=
        match ReadCgroup pid with
        | (cg, true) =>
            let info := Classify cg in
            if negb (CInfo_IsZero info)
            then e <| ev_Container := Some (mkContainerContext (ci_Runtime info) (ci_ID info) (ci_PodUID info)) |>
            else e
        | (_, false) => e
        end in
      match ReadStatus pid with
      | (_, false) => e
      | (st, true) =>
          let ai := FromPID pid in
          let e := e <| ev_Process := Some (mkProcessContext pid (fst (PPid pid)) (fst (Procfs.Comm pid))
                          (fst (Cmdline pid)) (ResolveExe pid) (st_RealUID st) (st_EffUID st) (st_CapEff st)
                          (Ancestry pid 6) (ai_CgroupPath ai) (ai_SystemdUnit ai)) |> in
          if ev_Anchor e =s? "" then e <| ev_Anchor := ai_Anchor ai |> else e
      end.

Definition raise (e : Event) (m : string) (by_ : Z) : Event :=
  e <| ev_IOCMatches := ev_IOCMatches e ++ [m] |>
    <| ev_Confidence := minInt 100 (wrap64 (ev_Confidence e + by_)) |>.

Definition enrich_hash (feed : Feed) (e : Event) : Event :=
  if (en_Type (ev_Entity e) =s? EntityFile) && negb (en_ID (ev_Entity e) =s? "") &&
     MatchHash (Some feed) (en_ID (ev_Entity e))
  then raise e ("hash:" +:+ en_ID (ev_Entity e)) 10 else e.

Definition enrich_ip (feed : Feed) (e : Event) : Event :=
  match ev_Network e with
  | None => e
  | Some n =>
      if nc_RemoteIP n =s? "" then e
      else match netParseIP (nc_RemoteIP n) with
           | Some ip => if MatchIP (Some feed) ip then raise e ("ip:" +:+ nc_RemoteIP n) 25 else e
           | None => e
           end
  end.

Definition enrich (r : Runner) (e : Event) : Event :=
  enrich_ip (rn_feed r) (enrich_hash (rn_feed r) (enrich_process e)).

Definition orient (r : Runner) (e : Event) : Event :=
  let e := Apply (rn_mapping r) (enrich r e) in
  let '(override, e) :=
    match ByID (rn_pack r) (ev_RuleID e) with
    | None => ("", e)
    | Some rule =>
        (ru_KillChainPhase rule,
         e <| ev_Macro := fill (ev_Macro e) (ru_Macro rule) |>
           <| ev_Micro := fill (ev_Micro e) (ru_Micro rule) |>
           <| ev_Src := fill (ev_Src e) (ru_Src rule) |>
           <| ev_Type := fill (ev_Type e) (ru_Type rule) |>
           <| ev_ConfBand := fill (ev_ConfBand e) (ru_Conf rule) |>)
    end in
  e <| ev_KillChainPhase := PhaseFor (ev_Tactic e) override |>
    <| ev_DefenseLayer := DefenseLayerEndpoint |>.

(** * Decide *)

Definition factsFromEvent (e : Event) : EventFacts :=
  let '(comm, uid, euid) := match ev_Process e with
                            | Some p => (pc_Comm p, pc_UID p, pc_EUID p)
                            | None => ("", 0, 0) end in
  mkEventFacts (ev_RuleID e) (ev_Tactic e) (ev_Confidence e) (ev_Severity e) (ev_KillChainPhase e)
    (en_Path (ev_Entity e)) (en_ID (ev_Entity e)) comm uid euid
    (match ev_Container e with Some c => cc_Runtime c | None => "" end) (ev_Signals e) (ev_TechniqueIDs e).

(** [e.Confidence += boost], at most 100, and the signal that says why. *)
Definition add_boost (e : Event) (boost : Z) (sig : string) : Event :=
  let c := wrap64 (ev_Confidence e + boost) in
  e <| ev_Confidence := if 100 <? c then 100 else c |> <| ev_Signals := ev_Signals e ++ [sig] |>.

(** The rule's expression; an error counts as false. *)
Definition expr_holds (rule : Rule) (e : Event) : bool :=
  match Eval (CompiledExpr rule) (factsFromEvent e) with Ok b => b | Err _ => false end.

Definition decide_rule (r : Runner) (rule : Rule) (e : Event) (now : Time) : Event :=
  let e := if negb (expr_holds rule e) && negb (ev_LearningOnly e) then e <| ev_LearningOnly := true |> else e in
  let boost := matchBoost (rn_correlator r) e rule now in
  let e := if 0 <? boost then add_boost e boost "correlation_boost" else e in
  let '(e, boost) := matchChain (rn_correlator r) e now in
  if 0 <? boost then add_boost e boost ("chain:" +:+ ev_ChainID e) else e.

(** * Emit *)

Definition shouldSOCEscalate (e : Event) : bool :=
  (ev_Severity e =s? SeverityHigh) || (ev_Severity e =s? SeverityCritical) ||
  match ev_Response e with
  | Some rc => negb (rc_Action rc =s? "") && negb (rc_Action rc =s? ActionAlertOnly)
  | None => false
  end.

(** One delivery: on failure the line goes to the spool, if there is one. *)
Definition deliver (ft : nat → Faults) (fails : bool) (line : string) (st : option Spool * nat)
  : option Spool * nat * list output :=
  let '(sp, n) := st in
  if fails then
    match sp with
    | Some s => (Some (fst (Append (ft n) s line)), S n, [OSpool line])
    | None => (None, n, [])
    end
  else (sp, n, []).

(** The sinks in order; [i] is the index of the first. *)
Fixpoint send_all (ft : nat → Faults) (i : nat) (sinks : list Sink) (e : Event) (line : string)
  (st : option Spool * nat) : option Spool * nat * list output :=
  match sinks with
  | [] => (fst st, snd st, [])
  | s :: sinks =>
      let '(sp, n, o) := deliver ft (s e line) line st in
      let '(sp, n, os) := send_all ft (S i) sinks e line (sp, n) in
      (sp, n, OSink i line :: o ++ os)
  end.

Variable json_line : Event → option string.

(** The quarantine that runs when the response engine is off. *)
Definition legacy_quarantine (r : Runner) (e : Event) : bool :=
  negb (rp_Enabled (cfg_Respond (rn_cfg r))) && rn_vault r && (en_Type (ev_Entity e) =s? EntityFile) &&
  negb (en_Path (ev_Entity e) =s? "") && negb (ev_LearningOnly e) &&
  (cfg_QuarantineMinConfidence (rn_cfg r) <=? ev_Confidence e) &&
  (0 <? cfg_QuarantineMinConfidence (rn_cfg r)).

Definition emit (env : Env) (r : Runner) (e : Event) : Runner * Event * list output :=
  let e := e <| ev_DefenseLayer := DefenseLayerEndpoint |> in
  let e := e <| ev_SOCEscalate := shouldSOCEscalate e |> in
  match json_line e with
  | None => (r, e, [])
  | Some line =>
      let '(sp, n, o1) :=
        match rn_syslog r with
        | Some send => let '(sp, n, o) := deliver (ex_faults env) (send e line) line (rn_spool r, O) in
                       (sp, n, OSyslog line :: o)
        | None => (rn_spool r, O, [])
        end in
      let '(sp, _, o2) := send_all (ex_faults env) 0 (rn_sinks r) e line (sp, n) in
      (r <| rn_spool := sp |>, e,
       OLine line :: o1 ++ o2 ++
       (if legacy_quarantine r e then [OHost (EStore (en_Path (ev_Entity e)))] else []))
  end.

(** * The gates *)

Definition dedup_window (r : Runner) : Duration :=
  let w := cfg_ScanInterval (rn_cfg r) in if w <=? 0 then 5 * minute else w.

Definition pruneDedupLocked (m : table) (window : Duration) (now : Time) : table := prune window m now.

Definition shouldDedup (env : Env) (r : Runner) (key : string) : Runner * bool :=
  if key =s? "" then (r, false)
  else
    let window := dedup_window r in
    if blocked window (rn_lastDedup r) key (ex_check env) then (r, true)
    else
      let m := <[key := ex_store env]> (rn_lastDedup r) in
      let ops := wrapu 64 (rn_dedupOps r + 1) in
      let m := if (ops mod 64 =? 0) || (10000 <? Z.of_nat (size m))
               then pruneDedupLocked m window (ex_prune env) else m in
      (r <| rn_lastDedup := m |> <| rn_dedupOps := ops |>, false).

(** The response engine's turn. *)
Definition act_on (env : Env) (r : Runner) (e : Event) (rule : Rule) (observedAt : Time)
  : Runner * Event * list output :=
  match rn_responder r with
  | None => (r, e, [])
  | Some eng =>
      let '(eng, plan) := Decide (ex_sys env) eng e rule (ex_decide env) in
      let '(eng, e, effs) := Apply_plan (ex_sys env) eng plan e observedAt (ex_apply env) in
      (r <| rn_responder := Some eng |>, e, map OHost effs)
  end.

(** The event after orientation and the rule, and the rule. *)
Definition judged (r : Runner) (e : Event) (now : Time) : Event * Rule :=
  let e := orient r (NormalizeDedup e) in
  match ByID (rn_pack r) (ev_RuleID e) with
  | Some rule => (decide_rule r rule e now, rule)
  | None => (e, zero_Rule)
  end.

Definition processEvent (env : Env) (r : Runner) (e : Event) (observedAt now : Time)
  : Runner * Event * list output :=
  let '(e, rule) := judged r e now in
  let r := r <| rn_correlator := addFull (rn_correlator r) (ev_RuleID e) (en_ID (ev_Entity e)) (ev_Anchor e)
                                   (ev_ConfBand e) now |> in
  let '(r, e, acts) := act_on env r e rule observedAt in
  if ev_LearningOnly e then let '(r, e, o) := emit env r e in (r, e, acts ++ o)
  else if ev_Confidence e <? cfg_MinConfidenceAlert (rn_cfg r) then let '(r, e, o) := emit env r e in (r, e, acts ++ o)
  else
    let '(r, dup) := shouldDedup env r (ev_DedupKey e) in
    if dup then (r, e, acts)
    else
      let '(lim, ok) := Limiter.Allow (rn_limiter r) (ev_RuleID e) (ex_limit env) in
      let r := r <| rn_limiter := lim |> in
      if negb ok then (r, e, acts)
      else let '(r, e, o) := emit env r e in (r, e, acts ++ o).

(** The events of a scan, in order, each in its own environment. *)
Fixpoint process_all (envs : nat → Env) (r : Runner) (es : list Event) (now : Time) : Runner * list output :=
  match es with
  | [] => (r, [])
  | e :: es =>
      let '(r, _, o) := processEvent (envs O) r e 0 now in
      let '(r, os) := process_all (λ n, envs (S n)) r es now in (r, o ++ os)
  end.

(** * Scans *)

(** The detectors a scan calls.  [DefenseState] is [defense.ScanState]. *)
Record Detectors := mkDetectors {
  dt_integrity : Detector;
  dt_memorymaps : Detector;
  dt_network : Detector;
  dt_copyfail : Detector;
  dt_ancestry : Detector;
  dt_yara : option Detector;
  dt_recon : Detector;
  dt_persistence : Detector;
  dt_ldpreload : Detector;
  dt_web : Detector;
  dt_upload : Detector;
  dt_tamper : Detector;
  dt_fimextra : Detector
}.

Definition DefenseState (now : Time) : Detector := λ cfg snap pack, Ok (ScanState cfg snap pack AgentVersion now).

(** The events of a detector whose error is ignored. *)
Definition if_ok (res : result (list Event)) : list Event := ok_or [] res.

Definition collectFIM (dts : Detectors) (r : Runner) (snap : Snapshot) (now : Time) : result (list Event) :=
  let run (d : Detector) := d (rn_cfg r) snap (rn_pack r) in
  let? ev := run (dt_persistence dts) in
  let? ev2 := run (dt_ldpreload dts) in
  let? ev3 := run (dt_web dts) in
  Ok (ev ++ ev2 ++ ev3 ++ if_ok (run (dt_upload dts)) ++ if_ok (run (dt_tamper dts)) ++
      if_ok (run (dt_fimextra dts)) ++ if_ok (run (DefenseState now))).

Definition networkScanDue (r : Runner) (now : Time) : bool :=
  if negb (cfg_NetworkScanEnabled (rn_cfg r)) then false
  else
    let interval := cfg_NetworkScanInterval (rn_cfg r) in
    if (interval <=? 0) || time_is_zero (rn_lastNetworkScan r) then true
    else interval <=? time_sub now (rn_lastNetworkScan r).

(** A detector that runs only under a condition. *)
Definition run_if (b : bool) (d : Detector) (r : Runner) (snap : Snapshot) : result (list Event) :=
  if b then d (rn_cfg r) snap (rn_pack r) else Ok [].

(** The detectors after the network scan. *)
Definition scan_rest (dts : Detectors) (r : Runner) (snap : Snapshot) (now : Time) : result (list Event) :=
  let cfg := rn_cfg r in
  let? cf := run_if (cf_Enabled (cfg_CopyFail cfg)) (dt_copyfail dts) r snap in
  let? anc := run_if (cfg_AncestryScanEnabled cfg) (dt_ancestry dts) r snap in
  let yara := match dt_yara dts with Some d => if_ok (d cfg snap (rn_pack r)) | None => [] end in
  let? recon := run_if true (dt_recon dts) r snap in
  let? fim := collectFIM dts r snap now in
  Ok (cf ++ anc ++ yara ++ recon ++ fim).

Variable json_Unmarshal : string → result Snapshot.
Context `{Stater}.

(** The events of a full scan, or its error.  [t1] and [t2] are the readings
    around the network scan; its time is recorded even when a later detector
    fails. *)
Definition full_events (dts : Detectors) (r : Runner) (snap : Snapshot) (t1 t2 now : Time)
  : Runner * result (list Event) :=
  let cfg := rn_cfg r in
  match run_if (cfg_IntegrityVerifyEnabled cfg && (cfg_IntegrityScanInterval cfg <=? 0)) (dt_integrity dts) r snap with
  | Err e => (r, Err e)
  | Ok int =>
      match run_if true (dt_memorymaps dts) r snap with
      | Err e => (r, Err e)
      | Ok maps =>
          let due := networkScanDue r t1 in
          match run_if due (dt_network dts) r snap with
          | Err e => (r, Err e)
          | Ok net =>
              let r := if due then r <| rn_lastNetworkScan := t2 |> else r in
              (r, let? rest := scan_rest dts r snap now in Ok (int ++ maps ++ net ++ rest))
          end
      end
  end.

(** The baseline through the cache. *)
Definition get_baseline (r : Runner) : Runner * result Snapshot :=
  let '(c, res) := Get json_Unmarshal (rn_cache r) (cfg_BaselinePath (rn_cfg r)) in
  (r <| rn_cache := c |>, res).

Definition process_result (envs : nat → Env) (r : Runner) (res : result (list Event)) (now : Time)
  : Runner * list output * result unit :=
  match res with
  | Err e => (r, [], Err e)
  | Ok es => let '(r, o) := process_all envs r es now in (r, o, Ok tt)
  end.

Definition scanFull (dts : Detectors) (envs : nat → Env) (r : Runner) (t1 t2 now : Time)
  : Runner * list output * result unit :=
  match get_baseline r with
  | (r, Err e) => (r, [], Err e)
  | (r, Ok snap) => let '(r, res) := full_events dts r snap t1 t2 now in process_result envs r res now
  end.

Definition scanFIM (dts : Detectors) (envs : nat → Env) (r : Runner) (now : Time)
  : Runner * list output * result unit :=
  match get_baseline r with
  | (r, Err e) => (r, [], Err e)
  | (r, Ok snap) => process_result envs r (collectFIM dts r snap now) now
  end.

Definition scanInventory (dts : Detectors) (envs : nat → Env) (r : Runner) (now : Time)
  : Runner * list output * result unit :=
  if negb (cfg_IntegrityVerifyEnabled (rn_cfg r)) then (r, [], Ok tt)
  else match get_baseline r with
  | (r, Err e) => (r, [], Err e)
  | (r, Ok snap) => process_result envs r (dt_integrity dts (rn_cfg r) snap (rn_pack r)) now
  end.

(** * Self-guard *)

Definition guard_error (g : guard_result) : option string :=
  match g with
  | GuardOK => None
  | GuardErr m => Some m
  | GuardMismatch path got want =>
      Some ("selfguard: binary hash mismatch for " +:+ path +:+ " got=" +:+ got +:+ " want=" +:+ want)
  end.

Definition tamper_event (r : Runner) (now : Time) (msg : string) : Event :=
  zero_Event
    <| ev_SchemaVersion := SchemaVersion |> <| ev_AgentVersion := AgentVersion |> <| ev_Timestamp := now |>
    <| ev_RuleID := "AGENT_TAMPERED" |> <| ev_RulePackVersion := pk_Version (rn_pack r) |>
    <| ev_Tactic := "defense-evasion" |> <| ev_TechniqueIDs := ["T1562.001"] |> <| ev_Confidence := 100 |>
    <| ev_Severity := SeverityCritical |>
    <| ev_Entity := mkEntity EntityFile "" (sg_BinaryPath (cfg_SelfGuard (rn_cfg r))) "" |>
    <| ev_Signals := ["self_binary_hash_mismatch"] |> <| ev_Evidence := msg |>.

Definition checkBinaryHash (env : Env) (r : Runner) (now : Time) : Runner * list output :=
  let sg := cfg_SelfGuard (rn_cfg r) in
  if negb (sg_Enabled sg) || (sg_BinaryPath sg =s? "") || (sg_ExpectedBinarySHA256 sg =s? "") then (r, [])
  else match guard_error (BinaryMatches ReadFile (sg_BinaryPath sg) (sg_ExpectedBinarySHA256 sg)) with
       | None => (r, [])
       | Some msg => let '(r, _, o) := processEvent env r (tamper_event r now msg) 0 now in (r, o)
       end.

(** * The sensor loop *)

Definition RuleIMDSAccess : string := "NETWORK_IMDS_ACCESS".

Definition imds_event (cfg : Config) (pack : Pack) (observedAt : Time) (ev : SEvent) : Event :=
  let sigs := ["network_imds_access"; "comm:" +:+ sn_Comm ev] in
  NormalizeDedup (with_labels SrcAudit TypeEvent (ai_Anchor (FromPID (sn_PID ev))) ConfHigh
    ((route_event pack AgentVersion observedAt RuleIMDSAccess (score_floor pack RuleIMDSAccess sigs 85)
       (cfg_LearningMode cfg) (mkEntity EntityProcess (itoa (sn_PID ev)) "" "") sigs ("IMDS " +:+ sn_RemoteIP ev))
     <| ev_Network := Some (mkNetworkContext "" "" 0 (sn_RemoteIP ev) (sn_RemotePort ev) "outbound") |>)).

Variable range : gmap ProcessKey tracked → list ProcessKey.

(** The switch on the kind. *)
Definition kind_routes (cfg : Config) (pack : Pack) (now observedAt : Time) (mass : massCounter) (ev : SEvent)
  : massCounter * list (option Event) :=
  let k := sn_Kind ev in
  if k =s? KindOpenat then
    let '(mass, ce) := RouteOpenat cfg pack AgentVersion now mass ev in
    (mass, [ce; RouteFile cfg pack AgentVersion now ev; RouteDocrootWrite cfg pack AgentVersion now ev])
  else if k =s? KindExec then
    (mass, [RouteExec_defense cfg pack AgentVersion now ev; RouteExec_container cfg pack AgentVersion now ev])
  else if k =s? KindConnect then
    (mass, [if mem_str (sn_RemoteIP ev) ["169.254.169.254"; "fd00:ec2::254"]
            then Some (imds_event cfg pack observedAt ev) else None])
  else if mem_str k [KindPtrace; KindMemfdCreate; KindInitModule] then
    (mass, [RouteSensorEvent_live cfg pack AgentVersion now ev;
            if k =s? KindPtrace then RoutePtraceMem cfg pack AgentVersion now ev else None])
  else (mass, []).

(** Everything one sensor event is routed to, in order. *)
Definition routes (cfg : Config) (pack : Pack) (now observedAt : Time) (trk : Tracker) (mass : massCounter) (ev : SEvent)
  : Tracker * massCounter * list Event :=
  let '(trk, sr) :=
    if sr_Enabled (cfg_SuddenRoot cfg) && (sn_Kind ev =s? KindExec)
    then RouteSensorEvent_privesc range cfg pack AgentVersion now trk ev else (trk, None) in
  let cf :=
    if cf_Enabled (cfg_CopyFail cfg) && (sn_Kind ev =s? KindSocket)
    then RouteSensorEvent_copyfail cfg pack AgentVersion now ev else None in
  let '(mass, rest) := kind_routes cfg pack now observedAt mass ev in
  (trk, mass, omap id (sr :: cf :: rest)).

(** [dispatchEvent] on each event, with its own clock reading. *)
Fixpoint dispatch_all (envs : nat → Env) (nows : nat → Time) (r : Runner) (es : list Event) (observedAt : Time)
  : Runner * list output :=
  match es with
  | [] => (r, [])
  | e :: es =>
      let '(r, _, o) := processEvent (envs O) r e observedAt (nows O) in
      let '(r, os) := dispatch_all (λ n, envs (S n)) (λ n, nows (S n)) r es observedAt in (r, o ++ os)
  end.

(** One turn of [consumeSensor]. *)
Definition consume_one (envs : nat → Env) (nows : nat → Time) (now : Time) (r : Runner) (deb : option Debouncer)
  (mass : massCounter) (ev : SEvent) : Runner * option Debouncer * massCounter * list output :=
  if negb (mem_str (sn_Kind ev) FastKinds) then (r, deb, mass, [])
  else
    let '(deb, ok) := Allow_event deb ev now in
    if negb ok then (r, deb, mass, [])
    else
      let observedAt := if time_is_zero (sn_When ev) then now else sn_When ev in
      let '(trk, mass, es) := routes (rn_cfg r) (rn_pack r) now observedAt (rn_privesc r) mass ev in
      let '(r, o) := dispatch_all envs nows (r <| rn_privesc := trk |>) es observedAt in
      (r, deb, mass, o).

(** One tick of [suddenRootLoop]. *)
Definition suddenRoot_tick (envs : nat → Env) (nows : nat → Time) (t now : Time) (r : Runner) : Runner * list output :=
  let '(trk, es, ok) := Snapshot_creds range (rn_cfg r) (rn_pack r) AgentVersion t (rn_privesc r) in
  let r := r <| rn_privesc := trk |> in
  if ok then dispatch_all envs nows r es now else (r, []).

End host.

(** * Overlapping scans

    Any number of goroutines request scans; [TryLock] lets one in.  A request
    is one step that either enters the body or is counted and returns. *)

Record ScanLock := mkScanLock {
  sc_running : list nat;  (* the goroutines inside a body *)
  sc_locked : bool;
  sc_overlapping : Z
}.

Inductive scan_label := LRequest (g : nat) (entered : bool) | LDone (g : nat).

Inductive scan_step : ScanLock → scan_label → ScanLock → Prop :=
| scan_enter g s :
    sc_locked s = false →
    scan_step s (LRequest g true) (mkScanLock (g :: sc_running s) true (sc_overlapping s))
| scan_skip g s :
    sc_locked s = true →
    scan_step s (LRequest g false) (mkScanLock (sc_running s) true (wrapu 64 (sc_overlapping s + 1)))
| scan_done g s :
    g ∈ sc_running s →
    scan_step s (LDone g) (mkScanLock (List.filter (λ x, negb (x =? g)%nat) (sc_running s)) false (sc_overlapping s)).

Inductive scan_run : list scan_label → ScanLock → Prop :=
| scan_run_nil : scan_run [] (mkScanLock [] false 0)
| scan_run_snoc ls s l s' : scan_run ls s → scan_step s l s' → scan_run (ls ++ [l]) s'.

Definition OverlappingSkipped (s : ScanLock) : Z := sc_overlapping s.

(** * Construction *)

Definition mapping_candidates : list string :=
  ["configs/mapping.yaml"; path_join [".."; ".."; "configs"; "mapping.yaml"]; "/etc/ghostcatcher/mapping.yaml"].

Definition resolveMappingPath `{Stater} : string :=
  default "" (List.find (λ p, match Stat p with FOk fi => negb (fi_IsDir fi) | _ => false end) mapping_candidates).

(** What the constructors of the other packages return: a failed one leaves its
    part out and the agent runs on. *)
Record Parts := mkParts {
  pa_syslog : result Sink;
  pa_spool : result Spool;
  pa_vault : result Vault;
  pa_sinks : list (bool * result Sink)  (* each sink: enabled, and its constructor's result *)
}.

Definition enabled_sinks (l : list (bool * result Sink)) : list Sink :=
  omap (λ '(on, s), if (on : bool) then match s with Ok s => Some s | Err _ => None end else None) l.

Definition New_runner `{FileReader} `{Stater} (yaml_mapping : string → result MappingFile) (parts : Parts)
  (global : option Mapping) (cfg : Config) (pack : Pack) : Runner :=
  let vault := if cfg_QuarantineDir cfg =s? "" then false else is_ok (pa_vault parts) in
  let mapPath := if cfg_MappingPath cfg =s? "" then resolveMappingPath else cfg_MappingPath cfg in
  let loaded := if mapPath =s? "" then None
                else match Load yaml_mapping mapPath with Ok m => Some m | Err _ => None end in
  let corr := newCorrelator 2048 in
  mkRunner cfg pack
    (if su_Enabled (cfg_SyslogUDP cfg) then match pa_syslog parts with Ok s => Some s | Err _ => None end else None)
    ∅ 0 (NewLimiter (cfg_RateLimitPerRulePerMin cfg))
    (if cfg_SpoolDir cfg =s? "" then None else match pa_spool parts with Ok s => Some s | Err _ => None end)
    (fst (Load_feed NewFeed (cfg_IOCFeedHashFiles cfg) (cfg_IOCFeedIPFiles cfg) (cfg_IOCFeedDomainFiles cfg)))
    (match loaded with Some m => setChains corr (mp_Chains m) | None => corr end)
    (enabled_sinks (pa_sinks parts)) vault (Some (NewEngine (Some (cfg_Respond cfg)) vault))
    (NewTracker 8192) zero_Cache 0
    (match loaded with Some m => Some m | None => global end).
