(* ===== verification/RunnerFacts.v ===== *)
(** Theorems on the runner: what is written, what may touch the host, how often
    an alert repeats, what a failing detector does, and that scans exclude each
    other. *)
From S2P Require Export Runner RespondFacts.

(** * What processing leaves alone *)

(** The fields that say whose event this is and whether it is live. *)
Definition same_event (a b : Event) : Prop :=
  ev_RuleID a = ev_RuleID b ∧ ev_LearningOnly a = ev_LearningOnly b ∧ ev_Entity a = ev_Entity b ∧
  ev_DedupKey a = ev_DedupKey b.

#[export] Instance same_event_equiv : Equivalence same_event.
Proof.
  unfold same_event. split.
  - intros a. by split_and!.
  - intros a b (?&?&?&?). by split_and!.
  - intros a b c (?&?&?&?) (?&?&?&?). split_and!; congruence.
Qed.

Section facts.
Context `{FileReader} `{DirReader} `{LinkReader}.

Lemma enrich_process_same e : same_event (enrich_process e) e ∧ ev_Confidence (enrich_process e) = ev_Confidence e.
Proof.
  unfold enrich_process. destruct (negb _); [done|]. destruct (atoi _) as [pid ok]. destruct (_ || _); [done|].
  set (e1 := let '(_, _) := ReadCgroup pid in _).
  assert (K1 : same_event e1 e ∧ ev_Confidence e1 = ev_Confidence e).
  { unfold e1. destruct (ReadCgroup pid) as [cg []]; [|done]. by destruct (negb _). }
  destruct (ReadStatus pid) as [st []]; [|exact K1]. cbv zeta.
  match goal with |- context[if ?c then _ else _] => destruct c end; exact K1.
Qed.

Lemma raise_same e m k : same_event (raise e m k) e ∧ ev_Confidence (raise e m k) ≤ 100.
Proof.
  split; [done|]. unfold raise, minInt. change (ev_Confidence _) with
    (if 100 <? wrap64 (ev_Confidence e + k) then 100 else wrap64 (ev_Confidence e + k)).
  destruct (Z.ltb_spec 100 (wrap64 (ev_Confidence e + k))); lia.
Qed.

Definition at_most (m : Z) (e' e : Event) : Prop := ev_Confidence e' ≤ Z.max m (ev_Confidence e).

Lemma enrich_same r e : same_event (enrich r e) e ∧ at_most 100 (enrich r e) e.
Proof.
  unfold enrich, at_most. destruct (enrich_process_same e) as [Hs1 Hc1]. set (e1 := enrich_process e) in *.
  assert (K2 : same_event (enrich_hash (rn_feed r) e1) e1 ∧ at_most 100 (enrich_hash (rn_feed r) e1) e1).
  { unfold enrich_hash, at_most. destruct (_ && _); [|split; [done|lia]].
    destruct (raise_same e1 ("hash:" +:+ en_ID (ev_Entity e1)) 10). split; [done|lia]. }
  unfold at_most in *. destruct K2 as [Hs2 Hc2]. set (e2 := enrich_hash _ _) in *.
  assert (K3 : same_event (enrich_ip (rn_feed r) e2) e2 ∧ at_most 100 (enrich_ip (rn_feed r) e2) e2).
  { unfold enrich_ip, at_most. destruct (ev_Network e2) as [n|]; [|split; [done|lia]].
    destruct (_ =s? ""); [split; [done|lia]|]. destruct (netParseIP _); [|split; [done|lia]].
    destruct (MatchIP _ _); [|split; [done|lia]].
    destruct (raise_same e2 ("ip:" +:+ nc_RemoteIP n) 25). split; [done|lia]. }
  unfold at_most in *. destruct K3 as [Hs3 Hc3]. split; [|lia]. etrans; [exact Hs3|]. by etrans.
Qed.

Lemma Apply_same m e : same_event (Apply m e) e ∧ ev_Confidence (Apply m e) = ev_Confidence e.
Proof. unfold Apply. destruct m; [|done]. by destruct (Taxonomy.Lookup _ _). Qed.

Lemma orient_same r e : same_event (orient r e) e ∧ at_most 100 (orient r e) e.
Proof.
  destruct (enrich_same r e) as [Hs Hc]. destruct (Apply_same (rn_mapping r) (enrich r e)) as [Hs' Hc'].
  unfold orient, at_most in *. set (e1 := Apply _ _) in *.
  assert (Hb : same_event e1 e) by (by etrans). rewrite <-Hc' in Hc.
  destruct (ByID _ _); exact (conj Hb Hc).
Qed.

Lemma stamp_chain_same ch e : same_event (stamp_chain ch e) e ∧ ev_Confidence (stamp_chain ch e) = ev_Confidence e.
Proof. unfold stamp_chain. cbv zeta. by destruct (ch_Flag ch =s? _), (ch_Score ch =s? _). Qed.

Lemma matchChain_same c e now :
  same_event (matchChain c e now).1 e ∧ ev_Confidence (matchChain c e now).1 = ev_Confidence e.
Proof.
  unfold matchChain. assert (Hgen : ∀ chs st, same_event st.1 e → ev_Confidence st.1 = ev_Confidence e →
    let st' := fold_left (match_chain_step c now) chs st in
    same_event st'.1 e ∧ ev_Confidence st'.1 = ev_Confidence e); [|by apply Hgen].
  induction chs as [|ch chs IH]; intros [e1 best] Hs Hc; [done|]. cbn [fold_left fst] in *.
  unfold match_chain_step at 2 4. destruct (evalChain c ch e1 now) as [b ok]. destruct (ok && _); [|by apply IH].
  destruct (stamp_chain_same ch e1) as [Hs1 Hc1]. apply IH; cbn [fst]; [by etrans|congruence].
Qed.

Lemma add_boost_same e b s : same_event (add_boost e b s) e ∧ ev_Confidence (add_boost e b s) ≤ 100.
Proof.
  split; [done|]. unfold add_boost. change (ev_Confidence _) with
    (if 100 <? wrap64 (ev_Confidence e + b) then 100 else wrap64 (ev_Confidence e + b)).
  destruct (Z.ltb_spec 100 (wrap64 (ev_Confidence e + b))); lia.
Qed.

(** The rule turns a live event into a learning-only one when its expression
    does not hold, and changes nothing else that matters to the gates. *)
Lemma decide_rule_keeps r rule e now :
  let e' := decide_rule r rule e now in
  ev_RuleID e' = ev_RuleID e ∧ ev_Entity e' = ev_Entity e ∧ ev_DedupKey e' = ev_DedupKey e ∧
  ev_LearningOnly e' = ev_LearningOnly e || negb (expr_holds rule e) ∧ at_most 100 e' e.
Proof.
  unfold decide_rule, at_most. set (e1 := if _ && _ then _ else _).
  assert (K1 : ev_RuleID e1 = ev_RuleID e ∧ ev_Entity e1 = ev_Entity e ∧ ev_DedupKey e1 = ev_DedupKey e ∧
               ev_LearningOnly e1 = ev_LearningOnly e || negb (expr_holds rule e) ∧ ev_Confidence e1 = ev_Confidence e).
  { unfold e1. destruct (expr_holds rule e), (ev_LearningOnly e) eqn:El; cbn; by rewrite ?El. }
  clearbody e1. cbv zeta. set (boost := matchBoost _ _ _ _).
  set (e2 := if 0 <? boost then _ else _).
  assert (K2 : same_event e2 e1 ∧ at_most 100 e2 e1).
  { unfold e2, at_most. destruct (0 <? boost); [|split; [done|lia]].
    destruct (add_boost_same e1 boost "correlation_boost"). split; [done|lia]. }
  clearbody e2. destruct (matchChain_same (rn_correlator r) e2 now) as [Hs Hc].
  destruct (matchChain (rn_correlator r) e2 now) as [e3 b3]. cbn [fst] in *.
  assert (K4 : ∀ e4, same_event e4 e3 → at_most 100 e4 e3 →
    ev_RuleID e4 = ev_RuleID e ∧ ev_Entity e4 = ev_Entity e ∧ ev_DedupKey e4 = ev_DedupKey e ∧
    ev_LearningOnly e4 = ev_LearningOnly e || negb (expr_holds rule e) ∧ ev_Confidence e4 ≤ Z.max 100 (ev_Confidence e)).
  { unfold same_event, at_most in *. intros e4 (?&?&?&?) ?. destruct K2 as [(?&?&?&?) ?], Hs as (?&?&?&?), K1 as (?&?&?&?&?).
    split_and!; first [congruence|lia]. }
  destruct (0 <? b3); apply K4; try done.
  - unfold at_most. destruct (add_boost_same e3 b3 ("chain:" +:+ ev_ChainID e3)). lia.
  - unfold at_most. lia.
Qed.

Lemma NormalizeDedup_keeps e :
  ev_RuleID (NormalizeDedup e) = ev_RuleID e ∧ ev_Entity (NormalizeDedup e) = ev_Entity e ∧
  ev_LearningOnly (NormalizeDedup e) = ev_LearningOnly e ∧ ev_Confidence (NormalizeDedup e) = ev_Confidence e.
Proof. unfold NormalizeDedup. by destruct (ev_DedupKey e =s? ""). Qed.

(** The rule of an event in the pack rejects it. *)
Definition rejected (r : Runner) (e : Event) : bool :=
  match ByID (rn_pack r) (ev_RuleID e) with
  | Some rule => negb (expr_holds rule (orient r (NormalizeDedup e)))
  | None => false
  end.

Lemma judged_keeps r e now :
  let e' := (judged r e now).1 in
  ev_RuleID e' = ev_RuleID e ∧ ev_Entity e' = ev_Entity e ∧ ev_DedupKey e' = ev_DedupKey (NormalizeDedup e) ∧
  ev_LearningOnly e' = ev_LearningOnly e || rejected r e ∧ ev_Confidence e' ≤ Z.max 100 (ev_Confidence e).
Proof.
  unfold judged, rejected. destruct (NormalizeDedup_keeps e) as (Hn1 & Hn2 & Hn3 & Hn4).
  destruct (orient_same r (NormalizeDedup e)) as [(Ho1 & Ho2 & Ho3 & Ho4) Hoc].
  set (e0 := orient r (NormalizeDedup e)) in *. cbv zeta. unfold at_most in *.
  rewrite Ho1, Hn1. destruct (ByID (rn_pack r) (ev_RuleID e)) as [rule|]; cbn [fst].
  - destruct (decide_rule_keeps r rule e0 now) as (Hd1 & Hd2 & Hd3 & Hd4 & Hd5). unfold at_most in *.
    split_and!; first [congruence|lia].
  - rewrite orb_false_r. split_and!; first [congruence|lia].
Qed.

Variable json_line : Event → option string.

(** ** The Act phase *)

Lemma Apply_plan_event sys eng plan e obs ta :
  ∃ rc, (Apply_plan sys eng plan e obs ta).1.2 = e <| ev_Response := Some rc |>.
Proof.
  unfold Apply_plan. cbv zeta. destruct (_ =s? _); [by eexists|]. destruct (_ =s? _); [by eexists|].
  by destruct (perform _ _ _ _) as [[effs []]|]; eexists.
Qed.

(** The runner after the Act phase: only the engine's table may differ. *)
Lemma act_on_keeps env r e rule obs r' e' acts :
  act_on env r e rule obs = (r', e', acts) →
  same_event e' e ∧ ev_Confidence e' = ev_Confidence e ∧ rn_cfg r' = rn_cfg r ∧ rn_vault r' = rn_vault r ∧
  rn_lastDedup r' = rn_lastDedup r ∧ rn_dedupOps r' = rn_dedupOps r ∧ rn_limiter r' = rn_limiter r ∧
  (∀ o, o ∈ acts → ∃ eff, o = OHost eff) ∧
  (∀ eff, OHost eff ∈ acts → ∃ eng, rn_responder r = Some eng ∧ gates (ex_sys env) eng e rule).
Proof.
  unfold act_on. destruct (rn_responder r) as [eng|]; [|intros [= <- <- <-]; split_and!; try done; by intros ? ?%elem_of_nil].
  destruct (Decide (ex_sys env) eng e rule (ex_decide env)) as [eng1 plan] eqn:Ed.
  destruct (Apply_plan_event (ex_sys env) eng1 plan e obs (ex_apply env)) as [rc He].
  destruct (Apply_plan (ex_sys env) eng1 plan e obs (ex_apply env)) as [[eng2 e2] effs] eqn:Ea.
  cbn [fst snd] in He. subst e2. intros [= <- <- <-]. split_and!; try done.
  - intros o (eff & -> & _)%list_elem_of_fmap. by exists eff.
  - intros eff (eff' & [= <-] & Hin)%list_elem_of_fmap. exists eng. split; [done|].
    assert (Hh : handle (ex_sys env) eng e rule obs (ex_decide env) (ex_apply env) = (eng2, e <| ev_Response := Some rc |>, effs))
      by (unfold handle; by rewrite Ed).
    apply handle_effects in Hh as [Hg _]; [done|]. intros ->. by apply elem_of_nil in Hin.
Qed.

(** ** Emission *)

Lemma deliver_out ft fails line st o :
  o ∈ (deliver ft fails line st).2 → o = OSpool line.
Proof.
  unfold deliver. destruct st as [[s|] n], fails; cbn; try by intros ?%elem_of_nil.
  by intros ?%list_elem_of_singleton.
Qed.

Lemma send_all_out ft i sinks e line st o :
  o ∈ (send_all ft i sinks e line st).2 → (∃ k, o = OSink k line) ∨ o = OSpool line.
Proof.
  revert i st. induction sinks as [|s sinks IH]; intros i [sp n]; cbn [send_all snd]; [by intros ?%elem_of_nil|].
  pose proof (deliver_out ft (s e line) line (sp, n) o) as Hd.
  destruct (deliver ft (s e line) line (sp, n)) as [[sp1 n1] o1]. specialize (IH (S i) (sp1, n1)).
  destruct (send_all ft (S i) sinks e line (sp1, n1)) as [[sp2 n2] os]. cbn [snd] in *.
  intros [->|[Ho|Ho]%elem_of_app]%elem_of_cons; eauto.
Qed.

Lemma emit_keeps env r e r' e' out :
  emit json_line env r e = (r', e', out) →
  same_event e' e ∧ ev_Confidence e' = ev_Confidence e ∧ rn_cfg r' = rn_cfg r ∧ rn_lastDedup r' = rn_lastDedup r ∧
  rn_dedupOps r' = rn_dedupOps r ∧
  ((∃ line, OLine line ∈ out) ↔ is_Some (json_line e')) ∧
  (∀ eff, OHost eff ∈ out → legacy_quarantine r e' = true ∧ eff = EStore (en_Path (ev_Entity e'))).
Proof.
  unfold emit. cbv zeta.
  set (e1 := (e <| ev_DefenseLayer := DefenseLayerEndpoint |>) <| ev_SOCEscalate := _ |>).
  assert (Hs : same_event e1 e ∧ ev_Confidence e1 = ev_Confidence e) by done. destruct Hs as [Hs Hc]. clearbody e1.
  destruct (json_line e1) as [line|] eqn:Hj.
  2: { intros [= <- <- <-]. split_and!; try done; [|by intros ? ?%elem_of_nil].
       rewrite Hj. split; [by intros (? & ?%elem_of_nil)|by intros []]. }
  set (first := match rn_syslog r with Some _ => _ | None => _ end).
  assert (Ho1 : ∀ o, o ∈ first.2 → o = OSyslog line ∨ o = OSpool line).
  { unfold first. destruct (rn_syslog r) as [send|]; [|by intros ? ?%elem_of_nil].
    pose proof (λ o, deliver_out (ex_faults env) (send e1 line) line (rn_spool r, O) o) as Hd.
    destruct (deliver _ _ _ _) as [[sp n] os]. cbn [snd] in *. intros o [->|Hin]%elem_of_cons; eauto. }
  destruct first as [[sp n] o1]. cbn [snd] in Ho1.
  pose proof (send_all_out (ex_faults env) 0 (rn_sinks r) e1 line (sp, n)) as Ho2.
  destruct (send_all _ _ _ _ _ _) as [[sp2 n2] o2]. cbn [snd] in Ho2. intros [= <- <- <-].
  split_and!; try done.
  - rewrite Hj. split; [by eauto|]. intros _. exists line. left.
  - intros eff [He|[Ho|[Ho|Ho]%elem_of_app]%elem_of_app]%elem_of_cons.
    + done.
    + apply Ho1 in Ho as [?|?]; done.
    + apply Ho2 in Ho as [[? ?]|?]; done.
    + destruct (legacy_quarantine r e1); [|by apply elem_of_nil in Ho].
      apply list_elem_of_singleton in Ho as [= ->]. done.
Qed.

(** ** One event *)

(** The three ways through the gates: out before them, stopped, or emitted. *)
Definition alert (cfg : Config) (e : Event) : Prop :=
  ev_LearningOnly e = false ∧ cfg_MinConfidenceAlert cfg ≤ ev_Confidence e.

Definition written (out : list output) : Prop := ∃ line, OLine line ∈ out.

Definition dedup_call (env : Env) (r : Runner) (key : string) (c : gcall) : Prop :=
  gc_key c = key ∧ gc_check c = ex_check env ∧ gc_store c = ex_store env ∧
  (gc_prune c = None ∨ gc_prune c = Some (ex_prune env)).

Lemma shouldDedup_step env r key r' dup :
  shouldDedup env r key = (r', dup) → key ≠ "" →
  ∃ c, dedup_call env r key c ∧ gate_step (dedup_window r) (rn_lastDedup r) c = (rn_lastDedup r', negb dup) ∧
       rn_cfg r' = rn_cfg r ∧ rn_vault r' = rn_vault r ∧ rn_limiter r' = rn_limiter r.
Proof.
  unfold shouldDedup. intros Hs Hk. rewrite (proj2 (String.eqb_neq _ _) Hk) in Hs.
  set (m := <[key := ex_store env]> (rn_lastDedup r)) in *.
  set (full := (_ =? 0) || _) in *.
  exists (mkGcall key (ex_check env) (ex_store env) (if full then Some (ex_prune env) else None)).
  split; [unfold dedup_call; cbn; destruct full; by auto|]. unfold gate_step. cbn [gc_key gc_check gc_store gc_prune].
  destruct (blocked _ _ _ _); injection Hs as <- <-; [done|]. split; [|done]. unfold pruneDedupLocked.
  by destruct full.
Qed.

(** What the deduplication leaves, whether or not the event has a key. *)
Lemma shouldDedup_cases env r key r' dup :
  shouldDedup env r key = (r', dup) →
  rn_cfg r' = rn_cfg r ∧ rn_vault r' = rn_vault r ∧
  ((key = "" ∧ rn_lastDedup r' = rn_lastDedup r) ∨
   ∃ c, dedup_call env r key c ∧ gate_step (dedup_window r) (rn_lastDedup r) c = (rn_lastDedup r', negb dup)).
Proof.
  intros Hd. destruct (decide (key = "")) as [->|Hk].
  - unfold shouldDedup in Hd. cbn in Hd. injection Hd as <- <-. split_and!; try done. by left.
  - destruct (shouldDedup_step _ _ _ _ _ Hd Hk) as (c & Hc & Hg & C1 & C2 & C3).
    split_and!; try done. right. by exists c.
Qed.

(** The state after the correlator has recorded the event. *)
Definition recorded (r : Runner) (e : Event) (now : Time) : Runner :=
  r <| rn_correlator := addFull (rn_correlator r) (ev_RuleID e) (en_ID (ev_Entity e)) (ev_Anchor e) (ev_ConfBand e) now |>.

(** What one event does, gate by gate. *)
Lemma processEvent_cases env r e obs now r' e' out :
  processEvent json_line env r e obs now = (r', e', out) →
  ∃ e1 rule r2 e2 acts,
    judged r e now = (e1, rule) ∧ act_on env (recorded r e1 now) e1 rule obs = (r2, e2, acts) ∧
    same_event e' e2 ∧ ev_Confidence e' = ev_Confidence e2 ∧ rn_cfg r' = rn_cfg r ∧
    ((∃ r3 o, emit json_line env r3 e2 = (r', e', o) ∧ out = acts ++ o ∧ rn_cfg r3 = rn_cfg r ∧ rn_vault r3 = rn_vault r2) ∨
     out = acts) ∧
    ((¬ alert (rn_cfg r) e2 ∧ rn_lastDedup r' = rn_lastDedup r ∧ (written out ↔ is_Some (json_line e'))) ∨
     (alert (rn_cfg r) e2 ∧ ev_DedupKey e2 = "" ∧ rn_lastDedup r' = rn_lastDedup r) ∨
     (alert (rn_cfg r) e2 ∧ ∃ c, dedup_call env r (ev_DedupKey e2) c ∧
        (gate_step (dedup_window r) (rn_lastDedup r) c).1 = rn_lastDedup r' ∧
        (written out → (gate_step (dedup_window r) (rn_lastDedup r) c).2 = true))).
Proof.
  unfold processEvent. destruct (judged r e now) as [e1 rule] eqn:Ej. fold (recorded r e1 now).
  destruct (act_on env (recorded r e1 now) e1 rule obs) as [[r2 e2] acts] eqn:Ea.
  pose proof (act_on_keeps _ _ _ _ _ _ _ _ Ea) as (Hsame & Hconf & Hcfg & Hv & Hld & Hops & Hlim & Hacts & _).
  change (rn_cfg (recorded r e1 now)) with (rn_cfg r) in Hcfg.
  change (rn_lastDedup (recorded r e1 now)) with (rn_lastDedup r) in Hld.
  assert (Hno : ¬ written acts) by (intros (line & (eff & ?)%Hacts); done).
  assert (Hw : ∀ o, written (acts ++ o) ↔ written o).
  { intros o. unfold written. setoid_rewrite elem_of_app. split; [|naive_solver].
    intros (line & [Hin|Hin]); [destruct Hno; by exists line|by exists line]. }
  intros Hp. exists e1, rule, r2, e2, acts. split; [done|]. split; [done|].
  assert (Hdirect : ∀ r0 e0 o0, emit json_line env r2 e2 = (r0, e0, o0) → (r0, e0, acts ++ o0) = (r', e', out) →
            ¬ alert (rn_cfg r) e2 →
            same_event e' e2 ∧ ev_Confidence e' = ev_Confidence e2 ∧ rn_cfg r' = rn_cfg r ∧
            ((∃ r3 o, emit json_line env r3 e2 = (r', e', o) ∧ out = acts ++ o ∧ rn_cfg r3 = rn_cfg r ∧ rn_vault r3 = rn_vault r2) ∨ out = acts) ∧
            rn_lastDedup r' = rn_lastDedup r ∧ (written out ↔ is_Some (json_line e'))).
  { intros r0 e0 o0 He [= -> -> <-] _. pose proof (emit_keeps _ _ _ _ _ _ He) as (M1 & M2 & M3 & M4 & _ & M6 & _).
    split_and!; try congruence; [by left; exists r2, o0|]. by rewrite Hw. }
  destruct (ev_LearningOnly e2) eqn:Hl; [|destruct (Z.ltb_spec (ev_Confidence e2) (cfg_MinConfidenceAlert (rn_cfg r2))) as [Hlt|Hge]].
  1, 2: destruct (emit json_line env r2 e2) as [[r0 e0] o0] eqn:He;
    assert (Hna : ¬ alert (rn_cfg r) e2) by (unfold alert; rewrite <-Hcfg, ?Hl; intros [? ?]; (done || lia));
    destruct (Hdirect _ _ _ eq_refl Hp Hna) as (?&?&?&?&?&?); split_and!; try done; left; done.
  assert (Hal : alert (rn_cfg r) e2) by (unfold alert; rewrite <-Hcfg; done).
  destruct (shouldDedup env r2 (ev_DedupKey e2)) as [r3 dup] eqn:Hd.
  assert (Hdw : dedup_window r2 = dedup_window r) by (unfold dedup_window; by rewrite Hcfg).
  destruct (shouldDedup_cases _ _ _ _ _ Hd) as (C1 & C2 & Hcase). rewrite Hdw, Hld in Hcase.
  assert (C1' : rn_cfg r3 = rn_cfg r) by congruence. clear C1; rename C1' into C1.
  assert (Hfin : ∀ r4 e4 out4, rn_lastDedup r4 = rn_lastDedup r3 → ev_DedupKey e4 = ev_DedupKey e2 →
     (dup = true → ¬ written out4) →
     (alert (rn_cfg r) e2 ∧ ev_DedupKey e2 = "" ∧ rn_lastDedup r4 = rn_lastDedup r) ∨
     (alert (rn_cfg r) e2 ∧ ∃ c, dedup_call env r (ev_DedupKey e2) c ∧
        (gate_step (dedup_window r) (rn_lastDedup r) c).1 = rn_lastDedup r4 ∧
        (written out4 → (gate_step (dedup_window r) (rn_lastDedup r) c).2 = true))).
  { intros r4 e4 out4 Hr4 _ Hdup. destruct Hcase as [[Hk Hl3]|(c & Hc & Hg)]; [left; split_and!; congruence|right].
    split; [done|]. exists c. split; [done|]. rewrite Hg. cbn [fst snd]. split; [done|].
    intros Hwr. destruct dup; [by destruct (Hdup eq_refl)|done]. }
  destruct dup.
  { injection Hp as <- <- <-. split_and!; try done; [by right|]. right. by apply (Hfin r3 e2 acts). }
  destruct (Limiter.Allow (rn_limiter r3) (ev_RuleID e2) (ex_limit env)) as [lim ok] eqn:Hall.
  destruct ok; cbn [negb] in Hp.
  - destruct (emit json_line env (r3 <| rn_limiter := lim |>) e2) as [[r0 e0] o0] eqn:He. injection Hp as <- <- <-.
    pose proof (emit_keeps _ _ _ _ _ _ He) as (M1 & M2 & M3 & M4 & _).
    split_and!; try done; [by rewrite M3|by left; eexists _, o0; split_and!; try done|]. right.
    apply (Hfin r0 e0 (acts ++ o0)); [by rewrite M4|by destruct M1 as (?&?&?&?)|done].
  - injection Hp as <- <- <-. split_and!; try done; [by right|]. right. by apply (Hfin _ e2 acts).
Qed.

(** * Main theorems *)

(** C1: The host is touched only for a reason: when processing an event kills,
    isolates or quarantines, the event was not learning-only, its rule's
    expression did not reject it, and either the response engine is there and
    every gate of its policy was open for the event as it was judged, or the
    engine is switched off, the event is about a file, its confidence reaches
    the quarantine threshold, and the effect is the copy of that very file. *)
Theorem host_effects_justified env r e obs now r' e' out eff :
  processEvent json_line env r e obs now = (r', e', out) → OHost eff ∈ out →
  ev_LearningOnly e = false ∧ rejected r e = false ∧
  let '(e1, rule) := judged r e now in
  (∃ eng, rn_responder r = Some eng ∧ gates (ex_sys env) eng e1 rule) ∨
  (rp_Enabled (cfg_Respond (rn_cfg r)) = false ∧ rn_vault r = true ∧ en_Type (ev_Entity e) = EntityFile ∧
   0 < cfg_QuarantineMinConfidence (rn_cfg r) ≤ ev_Confidence e1 ∧ eff = EStore (en_Path (ev_Entity e))).
Proof.
  intros Hp Hin. pose proof (judged_keeps r e now) as (J1 & J2 & J3 & J4 & J5).
  apply processEvent_cases in Hp as (e1 & rule & r2 & e2 & acts & Hj & Ha & Hs & Hc & Hcfg & Hout & _).
  rewrite Hj in *. cbn [fst] in *.
  apply act_on_keeps in Ha as (A1 & A2 & A3 & A4 & A5 & A6 & A7 & A8 & A9).
  change (rn_responder (recorded r e1 now)) with (rn_responder r) in A9.
  assert (Hlive : ev_LearningOnly e1 = false → ev_LearningOnly e = false ∧ rejected r e = false).
  { rewrite J4. by intros [? ?]%orb_false_iff. }
  assert (Hacts : OHost eff ∈ acts → ev_LearningOnly e1 = false ∧ ∃ eng, rn_responder r = Some eng ∧ gates (ex_sys env) eng e1 rule).
  { intros (eng & He & Hg)%A9. split; [apply Hg|]. by exists eng. }
  assert (Hor : OHost eff ∈ acts ∨ (legacy_quarantine r e' = true ∧ eff = EStore (en_Path (ev_Entity e')))).
  { destruct Hout as [(r3 & o & He & -> & C1 & C2)| ->]; [|by left]. apply elem_of_app in Hin as [Hin|Hin]; [by left|right].
    apply emit_keeps in He as (_ & _ & _ & _ & _ & _ & Hq). apply Hq in Hin as [Hl ->]. split; [|done].
    revert Hl. unfold legacy_quarantine. by rewrite C1, C2, A4. }
  destruct Hor as [Hin'|[Hl ->]].
  - destruct (Hacts Hin') as [Hlo Hg]. split_and!; [by apply Hlive..|]. by left.
  - unfold same_event in *. destruct Hs as (S1 & S2 & S3 & S4), A1 as (B1 & B2 & B3 & B4).
    unfold legacy_quarantine in Hl. rewrite !andb_true_iff, !negb_true_iff, String.eqb_eq, Z.leb_le, Z.ltb_lt in Hl.
    destruct Hl as ((((((L1 & L2) & L3) & L4) & L5) & L6) & L7). rewrite S2, B2 in L5.
    split_and!; [by apply Hlive..|]. right. rewrite S3, B3, J2 in *. split_and!; try done. lia.
Qed.


(** C3: What suppresses an alert, exactly: an alert is written if and only if its
    key (when it has one) was not recorded within the deduplication window, its
    rule is within its rate, and the event can be encoded.  So an alert that was
    held back is written again as soon as the window has passed. *)
Theorem alert_written_iff env r e obs now :
  let '(r', e', out) := processEvent json_line env r e obs now in
  let e1 := (judged r e now).1 in
  alert (rn_cfg r) e1 →
  (written out ↔
     (ev_DedupKey e1 = "" ∨ blocked (dedup_window r) (rn_lastDedup r) (ev_DedupKey e1) (ex_check env) = false) ∧
     (Limiter.Allow (rn_limiter r) (ev_RuleID e1) (ex_limit env)).2 = true ∧ is_Some (json_line e')).
Proof.
  unfold processEvent. destruct (judged r e now) as [e1 rule] eqn:Ej. fold (recorded r e1 now). cbn [fst].
  destruct (act_on env (recorded r e1 now) e1 rule obs) as [[r2 e2] acts] eqn:Ea.
  pose proof (act_on_keeps _ _ _ _ _ _ _ _ Ea) as ((S1 & S2 & S3 & S4) & Hconf & Hcfg & Hv & Hld & Hops & Hlim & Hacts & _).
  change (rn_cfg (recorded r e1 now)) with (rn_cfg r) in Hcfg.
  change (rn_lastDedup (recorded r e1 now)) with (rn_lastDedup r) in Hld.
  change (rn_limiter (recorded r e1 now)) with (rn_limiter r) in Hlim.
  assert (Hno : ¬ written acts) by (intros (line & (eff & ?)%Hacts); done).
  rewrite S2. assert (Hdw : dedup_window r2 = dedup_window r) by (unfold dedup_window; by rewrite Hcfg).
  assert (Hgate : let '(r3, dup) := shouldDedup env r2 (ev_DedupKey e2) in
    rn_limiter r3 = rn_limiter r ∧
    (dup = false ↔ ev_DedupKey e1 = "" ∨ blocked (dedup_window r) (rn_lastDedup r) (ev_DedupKey e1) (ex_check env) = false)).
  { unfold shouldDedup. rewrite S4, Hdw, Hld. destruct (String.eqb_spec (ev_DedupKey e1) ""); [split; [exact Hlim|naive_solver]|].
    destruct (blocked _ _ _ _); (split; [exact Hlim|]); naive_solver. }
  destruct (shouldDedup env r2 (ev_DedupKey e2)) as [r3 dup]. destruct Hgate as [Hl3 Hdup].
  rewrite Hconf, Hcfg, Hl3, S1.
  destruct (Limiter.Allow (rn_limiter r) (ev_RuleID e1) (ex_limit env)) as [lim ok]. cbn [snd].
  assert (Hemit : ∀ r0, let '(r', e', o) := emit json_line env r0 e2 in written (acts ++ o) ↔ is_Some (json_line e')).
  { intros r0. destruct (emit json_line env r0 e2) as [[r' e'] o] eqn:He.
    apply emit_keeps in He as (_ & _ & _ & _ & _ & He & _). rewrite <-He. unfold written. setoid_rewrite elem_of_app.
    split; [|naive_solver]. intros (line & [Hin|Hin]); [destruct Hno; by exists line|by exists line]. }
  destruct (ev_LearningOnly e1) eqn:El; [destruct (emit _ _ _ _) as [[? ?] ?]; unfold alert; rewrite El; by intros [? ?]|].
  destruct (Z.ltb_spec (ev_Confidence e1) (cfg_MinConfidenceAlert (rn_cfg r))).
  { destruct (emit _ _ _ _) as [[? ?] ?]; unfold alert; intros [_ ?]; lia. }
  destruct dup; [intros _; naive_solver|]. destruct ok; cbn [negb]; [|intros _; naive_solver].
  specialize (Hemit (r3 <| rn_limiter := lim |>)). destruct (emit _ _ _ _) as [[r' e'] o]. intros _. naive_solver.
Qed.

(** ** Repeated alerts *)

Record input := mkInput { in_env : Env; in_event : Event; in_observed : Time; in_now : Time }.

Fixpoint run_events (r : Runner) (ins : list input) : list (Event * list output) :=
  match ins with
  | [] => []
  | i :: ins =>
      let '(r, e, out) := processEvent json_line (in_env i) r (in_event i) (in_observed i) (in_now i) in
      (e, out) :: run_events r ins
  end.

(** The clock that [shouldDedup] reads does not go backwards. *)
Fixpoint dedup_clock (now : Time) (ins : list input) : Prop :=
  match ins with
  | [] => True
  | i :: ins =>
      now ≤ ex_check (in_env i) ∧ ex_check (in_env i) ≤ ex_store (in_env i) ∧
      ex_store (in_env i) ≤ ex_prune (in_env i) ∧ dedup_clock (ex_prune (in_env i)) ins
  end.

(** An alert with key [key] was written. *)
Definition alerted (cfg : Config) (key : string) (res : Event * list output) : Prop :=
  alert cfg res.1 ∧ ev_DedupKey res.1 = key ∧ written res.2.

Lemma processEvent_gate env r e obs now r' e' out :
  processEvent json_line env r e obs now = (r', e', out) →
  rn_cfg r' = rn_cfg r ∧
  ((rn_lastDedup r' = rn_lastDedup r ∧ ∀ key, key ≠ "" → ¬ alerted (rn_cfg r) key (e', out)) ∨
   ∃ c, dedup_call env r (ev_DedupKey e') c ∧
     (gate_step (dedup_window r) (rn_lastDedup r) c).1 = rn_lastDedup r' ∧
     (written out → (gate_step (dedup_window r) (rn_lastDedup r) c).2 = true)).
Proof.
  intros Hp. apply processEvent_cases in Hp as (e1 & rule & r2 & e2 & acts & _ & _ & Hs & Hc & Hcfg & _ & Hcase).
  split; [done|]. destruct Hs as (S1 & S2 & S3 & S4). unfold alerted, alert in *. cbn [fst snd].
  destruct Hcase as [(Hna & Hl & _)|[(_ & Hk & Hl)|(_ & Hex)]].
  - left. split; [done|]. intros key _ ((? & ?) & _). apply Hna. split; congruence.
  - left. split; [done|]. intros key Hne (_ & ? & _). congruence.
  - right. by rewrite S4.
Qed.

Lemma run_events_spaced r ins now hist :
  0 < dedup_window r ≤ int64_max → gate_ok (dedup_window r) (rn_lastDedup r) hist now →
  hist_sorted hist now → dedup_clock now ins →
  (∀ j b key res, key ≠ "" → ins !! j = Some b → run_events r ins !! j = Some res → alerted (rn_cfg r) key res →
     ∀ t, (key, t) ∈ hist → dedup_window r ≤ ex_check (in_env b) - t) ∧
  (∀ i j a b key ra rb, key ≠ "" → (i < j)%nat → ins !! i = Some a → ins !! j = Some b →
     run_events r ins !! i = Some ra → run_events r ins !! j = Some rb →
     alerted (rn_cfg r) key ra → alerted (rn_cfg r) key rb →
     dedup_window r ≤ ex_check (in_env b) - ex_store (in_env a)).
Proof.
  intros Hw. revert r now hist Hw. induction ins as [|x ins IH]; intros r now hist Hw Hok Hs Hc; [done|].
  destruct Hc as (C1 & C2 & C3 & Hc). cbn [run_events].
  destruct (processEvent json_line (in_env x) r (in_event x) (in_observed x) (in_now x)) as [[r' e'] out] eqn:Hp.
  apply processEvent_gate in Hp as [Hcfg Hgate].
  assert (Hdw : dedup_window r' = dedup_window r) by (unfold dedup_window; by rewrite Hcfg).
  (* What the head does to the history, and what it answers. *)
  assert (Hhead : ∃ hist', (∀ p, p ∈ hist → p ∈ hist') ∧
     gate_ok (dedup_window r) (rn_lastDedup r') hist' (ex_prune (in_env x)) ∧
     hist_sorted hist' (ex_prune (in_env x)) ∧
     (∀ key, key ≠ "" → alerted (rn_cfg r) key (e', out) →
        (key, ex_store (in_env x)) ∈ hist' ∧ ∀ t, (key, t) ∈ hist → dedup_window r ≤ ex_check (in_env x) - t)).
  { destruct Hgate as [[Hl Hna]|(c & (K1 & K2 & K3 & K4) & Hg & Hwr)].
    - exists hist. split; [done|]. rewrite Hl. split_and!; [| |by intros key Hk Hal; destruct (Hna key Hk)].
      + intros k. destruct (Hok k) as [?|(? & t & ? & ?)]; [by left|]. right. split; [done|]. exists t. split; [done|lia].
      + eapply hist_sorted_le; [done|lia].
    - unfold gate_step in *. rewrite <-K2 in C1, C2.
      pose proof (blocked_recent _ Hw _ _ (gc_key c) _ (gc_check c) Hok Hs C1) as Hb.
      destruct (blocked _ _ _ _); cbn [fst snd] in *.
      + exists hist. split; [done|]. rewrite <-Hg. split_and!.
        * intros k. destruct (Hok k) as [?|(? & t & ? & ?)]; [by left|]. right. split; [done|]. exists t. split; [done|lia].
        * eapply hist_sorted_le; [done|lia].
        * intros key _ (_ & _ & Hwt). by apply Hwr in Hwt.
      + exists ((gc_key c, gc_store c) :: hist). split; [by right|]. rewrite <-K3 in *. split_and!.
        * rewrite <-Hg. assert (Hst : gate_ok (dedup_window r) (<[gc_key c := gc_store c]> (rn_lastDedup r))
            ((gc_key c, gc_store c) :: hist) (gc_store c)) by (eapply gate_ok_store; [exact Hok|lia]).
          destruct K4 as [-> | ->]; [|by eapply gate_ok_prune].
          intros k. destruct (Hst k) as [?|(? & t & ? & ?)]; [by left|]. right. split; [done|]. exists t. split; [done|lia].
        * eapply hist_sorted_le; [eapply hist_sorted_cons; [done|lia]|lia].
        * intros key Hk (_ & Hke & Hwt). cbn [fst] in Hke. rewrite K1, Hke. split; [left|]. intros t Ht.
          destruct (Z.le_gt_cases (dedup_window r) (ex_check (in_env x) - t)) as [?|Hlt]; [done|].
          exfalso. assert (false = true); [|done]. apply Hb. exists t. rewrite K1, Hke, K2. split; [done|lia]. }
  destruct Hhead as (hist' & Hsub & Hok' & Hs' & Hal).
  destruct (IH r' (ex_prune (in_env x)) hist') as [IHa IHb]; [by rewrite Hdw|by rewrite Hdw|done|done|].
  rewrite Hcfg, Hdw in IHa. rewrite Hcfg, Hdw in IHb. split.
  - intros [|j] b key res Hk; cbn.
    + intros [= <-] [= <-] Ha. by apply Hal.
    + intros Hb Hr Ha t Ht. eapply IHa; eauto.
  - intros [|i] [|j] a b key ra rb Hk Hij; cbn; try lia.
    + intros [= <-] Hb [= <-] Hrb Haa Hab. eapply IHa; eauto. by apply Hal.
    + intros Ha Hb Hra Hrb. apply (IHb i j a b key); [done|lia|done..].
Qed.

(** C5: An alert is not repeated within the window: along any sequence of events
    and for any key, between the moment an alert was recorded and the check
    that lets the next alert with the same key be written, at least the
    deduplication window (the scan interval, or five minutes when that is not
    positive) has passed; pruning the table never breaks this. *)
Theorem alerts_deduplicated r ins now i j a b key ra rb :
  rn_lastDedup r = ∅ → cfg_ScanInterval (rn_cfg r) ≤ int64_max → dedup_clock now ins →
  key ≠ "" → (i < j)%nat → ins !! i = Some a → ins !! j = Some b →
  run_events r ins !! i = Some ra → run_events r ins !! j = Some rb →
  alerted (rn_cfg r) key ra → alerted (rn_cfg r) key rb →
  dedup_window r ≤ ex_check (in_env b) - ex_store (in_env a).
Proof.
  intros He Hmax Hc. assert (Hw : 0 < dedup_window r ≤ int64_max).
  { unfold dedup_window. destruct (Z.leb_spec (cfg_ScanInterval (rn_cfg r)) 0); [|lia]. unfold int64_max, minute, second. lia. }
  destruct (run_events_spaced r ins now [] Hw) as [_ Hb]; [rewrite He; apply gate_ok_empty|apply hist_sorted_nil|done|].
  apply Hb.
Qed.

End facts.

(** * Scans *)

Section scans.
Context `{FileReader} `{DirReader} `{LinkReader} `{Stater}.
Variable json_line : Event → option string.
Variable json_Unmarshal : string → result Snapshot.

(** The detectors whose error ends a full scan, in the order they run. *)
Definition mandatory (dts : Detectors) (r : Runner) (snap : Snapshot) (t1 : Time) : list (result (list Event)) :=
  let cfg := rn_cfg r in
  [run_if (cfg_IntegrityVerifyEnabled cfg && (cfg_IntegrityScanInterval cfg <=? 0)) (dt_integrity dts) r snap;
   run_if true (dt_memorymaps dts) r snap;
   run_if (networkScanDue r t1) (dt_network dts) r snap;
   run_if (cf_Enabled (cfg_CopyFail cfg)) (dt_copyfail dts) r snap;
   run_if (cfg_AncestryScanEnabled cfg) (dt_ancestry dts) r snap;
   run_if true (dt_recon dts) r snap;
   run_if true (dt_persistence dts) r snap;
   run_if true (dt_ldpreload dts) r snap;
   run_if true (dt_web dts) r snap].

(** The events of a full scan in the order they are processed: those of the
    mandatory detectors, and of the others where they succeed. *)
Definition scan_events (dts : Detectors) (r : Runner) (snap : Snapshot) (t1 now : Time) : list Event :=
  let run (d : Detector) := if_ok (d (rn_cfg r) snap (rn_pack r)) in
  let m := map if_ok (mandatory dts r snap t1) in
  concat (take 5 m) ++ match dt_yara dts with Some d => run d | None => [] end ++ concat (drop 5 m) ++
  run (dt_upload dts) ++ run (dt_tamper dts) ++ run (dt_fimextra dts) ++ ScanState (rn_cfg r) snap (rn_pack r) AgentVersion now.

(** The runner after the network scan. *)
Definition network_stamped (r : Runner) (t1 t2 : Time) : Runner :=
  if networkScanDue r t1 then r <| rn_lastNetworkScan := t2 |> else r.

Lemma full_events_spec dts r snap t1 t2 now :
  let '(r', res) := full_events dts r snap t1 t2 now in
  (r' = r ∨ r' = network_stamped r t1 t2) ∧
  if forallb is_ok (mandatory dts r snap t1)
  then r' = network_stamped r t1 t2 ∧ res = Ok (scan_events dts r snap t1 now)
  else is_ok res = false.
Proof.
  unfold full_events, scan_events, mandatory, network_stamped, scan_rest, collectFIM, run_if, DefenseState. cbv zeta.
  destruct (if _ && _ then dt_integrity dts _ _ _ else _) as [int|?]; [|by split; [left|]].
  destruct (dt_memorymaps dts _ _ _) as [maps|?]; [|by split; [left|]].
  set (due := networkScanDue r t1). destruct (if due then dt_network dts _ _ _ else _) as [net|?]; [|by split; [left|]].
  set (r1 := if due then r <| rn_lastNetworkScan := t2 |> else r).
  assert (Hr1 : rn_cfg r1 = rn_cfg r ∧ rn_pack r1 = rn_pack r) by (unfold r1; by destruct due).
  destruct Hr1 as [-> ->]. split; [by right|].
  generalize (ScanState (rn_cfg r) snap (rn_pack r) AgentVersion now). intros df.
  cbn [forallb is_ok andb map if_ok ok_or].
  destruct (if cf_Enabled _ then dt_copyfail dts _ _ _ else _) as [cf|?]; [|done].
  destruct (if cfg_AncestryScanEnabled _ then dt_ancestry dts _ _ _ else _) as [anc|?]; [|done].
  destruct (dt_recon dts _ _ _) as [recon|?]; [|done].
  destruct (dt_persistence dts _ _ _) as [ev|?]; [|done].
  destruct (dt_ldpreload dts _ _ _) as [ev2|?]; [|done].
  destruct (dt_web dts _ _ _) as [ev3|?]; [|done]. cbn. split; [done|]. f_equal.
  rewrite !app_nil_r, <-!app_assoc. by destruct (dt_yara dts).
Qed.

(** C16: A full scan is all or nothing.  When the baseline cannot be read, or a
    mandatory detector that is due fails, nothing is written and nothing
    happens to the host, and of the runner's state only the cache and the time
    of the network scan can change; otherwise exactly the events of all
    detectors are processed, in order, those of an optional detector being left
    out when it fails. *)
Theorem scanFull_all_or_nothing dts envs r t1 t2 now :
  let '(r', out, res) := scanFull json_line json_Unmarshal dts envs r t1 t2 now in
  match get_baseline json_Unmarshal r with
  | (r0, Err e) => (r', out, res) = (r0, [], Err e)
  | (r0, Ok snap) =>
      if forallb is_ok (mandatory dts r0 snap t1)
      then (r', out) = process_all json_line envs (network_stamped r0 t1 t2) (scan_events dts r0 snap t1 now) now ∧ res = Ok tt
      else (r' = r0 ∨ r' = network_stamped r0 t1 t2) ∧ out = [] ∧ is_ok res = false
  end.
Proof.
  unfold scanFull. destruct (get_baseline json_Unmarshal r) as [r0 [snap|e]]; [|done].
  pose proof (full_events_spec dts r0 snap t1 t2 now) as Hf.
  destruct (full_events dts r0 snap t1 t2 now) as [r1 res]. destruct Hf as [Hr Hf].
  destruct (forallb is_ok (mandatory dts r0 snap t1)).
  - destruct Hf as [-> ->]. unfold process_result. by destruct (process_all _ _ _ _).
  - destruct res as [es|e]; [done|]. by unfold process_result.
Qed.

End scans.

(** * Overlapping scans *)

(** Requests that were turned away. *)
Definition turned_away (ls : list scan_label) : Z :=
  Z.of_nat (length (List.filter (λ l, match l with LRequest _ false => true | _ => false end) ls)).

(** C17: Scans exclude each other: in every interleaving of any number of
    goroutines at most one is inside a scan, the lock is held exactly while one
    is, and every request that did not get in has been counted (in 64 bits). *)
Theorem scans_exclusive ls s :
  scan_run ls s →
  (length (sc_running s) ≤ 1)%nat ∧ (sc_locked s = true ↔ sc_running s ≠ []) ∧
  OverlappingSkipped s = wrapu 64 (turned_away ls).
Proof.
  unfold OverlappingSkipped. induction 1 as [|ls s l s' _ (Hlen & Hlock & Hcnt) Hstep];
    [by split_and!; [cbn; lia| |]|].
  assert (Hsnoc : ∀ l, turned_away (ls ++ [l]) = turned_away ls + match l with LRequest _ false => 1 | _ => 0 end).
  { intros x. unfold turned_away. rewrite List.filter_app, length_app. cbn.
    destruct x as [g []|g]; cbn; lia. }
  rewrite Hsnoc. clear Hsnoc. inversion Hstep as [g s0 Hl|g s0 Hl|g s0 Hin]; subst; cbn [sc_running sc_locked sc_overlapping].
  - assert (sc_running s = []) as ->.
    { destruct (sc_running s) eqn:Hrun; [done|]. assert (sc_locked s = true); [by apply Hlock; congruence|congruence]. }
    cbn. rewrite Z.add_0_r. split_and!; [lia|done|done].
  - rewrite Hcnt. split_and!; [done|by rewrite <-Hlock|]. unfold wrapu.
    by rewrite Zplus_mod_idemp_l.
  - rewrite Z.add_0_r. destruct (sc_running s) as [|x [|? ?]] eqn:Hrun; [by apply elem_of_nil in Hin| |cbn in Hlen; lia].
    apply list_elem_of_singleton in Hin as ->. cbn. rewrite Nat.eqb_refl. cbn. split_and!; [lia|done|done].
Qed.

Lemma scans_exclusive_witness :
  let s := mkScanLock [1%nat] true 1 in
  (length (sc_running s) ≤ 1)%nat ∧ (sc_locked s = true ↔ sc_running s ≠ []) ∧
  OverlappingSkipped s = wrapu 64 (turned_away [LRequest 1 true; LRequest 2 false]).
Proof.
  apply (scans_exclusive [LRequest 1 true; LRequest 2 false]).
  apply (scan_run_snoc [LRequest 1 true] (mkScanLock [1%nat] true 0)); [|by apply (scan_skip 2 (mkScanLock [1%nat] true 0))].
  apply (scan_run_snoc [] (mkScanLock [] false 0)); [constructor|by apply (scan_enter 1 (mkScanLock [] false 0))].
Defined.

(** * Witnesses *)

(** A host without files, and a runner that quarantines what it finds. *)
#[local] Instance no_files : FileReader := λ _, Err ErrNotExist.
#[local] Instance no_dirs : DirReader := λ _, Err ErrNotExist.
#[local] Instance no_links : LinkReader := λ _, Err ErrNotExist.

Definition demo_system : System := mkSystem 0 (λ _, Ok tt) (λ _, Ok tt) (λ _ _, Ok "stored").
Definition demo_env (t : Time) : Env := mkEnv demo_system t t t t t t (λ _, no_faults).
Definition demo_json (e : Event) : option string := Some (ev_RuleID e).

Definition demo_cfg : Config :=
  zero_Config <| cfg_ScanInterval := 100 |> <| cfg_MinConfidenceAlert := 70 |> <| cfg_QuarantineMinConfidence := 80 |>.

Definition demo_runner : Runner :=
  mkRunner demo_cfg (mkPack "1" []) None ∅ 0 (NewLimiter 0) None NewFeed (newCorrelator 16) [] true None
    (NewTracker 16) zero_Cache 0 None.

Definition demo_event : Event :=
  zero_Event <| ev_RuleID := "R" |> <| ev_DedupKey := "k" |> <| ev_Confidence := 90 |>
    <| ev_Entity := mkEntity EntityFile "id" "/tmp/x" "" |>.

Definition demo_result := processEvent demo_json (demo_env 5) demo_runner demo_event 0 5.

Lemma host_effects_justified_witness :
  ev_LearningOnly demo_event = false ∧ rejected demo_runner demo_event = false ∧
  let '(e1, rule) := judged demo_runner demo_event 5 in
  (∃ eng, rn_responder demo_runner = Some eng ∧ gates demo_system eng e1 rule) ∨
  (rp_Enabled (cfg_Respond (rn_cfg demo_runner)) = false ∧ rn_vault demo_runner = true ∧
   en_Type (ev_Entity demo_event) = EntityFile ∧
   0 < cfg_QuarantineMinConfidence (rn_cfg demo_runner) ≤ ev_Confidence e1 ∧
   EStore "/tmp/x" = EStore (en_Path (ev_Entity demo_event))).
Proof.
  apply (host_effects_justified demo_json (demo_env 5) demo_runner demo_event 0 5
    demo_result.1.1 demo_result.1.2 demo_result.2 (EStore "/tmp/x")); [vm_compute; reflexivity|].
  vm_compute. right. left.
Defined.


(** The same alert at times 5, 50 (suppressed) and 105. *)
Definition demo_inputs : list input := map (λ t, mkInput (demo_env t) demo_event 0 t) [5; 50; 105].

Lemma alerts_deduplicated_witness : dedup_window demo_runner ≤ 105 - 5.
Proof.
  set (res := run_events demo_json demo_runner demo_inputs).
  apply (alerts_deduplicated demo_json demo_runner demo_inputs 0 0 2
    (mkInput (demo_env 5) demo_event 0 5) (mkInput (demo_env 105) demo_event 0 105) "k"
    (default (zero_Event, []) (res !! 0%nat)) (default (zero_Event, []) (res !! 2%nat)));
    try (vm_compute; reflexivity); try done; try lia.
  all: vm_compute; split_and!; [done|discriminate|done|exists "R"; left].
Defined.

Lemma alert_written_iff_witness :
  let '(r', e', out) := processEvent demo_json (demo_env 5) demo_runner demo_event 0 5 in
  let e1 := (judged demo_runner demo_event 5).1 in
  (written out ↔
     (ev_DedupKey e1 = "" ∨ blocked 100 ∅ (ev_DedupKey e1) 5 = false) ∧
     (Limiter.Allow (NewLimiter 0) (ev_RuleID e1) 5).2 = true ∧ is_Some (demo_json e')).
Proof.
  pose proof (alert_written_iff demo_json (demo_env 5) demo_runner demo_event 0 5) as Hw.
  destruct (processEvent _ _ _ _ _ _) as [[r' e'] out]. apply Hw. vm_compute. split; [done|discriminate].
Defined.
