(* ===== verification/Yara.v ===== *)
(** [internal/detect/yara]: matching files and processes against YARA rules.

    libyara (through [github.com/hillu/go-yara]) is a parameter: a compiler that
    takes rule files and a compiled set that answers for a file or a process.
    A build without the tag has the stub of [yara_stub.go] instead. *)
From S2P Require Export Detect Procfs Runner.

Definition RuleYARADisk : string := "YARA_DISK_MATCH".
Definition RuleYARAProcess : string := "YARA_PROCESS_MATCH".

(** [Region], [Offset] and [Excerpt] are never set. *)
Record Match := mkMatch { ym_RuleID : string; ym_Tags : list string; ym_Path : string; ym_Pid : Z }.

Definition ErrDisabled : string := "yara: built without with_yara tag".

(** [fmt]'s [%v] of a list of strings. *)
Definition list_text (l : list string) : string := "[" +:+ sjoin " " l +:+ "]".

Definition tag_signals (m : Match) : list string := map (String.append "yara_tag:") (ym_Tags m).

Definition nonzero_score (pack : Pack) (ruleID : string) (sigs : list string) (d : Z) : Z :=
  let conf := fst (Score pack ruleID sigs) in if conf =? 0 then d else conf.

Definition makeFileEvent (m : Match) (pack : Pack) (agentVer : string) (now : Time) (learning : bool) : Event :=
  let sigs := ("yara_rule:" +:+ ym_RuleID m) :: tag_signals m in
  (route_event pack agentVer now RuleYARADisk (nonzero_score pack RuleYARADisk sigs 80) learning
    (mkEntity EntityFile (to_lower (ym_RuleID m)) (ym_Path m) "") sigs
    ("yara rule=" +:+ ym_RuleID m +:+ " tags=" +:+ list_text (ym_Tags m) +:+ " path=" +:+ ym_Path m))
  <| ev_Tactic := "discovery" |> <| ev_LearningOnly := learning |>.

Definition makeProcEvent (m : Match) (pack : Pack) (agentVer : string) (now : Time) (learning : bool) : Event :=
  let sigs := ("yara_rule:" +:+ ym_RuleID m) :: "memory_match" :: tag_signals m in
  (route_event pack agentVer now RuleYARAProcess (nonzero_score pack RuleYARAProcess sigs 85) learning
    (mkEntity EntityProcess (itoa (ym_Pid m)) "" "") sigs
    ("yara rule=" +:+ ym_RuleID m +:+ " pid=" +:+ itoa (ym_Pid m) +:+ " tags=" +:+ list_text (ym_Tags m)))
  <| ev_Tactic := "defense-evasion" |> <| ev_LearningOnly := learning |>.

(** * The scanner *)

Lemma flat_map_none {A B} (f : A → list B) l : (∀ x, f x = []) → flat_map f l = [].
Proof. intros Hf. induction l as [|x l IH]; [done|]. cbn. by rewrite Hf. Qed.

Section library.
Context {Compiler Rules : Type} `{TreeWalker} `{FileReader} `{DirReader}.

(** A match of the library: a rule and its tags. *)
Variable NewCompiler : result Compiler.
Variable AddFile : Compiler → string → string → Compiler * bool.  (* the text and its name *)
Variable GetRules : Compiler → result Rules.
Variable lib_ScanFile : Rules → string → result (list (string * list string)).
Variable lib_ScanProc : Rules → Z → result (list (string * list string)).

Definition is_rule_file (path : string) : bool :=
  let name := to_lower (path_base path) in has_suffix name ".yar" || has_suffix name ".yara".

(** One visit of the walk over the rule directory. *)
Definition add_rule_file (st : Compiler * Z) (e : walk_entry) : Compiler * Z :=
  let '(comp, added) := st in
  if we_Err e || we_IsDir e || negb (is_rule_file (we_Path e)) then st
  else match ReadFile (we_Path e) with
       | Err _ => st
       | Ok text => let '(comp, ok) := AddFile comp text (path_base (we_Path e)) in
                    (comp, if ok then added + 1 else added)
       end.

(** A closed scanner has no rules. *)
Definition Scanner : Type := option Rules.

Definition New_yara (dir : string) : result Scanner :=
  let? comp := NewCompiler in
  let '(comp, added) := fold_left add_rule_file (WalkDir dir) (comp, 0) in
  if added =? 0 then Err ("yara: no rule files under " +:+ dir)
  else let? rules := GetRules comp in Ok (Some rules).

Definition Close_yara (s : Scanner) : Scanner := None.

Definition toMatchesFile (path : string) (ms : list (string * list string)) : list Match :=
  map (λ '(rule, tags), mkMatch rule tags path 0) ms.

Definition ScanFile (s : Scanner) (path : string) : result (list Match) :=
  match s with
  | None => Ok []
  | Some rules => let? ms := lib_ScanFile rules path in Ok (toMatchesFile path ms)
  end.

Definition ScanProcess (s : Scanner) (pid : Z) : result (list Match) :=
  match s with
  | None => Ok []
  | Some rules => let? ms := lib_ScanProc rules pid in Ok (map (λ '(rule, tags), mkMatch rule tags "" pid) ms)
  end.

(** * The scan *)

(** A file that cannot be scanned is passed over. *)
Definition scanTree (s : Scanner) (root : string) : list Match :=
  flat_map (λ e, if we_Err e || we_IsDir e then [] else ok_or [] (ScanFile s (we_Path e))) (WalkDir root).

Definition wanted (cfg : Config) (comm : string) : bool :=
  mem_str comm (cfg_TargetProcessNames cfg ++ cfg_MapsWatchProcesses cfg).

Definition pid_matches (s : Scanner) (cfg : Config) (pid : Z) : list Match :=
  match Procfs.Comm pid with
  | (comm, true) => if wanted cfg comm then ok_or [] (ScanProcess s pid) else []
  | (_, false) => []
  end.

Definition proc_matches (s : Scanner) (cfg : Config) : list Match :=
  match Processes with
  | (pids, true) => flat_map (pid_matches s cfg) pids
  | (_, false) => []
  end.

(** [scanner] may be nil. *)
Definition Scan_yara (scanner : option Scanner) (cfg : Config) (pack : Pack) (agentVer : string) (now : Time)
  : result (list Event) :=
  match scanner with
  | None => Ok []
  | Some s =>
      Ok (map (λ m, makeFileEvent m pack agentVer now (cfg_LearningMode cfg)) (flat_map (scanTree s) (cfg_DocumentRoots cfg)) ++
          map (λ m, makeProcEvent m pack agentVer now (cfg_LearningMode cfg)) (proc_matches s cfg))
  end.

(** The detector of the runner: present when a rule directory is configured and
    its rules compile. *)
Definition yara_detector (cfg : Config) (now : Time) : option Detector :=
  if cfg_YARARulesDir cfg =s? "" then None
  else match New_yara (cfg_YARARulesDir cfg) with
       | Ok sc => Some (λ cfg _ pack, Scan_yara (Some sc) cfg pack AgentVersion now)
       | Err _ => None
       end.

(** * Properties *)

Lemma scanTree_spec s root m :
  In m (scanTree (Some s) root) ↔
  ∃ e ms, In e (WalkDir root) ∧ we_Err e = false ∧ we_IsDir e = false ∧ lib_ScanFile s (we_Path e) = Ok ms ∧
          In (ym_RuleID m, ym_Tags m) ms ∧ ym_Path m = we_Path e ∧ ym_Pid m = 0.
Proof.
  unfold scanTree. rewrite in_flat_map. split.
  - intros (e & He & Hm). destruct (we_Err e) eqn:E1; [done|]. destruct (we_IsDir e) eqn:E2; [done|]. cbn in Hm.
    destruct (lib_ScanFile s (we_Path e)) as [ms|] eqn:E3; [|done]. cbn in Hm. unfold toMatchesFile in Hm.
    apply in_map_iff in Hm as ([r t] & <- & Hin). exists e, ms. by split_and!.
  - intros (e & ms & He & E1 & E2 & E3 & Hin & Hp & Hpid). exists e. split; [done|]. rewrite E1, E2. cbn. rewrite E3. cbn.
    apply in_map_iff. exists (ym_RuleID m, ym_Tags m). split; [|done]. destruct m; cbn in *. by subst.
Qed.

(** The files that are reported are exactly those a rule matches below a
    document root, with that rule. *)
Lemma yara_file_iff s cfg pack agentVer now path rule evs :
  Scan_yara (Some (Some s)) cfg pack agentVer now = Ok evs →
  (∃ m, In (makeFileEvent m pack agentVer now (cfg_LearningMode cfg)) evs ∧ ym_RuleID m = rule ∧ ym_Path m = path ∧
        In m (flat_map (scanTree (Some s)) (cfg_DocumentRoots cfg))) ↔
  (∃ root e ms tags, In root (cfg_DocumentRoots cfg) ∧ In e (WalkDir root) ∧ we_Path e = path ∧ we_Err e = false ∧
     we_IsDir e = false ∧ lib_ScanFile s path = Ok ms ∧ In (rule, tags) ms).
Proof.
  cbn [Scan_yara]. intros Hs. apply Ok_inj in Hs as <-. split.
  - intros (m & _ & <- & <- & Hm). apply in_flat_map in Hm as (root & Hr & Hm).
    apply scanTree_spec in Hm as (e & ms & He & E1 & E2 & E3 & Hin & Hp & _).
    exists root, e, ms, (ym_Tags m). rewrite Hp. by split_and!.
  - intros (root & e & ms & tags & Hr & He & <- & E1 & E2 & E3 & Hin). exists (mkMatch rule tags (we_Path e) 0).
    assert (Hm : In (mkMatch rule tags (we_Path e) 0) (flat_map (scanTree (Some s)) (cfg_DocumentRoots cfg))).
    { apply in_flat_map. exists root. split; [done|]. apply scanTree_spec. exists e, ms. by split_and!. }
    split_and!; [|done|done|done]. apply in_or_app. left. apply in_map_iff. by eexists.
Qed.

(** Memory is scanned whatever [yara_memory_enabled] says. *)
Lemma memory_flag_ignored s cfg b pack agentVer now :
  Scan_yara s (cfg <| cfg_YARAMemoryEnabled := b |>) pack agentVer now = Scan_yara s cfg pack agentVer now.
Proof. done. Qed.

(** A closed scanner matches nothing. *)
Lemma closed_silent cfg pack agentVer now s :
  Scan_yara (Some (Close_yara s)) cfg pack agentVer now = Ok [].
Proof.
  cbn [Scan_yara]. rewrite (flat_map_none (scanTree _)).
  2:{ intros root. apply flat_map_none. intros e. by destruct (_ || _). }
  unfold proc_matches. destruct Processes as [pids []]; [|done]. rewrite flat_map_none; [done|].
  intros pid. unfold pid_matches. destruct (Procfs.Comm pid) as [c []]; [|done]. by destruct (wanted cfg c).
Qed.

End library.

(** The stub. *)
Definition New_stub (dir : string) : result unit := Err ErrDisabled.
Definition Enabled_stub : bool := false.
