(* ===== verification/Delivery.v ===== *)
(** Delivery end to end: what becomes of an emitted event at the destinations
    of [Runner.emit], at the clients of [internal/export] behind them, and in
    the spool.

    The first part is about the runner and its spool over any sequence of
    events; the second puts the concrete clients in the place of the runner's
    abstract sinks. *)
From S2P Require Export RunnerFacts ExportFacts.
#[local] Set Default Proof Using "Type*".

(** * What is not delivered *)

Definition spooled (out : list output) : list string := omap (λ o, match o with OSpool l => Some l | _ => None end) out.

Definition emitted_line (out : list output) : option string :=
  head (omap (λ o, match o with OLine l => Some l | _ => None end) out).

(** The destinations that refuse an event: the legacy syslog and the sinks. *)
Definition failures (r : Runner) (e : Event) (line : string) : nat :=
  (match rn_syslog r with Some send => if send e line then 1 else 0 | None => 0 end +
   length (List.filter (λ s, s e line) (rn_sinks r)))%nat.

(** The records of one processed event: its line, once per destination that
    refused it. *)
Definition undelivered (r : Runner) (res : Event * list output) : list string :=
  match emitted_line res.2 with
  | Some line => replicate (failures r res.1 line) line
  | None => []
  end.

Lemma spooled_app a b : spooled (a ++ b) = spooled a ++ spooled b.
Proof. apply omap_app. Qed.

(** * The spool behind one emission *)

Section deliver.
Variable ft : nat → Faults.
Hypothesis disk : ∀ n, ft n = no_faults.

Lemma deliver_spool fails line s n :
  ∃ n' o, deliver ft fails line (Some s, n) = (Some (append_all s (if fails then [line] else [])), n', o).
Proof. unfold deliver. destruct fails; cbn [append_all]; [rewrite disk|]; eauto. Qed.

Lemma send_all_spool i sinks e line : ∀ s n,
  ∃ n' o, send_all ft i sinks e line (Some s, n) =
    (Some (append_all s (replicate (length (List.filter (λ s, s e line) sinks)) line)), n', o).
Proof.
  revert i. induction sinks as [|s1 sinks IH]; intros i s n; cbn [send_all]; [by eexists _, _|].
  destruct (deliver_spool (s1 e line) line s n) as (n1 & o1 & ->).
  destruct (IH (S i) (append_all s (if s1 e line then [line] else [])) n1) as (n2 & o2 & ->).
  eexists _, _. f_equal. f_equal. f_equal. rewrite <-append_all_app. f_equal. cbn [List.filter]. by destruct (s1 e line).
Qed.

End deliver.

Section runner.
Context `{FileReader} `{DirReader} `{LinkReader}.
Variable json_line : Event → option string.

Definition disk_ok (env : Env) : Prop := ∀ n, ex_faults env n = no_faults.

Definition same_outlets (r' r : Runner) : Prop :=
  rn_spool r' = rn_spool r ∧ rn_syslog r' = rn_syslog r ∧ rn_sinks r' = rn_sinks r.

Lemma no_line_first (P : list output) o :
  (∀ x, x ∈ P → ∀ l, x ≠ OLine l) → emitted_line (P ++ o) = emitted_line o.
Proof.
  intros HP. unfold emitted_line. rewrite omap_app. replace (omap _ P) with (@nil string); [done|].
  induction P as [|x P IH]; [done|]. cbn. rewrite <-IH by (intros y Hy; apply HP; by right).
  destruct x; try done. destruct (HP _ ltac:(left) _ eq_refl).
Qed.

Lemma emit_spool env r e r' e' out s :
  disk_ok env → rn_spool r = Some s → emit json_line env r e = (r', e', out) →
  rn_spool r' = Some (append_all s (undelivered r (e', out))) ∧ rn_syslog r' = rn_syslog r ∧ rn_sinks r' = rn_sinks r.
Proof.
  intros Hd Hs. unfold emit. cbv zeta. set (e1 := (e <| ev_DefenseLayer := _ |>) <| ev_SOCEscalate := _ |>). clearbody e1.
  destruct (json_line e1) as [line|]; [|by intros [= <- <- <-]].
  set (first := match rn_syslog r with Some _ => _ | None => _ end).
  set (k1 := match rn_syslog r with Some send => if send e1 line then 1%nat else 0%nat | None => 0%nat end).
  assert (Hf : ∃ n o, first = (Some (append_all s (replicate k1 line)), n, o)).
  { unfold first, k1. rewrite Hs. destruct (rn_syslog r) as [send|]; [|by eexists _, _].
    destruct (deliver_spool (ex_faults env) Hd (send e1 line) line s 0) as (n & o & ->). eexists _, _. f_equal.
    by destruct (send e1 line). }
  destruct Hf as (n & o1 & ->).
  destruct (send_all_spool (ex_faults env) Hd 0 (rn_sinks r) e1 line (append_all s (replicate k1 line)) n) as (n2 & o2 & ->).
  intros [= <- <- <-]. split; [|done].
  change (Some (append_all (append_all s (replicate k1 line))
    (replicate (length (List.filter (λ s0, s0 e1 line) (rn_sinks r))) line)) =
    Some (append_all s (replicate (failures r e1 line) line))).
  by rewrite <-append_all_app, <-replicate_add.
Qed.

(** ** One event *)

Lemma act_on_outlets env r e rule obs r' e' acts :
  act_on env r e rule obs = (r', e', acts) → same_outlets r' r ∧ ∀ x, x ∈ acts → ∀ l, x ≠ OLine l.
Proof.
  unfold act_on. destruct (rn_responder r) as [eng|].
  - destruct (Decide _ _ _ _ _) as [eng1 plan]. destruct (Apply_plan _ _ _ _ _ _) as [[eng2 e2] effs].
    intros [= <- <- <-]. split; [done|]. intros x (eff & -> & _)%list_elem_of_fmap. done.
  - intros [= <- <- <-]. split; [done|]. by intros x ?%elem_of_nil.
Qed.

Lemma shouldDedup_outlets env r key : same_outlets (shouldDedup env r key).1 r.
Proof. unfold shouldDedup. destruct (key =s? ""); [done|]. by destruct (blocked _ _ _ _). Qed.

Lemma same_outlets_trans a b c : same_outlets a b → same_outlets b c → same_outlets a c.
Proof. intros (?&?&?) (?&?&?). split_and!; congruence. Qed.

Lemma processEvent_spool env r e obs now r' e' out s :
  disk_ok env → rn_spool r = Some s → processEvent json_line env r e obs now = (r', e', out) →
  rn_spool r' = Some (append_all s (undelivered r (e', out))) ∧ rn_syslog r' = rn_syslog r ∧ rn_sinks r' = rn_sinks r.
Proof.
  intros Hd Hs. unfold processEvent. destruct (judged r e now) as [e1 rule].
  set (r1 := r <| rn_correlator := _ |>). assert (Hr1 : same_outlets r1 r) by done. clearbody r1.
  destruct (act_on env r1 e1 rule obs) as [[r2 e2] acts] eqn:Ha. apply act_on_outlets in Ha as [Hr2 Hno].
  pose proof (same_outlets_trans _ _ _ Hr2 Hr1) as Hr. clear Hr1 Hr2 r1.
  assert (Hquiet : ∀ r3 e3, same_outlets r3 r → (r3, e3, acts) = (r', e', out) →
    rn_spool r' = Some (append_all s (undelivered r (e', out))) ∧ rn_syslog r' = rn_syslog r ∧ rn_sinks r' = rn_sinks r).
  { intros r3 e3 (K1 & K2 & K3) [= <- <- <-]. unfold undelivered. cbn [snd].
    rewrite <-(app_nil_r acts), no_line_first by done. cbn. split_and!; congruence. }
  assert (Hemit : ∀ r3, same_outlets r3 r →
    (let '(r, e, o) := emit json_line env r3 e2 in (r, e, acts ++ o)) = (r', e', out) →
    rn_spool r' = Some (append_all s (undelivered r (e', out))) ∧ rn_syslog r' = rn_syslog r ∧ rn_sinks r' = rn_sinks r).
  { intros r3 Hr3. destruct (emit json_line env r3 e2) as [[r4 e4] o] eqn:He.
    apply (emit_spool _ _ _ _ _ _ s) in He as (E1 & E2 & E3); [|done|by rewrite (proj1 Hr3)].
    intros [= <- <- <-]. destruct Hr3 as (K1 & K2 & K3). unfold undelivered in *. cbn [fst snd] in *.
    rewrite no_line_first by done. rewrite E1, E2, E3. split_and!; try done.
    destruct (emitted_line o); [|done]. unfold failures. by rewrite K2, K3. }
  destruct (ev_LearningOnly e2); [by apply Hemit|]. destruct (_ <? _); [by apply Hemit|].
  pose proof (shouldDedup_outlets env r2 (ev_DedupKey e2)) as Hsd. destruct (shouldDedup env r2 (ev_DedupKey e2)) as [r3 dup].
  pose proof (same_outlets_trans _ _ _ Hsd Hr) as Hr3. destruct dup; [by apply Hquiet|].
  destruct (Limiter.Allow _ _ _) as [lim ok].
  assert (Hr4 : same_outlets (r3 <| rn_limiter := lim |>) r) by exact Hr3.
  destruct ok; cbn [negb]; [by apply Hemit|by apply Hquiet].
Qed.

(** What is written is a line that the encoder made. *)
Lemma emit_encoded env r e r' e' out l :
  emit json_line env r e = (r', e', out) → emitted_line out = Some l → ∃ e0, json_line e0 = Some l.
Proof.
  unfold emit. cbv zeta. set (e1 := (e <| ev_DefenseLayer := _ |>) <| ev_SOCEscalate := _ |>). clearbody e1.
  destruct (json_line e1) as [line|] eqn:Hj; [|by intros [= <- <- <-]].
  destruct (match rn_syslog r with Some _ => _ | None => _ end) as [[sp n] o1]. destruct (send_all _ _ _ _ _ _) as [[sp2 n2] o2].
  intros [= <- <- <-] [= <-]. by exists e1.
Qed.

Lemma processEvent_encoded env r e obs now r' e' out l :
  processEvent json_line env r e obs now = (r', e', out) → emitted_line out = Some l → ∃ e0, json_line e0 = Some l.
Proof.
  intros Hp Hl. apply processEvent_cases in Hp as (e1 & rule & r2 & e2 & acts & _ & Ha & _ & _ & _ & Hout & _).
  apply act_on_outlets in Ha as [_ Hno].
  destruct Hout as [(r3 & o & He & -> & _)| ->]; [rewrite no_line_first in Hl by done; by eapply emit_encoded|].
  rewrite <-(app_nil_r acts), no_line_first in Hl by done. done.
Qed.

(** ** A sequence of events *)

Fixpoint run_final (r : Runner) (ins : list input) : Runner :=
  match ins with
  | [] => r
  | i :: ins => run_final (processEvent json_line (in_env i) r (in_event i) (in_observed i) (in_now i)).1.1 ins
  end.

Lemma undelivered_same r r' res :
  rn_syslog r' = rn_syslog r → rn_sinks r' = rn_sinks r → undelivered r' res = undelivered r res.
Proof. intros Hl Hs. unfold undelivered, failures. by rewrite Hl, Hs. Qed.

Lemma run_spool ins : ∀ r s,
  Forall (λ i, disk_ok (in_env i)) ins → rn_spool r = Some s →
  rn_spool (run_final r ins) = Some (append_all s (flat_map (undelivered r) (run_events json_line r ins))).
Proof.
  induction ins as [|i ins IH]; intros r s Hd Hs; [done|]. inversion_clear Hd as [|? ? Hi Hins]. cbn [run_final run_events].
  destruct (processEvent json_line (in_env i) r (in_event i) (in_observed i) (in_now i)) as [[r1 e1] out] eqn:Hp.
  apply (processEvent_spool _ _ _ _ _ _ _ _ s Hi Hs) in Hp as (Hs1 & Hl & Hk). cbn [fst flat_map].
  rewrite (IH r1 _ Hins Hs1), append_all_app. f_equal. f_equal. apply flat_map_ext. intros res. by apply undelivered_same.
Qed.

Hypothesis encoder : ∀ e l, json_line e = Some l → line_ok l.

Lemma run_lines_ok ins : ∀ r r0, Forall line_ok (flat_map (undelivered r0) (run_events json_line r ins)).
Proof.
  induction ins as [|i ins IH]; intros r r0; [constructor|]. cbn [run_events].
  destruct (processEvent json_line (in_env i) r (in_event i) (in_observed i) (in_now i)) as [[r1 e1] out] eqn:Hp.
  cbn [flat_map]. apply Forall_app. split; [|apply IH]. unfold undelivered. cbn [fst snd].
  destruct (emitted_line out) as [l|] eqn:Hl; [|constructor].
  destruct (processEvent_encoded _ _ _ _ _ _ _ _ _ Hp Hl) as (e0 & He). apply Forall_replicate. by eapply encoder.
Qed.


End runner.

(** * The clients behind the sinks *)

Section clients.
Context `{FileReader} (append_certs : string → bool) (bad_url : string → option string)
  (json_compact : string → option string) (is_print : Z → bool).
Import Sinks.

#[local] Abbreviation send_any := (Sinks.Send (Sink:=any_sink append_certs bad_url json_compact is_print)).
#[local] Abbreviation send_all_clients := (send_each append_certs bad_url json_compact is_print).

(** A request that was answered with a status 2xx. *)
Definition posted (body : string) (w w' : World) : Prop :=
  ∃ rq st, Http.wb_log (wd_web w') = Http.wb_log (wd_web w) ++ [rq] ∧ Http.rq_Body rq = body ∧
    Http.wb_fate (wd_web w) (length (Http.wb_log (wd_web w))) = Ok st ∧ Z.quot st 100 = 2.

(** The collector took the event: the last thing done on the network was a
    whole write of its frame, or its request was answered with 2xx. *)
Definition accepted_by (s : AnySink) (e : Event) (raw : string) (w w' : World) : Prop :=
  match s with
  | TCP c => ∃ f l k, SyslogTCP.frame c e raw = Some f ∧
      SyslogTCP.nt_log (wd_net w') = SyslogTCP.nt_log (wd_net w) ++ l ∧ list.last l = Some (SyslogTCP.IWrite k f true)
  | Splunk c => posted (Http.splunk_body json_compact c raw) w w'
  | Elastic c => posted (Http.bulk_body is_print (eb_Index c) raw) w w'
  | Loki c => posted (Http.push_payload (Http.loki_labels c e) (itoa (GoTime.UnixNano (ev_Timestamp e))) raw) w w'
  end.

Lemma post_posted what url body hs net web web' res :
  Http.post bad_url what url body hs web = (web', res) →
  is_ok res = true ↔ posted body (mkWorld net web) (mkWorld net web').
Proof.
  intros (Hlog & _ & Hok)%HttpFacts.post_iff. rewrite Hok. unfold posted. cbn [wd_web]. rewrite Hlog. split.
  - intros (-> & st & Hst & Hq). eexists _, st. by split_and!.
  - intros (rq & st & Hl & _ & Hst & Hq). apply app_inv_head in Hl.
    destruct (bad_url url); [done|]. split; [done|]. by exists st.
Qed.

Import SyslogTCP.

Lemma net_dial_log secure addr w w' conn :
  net_dial secure addr w = (w', conn) → nt_log w' = nt_log w ++ [IDial secure addr (is_None (fate w))].
Proof. by intros [= <- _]. Qed.

Lemma dial_log c w w' conn :
  dial append_certs c w = (w', conn) → ∃ l, nt_log w' = nt_log w ++ l ∧ ∀ k f, list.last l ≠ Some (IWrite k f true).
Proof.
  unfold dial. repeat case_match; try (intros Hd%net_dial_log; rewrite Hd; by eexists).
  all: intros [= <- _]; exists []; by rewrite app_nil_r.
Qed.

Definition ends_with (framed : string) (l : list io) : Prop := ∃ k, list.last l = Some (IWrite k framed true).

Lemma ends_with_app framed a b : ends_with framed b → ends_with framed (a ++ b).
Proof. intros [k Hk]. exists k. by rewrite list.last_app, Hk. Qed.

(** What a send adds to the log: a whole write at its end exactly when it
    succeeds. *)
Lemma send_go_log n framed : ∀ c w c' w' res,
  send_go append_certs n framed c w = (c', w', res) →
  ∃ l, nt_log w' = nt_log w ++ l ∧ (is_ok res = true ↔ ends_with framed l).
Proof.
  assert (Hnone : ∀ l, (∀ k f, list.last l ≠ Some (IWrite k f true)) → (false = true ↔ ends_with framed l)).
  { intros l Hl. split; [done|]. intros [k Hk]. by destruct (Hl k framed). }
  induction n as [|n IH]; intros c w c' w' res; cbn [send_go].
  { intros [= <- <- <-]. exists []. rewrite app_nil_r. split; [done|]. by apply Hnone. }
  destruct (match tc_conn c with Some k => (w, Ok k) | None => dial append_certs c w end) as [w1 conn] eqn:Hd.
  assert (Hw1 : ∃ l, nt_log w1 = nt_log w ++ l ∧ ∀ k f, list.last l ≠ Some (IWrite k f true)).
  { destruct (tc_conn c); [injection Hd as <- _; exists []; by rewrite app_nil_r|by eapply dial_log]. }
  destruct Hw1 as (l1 & Hl1 & Hn1). destruct conn as [k|e]; [|intros [= <- <- <-]; exists l1; split; [done|by apply Hnone]].
  destruct (net_write k framed w1) as [w2 err] eqn:Hw. injection Hw as <- Hf.
  destruct err as [e|]; rewrite Hf.
  - destruct (S n =? 2)%nat.
    + intros (l2 & Hl2 & Hok)%IH. exists (l1 ++ [IWrite k framed false; IClose k] ++ l2). split.
      { rewrite Hl2. cbn. by rewrite Hl1, <-!app_assoc. }
      rewrite Hok. split; [intros He; by do 2 apply ends_with_app|].
      intros [k' Hk']. rewrite !list.last_app in Hk'. destruct (list.last l2) eqn:E2; [exists k'; congruence|done].
    + intros [= <- <- <-]. exists (l1 ++ [IWrite k framed false; IClose k]). split.
      { cbn. by rewrite Hl1, <-!app_assoc. }
      apply Hnone. intros k' f'. by rewrite list.last_app.
  - intros [= <- <- <-]. exists (l1 ++ [IWrite k framed true]). split; [cbn; by rewrite Hl1, <-app_assoc|].
    split; [|done]. intros _. apply ends_with_app. by exists k.
Qed.

(** A client reports success exactly when the collector took the event. *)
Lemma send_accepted e raw s w s' w' res :
  send_any e raw s w = Some (s', w', res) → is_ok res = true ↔ accepted_by s e raw w w'.
Proof.
  destruct w as [net web]. destruct s as [c|c|c|c].
  - change (send_any e raw (TCP c) (mkWorld net web)) with
      (wrap_sink TCP <$> (on_net (mkWorld net web) <$> SyslogTCP.Send append_certs e raw c net)).
    unfold SyslogTCP.Send. destruct (frame c e raw) as [f|] eqn:Hf; [|done]. cbn [mbind option_bind fmap option_fmap option_map].
    destruct (send_go append_certs 2 f c net) as [[c' net'] r] eqn:Hg. cbn [wrap_sink on_net]. intros [= <- <- <-].
    apply send_go_log in Hg as (l & Hl & ->). cbn [accepted_by wd_net]. split.
    + intros [k Hk]. by exists f, l, k.
    + intros (f' & l' & k & Hf' & Hl' & Hk). rewrite Hf in Hf'. injection Hf' as <-. rewrite Hl in Hl'.
      apply app_inv_head in Hl' as <-. by exists k.
  - destruct (Http.Send_splunk bad_url json_compact c e raw web) as [web' r] eqn:Hp. cbn. rewrite Hp. intros [= <- <- <-].
    cbn. by apply (post_posted _ _ _ _ net) in Hp.
  - destruct (Http.Send_elastic bad_url is_print c e raw web) as [web' r] eqn:Hp. cbn. rewrite Hp. intros [= <- <- <-].
    cbn. by apply (post_posted _ _ _ _ net) in Hp.
  - destruct (Http.Send_loki bad_url c e raw web) as [web' r] eqn:Hp. cbn. rewrite Hp. intros [= <- <- <-].
    cbn. by apply (post_posted _ _ _ _ net) in Hp.
Qed.

(** The [i]-th client is called in the world that the earlier ones left. *)
Lemma send_each_step e raw ss : ∀ w ss' w' rs i s res,
  send_all_clients e raw ss w = Some (ss', w', rs) → ss !! i = Some s → rs !! i = Some res →
  ∃ done wi answered si' wi', send_all_clients e raw (take i ss) w = Some (done, wi, answered) ∧
    send_any e raw s wi = Some (si', wi', res).
Proof.
  induction ss as [|s0 ss IH]; intros w ss' w' rs i s res; [done|]. cbn [send_each].
  destruct (send_any e raw s0 w) as [[[s0' w0] r0]|] eqn:Hs; [|done]. cbn [mbind option_bind].
  destruct (send_all_clients e raw ss w0) as [[[ss1 w1] rs1]|] eqn:Hr; [|done]. cbn. intros [= <- <- <-].
  destruct i as [|i]; [intros [= <-] [= <-]; by eexists [], w, [], _, _|].
  intros Hi Hres. destruct (IH _ _ _ _ i s res Hr Hi Hres) as (dn & wi & an & si' & wi' & Hpre & Hsend).
  exists (s0' :: dn), wi, (r0 :: an), si', wi'. cbn [take send_each]. by rewrite Hs; cbn; rewrite Hpre.
Qed.

(** The runner's view of the clients during one emission. *)
Definition answers (rs : list (result unit)) : list (Event → string → bool) := map (λ r _ _, negb (is_ok r)) rs.

Definition refused (rs : list (result unit)) : nat := length (List.filter (λ r, negb (is_ok r)) rs).

Lemma answers_refused rs e line : length (List.filter (λ s : Event → string → bool, s e line) (answers rs)) = refused rs.
Proof.
  unfold refused, answers. induction rs as [|r rs IH]; [done|]. cbn [map List.filter]. destruct (negb (is_ok r)); cbn [length]; by rewrite IH.
Qed.

End clients.

Section emission.
Context `{FileReader} `{DirReader} `{LinkReader}.
Variables (json_line : Event → option string) (append_certs : string → bool) (bad_url : string → option string)
  (json_compact : string → option string) (is_print : Z → bool).

(** The legacy client: its answer to one event. *)
Variables (udp : option SyslogUDP.Client) (write : string → result unit) (clock : Time).

Definition udp_answer (e : Event) (line : string) : bool :=
  negb (is_ok (fst (SyslogUDP.Send is_print write udp clock e line))).

Lemma udp_accepted e line c :
  udp = Some c →
  udp_answer e line = false ↔ ∃ pkt, SyslogUDP.datagram is_print c clock e line = Ok pkt ∧ write pkt = Ok tt.
Proof.
  intros Hu. unfold udp_answer, SyslogUDP.Send. rewrite Hu. destruct (SyslogUDP.datagram is_print c clock e line) as [pkt|err]; cbn [fst].
  - split; [|intros (p & Hp & Hw); apply Ok_inj in Hp; subst p; cbn [fst]; by rewrite Hw]. destruct (write pkt) as [[]|] eqn:Hw; [|done]. intros _. by exists pkt.
  - split; [done|]. by intros (? & ? & _).
Qed.

(** C8: Delivered or kept: when the runner emits an event to the clients of its
    configuration, each of them either had its collector take the event (the
    datagram was written, the last thing done on the connection was a whole
    write of the frame, or the request was answered with 2xx) or counts as a
    failure, and the spool receives the line exactly once for each failure. *)
Theorem delivered_or_kept env r e r' e' out line sp ss w ss' w' rs :
  disk_ok env → rn_spool r = Some sp → emit json_line env r e = (r', e', out) → emitted_line out = Some line →
  rn_syslog r = (λ _, udp_answer) <$> udp →
  Sinks.send_each append_certs bad_url json_compact is_print e' line ss w = Some (ss', w', rs) → rn_sinks r = answers rs →
  rn_spool r' = Some (append_all sp (replicate ((if udp_answer e' line then 1 else 0) + refused rs) line)) ∧
  (∀ c, udp = Some c →
     udp_answer e' line = false ↔ ∃ pkt, SyslogUDP.datagram is_print c clock e' line = Ok pkt ∧ write pkt = Ok tt) ∧
  ∀ i s res, ss !! i = Some s → rs !! i = Some res →
    ∃ done wi answered si' wi',
      Sinks.send_each append_certs bad_url json_compact is_print e' line (take i ss) w = Some (done, wi, answered) ∧
      Sinks.Send (Sink:=Sinks.any_sink append_certs bad_url json_compact is_print) e' line s wi = Some (si', wi', res) ∧
      (is_ok res = true ↔ accepted_by json_compact is_print s e' line wi wi').
Proof.
  intros Hd Hsp He Hl Hu Hsend Hr. split; [|split].
  - apply (emit_spool _ _ _ _ _ _ _ sp) in He as [-> _]; [|done..]. unfold undelivered. cbn [fst snd]. rewrite Hl.
    unfold failures. rewrite Hu, Hr, answers_refused. destruct udp as [c|] eqn:Hu'; [done|]. assert (udp_answer e' line = false) as -> by (unfold udp_answer; by rewrite Hu'). done.
  - intros c Hc. by apply udp_accepted.
  - intros i s res Hs Hres. destruct (send_each_step append_certs bad_url json_compact is_print _ _ _ _ _ _ _ _ _ _ Hsend Hs Hres)
      as (dn & wi & an & si' & wi' & Hpre & Hsi). exists dn, wi, an, si', wi'. split; [done|]. split; [done|].
    by apply send_accepted in Hsi.
Qed.

End emission.

(** ** A sample: a sink that is down, and then is not *)

Definition flaky : Event → string → bool := λ e _, ev_RuleID e =s? "R".

Definition spooling : Runner :=
  demo_runner <| rn_sinks := [flaky] |> <| rn_spool := Some (mkSpool (Some "") None 0 FOpen) |>.

Definition after_recovery : list input :=
  map (λ id, mkInput (demo_env 5) (demo_event <| ev_RuleID := id |> <| ev_DedupKey := id |>) 0 5) ["R"; "S"; "T"].

Section demo.
#[local] Instance none_read : FileReader := λ _, Err ErrNotExist.
#[local] Instance none_dirs : DirReader := λ _, Err ErrNotExist.
#[local] Instance none_links : LinkReader := λ _, Err ErrNotExist.

Definition demo_encoder (e : Event) : option string := if sforall (λ c, negb (Ascii.eqb c nl)) (ev_RuleID e) then Some (ev_RuleID e) else None.


(** Two collectors, the first of them overloaded. *)
Definition collectors : list Sinks.AnySink :=
  [Sinks.Splunk (mkSplunkHECConfig true "https://splunk" "token" "" "" false);
   Sinks.Loki (mkLokiPushConfig true "https://loki/" ∅ "" "" false)].

Definition busy_world : Sinks.World :=
  Sinks.mkWorld (SyslogTCP.mkNet [] (λ _, None)) (Http.mkWeb [] (λ n, if (n =? 0)%nat then Ok 503 else Ok 204)).

Definition busy_answers : list (result unit) := [Err "splunk hec status 503"; Ok tt].

(** The legacy client's socket refuses everything. *)
Definition udp_client : option SyslogUDP.Client :=
  Some (SyslogUDP.mkClient (cfg_SyslogUDP zero_Config) "host" 7).
Definition no_route : string → result unit := λ _, Err "network is unreachable".

Definition exporting : Runner :=
  spooling <| rn_sinks := answers busy_answers |> <| rn_syslog := (λ _, udp_answer (λ _, true) udp_client no_route 5) <$> udp_client |>.

Definition exported := emit demo_encoder (demo_env 5) exporting demo_event.

Definition clients_after :=
  Sinks.send_each (λ _, true) (λ _, None) Some (λ _, true) exported.1.2 "R" collectors busy_world.

Lemma delivered_or_kept_witness :
  rn_spool exported.1.1 = Some (append_all (mkSpool (Some "") None 0 FOpen) ["R"; "R"]) ∧
  ∃ wi wi', accepted_by Some (λ _, true) (Sinks.Loki (mkLokiPushConfig true "https://loki/" ∅ "" "" false)) exported.1.2 "R" wi wi'.
Proof.
  assert (Hc : ∃ ss' w', clients_after = Some (ss', w', busy_answers)) by (eexists _, _; vm_compute; reflexivity).
  destruct Hc as (ss' & w' & Hc).
  destruct (delivered_or_kept demo_encoder (λ _, true) (λ _, None) Some (λ _, true) udp_client no_route 5
    (demo_env 5) exporting demo_event
    exported.1.1 exported.1.2 exported.2 "R" (mkSpool (Some "") None 0 FOpen) collectors busy_world ss' w' busy_answers)
    as (Hsp & _ & Hd); try reflexivity; [vm_compute; reflexivity|exact Hc|].
  split; [exact Hsp|].
  destruct (Hd 1%nat (Sinks.Loki (mkLokiPushConfig true "https://loki/" ∅ "" "" false)) (Ok tt)) as (_ & wi & _ & _ & wi' & _ & _ & Hok);
    [reflexivity|reflexivity|].
  exists wi, wi'. by apply Hok.
Defined.

End demo.
