(* ===== verification/Agent.v ===== *)
(** [cmd/agent/main.go] and the composition of the agent: the detectors that
    [internal/runner] calls, start-up, and [baseline commit].

    What the host is made of stays abstract: the classes of [GoOS] and the
    record below.  [tm] names the readings of the clock by the detector that
    takes them. *)
From S2P Require Export Runner Persistence Fimextra Integrity Network ProcScans Web Sigma.

(** The orders in which Go ranges over maps. *)
Record Orders := mkOrders {
  or_set : gset string → list string;
  or_map : list (string * string) → list (string * string);
  or_files : list (string * WebFileRecord) → list (string * WebFileRecord);
  or_pids : list Z → list Z
}.

(** The calls of the host that have no class: the fingerprint of a key line
    (golang.org/x/crypto/ssh), the symbolic links of a path, both output
    streams of a program, an extended attribute, and a file read past the page
    cache. *)
Record HostCalls := mkHostCalls {
  hc_fingerprint : string → option string;
  hc_EvalSymlinks : string → result string;
  hc_CombinedOutput : list string → string;
  hc_Getxattr : string → string → result string;
  hc_disk : string → result string
}.

Section host.
Context `{FileReader} `{DirReader} `{LinkReader} `{Globber} `{Stater} `{TreeWalker} `{Commander} `{CurrentUser}.
Variables (ord : Orders) (hc : HostCalls).

(** * The detectors of a scan *)

Record ScanTimes := mkScanTimes {
  st_at : string → Time;           (* by detector *)
  st_looked : string → Time;       (* the web scan, per file *)
  st_inode : Time; st_inode' : Time  (* the network scan's inode cache *)
}.

(** The network scan keeps a package-level state; this scan sees [ns]. *)
Definition agent_detectors (tm : ScanTimes) (ns : NetState) : Detectors :=
  mkDetectors
    (λ cfg snap pack, Scan_integrity (hc_EvalSymlinks hc) (hc_CombinedOutput hc) (hc_Getxattr hc) (or_map ord)
                        cfg snap pack AgentVersion (st_at tm "integrity"))
    (λ cfg snap pack, Scan_memorymaps (or_set ord) cfg snap pack AgentVersion (st_at tm "memorymaps"))
    (λ cfg _ pack, snd (Scan_network cfg pack AgentVersion (st_inode tm) (st_inode' tm) (st_at tm "network") ns))
    (λ cfg _ pack, Scan_copyfail (hc_disk hc) cfg pack AgentVersion (st_at tm "copyfail"))
    (λ cfg snap pack, Scan_ancestry cfg snap pack AgentVersion (st_at tm "ancestry"))
    None
    (λ cfg snap pack, ScanReconChildren (or_pids ord) cfg snap pack AgentVersion (st_at tm "recon"))
    (λ cfg snap pack, Scan_persistence (hc_fingerprint hc) cfg snap pack AgentVersion (st_at tm "persistence"))
    (λ cfg snap pack, Scan_ldpreload cfg snap pack AgentVersion (st_at tm "ldpreload"))
    (λ cfg snap pack, Scan_web cfg snap pack AgentVersion (st_at tm "web") (st_looked tm))
    (λ cfg snap pack, ScanUploadDirs cfg snap pack AgentVersion (st_at tm "upload"))
    (λ cfg snap pack, ScanAppTamper (or_files ord) cfg snap pack AgentVersion (st_at tm "tamper"))
    (λ cfg snap pack, Scan_fimextra cfg snap pack AgentVersion (st_at tm "fimextra")).

Variable json_line : Event → option string.
Variable json_Unmarshal : string → result Snapshot.

(** Whether a full scan gets as far as the network scan. *)
Definition network_ran (dts : Detectors) (r : Runner) (t1 : Time) : bool :=
  let '(r, res) := get_baseline json_Unmarshal r in
  match res with
  | Err _ => false
  | Ok snap =>
      is_ok (run_if (cfg_IntegrityVerifyEnabled (rn_cfg r) && (cfg_IntegrityScanInterval (rn_cfg r) <=? 0)) (dt_integrity dts) r snap) &&
      is_ok (run_if true (dt_memorymaps dts) r snap) && networkScanDue r t1
  end.

(** A full scan of the agent: the runner's, with the state of the network scan. *)
Definition agent_scanFull (tm : ScanTimes) (envs : nat → Env) (ns : NetState) (r : Runner) (t1 t2 now : Time)
  : NetState * Runner * list output * result unit :=
  let dts := agent_detectors tm ns in
  let ns' := if network_ran dts r t1
             then fst (Scan_network (rn_cfg r) (rn_pack r) AgentVersion (st_inode tm) (st_inode' tm) (st_at tm "network") ns)
             else ns in
  let '(r, o, res) := scanFull json_line json_Unmarshal dts envs r t1 t2 now in (ns', r, o, res).

(** * Start-up

    The decoders of the configuration, of a rule pack and of a Sigma document. *)
Context `{Ed25519}.
Variable yaml_Config : string → Config → result Config.
Variable yaml_Pack : string → result Pack.
Variable yaml_Sigma : string → result sigmaDoc.

(** The signature is checked when both a key and a signature are configured. *)
Definition check_signature (cfg : Config) : result unit :=
  if negb (cfg_RulePackPubKey cfg =s? "") && negb (cfg_RulePackSigPath cfg =s? "")
  then VerifyPackSignature (cfg_RulePackPath cfg) (cfg_RulePackSigPath cfg) (cfg_RulePackPubKey cfg)
  else Ok tt.

(** The rules of the Sigma directory; a failure is logged and passed over. *)
Definition with_sigma (cfg : Config) (pack : Pack) : Pack :=
  if cfg_SigmaLiteDir cfg =s? "" then pack
  else match LoadSigmaLiteDir yaml_Sigma (cfg_SigmaLiteDir cfg) with
       | Err _ => pack
       | Ok extra => MergePack pack (Some extra)
       end.

Definition loadCfgAndPack (path : string) : result (Config * Pack) :=
  let? cfg := LoadConfig yaml_Config path in
  let? _ := Validate cfg in
  let? _ := check_signature cfg in
  let? pack := LoadPack yaml_Pack (cfg_RulePackPath cfg) in
  Ok (cfg, with_sigma cfg pack).

Definition checkConfig (path : string) : result unit :=
  let? cfg := LoadConfig yaml_Config path in
  let? _ := Validate cfg in
  let? _ := LoadPack yaml_Pack (cfg_RulePackPath cfg) in
  Ok tt.

Definition root_required (cfg : Config) (euid : Z) : result unit :=
  if cfg_RequireRoot cfg && negb (euid =? 0) then Err "require_root set but not running as root" else Ok tt.

(** [ghostcatcher run] up to its first scan. *)
Definition runCmd (yaml_mapping : string → result MappingFile) (parts : Parts) (global : option Mapping) (path : string) (euid : Z)
  : result Runner :=
  let? (cfg, pack) := loadCfgAndPack path in
  let? _ := root_required cfg euid in
  Ok (New_runner yaml_mapping parts global cfg pack).

(** * [baseline commit] *)

Variable json_MarshalIndent : Snapshot → result string.

Definition commit_token (Getenv : string → string) (cfg : Config) (token : string) : result unit :=
  if cfg_BaselineCommitTokenEnv cfg =s? "" then Ok tt
  else
    let want := Getenv (cfg_BaselineCommitTokenEnv cfg) in
    if want =s? "" then Err "2fa required but env var is empty"
    else if negb (token =s? want) then Err "2fa token mismatch; refusing to commit baseline"
    else Ok tt.

(** The state of the host, in the order of the code.  A failure of the later
    parts is only logged; of those, the ancestry is the one that can fail. *)
Definition capture (cfg : Config) (snap : Snapshot) : result Snapshot :=
  let snap := BuildBaselineCron (BuildBaselineAuthKeys (hc_fingerprint hc) snap) in
  let snap := BuildBaselineWebFiles cfg snap in
  let? snap := BuildBaselineLDPreload (or_set ord) cfg snap in
  let snap := BuildBaselineShellRC (BuildBaselinePAM (BuildBaselineSystemd snap)) in
  let snap := BuildBaselineUsers (BuildBaselineSSHD (BuildBaselineSudoers snap)) in
  let snap := BuildBaselineLDConf (BuildBaselineKernelModules snap) in
  let snap := BuildBaselineIntegrity (hc_Getxattr hc) snap in
  Ok match BuildBaselineAncestry with
     | Ok pairs => snap <| bs_ProcessAncestry := pairs |>
     | Err _ => snap
     end.

(** The snapshot that is about to be saved. *)
Definition commit_snapshot (Getenv : string → string) (euid : Z) (token : string) (now : Time) (cfg : Config) : result Snapshot :=
  let? _ := commit_token Getenv cfg token in
  let? _ := root_required cfg euid in
  let? snap := Load_baseline json_Unmarshal (cfg_BaselinePath cfg) in
  let? snap := capture cfg snap in
  Ok (snap <| bs_CommittedAt := now |>).

(** On the disk [fs], whose faults are [ft]. *)
Definition baselineCommit (ft : SaveFaults) (fs : gmap string string) (Getenv : string → string) (euid : Z) (token : string)
  (now : Time) (path : string) : gmap string string * result unit :=
  match LoadConfig yaml_Config path with
  | Err e => (fs, Err e)
  | Ok cfg =>
      match commit_snapshot Getenv euid token now cfg with
      | Err e => (fs, Err e)
      | Ok snap => Save json_MarshalIndent ft fs (cfg_BaselinePath cfg) snap
      end
  end.

End host.
