(* ===== verification/AgentFacts.v ===== *)
(** Theorems on the agent as a whole: what a commit may write and when, that a
    committed host is quiet, and which rules the agent starts with. *)
From S2P Require Export Agent PersistenceFacts FimextraFacts IntegrityFacts ProcScansFacts WebFacts RulesFacts.
#[local] Set Default Proof Using "Type*".

(** The orders are permutations. *)
Record lawful (ord : Orders) : Prop := mkLawful {
  lw_set : ∀ s, or_set ord s ≡ₚ elements s;
  lw_map : ∀ l, or_map ord l ≡ₚ l;
  lw_files : ∀ l, or_files ord l ≡ₚ l;
  lw_pids : ∀ l, or_pids ord l ≡ₚ l
}.

(** * The guards *)

Lemma commit_token_ok Getenv cfg token :
  commit_token Getenv cfg token = Ok tt ↔
  cfg_BaselineCommitTokenEnv cfg = "" ∨ (token ≠ "" ∧ Getenv (cfg_BaselineCommitTokenEnv cfg) = token).
Proof.
  unfold commit_token. destruct (String.eqb_spec (cfg_BaselineCommitTokenEnv cfg) "") as [->|Hne]; [naive_solver|].
  destruct (String.eqb_spec (Getenv (cfg_BaselineCommitTokenEnv cfg)) "") as [->|Hw]; [naive_solver|].
  destruct (String.eqb_spec token (Getenv (cfg_BaselineCommitTokenEnv cfg))) as [->|]; naive_solver.
Qed.

Lemma root_required_ok cfg euid : root_required cfg euid = Ok tt ↔ (cfg_RequireRoot cfg = true → euid = 0).
Proof.
  unfold root_required. destruct (cfg_RequireRoot cfg); cbn [andb]; [|naive_solver].
  destruct (Z.eqb_spec euid 0); cbn; naive_solver.
Qed.

Section host.
Context `{FileReader} `{DirReader} `{LinkReader} `{Globber} `{Stater} `{TreeWalker} `{Commander} `{CurrentUser}.
Variables (ord : Orders) (hc : HostCalls).

(** * What a capture holds

    Every builder writes the fields of its own scanners and reads no others. *)

Lemma record_web_keeps snap pf :
  bs_PersistenceFiles (record_web_file snap pf) = bs_PersistenceFiles snap ∧
  bs_AuthKeys (record_web_file snap pf) = bs_AuthKeys snap ∧
  bs_CronLines (record_web_file snap pf) = bs_CronLines snap.
Proof. unfold record_web_file. destruct pf as [p fi]. destruct (negb _); [done|]. by destruct (web_record p fi). Qed.

Lemma web_keeps cfg snap :
  bs_PersistenceFiles (BuildBaselineWebFiles cfg snap) = bs_PersistenceFiles snap ∧
  bs_AuthKeys (BuildBaselineWebFiles cfg snap) = bs_AuthKeys snap ∧
  bs_CronLines (BuildBaselineWebFiles cfg snap) = bs_CronLines snap.
Proof.
  unfold BuildBaselineWebFiles. generalize (concat (map (walked_files cfg) (cfg_DocumentRoots cfg))). intros l.
  assert (Hgo : ∀ s, bs_PersistenceFiles (fold_left record_web_file l s) = bs_PersistenceFiles s ∧
    bs_AuthKeys (fold_left record_web_file l s) = bs_AuthKeys s ∧ bs_CronLines (fold_left record_web_file l s) = bs_CronLines s).
  { induction l as [|pf l IH]; intros s; [done|]. cbn [fold_left]. destruct (IH (record_web_file s pf)) as (-> & -> & ->).
    apply record_web_keeps. }
  exact (Hgo (snap <| bs_WebFiles := make (bs_WebFiles snap) |>)).
Qed.

Lemma record_web_same a b l :
  bs_WebFiles a = bs_WebFiles b → bs_WebFiles (fold_left record_web_file l a) = bs_WebFiles (fold_left record_web_file l b).
Proof.
  revert a b. induction l as [|[p fi] l IH]; intros a b Hab; [done|]. cbn [fold_left]. apply IH. unfold record_web_file.
  destruct (negb _); [done|]. destruct (web_record p fi) as [rec|]; [|done].
  change (ginsert p rec (bs_WebFiles a) = ginsert p rec (bs_WebFiles b)). by rewrite Hab.
Qed.

Lemma web_same cfg a b :
  bs_WebFiles a = bs_WebFiles b → bs_WebFiles (BuildBaselineWebFiles cfg a) = bs_WebFiles (BuildBaselineWebFiles cfg b).
Proof.
  intros Hab. unfold BuildBaselineWebFiles. apply record_web_same.
  change (make (bs_WebFiles a) = make (bs_WebFiles b)). by rewrite Hab.
Qed.

Lemma keys_cron_keep_web snap :
  bs_WebFiles (BuildBaselineCron (BuildBaselineAuthKeys (hc_fingerprint hc) snap)) = bs_WebFiles snap.
Proof.
  trans (bs_WebFiles (BuildBaselineAuthKeys (hc_fingerprint hc) snap)).
  - unfold BuildBaselineCron. generalize collectCronTargets, (BuildBaselineAuthKeys (hc_fingerprint hc) snap).
    intros l. induction l as [|u l IH]; intros s; [done|]. cbn [fold_left]. rewrite IH.
    destruct (ReadFile _); [|done]. by destruct (map _ _).
  - unfold BuildBaselineAuthKeys. generalize passwdUsers. intros l. revert snap.
    induction l as [|u l IH]; intros s; [done|]. cbn [fold_left]. rewrite IH.
    destruct (pw_dir u =s? ""); [done|]. destruct (ReadFile _); [|done]. by destruct (omap _ _).
Qed.

(** The fields of a captured host. *)
Lemma capture_fields cfg snap s :
  capture ord hc cfg snap = Ok s →
  as_committed (hc_fingerprint hc) snap s ∧
  bs_WebFiles s = bs_WebFiles (BuildBaselineWebFiles cfg snap) ∧
  (∃ s0, BuildBaselineLDPreload (or_set ord) cfg snap = Ok s0 ∧ bs_LDPreload s = bs_LDPreload s0) ∧
  BuildBaselineAncestry = Ok (bs_ProcessAncestry s) ∧
  bs_SUIDInventory s = Some enumerateSUIDBinaries ∧
  bs_FileCapabilities s = Some (enumerateCapabilities (hc_Getxattr hc)).
Proof.
  unfold capture. set (s1 := BuildBaselineCron _). unfold BuildBaselineLDPreload, BuildBaselineAncestry, as_committed.
  destruct Processes as [pids []]; [|done]. cbn [rbind]. intros Hs. apply Ok_inj in Hs. subst s.
  split_and!; try reflexivity.
  - set (record := fold_left recordPersistenceBaseline
      [systemd_targets; collectPAMTargets; collectShellRCTargets; collectSudoersTargets; collectSSHDTargets; userFiles;
       collectModuleConfigTargets; collectLDConfTargets]).
    change (record (bs_PersistenceFiles (BuildBaselineWebFiles cfg s1)) = record (bs_PersistenceFiles s1)).
    by destruct (web_keeps cfg s1) as (-> & _).
  - by destruct (web_keeps cfg s1) as (_ & Hp & _).
  - by destruct (web_keeps cfg s1) as (_ & _ & Hp).
  - apply (web_same cfg s1 snap). apply keys_cron_keep_web.
  - eexists. split; reflexivity.
Qed.

(** * A commit *)

Variable yaml_Config : string → Config → result Config.
Variable json_Unmarshal : string → result Snapshot.
Variable json_MarshalIndent : Snapshot → result string.

#[local] Abbreviation commit := (baselineCommit ord hc json_Unmarshal yaml_Config json_MarshalIndent).

Lemma commit_snapshot_ok Getenv euid token now cfg s :
  commit_snapshot ord hc json_Unmarshal Getenv euid token now cfg = Ok s →
  commit_token Getenv cfg token = Ok tt ∧ root_required cfg euid = Ok tt ∧
  ∃ snap c, Load_baseline json_Unmarshal (cfg_BaselinePath cfg) = Ok snap ∧ capture ord hc cfg snap = Ok c ∧
            s = c <| bs_CommittedAt := now |>.
Proof.
  unfold commit_snapshot. intros ([] & Ht & ([] & Hr & (snap & Hl & (c & Hc & Hs)%rbind_Ok)%rbind_Ok)%rbind_Ok)%rbind_Ok.
  apply Ok_inj in Hs. by eauto 10.
Qed.

Lemma Save_touches ft fs path s q :
  fst (Save json_MarshalIndent ft fs path s) !! q ≠ fs !! q → q = path ∨ q = path +:+ ".tmp".
Proof.
  intros Hq. destruct (decide (q = path)) as [|Hp]; [by left|]. destruct (decide (q = path +:+ ".tmp")) as [|Ht]; [by right|].
  exfalso. apply Hq. unfold Save. destruct (json_MarshalIndent s); [destruct (sv_write ft); [|destruct (sv_rename ft)]|];
    cbn [fst]; by simplify_map_eq.
Qed.

(** C19: A commit writes only with leave: if the baseline command changes any file,
    the configuration could be read, the token was the one in the environment
    (when the configuration names one) and not empty, the user was root (when
    that is required), and the file is the baseline or its temporary file. *)
Theorem commit_guarded ft fs Getenv euid token now path q :
  fst (commit ft fs Getenv euid token now path) !! q ≠ fs !! q →
  ∃ cfg, LoadConfig yaml_Config path = Ok cfg ∧
    (cfg_BaselineCommitTokenEnv cfg = "" ∨ (token ≠ "" ∧ Getenv (cfg_BaselineCommitTokenEnv cfg) = token)) ∧
    (cfg_RequireRoot cfg = true → euid = 0) ∧
    (q = cfg_BaselinePath cfg ∨ q = cfg_BaselinePath cfg +:+ ".tmp").
Proof.
  unfold baselineCommit. destruct (LoadConfig yaml_Config path) as [cfg|]; [|done].
  destruct (commit_snapshot _ _ _ _ _ _ _ _) as [s|] eqn:Hs; [|done]. intros Hq%Save_touches.
  apply commit_snapshot_ok in Hs as (Ht & Hr & _). exists cfg. split; [done|].
  split; [by apply commit_token_ok|]. split; [by apply root_required_ok|done].
Qed.

(** ** A committed host is quiet *)

Lemma Load_baseline_made path snap : Load_baseline json_Unmarshal path = Ok snap → maps_made snap.
Proof.
  unfold Load_baseline, maps_made. destruct (ReadFile path) as [b|e].
  - intros (s & _ & Hs)%rbind_Ok. apply Ok_inj in Hs. subst. split_and!; by eexists.
  - destruct (e =s? ErrNotExist); [|done]. intros Hs. apply Ok_inj in Hs. subst. split_and!; by eexists.
Qed.

Lemma make_id {V} (m : gomap V) : is_Some m → make m = m.
Proof. by intros [x ->]. Qed.

(** Loading does not change what a commit wrote. *)
Lemma loaded_as_committed snap s :
  maps_made snap → as_committed (hc_fingerprint hc) snap s → as_committed (hc_fingerprint hc) snap (make_maps s).
Proof.
  intros (Hp & Hk & Hc) (H1' & H2' & H3' & H4'). unfold as_committed.
  change (bs_PersistenceFiles (make_maps s)) with (make (bs_PersistenceFiles s)).
  change (bs_AuthKeys (make_maps s)) with (make (bs_AuthKeys s)).
  change (bs_CronLines (make_maps s)) with (make (bs_CronLines s)).
  change (bs_LoadedKernelModules (make_maps s)) with (bs_LoadedKernelModules s).
  rewrite H1', H2', H3', H4'. destruct (commit_other (hc_fingerprint hc) snap) as (Ha & Hb & _).
  split_and!; [| | |done]; apply make_id.
  - rewrite commit_files. by apply writes_some.
  - rewrite Ha. by apply writes_some.
  - rewrite Hb. by apply writes_some.
Qed.

(** What the detectors that compare with the baseline say of the snapshot. *)
Record quiet (cfg : Config) (snap : Snapshot) (pack : Pack) (tm : ScanTimes) : Prop := mkQuiet {
  qt_files : ∀ sc p, sc ∈ fim_scanners cfg pack AgentVersion (st_at tm "persistence") →
    ¬ reported (fim_signal sc) p (fim_scan sc snap);
  qt_cron : scanCron cfg snap pack AgentVersion (st_at tm "persistence") = [];
  qt_keys : ∀ ev, ev ∈ scanAuthorizedKeys (hc_fingerprint hc) cfg snap pack AgentVersion (st_at tm "persistence") →
    ev_RuleID ev = RuleAuthKeyAnomaly;
  qt_modules : scanKernelModules cfg snap pack AgentVersion (st_at tm "persistence") = [];
  qt_preload : Scan_ldpreload cfg snap pack AgentVersion (st_at tm "ldpreload") =
    Ok (scan_preload_file cfg pack AgentVersion (st_at tm "ldpreload"));
  qt_ancestry : Scan_ancestry cfg snap pack AgentVersion (st_at tm "ancestry") = Ok [];
  qt_web : ∀ evs ev, Scan_web cfg snap pack AgentVersion (st_at tm "web") (st_looked tm) = Ok evs → ev ∈ evs →
    hasSuspiciousExtension (en_Path (ev_Entity ev)) = false;
  qt_suid : scanSUID (or_map ord) cfg snap pack AgentVersion (st_at tm "integrity") = [];
  qt_caps : scanCapabilities (hc_Getxattr hc) (or_map ord) cfg snap pack AgentVersion (st_at tm "integrity") = []
}.

(** The metadata of a path does not depend on the walk that meets it. *)
Definition walk_metadata : Prop :=
  ∃ info : string → FileInfo, ∀ r e fi, e ∈ WalkDir r → we_Info e = Some fi → fi = info (we_Path e).

Lemma captured_quiet cfg snap s pack tm now :
  lawful ord → walk_metadata → maps_made snap → capture ord hc cfg snap = Ok s → now ≠ 0 →
  quiet cfg (make_maps (s <| bs_CommittedAt := now |>)) pack tm.
Proof.
  intros Hord [info Hinfo] Hm Hc Hnow. set (l := make_maps _).
  assert (Hk : IsCommitted l = true) by (unfold IsCommitted, time_is_zero; apply negb_true_iff, Z.eqb_neq, Hnow).
  pose proof (capture_fields cfg snap s Hc) as (Hp & Hw & (s0 & Hb & Hpre) & Ha & Hsuid & Hcaps).
  change (as_committed (hc_fingerprint hc) snap (s <| bs_CommittedAt := now |>)) in Hp.
  apply (loaded_as_committed snap _ Hm) in Hp. fold l in Hp.
  pose proof (commit_quiet cfg pack AgentVersion (st_at tm "persistence") (hc_fingerprint hc) snap l Hm Hp)
    as (Q1 & Q2 & Q3 & Q4).
  assert (Hsl : bs_SUIDInventory l = Some enumerateSUIDBinaries).
  { change (make (bs_SUIDInventory s) = Some enumerateSUIDBinaries). by rewrite Hsuid. }
  assert (Hcl : bs_FileCapabilities l = Some (enumerateCapabilities (hc_Getxattr hc))).
  { change (make (bs_FileCapabilities s) = Some (enumerateCapabilities (hc_Getxattr hc))). by rewrite Hcaps. }
  pose proof (integrity_quiet (hc_Getxattr hc) (or_map ord) (lw_map ord Hord) cfg l pack AgentVersion
                (st_at tm "integrity") Hsl Hcl) as (Q5 & Q6).
  constructor; try done.
  - apply (ldpreload_quiet (or_set ord) (lw_set ord Hord) cfg snap s0); done.
  - by apply (ancestry_quiet cfg l pack AgentVersion (st_at tm "ancestry") (bs_ProcessAncestry s)).
  - intros evs ev. apply (scan_web_quiet info Hinfo cfg snap l).
    change (make (bs_WebFiles s) = bs_WebFiles (BuildBaselineWebFiles cfg snap)). rewrite Hw. apply make_id.
    rewrite (web_baseline_writes info Hinfo). apply writes_some. apply make_some.
Qed.


End host.

(** * The rules the agent starts with *)

Section start.
Context `{FileReader} `{DirReader} `{Ed25519}.
Variable yaml_Config : string → Config → result Config.
Variable yaml_Pack : string → result Pack.
Variable yaml_Sigma : string → result sigmaDoc.

#[local] Abbreviation start := (loadCfgAndPack yaml_Config yaml_Pack yaml_Sigma).

Lemma start_ok path cfg pack :
  start path = Ok (cfg, pack) ↔
  LoadConfig yaml_Config path = Ok cfg ∧ Validate cfg = Ok tt ∧ check_signature cfg = Ok tt ∧
  ∃ p, LoadPack yaml_Pack (cfg_RulePackPath cfg) = Ok p ∧ pack = with_sigma yaml_Sigma cfg p.
Proof.
  unfold loadCfgAndPack. split.
  - intros (c & Hc & ([] & Hv & ([] & Hs & (p & Hp & Hr)%rbind_Ok)%rbind_Ok)%rbind_Ok)%rbind_Ok.
    apply Ok_inj in Hr. injection Hr as -> <-. split_and!; try done. by exists p.
  - intros (Hc & Hv & Hs & p & Hp & ->). by rewrite Hc; cbn; rewrite Hv; cbn; rewrite Hs; cbn; rewrite Hp.
Qed.


(** [check-config] is the test of [run]: the agent starts if and only if the
    check succeeds and the signature, which the check does not look at, is
    right. *)
Theorem check_config_complete path :
  is_ok (start path) = true ↔
  checkConfig yaml_Config yaml_Pack path = Ok tt ∧
  ∀ cfg, LoadConfig yaml_Config path = Ok cfg → check_signature cfg = Ok tt.
Proof.
  unfold loadCfgAndPack, checkConfig. destruct (LoadConfig yaml_Config path) as [cfg|]; cbn [rbind]; [|naive_solver].
  destruct (Validate cfg) as [[]|]; cbn [rbind]; [|naive_solver].
  destruct (check_signature cfg) as [[]|e] eqn:Hs; cbn [rbind].
  - destruct (LoadPack yaml_Pack (cfg_RulePackPath cfg)); cbn; naive_solver.
  - split; [done|]. intros [_ Hall]. specialize (Hall cfg eq_refl). congruence.
Qed.

(** A key without the path of a signature is no protection: the pack is not
    looked at. *)
Theorem key_without_signature cfg : cfg_RulePackSigPath cfg = "" → check_signature cfg = Ok tt.
Proof. unfold check_signature. intros ->. by rewrite andb_false_r. Qed.

End start.

(** * A host *)

Module AgentDemo.

Definition conf : string := "agent.yaml".
Definition packfile : string := "rules.yaml".

Definition files : list (string * string) :=
  [(conf, "token"); (packfile, "rules"); ("rules.sig", Base64.encode "signed"); ("rules.pub", "ed25519:" +:+ Base64.encode "0123456789abcdef0123456789abcdef");
   ("/etc/sudoers", "%admin ALL=(ALL) ALL" +:+ str nl)].

#[export] Instance demo_files : FileReader := λ p,
  match List.find (λ e, e.1 =s? p) files with Some e => Ok e.2 | None => Err ErrNotExist end.
#[export] Instance demo_stat : Stater := λ p,
  match List.find (λ e, e.1 =s? p) files with Some e => FOk (mkFileInfo false (slen e.2) 0 416 0) | None => FNotExist end.
#[export] Instance demo_dirs : DirReader := λ p, if p =s? "/proc" then Ok [] else Err ErrNotExist.
#[export] Instance demo_links : LinkReader := λ _, Err ErrNotExist.
#[export] Instance demo_glob : Globber := λ _, Ok [].
#[export] Instance demo_walk : TreeWalker := λ _, [].
#[export] Instance demo_output : Commander := λ _, Err "exit status 1".
#[export] Instance demo_user : CurrentUser := Err "no user".
#[export] Instance demo_ed : Ed25519 := λ pub msg sig, (msg =s? "rules") && (sig =s? "signed").

(** The configuration asks for a token and for signed rules. *)
Definition cfg : Config :=
  Default <| cfg_BaselinePath := "b.json" |> <| cfg_RulePackPath := packfile |> <| cfg_BaselineCommitTokenEnv := "GC_TOKEN" |>
    <| cfg_RulePackPubKey := "rules.pub" |> <| cfg_RulePackSigPath := "rules.sig" |>.
Definition demo_config : string → Config → result Config := λ _ _, Ok cfg.
Definition demo_pack : string → result Pack := λ _, Ok (mkPack "1" []).
Definition demo_sigma : string → result sigmaDoc := λ _, Err "no document".

(** A codec that knows one snapshot. *)
Definition the_snapshot : Snapshot :=
  default EmptySnapshot (match capture (mkOrders elements id id id)
    (mkHostCalls (λ _, None) Ok (λ _, "") (λ _ _, Err "no data") (λ _, Err ErrNotExist)) cfg EmptySnapshot with
    | Ok s => Some (s <| bs_CommittedAt := 1 |>) | Err _ => None end).
Definition demo_marshal (s : Snapshot) : result string := if bool_decide (s = the_snapshot) then Ok "{}" else Err "unsupported".
Definition demo_unmarshal (b : string) : result Snapshot := Ok (omit_empty the_snapshot).

Definition ord : Orders := mkOrders elements id id id.
Definition hc : HostCalls := mkHostCalls (λ _, None) Ok (λ _, "") (λ _ _, Err "no data") (λ _, Err ErrNotExist).
Definition env : string → string := λ v, if v =s? "GC_TOKEN" then "secret" else "".

End AgentDemo.

Section demo.
Import AgentDemo.

Lemma demo_lawful : lawful ord.
Proof. constructor; intros; reflexivity. Qed.

Lemma demo_metadata : walk_metadata.
Proof. exists (λ _, mkFileInfo false 0 0 0 0). intros r e fi He. by apply elem_of_nil in He. Qed.

Lemma demo_json : json_roundtrip demo_unmarshal demo_marshal.
Proof. intros s b. unfold demo_marshal, demo_unmarshal. case_bool_decide as Hs; [|done]. intros [= <-]. by rewrite <-Hs. Qed.

Lemma demo_commit :
  ∃ fs', baselineCommit ord hc demo_unmarshal demo_config demo_marshal (mkSaveFaults None false) ∅ env 0 "secret" 1 conf = (fs', Ok tt) ∧
         fs' !! "b.json" = Some "{}".
Proof.
  assert (Hc : LoadConfig demo_config conf = Ok cfg) by (vm_compute; reflexivity).
  assert (Hs : commit_snapshot ord hc demo_unmarshal env 0 "secret" 1 cfg = Ok the_snapshot) by (vm_compute; reflexivity).
  unfold baselineCommit. rewrite Hc, Hs. unfold Save, demo_marshal. rewrite bool_decide_true by done.
  eexists. split; [reflexivity|]. change (cfg_BaselinePath cfg) with "b.json". by rewrite lookup_insert_eq.
Qed.

Lemma commit_guarded_witness :
  cfg_BaselineCommitTokenEnv cfg = "GC_TOKEN" ∧
  ("secret" ≠ "" ∧ env "GC_TOKEN" = "secret") ∧
  fst (baselineCommit ord hc demo_unmarshal demo_config demo_marshal (mkSaveFaults None false) ∅ env 0 "guess" 1 conf) = ∅.
Proof.
  assert (Hq : fst (baselineCommit ord hc demo_unmarshal demo_config demo_marshal (mkSaveFaults None false) ∅ env 0 "secret" 1 conf)
                 !! "b.json" ≠ (∅ : gmap string string) !! "b.json").
  { destruct demo_commit as (fs' & -> & Hl). cbn [fst]. rewrite Hl. discriminate. }
  pose proof (commit_guarded ord hc demo_config demo_unmarshal demo_marshal (mkSaveFaults None false) ∅ env 0 "secret" 1 conf
                "b.json" Hq) as (c & Hc & Ht & _).
  assert (Hcfg : LoadConfig demo_config conf = Ok cfg) by (vm_compute; reflexivity).
  rewrite Hcfg in Hc. injection Hc as <-. destruct Ht as [Ht|[Hne Ht]]; [discriminate Ht|].
  split; [reflexivity|]. split; [|vm_compute; reflexivity].
  split; [exact Hne|exact Ht].
Defined.



End demo.
