(* ===== verification/Sources.v ===== *)
(** [internal/sensor]: the loops of the three backends, which move what the
    kernel or the disk offers into the channel of the runner.

    - [auditd.go]: [newAuditd], [Start] (the tail of the audit log), [Close];
    - [ebpf_linux.go]: [newEBPF], [findObj], [Start] (the ring buffer), [Close],
      with the packages of [cilium/ebpf] as parameters;
    - [procpoll.go]: [newProcPoll], [Start].

    A turn of a loop is a [turn]: what the source's stop signals say, how many
    events the consumer took meanwhile, and the clock.  A loop is a function on
    the list of its turns; it also returns the calls of [TryEmit] it made. *)
From S2P Require Export Sensor.

Record turn := mkTurn {
  tu_stop : bool;   (* at the head of the loop: the context is done, or the source was closed *)
  tu_taken : nat;   (* events the consumer took since the last turn *)
  tu_done : bool;   (* the context is done when [TryEmit] looks *)
  tu_pick : bool;   (* which case [TryEmit] takes when both are ready *)
  tu_err : bool;    (* [ctx.Err() != nil] after a refused send *)
  tu_now : Time
}.

(** The calls of [TryEmit]: the event and the answer. *)
Abbreviation calls := (list (SEvent * bool)).

Section channel.
Variable cap : nat.

Definition offer (t : turn) (st : Stats) (ch : list SEvent) (ev : SEvent) : Stats * list SEvent * bool :=
  TryEmit (tu_done t) (tu_pick t) cap st (drop (tu_taken t) ch) ev.

(** A refused send ends the loop when the context is done. *)
Definition over (t : turn) (sent : bool) : bool := negb sent && (tu_done t || tu_err t).

(** * The audit log *)

(** [bufio.Reader.ReadString('\n')] on a file that grows.  A burst is the text
    found between two readings of the end of the file: at the end what was read
    of an incomplete line is returned with an error, and it is not read again. *)
Definition ReadString (bursts : list string) : string * bool * list string :=
  match bursts with
  | [] => ("", false, [])
  | b :: bs => match cut_line b with
               | Some (l, r) => (l +:+ str nl, true, r :: bs)
               | None => (b, false, bs)
               end
  end.

(** [newAuditd]: the file is opened and read from its end. *)
Definition newAuditd (open seek : result unit) : result unit :=
  match open with
  | Err e => Err e
  | Ok _ => match seek with Err e => Err e | Ok _ => Ok tt end
  end.

Fixpoint auditd_start (turns : list turn) (st : Stats) (ch : list SEvent) (bursts : list string)
  : Stats * list SEvent * calls :=
  match turns with
  | [] => (st, ch, [])
  | t :: turns =>
      if tu_stop t then (st, ch, [])
      else
        let '(line, ok, bursts) := ReadString bursts in
        if negb ok then auditd_start turns st ch bursts
        else
          match parseAuditLine (tu_now t) line with
          | None => auditd_start turns st ch bursts
          | Some ev =>
              let '(st, ch, sent) := offer t st ch ev in
              if over t sent then (st, ch, [(ev, sent)])
              else let '(st, ch, log) := auditd_start turns st ch bursts in (st, ch, (ev, sent) :: log)
          end
  end.

(** * The eBPF ring buffer *)

(** What [ringbuf.Reader.Read] returns. *)
Inductive ring_read := RRecord (raw : string) | RError | RClosed.

Definition placeholder (now : Time) (raw : string) : SEvent :=
  zero_SEvent <| sn_Kind := KindExec |> <| sn_When := now |> <| sn_Extra := {["raw_len" := itoa (slen raw)]} |>.

Fixpoint ebpf_start (turns : list (turn * ring_read)) (st : Stats) (ch : list SEvent) : Stats * list SEvent * calls :=
  match turns with
  | [] => (st, ch, [])
  | (t, RClosed) :: _ => (st, ch, [])
  | (t, RError) :: turns => ebpf_start turns (NoteRingbufOverrun st) ch
  | (t, RRecord raw) :: turns =>
      let ev := placeholder (tu_now t) raw in
      let '(st, ch, sent) := offer t st ch ev in
      let '(st, ch, log) := ebpf_start turns st ch in (st, ch, (ev, sent) :: log)
  end.

(** * Process polling *)

(** The inner loop of a tick; [true] says that [Start] returns. *)
Fixpoint emit_pids (tu : nat → turn) (st : Stats) (ch : list SEvent) (evs : list SEvent)
  : Stats * list SEvent * calls * bool :=
  match evs with
  | [] => (st, ch, [], false)
  | ev :: evs =>
      let ev := ev <| sn_When := tu_now (tu O) |> in
      let '(st, ch, sent) := offer (tu O) st ch ev in
      if over (tu O) sent then (st, ch, [(ev, sent)], true)
      else let '(st, ch, log, fin) := emit_pids (λ n, tu (S n)) st ch evs in (st, ch, (ev, sent) :: log, fin)
  end.

(** The host at a tick. *)
Record tick := mkTick {
  tk_stop : bool;
  tk_files : FileReader;
  tk_dirs : DirReader;
  tk_turns : nat → turn
}.

Fixpoint poll_loop (ticks : list tick) (prev : list Z) (st : Stats) (ch : list SEvent) : Stats * list SEvent * calls :=
  match ticks with
  | [] => (st, ch, [])
  | k :: ticks =>
      if tk_stop k then (st, ch, [])
      else
        let '(prev, evs) := @poll_tick (tk_files k) (tk_dirs k) 0 prev in
        let '(st, ch, log, fin) := emit_pids (tk_turns k) st ch evs in
        if fin then (st, ch, log)
        else let '(st, ch, log') := poll_loop ticks prev st ch in (st, ch, log ++ log')
  end.

(** Without a first listing every process is new. *)
Definition poll_start `{DirReader} (ticks : list tick) (st : Stats) (ch : list SEvent) : Stats * list SEvent * calls :=
  poll_loop ticks (match Processes with (pids, true) => pids | (_, false) => [] end) st ch.

Definition newProcPoll : Duration := 2 * second.

End channel.

(** ** Starting the eBPF backend *)

Section ebpf.
Context {Spec MapT Prog Reader Link : Type} `{Stater}.

Record Collection := mkCollection { co_Maps : gmap string MapT; co_Programs : list (string * Prog) }.

Record ebpfSource := mkEbpf { eb_coll : Collection; eb_rb : Reader; eb_lnks : list Link }.

Variable RemoveMemlock : result unit.
Variable LoadCollectionSpec : string → result Spec.
Variable NewCollection : Spec → result Collection.
Variable NewReader : MapT → result Reader.
Variable AttachRawTracepoint : string → Prog → result Link.
Variable Executable : result string.

Definition obj_candidates : list string :=
  ["/etc/ghostcatcher/ebpf/sensor.bpf.o"; "/usr/lib/ghostcatcher/sensor.bpf.o"] ++
  match Executable with Ok exe => [path_join [path_dir exe; "sensor.bpf.o"]] | Err _ => [] end.

Definition findObj : result string :=
  match List.find (λ p, match Stat p with FOk _ => true | _ => false end) obj_candidates with
  | Some p => Ok p
  | None => Err "ebpf: sensor.bpf.o not found"
  end.

(** What a failing start closes again. *)
Inductive resource := RsColl (c : Collection) | RsReader (r : Reader) | RsLink (l : Link).

Definition attached (c : Collection) : list Link :=
  omap (λ '(name, prog), match AttachRawTracepoint name prog with Ok l => Some l | Err _ => None end) (co_Programs c).

Definition newEBPF : list resource * result ebpfSource :=
  match RemoveMemlock with
  | Err e => ([], Err ("rlimit: " +:+ e))
  | Ok _ =>
      match findObj with
      | Err e => ([], Err e)
      | Ok obj =>
          match LoadCollectionSpec obj with
          | Err e => ([], Err ("load spec: " +:+ e))
          | Ok spec =>
              match NewCollection spec with
              | Err e => ([], Err ("new coll: " +:+ e))
              | Ok coll =>
                  match co_Maps coll !! "events" with
                  | None => ([RsColl coll], Err "ebpf: events map missing")
                  | Some rbMap =>
                      match NewReader rbMap with
                      | Err e => ([RsColl coll], Err e)
                      | Ok rb =>
                          match attached coll with
                          | [] => ([RsReader rb; RsColl coll], Err "ebpf: no tracepoints attached")
                          | lnks => ([], Ok (mkEbpf coll rb lnks))
                          end
                      end
                  end
              end
          end
      end
  end.

Definition Close_ebpf (e : ebpfSource) : list resource :=
  map RsLink (eb_lnks e) ++ [RsReader (eb_rb e); RsColl (eb_coll e)].

(** A failing start keeps nothing open: what it opened is what it closes. *)
Lemma newEBPF_closes closed e :
  newEBPF = (closed, Err e) →
  (∃ coll rb, closed = [RsReader rb; RsColl coll] ∧ attached coll = []) ∨
  (∃ coll, closed = [RsColl coll] ∧ (∀ m rb, co_Maps coll !! "events" = Some m → NewReader m ≠ Ok rb)) ∨
  closed = [] ∧ (∀ obj spec coll, findObj = Ok obj → RemoveMemlock = Ok tt → LoadCollectionSpec obj = Ok spec →
                   NewCollection spec ≠ Ok coll).
Proof.
  unfold newEBPF. repeat case_match; intros [= <- <-]; try congruence;
    try (right; right; split; [done|]; intros; congruence);
    try (right; left; eexists; split; [done|]; intros; congruence).
  left. eauto.
Qed.

End ebpf.

(** The stub of a build without the tag. *)
Definition newEBPF_stub : result unit := Err "ebpf: not built with with_ebpf tag".
