(* ===== verification/SourcesFacts.v ===== *)
(** What the sources deliver: the audit log line by line, the eBPF backend's
    placeholders, and how no event is lost uncounted. *)
From S2P Require Export Sources.

Definition at_time (t : Time) (e : SEvent) : SEvent := e <| sn_When := t |>.

(** * A record's event depends on the clock only in its time *)

Section fields.
Variable fs : gmap string string.
Implicit Types e : SEvent.

Local Ltac stamp := intros []; cbn; repeat case_match; done.

Lemma set_exe_at t e : set_exe fs (at_time t e) = at_time t (set_exe fs e).
Proof. unfold set_exe. revert e. stamp. Qed.
Lemma set_name_at t e : set_name fs (at_time t e) = at_time t (set_name fs e).
Proof. unfold set_name. revert e. stamp. Qed.
Lemma set_cwd_at t e : set_cwd fs (at_time t e) = at_time t (set_cwd fs e).
Proof. unfold set_cwd. revert e. stamp. Qed.
Lemma set_key_at t e : set_key fs (at_time t e) = at_time t (set_key fs e).
Proof. unfold set_key. revert e. stamp. Qed.
Lemma set_addr_at t e : set_addr fs (at_time t e) = at_time t (set_addr fs e).
Proof. unfold set_addr. revert e. stamp. Qed.

Lemma set_args_at t e : set_args fs (at_time t e) = at_time t (set_args fs e).
Proof.
  unfold set_args. change (sn_Kind (at_time t e)) with (sn_Kind e). destruct (_ || _); [|done].
  generalize ["a0"; "a1"; "a2"; "a3"; "exit"; "success"]. intros ks. revert e.
  induction ks as [|k ks IH]; intros e; cbn [fold_left]; [done|]. rewrite <-IH. f_equal. by case_match.
Qed.

End fields.

Lemma parseAuditLine_at t line : parseAuditLine t line = at_time t <$> parseAuditLine 0 line.
Proof.
  unfold parseAuditLine. destruct (negb _); [done|]. cbv zeta.
  destruct (syscall_kind _) as [k|]; [|done]. cbn [fmap option_fmap option_map].
  by rewrite <-set_addr_at, <-set_args_at, <-set_key_at, <-set_cwd_at, <-set_name_at, <-set_exe_at.
Qed.

(** * The turns of a loop that nobody stops *)

Definition runs (t : turn) : Prop := tu_stop t = false ∧ tu_done t = false ∧ tu_err t = false.

Lemma runs_over t b : runs t → over t b = false.
Proof. intros (_ & H1 & H2). unfold over. by rewrite H1, H2, andb_false_r. Qed.

(** The readings a burst takes: one per line, and one that meets the end. *)
Definition burst_reads (b : string) : nat := S (length (fst (complete b))).

Definition reads_needed (bursts : list string) : nat := foldr (λ b n, (burst_reads b + n)%nat) O bursts.

Definition burst_lines (b : string) : list string := map (λ l, l +:+ str nl) (fst (complete b)).

(** The records a loop should report. *)
Definition records (ls : list string) : list SEvent := omap (parseAuditLine 0) ls.

Lemma records_cons l ls :
  records (l :: ls) = match parseAuditLine 0 l with Some e => e :: records ls | None => records ls end.
Proof. done. Qed.

Definition log_events (log : calls) : list SEvent := map (λ c, at_time 0 (fst c)) log.

Lemma at_time_0 t line e : parseAuditLine t line = Some e → Some (at_time 0 e) = parseAuditLine 0 line.
Proof.
  rewrite parseAuditLine_at, (parseAuditLine_at 0). destruct (parseAuditLine 0 line) as [e'|]; [|done].
  cbn. by intros [= <-].
Qed.

Lemma auditd_idle cap turns : ∀ st ch,
  Forall runs turns → auditd_start cap turns st ch [] = (st, ch, []).
Proof.
  induction turns as [|t turns IH]; intros st ch Ht; [done|]. inversion_clear Ht as [|? ? (Hs & _) Hr].
  cbn [auditd_start ReadString]. rewrite Hs. cbn [negb]. by apply IH.
Qed.

Lemma auditd_log cap turns : ∀ st ch bursts,
  Forall runs turns → (reads_needed bursts ≤ length turns)%nat →
  log_events (auditd_start cap turns st ch bursts).2 = records (flat_map burst_lines bursts).
Proof.
  induction turns as [|t turns IH]; intros st ch bursts Ht Hn.
  { destruct bursts as [|b bs]; [done|]. cbn [reads_needed foldr length] in Hn. unfold burst_reads in Hn. lia. }
  destruct bursts as [|b bs]; [by rewrite auditd_idle|].
  inversion_clear Ht as [|? ? Hrt Hr]. cbn [auditd_start ReadString]. rewrite (proj1 Hrt).
  cbn [reads_needed foldr length flat_map] in *. fold (reads_needed bs) in *. unfold burst_reads at 1 in Hn. unfold burst_lines at 1.
  pose proof (cut_line_complete b) as Hc. destruct (cut_line b) as [[l r]|]; cbn [negb].
  2:{ rewrite Hc in Hn |- *. apply IH; [done|]. cbn [fst length] in Hn. lia. }
  destruct Hc as [Hc _]. rewrite Hc in Hn |- *. cbn [fst map app length] in *. rewrite records_cons.
  assert (Hgo : ∀ st ch, log_events (auditd_start cap turns st ch (r :: bs)).2 =
                         records (burst_lines r ++ flat_map burst_lines bs)).
  { intros st' ch'. apply IH; [done|]. cbn [reads_needed foldr]. fold (reads_needed bs). unfold burst_reads at 1. lia. }
  pose proof (at_time_0 (tu_now t) (l +:+ str nl)) as Hp.
  destruct (parseAuditLine (tu_now t) (l +:+ str nl)) as [ev|] eqn:He.
  - specialize (Hp ev eq_refl). rewrite <-Hp. destruct (offer cap t st ch ev) as [[st' ch'] sent].
    rewrite (runs_over t sent Hrt). specialize (Hgo st' ch'). destruct (auditd_start cap turns st' ch' (r :: bs)) as [[st2 ch2] log].
    cbn [snd log_events map fst] in *. f_equal; exact Hgo.
  - rewrite parseAuditLine_at in He. destruct (parseAuditLine 0 (l +:+ str nl)); [done|]. apply Hgo.
Qed.

(** Bursts that end at the end of a line are read as one text. *)
Lemma bursts_whole bursts :
  Forall (λ b, snd (complete b) = "") bursts →
  flat_map burst_lines bursts = burst_lines (foldr String.append "" bursts).
Proof.
  induction 1 as [|b bs Hb _ IH]; [done|]. cbn [flat_map foldr]. rewrite IH. unfold burst_lines.
  rewrite (complete_app b), Hb. cbn [fst]. by rewrite map_app.
Qed.

(** Tailing the audit log reports every record once and in order: while
    nobody stops it and whatever the channel has room for, the events the loop
    offers are those of the complete lines of each burst of text it finds, and
    if every burst ends at the end of a line they are the events of the whole
    text that was appended. *)
Theorem auditd_reports_lines cap turns st ch bursts :
  Forall runs turns → (reads_needed bursts ≤ length turns)%nat →
  log_events (auditd_start cap turns st ch bursts).2 = records (flat_map burst_lines bursts) ∧
  (Forall (λ b, snd (complete b) = "") bursts →
   log_events (auditd_start cap turns st ch bursts).2 = records (burst_lines (foldr String.append "" bursts))).
Proof.
  intros Ht Hn. rewrite auditd_log by done. split; [done|]. intros Hb. by rewrite bursts_whole.
Qed.

(** * Back-pressure over a run *)

Definition sent_count (log : calls) : Z := Z.of_nat (length (List.filter snd log)).

Lemma offer_counts cap t st ch ev st' ch' sent :
  runs t → offer cap t st ch ev = (st', ch', sent) →
  if sent then ss_Emitted st' = wrapu 64 (ss_Emitted st + 1) ∧ ss_ChannelDrop st' = ss_ChannelDrop st
  else ss_ChannelDrop st' = wrapu 64 (ss_ChannelDrop st + 1) ∧ ss_Emitted st' = ss_Emitted st.
Proof.
  intros (_ & Hd & _). unfold offer, TryEmit. rewrite Hd. cbn [andb].
  destruct (_ <? _)%nat; intros [= <- <- <-]; by destruct st.
Qed.

Lemma wrapu_add a b : wrapu 64 (wrapu 64 a + b) = wrapu 64 (a + b).
Proof. unfold wrapu. rewrite Zplus_mod_idemp_l. done. Qed.

(** Every event offered is counted, as sent or as dropped. *)
Lemma auditd_counts cap turns : ∀ st ch bursts st' ch' log,
  Forall runs turns → auditd_start cap turns st ch bursts = (st', ch', log) →
  wrapu 64 (ss_Emitted st') = wrapu 64 (ss_Emitted st + sent_count log) ∧
  wrapu 64 (ss_ChannelDrop st') = wrapu 64 (ss_ChannelDrop st + (Z.of_nat (length log) - sent_count log)).
Proof.
  induction turns as [|t turns IH]; intros st ch bursts st' ch' log Ht.
  { cbn. intros [= <- <- <-]. cbn. by rewrite !Z.add_0_r. }
  inversion_clear Ht as [|? ? Hrt Hr]. cbn [auditd_start]. rewrite (proj1 Hrt).
  destruct (ReadString bursts) as [[line ok] bs]. destruct ok; cbn [negb]; [|by apply IH].
  destruct (parseAuditLine (tu_now t) line) as [ev|]; [|by apply IH].
  destruct (offer cap t st ch ev) as [[st1 ch1] sent] eqn:Ho. rewrite (runs_over t sent Hrt).
  destruct (auditd_start cap turns st1 ch1 bs) as [[st2 ch2] log2] eqn:Ha.
  intros [= <- <- <-]. destruct (IH _ _ _ _ _ _ Hr Ha) as [H1 H2]. rewrite H1, H2.
  apply (offer_counts _ _ _ _ _ _ _ _ Hrt) in Ho. unfold sent_count. cbn [List.filter snd length].
  destruct sent; destruct Ho as [-> ->]; cbn [snd length]; rewrite ?wrapu_add; split; f_equal; lia.
Qed.

(** * Samples *)

Definition idle_turn : turn := mkTurn false 0 false false false 5.

Definition exec_record : string := "type=SYSCALL syscall=59 pid=7 comm=id" +:+ str nl.
Definition open_record : string := "type=SYSCALL syscall=257 pid=7 name=/etc/shadow" +:+ str nl.

Lemma auditd_reports_lines_witness :
  log_events (auditd_start 8 (replicate 4 idle_turn) (mkStats 0 0 0) [] [exec_record; open_record]).2 =
    records (burst_lines (foldr String.append "" [exec_record; open_record])) ∧
  map sn_Kind (records (burst_lines (foldr String.append "" [exec_record; open_record]))) = [KindExec; KindOpenat].
Proof.
  split; [|vm_compute; reflexivity].
  apply (auditd_reports_lines 8 (replicate 4 idle_turn)); [by repeat constructor|vm_compute; lia|].
  repeat constructor; vm_compute; reflexivity.
Defined.

(** A record whose line was not finished when the end of the file was met is
    lost: its first half is thrown away and the second half is not a record. *)
Lemma split_record_lost :
  log_events (auditd_start 8 (replicate 4 idle_turn) (mkStats 0 0 0) []
                ["type=SYSCALL sys"; "call=59 pid=7 comm=id" +:+ str nl]).2 = [] ∧
  length (log_events (auditd_start 8 (replicate 4 idle_turn) (mkStats 0 0 0) []
                        ["type=SYSCALL syscall=59 pid=7 comm=id" +:+ str nl]).2) = 1%nat.
Proof. vm_compute. done. Qed.

(** * The eBPF backend *)

(** Every event of the ring buffer is the same placeholder but for the time and
    the length of the record. *)
Lemma ebpf_placeholders cap turns : ∀ st ch,
  Forall (λ c, ∃ now raw, fst c = placeholder now raw) (ebpf_start cap turns st ch).2.
Proof.
  induction turns as [|[t []] turns IH]; intros st ch; cbn [ebpf_start]; [constructor| |apply IH|constructor].
  destruct (offer cap t st ch _) as [[st' ch'] sent]. specialize (IH st' ch').
  destruct (ebpf_start cap turns st' ch') as [[st2 ch2] log]. constructor; [eauto|done].
Qed.

(** A send only appends: what is in the channel came from it. *)
Lemma TryEmit_Forall (P : SEvent → Prop) done pick cap st ch ev st' ch' ok :
  Forall P ch → P ev → TryEmit done pick cap st ch ev = (st', ch', ok) → Forall P ch'.
Proof.
  intros Hc He. unfold TryEmit. repeat case_match; intros [= <- <- <-]; try done. by apply Forall_app; auto.
Qed.

Lemma ebpf_channel cap turns : ∀ st ch,
  Forall (λ e, ∃ now raw, e = placeholder now raw) ch →
  Forall (λ e, ∃ now raw, e = placeholder now raw) (ebpf_start cap turns st ch).1.2.
Proof.
  induction turns as [|[t []] turns IH]; intros st ch Hc; cbn [ebpf_start]; [done| |by apply IH|done].
  destruct (offer cap t st ch _) as [[st' ch'] sent] eqn:Ho.
  assert (Hc' : Forall (λ e, ∃ now raw, e = placeholder now raw) ch').
  { eapply (TryEmit_Forall _ _ _ _ _ (drop (tu_taken t) ch)); [by apply Forall_drop| |exact Ho]. eauto. }
  specialize (IH st' ch' Hc'). by destruct (ebpf_start cap turns st' ch') as [[st2 ch2] log].
Qed.

(** The reader is drained: only the closing of the ring buffer ends the loop,
    and every error is counted. *)
Lemma ebpf_overruns cap turns : ∀ st ch,
  Forall (λ r, snd r ≠ RClosed) turns →
  wrapu 64 (ss_RingbufOverrun (ebpf_start cap turns st ch).1.1) =
    wrapu 64 (ss_RingbufOverrun st + Z.of_nat (length (List.filter (λ r, match snd r with RError => true | _ => false end) turns))).
Proof.
  induction turns as [|[t []] turns IH]; intros st ch Hr; cbn [ebpf_start List.filter snd length fst];
    [by rewrite Z.add_0_r| | |]; inversion_clear Hr as [|? ? Hne Hr']; try done.
  - destruct (offer cap t st ch _) as [[st' ch'] sent] eqn:Ho. specialize (IH st' ch' Hr').
    destruct (ebpf_start cap turns st' ch') as [[st2 ch2] log]. cbn [fst] in *. rewrite IH. f_equal. f_equal.
    unfold offer, TryEmit in Ho. by repeat case_match; injection Ho as <- <- <-; destruct st.
  - rewrite IH by done. unfold NoteRingbufOverrun. cbn [upd ss_RingbufOverrun]. cbn. rewrite wrapu_add. f_equal. lia.
Qed.
