(* ===== verification/Loops.v ===== *)
(** [internal/runner/runner.go], the loops: [RunLoop] and the goroutines it
    starts.

    Each loop is a function on the list of its turns, which ends when the loop
    is stopped; what another goroutine does between two turns is part of the
    next turn's environment.  That scans exclude each other is [scan_step] of
    [Runner]; here a turn says whether it found the lock free. *)
From S2P Require Export Sources Agent.

(** * Tickers *)

(** [time.NewTicker] panics on an interval that is not positive. *)
Definition NewTicker (d : Duration) : result Duration :=
  if d <=? 0 then Err "non-positive interval for NewTicker" else Ok d.

(** * What a configuration starts *)

Inductive worker :=
| WAuthorizedKeys (debounce : Duration)
| WSensitive (roots : list string) (debounce : Duration)
| WSensor (s : source)
| WSuddenRoot (every : Duration)
| WInventory (every : Duration)
| WWatchdog (every : Duration).

Definition suddenRoot_interval (cfg : Config) : Duration :=
  let i := sr_SnapshotInterval (cfg_SuddenRoot cfg) in if i <=? 0 then 10 * second else i.

Definition inventory_interval (cfg : Config) : Duration :=
  let i := cfg_IntegrityScanInterval cfg in if i <=? 0 then 6 * hour else i.

(** [opened] is the answer of [sensor.Open], [usec] the variable of systemd. *)
Definition workers (cfg : Config) (opened : result source) (usec : string) : list worker :=
  (if cfg_WatchAuthorizedKeys cfg then [WAuthorizedKeys (cfg_WatchDebounce cfg)] else []) ++
  (if cfg_WatchSensitivePaths cfg then [WSensitive (cfg_DocumentRoots cfg) (cfg_WatchDebounce cfg)] else []) ++
  (match opened with Ok s => [WSensor s] | Err _ => [] end) ++
  (if sr_Enabled (cfg_SuddenRoot cfg) then [WSuddenRoot (suddenRoot_interval cfg)] else []) ++
  (if cfg_IntegrityVerifyEnabled cfg && (0 <? cfg_IntegrityScanInterval cfg)
   then [WInventory (inventory_interval cfg)] else []) ++
  (if sg_Enabled (cfg_SelfGuard cfg) && sg_SystemdWatchdog (cfg_SelfGuard cfg) && (0 <? WatchdogInterval usec)
   then [WWatchdog (WatchdogInterval usec)] else []).

Section host.
Context `{FileReader} `{DirReader} `{LinkReader} `{Stater}.
Variable json_line : Event → option string.
Variable json_Unmarshal : string → result Snapshot.
Variable range : gmap ProcessKey tracked → list ProcessKey.

(** [runScan]: a request that finds the lock taken is counted and passed over. *)
Definition runScan (free : bool) (body : Runner → Runner * list output * result unit) (r : Runner)
  : Runner * list output * result unit :=
  if free then body r else (r, [], Ok tt).

(** * The main loop *)

Record round := mkRound {
  ro_free : bool;
  ro_dts : Detectors;
  ro_envs : nat → Env;
  ro_t1 : Time; ro_t2 : Time; ro_now : Time;   (* as [scanFull] *)
  ro_henv : Env; ro_hnow : Time                (* as [checkBinaryHash] *)
}.

(** A scan, whatever becomes of it, and the agent's own binary. *)
Definition run_round (k : round) (r : Runner) : Runner * list output :=
  let '(r, o, _) := runScan (ro_free k) (λ r, scanFull json_line json_Unmarshal (ro_dts k) (ro_envs k) r (ro_t1 k) (ro_t2 k) (ro_now k)) r in
  let '(r, o') := checkBinaryHash json_line (ro_henv k) r (ro_hnow k) in (r, o ++ o').

Fixpoint run_rounds (ks : list round) (r : Runner) : Runner * list output :=
  match ks with
  | [] => (r, [])
  | k :: ks => let '(r, o) := run_round k r in let '(r, os) := run_rounds ks r in (r, o ++ os)
  end.

(** The ticker comes first; [ks] are the round at the start and one per tick. *)
Definition RunLoop (ks : list round) (r : Runner) : Runner * list output * result unit :=
  match NewTicker (cfg_ScanInterval (rn_cfg r)) with
  | Err e => (r, [], Err ("panic: " +:+ e))
  | Ok _ => let '(r, o) := run_rounds ks r in (r, o, Ok tt)
  end.

(** * The sensor loop *)

Inductive delivery :=
| DEvent (envs : nat → Env) (nows : nat → Time) (now : Time) (ev : SEvent)
| DClosed      (* the channel is closed *)
| DCancelled.  (* the context is done *)

Fixpoint consume_loop (ds : list delivery) (r : Runner) (deb : option Debouncer) (mass : massCounter)
  : Runner * option Debouncer * massCounter * list output :=
  match ds with
  | DEvent envs nows now ev :: ds =>
      let '(r, deb, mass, o) := consume_one json_line range envs nows now r deb mass ev in
      let '(r, deb, mass, os) := consume_loop ds r deb mass in (r, deb, mass, o ++ os)
  | _ => (r, deb, mass, [])
  end.

Definition consumeSensor (ds : list delivery) (r : Runner) (mass : massCounter)
  : Runner * option Debouncer * massCounter * list output :=
  consume_loop ds r (NewDebouncer (wrap64 (se_DebounceMS (cfg_Sensor (rn_cfg r)) * millisecond))) mass.

(** * The other loops *)

Record inventory_turn := mkInventory { iv_free : bool; iv_dts : Detectors; iv_envs : nat → Env; iv_now : Time }.

(** One scan at once and one per tick; an error changes nothing. *)
Fixpoint inventoryLoop (ts : list inventory_turn) (r : Runner) : Runner * list output :=
  match ts with
  | [] => (r, [])
  | t :: ts =>
      let '(r, o, _) := runScan (iv_free t) (λ r, scanInventory json_line json_Unmarshal (iv_dts t) (iv_envs t) r (iv_now t)) r in
      let '(r, os) := inventoryLoop ts r in (r, o ++ os)
  end.

(** [suddenRootLoop], whose first snapshot comes after a tick. *)
Fixpoint suddenRootLoop (ts : list ((nat → Env) * (nat → Time) * Time * Time)) (r : Runner) : Runner * list output :=
  match ts with
  | [] => (r, [])
  | (envs, nows, t, now) :: ts =>
      let '(r, o) := suddenRoot_tick json_line range envs nows t now r in
      let '(r, os) := suddenRootLoop ts r in (r, o ++ os)
  end.

End host.

(** [watchdogLoop]: what is written to systemd's socket, if it has an address;
    each element says whether a ping can be sent. *)
Definition NotifyWatchdog (addr : string) (dials : bool) : list string :=
  if (addr =s? "") || negb dials then [] else ["WATCHDOG=1"].

Definition watchdogLoop (addr : string) (ticks : list bool) : list string := flat_map (NotifyWatchdog addr) ticks.

(** * Properties *)

(** The integrity checks run in exactly one place: in every full scan, or on
    their own clock. *)
Definition integrity_in_scan (cfg : Config) : bool :=
  cfg_IntegrityVerifyEnabled cfg && (cfg_IntegrityScanInterval cfg <=? 0).

Lemma integrity_scheduled_once cfg opened usec :
  cfg_IntegrityVerifyEnabled cfg = true →
  integrity_in_scan cfg = true ↔ ∀ d, WInventory d ∉ workers cfg opened usec.
Proof.
  intros He. unfold integrity_in_scan, workers. rewrite He. cbn [andb].
  destruct (Z.leb_spec (cfg_IntegrityScanInterval cfg) 0) as [Hle|Hgt].
  - rewrite (proj2 (Z.ltb_ge _ _)) by done. split; [|done]. intros _ d Hin.
    repeat (apply elem_of_app in Hin as [Hin|Hin]); repeat case_match; set_solver.
  - rewrite (proj2 (Z.ltb_lt _ _)) by done. split; [done|]. intros Hn. exfalso.
    apply (Hn (inventory_interval cfg)). set_solver.
Qed.

(** The six hours of [inventoryLoop] are never used. *)
Lemma inventory_default_unused cfg opened usec d :
  WInventory d ∈ workers cfg opened usec → d = cfg_IntegrityScanInterval cfg ∧ 0 < d.
Proof.
  unfold workers. intros Hin.
  assert (Hif : cfg_IntegrityVerifyEnabled cfg && (0 <? cfg_IntegrityScanInterval cfg) = true ∧ d = inventory_interval cfg).
  { repeat (apply elem_of_app in Hin as [Hin|Hin]); repeat case_match; set_solver. }
  destruct Hif as [[_ H0%Z.ltb_lt]%andb_true_iff ->]. unfold inventory_interval.
  rewrite (proj2 (Z.leb_gt _ _)) by done. done.
Qed.
