(* ===== verification/LoopsFacts.v ===== *)
(** Theorems on the loops of the runner: the eBPF backend under the sensor loop,
    and a scan interval that nothing checks. *)
From S2P Require Export Loops SourcesFacts AgentFacts.

Section facts.
Context `{FileReader} `{DirReader} `{LinkReader} `{Stater}.
Variable json_line : Event → option string.
Variable range : gmap ProcessKey tracked → list ProcessKey.

(** * The eBPF backend detects nothing *)

Lemma placeholder_routes cfg pack now observedAt trk mass t raw :
  routes range cfg pack now observedAt trk mass (placeholder t raw) = (trk, mass, []).
Proof.
  unfold routes. change (sn_Kind (placeholder t raw)) with KindExec.
  replace (if sr_Enabled (cfg_SuddenRoot cfg) && (KindExec =s? KindExec) then _ else (trk, None)) with (trk, @None Event).
  2:{ destruct (sr_Enabled (cfg_SuddenRoot cfg)) eqn:Hs; [|done]. cbn [andb]. unfold RouteSensorEvent_privesc. by rewrite Hs. }
  rewrite (andb_comm (cf_Enabled _)). cbn [andb String.eqb]. unfold kind_routes.
  change (sn_Kind (placeholder t raw)) with KindExec.
  change (KindExec =s? KindOpenat) with false. change (KindExec =s? KindExec) with true. cbv iota.
  replace (RouteExec_defense cfg pack AgentVersion now (placeholder t raw)) with (@None Event) by done.
  replace (RouteExec_container cfg pack AgentVersion now (placeholder t raw)) with (@None Event) by done.
  done.
Qed.

Lemma placeholder_consumed envs nows now r deb mass t raw :
  ∃ deb', consume_one json_line range envs nows now r deb mass (placeholder t raw) = (r, deb', mass, []).
Proof.
  unfold consume_one. change (mem_str (sn_Kind (placeholder t raw)) FastKinds) with true. cbn [negb].
  destruct (Allow_event deb (placeholder t raw) now) as [deb' ok]. exists deb'. destruct ok; [|done].
  cbn [negb]. cbv zeta. rewrite placeholder_routes. cbn [dispatch_all]. by destruct r.
Qed.

(** The turns of the loop that handle the events [evs], in order. *)
Inductive handles : list delivery → list SEvent → Prop :=
| handles_nil : handles [] []
| handles_end d ds : d = DClosed ∨ d = DCancelled → handles (d :: ds) []
| handles_event envs nows now ev ds evs : handles ds evs → handles (DEvent envs nows now ev :: ds) (ev :: evs).

(** C21: With the eBPF backend the live detections never fire: every event that
    backend puts into the channel, whatever the kernel reported, is one that no
    live route matches, so handling any of them writes nothing, touches nothing
    and leaves the runner as it was, under every configuration and rule pack. *)
Theorem ebpf_detects_nothing cap turns st ds evs r mass :
  evs ⊆ (map fst (ebpf_start cap turns st []).2) → handles ds evs →
  ∃ deb, consumeSensor json_line range ds r mass = (r, deb, mass, []).
Proof.
  intros Hsub Hh. unfold consumeSensor. generalize (NewDebouncer (wrap64 (se_DebounceMS (cfg_Sensor (rn_cfg r)) * millisecond))).
  pose proof (ebpf_placeholders cap turns st []) as Hp. rewrite list.Forall_forall in Hp.
  induction Hh as [|d ds Hd|envs nows now ev ds evs Hh IH]; intros deb; [by exists deb|by exists deb; destruct Hd as [-> | ->]|].
  assert (Hev : ∃ t raw, ev = placeholder t raw).
  { destruct (proj1 (list_elem_of_fmap fst _ ev) (Hsub ev ltac:(left))) as (c & -> & Hc). by apply Hp. }
  destruct Hev as (t & raw & ->). destruct (placeholder_consumed envs nows now r deb mass t raw) as [deb' Hc].
  destruct (IH ltac:(intros x Hx; apply Hsub; by right) deb') as [deb2 Hl]. exists deb2.
  cbn [consume_loop]. by rewrite Hc, Hl.
Qed.

End facts.

(** * The scan interval is not checked *)

Lemma LoadConfig_interval `{FileReader} yaml path c :
  LoadConfig yaml path = Ok c →
  ∃ b c0, ReadFile path = Ok b ∧ yaml b Default = Ok c0 ∧ cfg_ScanInterval c = cfg_ScanInterval c0.
Proof.
  unfold LoadConfig. intros (b & Hb & (c0 & Hc & Hr)%rbind_Ok)%rbind_Ok. exists b, c0. split; [done|]. split; [done|].
  destruct (_ =s? ""); [done|]. destruct (_ =s? ""); [done|]. apply Ok_inj in Hr as <-.
  repeat match goal with |- context[if ?b then _ else _] => destruct b end; reflexivity.
Qed.

Section interval.
Context `{FileReader} `{DirReader} `{LinkReader} `{Stater} `{Ed25519}.
Variable json_line : Event → option string.
Variable json_Unmarshal : string → result Snapshot.
Variable yaml_Config : string → Config → result Config.
Variable yaml_Pack : string → result Pack.
Variable yaml_Sigma : string → result sigmaDoc.
Variable yaml_mapping : string → result MappingFile.


End interval.

(** * Witnesses *)

Section demo.
Import AgentDemo.

(** [scan_interval: 0s], everything else as in the example. *)
Definition stopped_config : string → Config → result Config := λ _ _, Ok (cfg <| cfg_ScanInterval := 0 |>).
Definition no_parts : Parts := mkParts (Err "disabled") (Err "disabled") (Err "disabled") [].

Definition stopped_start : result Runner :=
  runCmd stopped_config demo_pack demo_sigma (λ _, Err "no mapping") no_parts None conf 0.


Definition live_runner : Runner :=
  mkRunner (cfg <| cfg_Sensor := (cfg_Sensor cfg) <| se_DebounceMS := 5 |> |>) (mkPack "1" []) None ∅ 0 (NewLimiter 0) None
    NewFeed (newCorrelator 16) [] true None (NewTracker 16) zero_Cache 0 None.

Definition ring : list (turn * ring_read) := [(idle_turn, RRecord "execve /usr/bin/nc"); (idle_turn, RError); (idle_turn, RRecord "")].

Definition ring_events : list SEvent := map fst (ebpf_start 8 ring (mkStats 0 0 0) []).2.

Definition handled : list delivery :=
  map (λ ev, DEvent (λ _, mkEnv (mkSystem 0 (λ _, Ok tt) (λ _, Ok tt) (λ _ _, Ok "")) 1 1 1 1 1 1 (λ _, no_faults)) (λ _, 1) 1 ev)
    ring_events.

(** The routes are not blind: the same loop on an execution that says what was
    executed raises an alert. *)
Example exec_is_routed :
  map ev_RuleID (routes (λ m, map fst (map_to_list m)) cfg (mkPack "1" []) 1 1 (NewTracker 16) ∅
    (zero_SEvent <| sn_Kind := KindExec |> <| sn_PID := 7 |> <| sn_Argv := ["systemctl"; "stop"; "auditd"] |>)).2 =
  [RuleAuditdTamper].
Proof. vm_compute. reflexivity. Qed.

Lemma ebpf_detects_nothing_witness :
  length ring_events = 2%nat ∧
  ∃ deb, consumeSensor (λ _, Some "line") (λ m, map fst (map_to_list m)) handled live_runner ∅ = (live_runner, deb, ∅, []).
Proof.
  split; [vm_compute; reflexivity|].
  apply (ebpf_detects_nothing (λ _, Some "line") (λ m, map fst (map_to_list m)) 8 ring (mkStats 0 0 0) handled ring_events live_runner ∅).
  - intros x Hx. exact Hx.
  - repeat constructor.
Defined.

End demo.
