(* ===== verification/Commands.v ===== *)
(** [cmd/agent/main.go], the command line: which command runs, what it prints,
    and the status the process ends with.

    Decoding flags is a parameter of each command, given as the values it
    reads. *)
From S2P Require Export Loops Scores.

Record outcome := mkOutcome { oc_stdout : string; oc_status : Z }.

Definition usage_line : string :=
  "usage: ghostcatcher <run|check-config|baseline commit|eval|coverage> [-config path]".

(** [main]: the command that the arguments name. *)
Inductive command := CRun (args : list string) | CCheckConfig (args : list string) | CBaselineCommit (args : list string)
| CEval (args : list string) | CCoverage (args : list string).

(** The arguments without the name of the program; [None] ends with status 2. *)
Definition dispatch (args : list string) : option command :=
  match args with
  | [] => None
  | c :: rest =>
      if c =s? "run" then Some (CRun rest)
      else if c =s? "check-config" then Some (CCheckConfig rest)
      else if c =s? "baseline" then
        match rest with
        | "commit" :: rest => Some (CBaselineCommit rest)
        | _ => None
        end
      else if c =s? "eval" then Some (CEval rest)
      else if c =s? "coverage" then Some (CCoverage rest)
      else None
  end.

(** [coverageCmd]: [wrote] is the answer of the Navigator file when one is
    asked for. *)
Definition coverageCmd (loaded : result (Config * Pack)) (navigator : option (result unit)) (gapsOnly : bool) : outcome :=
  match loaded with
  | Err _ => mkOutcome "" 1
  | Ok (_, pack) =>
      match navigator with
      | Some (Err _) => mkOutcome "" 1
      | _ =>
          if gapsOnly
          then mkOutcome (foldr (λ id out, id +:+ str nl +:+ out) "" (cov_Uncovered (Analyze pack))) 0
          else mkOutcome (SummaryText pack) 0
      end
  end.

(** [evalCmd]'s configuration. *)
Definition evalCmd_config : Config :=
  Default <| cfg_LearningMode := false |> <| cfg_FirstRunAllowAlerts := true |> <| cfg_MinConfidenceAlert := 60 |>.

Section host.
Context `{FileReader} `{DirReader} `{LinkReader} `{Globber} `{Stater} `{TreeWalker}.

(** [minF1] is the value of the flag. *)
Definition evalCmd (minF1 : float64) (now : Time) (looked : string → Time) (corpus : string) : outcome :=
  let res := Eval.Run now looked corpus evalCmd_config None in
  mkOutcome (Report res +:+ str nl) (if regressed minF1 res then 1 else 0).

(** [runCmd] on a started agent: one scan with [-once], and the loop without. *)
Variable json_line : Event → option string.
Variable json_Unmarshal : string → result Snapshot.

Definition run_once (k : round) (r : Runner) : Runner * list output * Z :=
  let '(r, o, res) := runScan (ro_free k) (λ r, scanFull json_line json_Unmarshal (ro_dts k) (ro_envs k) r (ro_t1 k) (ro_t2 k) (ro_now k)) r in
  (r, o, if is_ok res then 0 else 1).

(** A panic ends the process with status 2. *)
Definition run_agent (started : result Runner) (once : bool) (k : round) (ks : list round) : list output * Z :=
  match started with
  | Err _ => ([], 1)
  | Ok r =>
      if once then let '(_, o, status) := run_once k r in (o, status)
      else let '(_, o, res) := RunLoop json_line json_Unmarshal ks r in (o, if is_ok res then 0 else 2)
  end.

End host.

(** * Properties *)

Lemma dispatch_baseline rest : dispatch ("baseline" :: rest) ≠ None ↔ ∃ r, rest = "commit" :: r.
Proof.
  cbn [dispatch]. change ("baseline" =s? "run") with false. change ("baseline" =s? "check-config") with false.
  change ("baseline" =s? "baseline") with true. cbv iota. split.
  - intros Hd. destruct rest as [|w r]; [done|]. exists r. f_equal. by repeat case_match; simplify_eq.
  - intros [r ->]. done.
Qed.

(** The gaps are printed one to a line, in order. *)
Lemma coverage_gaps cfg pack :
  coverageCmd (Ok (cfg, pack)) None true =
  mkOutcome (foldr (λ id out, id +:+ str nl +:+ out) "" (cov_Uncovered (Analyze pack))) 0.
Proof. done. Qed.
